(* ===== verification/_CoqProject ===== *)
-Q . S2P
Prelude.v
Sieve.v
Pool.v
MsgQueue.v
Uidgen.v
Links.v
State.v
Topics.v
Backend.v
Outputs.v
Hybi.v
CometArgs.v
Request.v
Comet.v
Session.v
Frontend.v
Publish.v
Inbound.v
Commands.v
Polling.v
Control.v
Stats.v
Log.v
Sockets.v
Routing.v
Headers.v
Files.v
Disk.v
Threads.v
Http.v
Pending.v
Exchange.v
Lifetime.v
Gateway.v
Serving.v
Start.v
Handshake.v
Client.v
Openport.v
Shutdown.v
