(* ===== verification/Prelude.v ===== *)
(** * zerogw: a gateway between browsers and zeromq, verified

    zerogw (src/src/) accepts HTTP requests and websockets through the library
    libwebsite, leads each to a route of its configuration, and serves it there:
    it forwards requests to backends over zeromq sockets and waits for their
    replies, it serves files by threads of its own, it answers with configured
    pages, and it keeps long-lived connections (websockets, or polling requests
    of browsers without them) on which messages flow in both directions.  It is
    one thread that runs callbacks of the event loop, apart from the threads
    that read files.  This development translates these callbacks, function by
    function, and proves what they promise.

    ** The model

    A C function is a definition in the state monad [M] of this file: it gives a
    result and a new state, or it aborts ([ANIMPL], [SNIMPL]: the assertions of
    log.h that end the server), or it does something undefined ([Faulted]: a null
    or dangling pointer, an access out of bounds, a variable that was never set),
    or it runs out of fuel.  [wp m Q s] says that [m] returns in a state with
    [Q]: no theorem with [wp] is about a program that stops or loops.  [safe] only
    excludes what is undefined, and is used where the code means to end the server.

    A pointer is the address of an object in the finite map of its type, and
    [free] deletes the object, so that using it later is [Faulted].  Lists that
    link objects are lists of addresses, with the code's order.  Integers are [Z]
    with the wrap-around of their width ([i32], [u32], [u64]) wherever the code
    computes with them.  Everything that leaves the server (parts of zeromq
    messages, websocket messages, headers and bodies of replies) is an event of
    the [trace] of the state, and what zeromq and the library answer is a function
    of the trace, given by the class [Env]: every theorem holds for every
    behaviour that the named laws allow.

    ** The files

    The ground: Sieve.v (sieve.c), Pool.v (pool.c), MsgQueue.v (msgqueue.c) and
    Uidgen.v (uidgen.c) are the containers; Links.v has the invariant of objects
    that are on two lists.  State.v has the structures of main.h, websocket.h,
    polling.h and request.h in one record [root], and [Env].

    Connections (websocket.c): Topics.v has [find_topic] to [free_topic], Backend.v
    [backend_send] and [backend_unqueue], Outputs.v the commands [add_output] and
    [del_output] and [send_sync], Hybi.v [hybi_start], [hybi_stop] and what keeps a
    connection alive; Frontend.v has the messages of browsers and the
    parsing of commands, Publish.v [send_all] and [topic_publish], Inbound.v
    [websock_message], Commands.v [websock_process] as a whole; Handshake.v
    has [start_websocket].

    Polling (polling.c): CometArgs.v parses the arguments, Comet.v has the
    operations of a polling connection, Session.v what it promises to a browser,
    Polling.v the requests and the callbacks.  Request.v has the counted
    references to requests.

    HTTP (http.c, resolve.c, request.c): Routing.v builds the tables of the routes
    and walks them, Headers.v and Http.v have requests and replies; Pending.v
    has the invariant of the table of pending requests, Exchange.v what is sent,
    Lifetime.v the invariant of a request's life with the parties that hold it,
    and Gateway.v all actions in any order.

    Files (disk.c): Files.v chooses the file, Disk.v has the threads and the messages
    between them and the server, Threads.v starts and ends the threads, Serving.v
    has what is served, from the request to the reply.

    The rest: Sockets.v (zutils.c) opens and closes sockets, Control.v is the control
    socket (commands.c), Stats.v the statistics (main.c), Log.v the log (log.c),
    Start.v how the server starts and Shutdown.v how it stops (main.c, websocket.c).
    Two programs come with it: Client.v sends commands to the control socket
    (zerogwctl.c), and Openport.v runs a program with a listening socket
    (openport.c).

    ** What is proved

    The invariant of the connections is [full_ok] (Comet.v): the table holds
    exactly the open connections, the lists and their back pointers agree, every
    counter is the number of its references, blocks of the pools are owned once.
    [start_server_correct] establishes it, and [websock_process_safe],
    [comet_request_safe], [websock_message_correct], [hybi_start_correct],
    [hybi_stop_correct], [pause_websockets_correct] and the theorems on polling
    preserve it, for every message of any form, and say what is sent.

    Refinements: topics and subscriptions are a relation between connections and
    names ([pubsub_refines]); mappings are a function from connections and
    prefixes to sockets ([outputs_refine]); a polling connection is a queue with
    acknowledgement ([polling_refines]); a socket sends in the order in which
    messages were accepted, and each once ([backend_fifo]); the sieve is a finite
    map ([sieve_refines_slots]); a route is what the declarative relation
    [resolves] says ([resolve_url_correct]).

    The life of a forwarded request: [http_history_safe] covers every sequence of
    arrivals, bodies, backend messages, timeouts, returned parts, finished replies
    and browsers that go away; [forwarded_request_answered] bounds the expirations
    after which a request whose browser waits is answered.  For files, [disk_request_correct] is the way to the threads,
    [disk_loop_terminates] and [disk_answer_correct] what they do and which files
    can leave, and [file_request_served] the way back to the browser.

    Parts that meet: [release_websockets_correct] closes every socket of the
    routes once and gives the blocks of every queued message back to the pool;
    [control_client_correct] runs the client against the server's control socket.

    Formats are read back: [backend_send_real_roundtrip], [uid_text_roundtrip],
    [uid_lookup_correct], [header_block_roundtrip], [logudata_correct],
    [flush_statistics_correct]; parsers equal their specification:
    [parse_uri_query], [accept_gzip_correct].  What does not hold of the code is
    proved as well, as theorems about the case that goes wrong
    ([backend_send_force], [limited_reply_skips], [aborted_request_leaks],
    [idle_with_request_aborts], [timedwarn_overflow], [unterminated_command] and
    others).

    ** Fuel and bounds

    Loops over data recurse on the data.  Loops that a library can prolong
    (interrupted sends, interrupted opens) take [retries] or [open_retries] as
    fuel, and the laws say that an interruption ends within it.  The walks over
    the tree of routes take a bound on its depth, [route_depth] or [n], and the
    theorems ask that it exceeds a rank that falls along the edges.  The parsers
    take the length of their input, which is enough, as is proved.  The number
    of attempts and of parts of a request are bounded by the configuration
    ([serves N K]) so that its counter does not overflow.

    ** What is assumed

    zeromq ([zmq_laws]): when the first part of a message was taken the others are
    taken; a send ends in success, EAGAIN or EINTR; an interruption does not
    repeat for ever.  The parts of a reply on the control socket are taken (only
    where the claim is about the reply).  libwebsite: it finishes a request after
    its reply or when its connection is closed, drops it when a callback returns
    an error, takes replies for requests that the server still refers to, gives
    indices of headers that stay valid, and looks patterns up as [table_answer]
    says ([website_laws]).  A message to a websocket is taken or refused because
    the websocket is full ([ml_send] of [message_laws]), and there is memory for it
    ([ml_malloc], [ml_init], [ml_text]): elsewhere the server ends by an assertion,
    which the claims say where they are not about the case.  [malloc] may fail in
    every theorem that does not say otherwise.  Fewer than 2^31 messages wait for
    backends at a time ([backlog_limit] of [Env]: they would take 64 GiB), so that
    their counters, [int] and [unsigned], stay within their types.  /dev/urandom
    can be opened and read ([random_ok]) where an identifier that nobody may guess
    is made, which is for polling connections only; [random_refused] is the other
    case, in which the server ends.  The printed time has at most 15 characters
    ([clock_ok]).  MD5 gives 16 bytes ([digest_laws]).

    The disk threads: a file does not change while it is read ([files_ok]); the
    disk has no read error other than an interruption, and [close] succeeds
    ([disk_sound]); there is memory for an answer, and no signal arrives while it
    is sent ([thread_ok]); the byte behind the array in which the name of a file
    is built is unused ([unused_behind]).  [read_error_corrupts],
    [interrupted_answer_aborts] and the second half of [disk_answer_correct] show
    what the code does otherwise.

    The configuration satisfies what its schema (config.yaml) demands and the
    server checks nowhere (such as codes of three digits).  Each of these has an
    instance, with which the theorems are applied to concrete inputs.

    ** What is not modelled

    The parser of the configuration is generated by coyaml, which is not in the
    repository.  Of main.c the creation of the event loop, the registration of
    callbacks and the loop itself are libev and libwebsite; the model begins where
    they call back.  The disk threads run at the same time as the callbacks, but of
    the memory of the server they only read the path of the request whose part
    they hold, so that each is modelled for itself; zeromq gives parts back on a
    thread of its own, which the model takes for steps between the callbacks; the structure of a request is
    opaque bytes between them.  Times are opaque texts.  The replies on the control socket are in a trace of their own. *)

From Stdlib Require Export ZArith Lia Ascii.
From stdpp Require Export base tactics decidable option numbers strings gmap list.

(** ** Outcomes of C code

    A C function run on a state either returns a value in a new state, calls
    [abort()] (a failed [ANIMPL]/[SNIMPL]), or has undefined behaviour.
    [NoFuel] marks a retry loop whose iteration budget was exhausted. *)
Inductive fault :=
  | NullDeref      (* a NULL pointer is dereferenced *)
  | UseAfterFree   (* a freed (or never allocated) object is accessed *)
  | OutOfBounds    (* an access outside of an object *)
  | Uninitialized  (* an indeterminate value is used *)
  | DivisionByZero.

Inductive outcome (S A : Type) :=
  | Ok (a : A) (s : S)
  | Aborted
  | Faulted (f : fault)
  | NoFuel.
Arguments Ok {S A} _ _.
Arguments Aborted {S A}.
Arguments Faulted {S A} _.
Arguments NoFuel {S A}.

Definition M (S A : Type) : Type := S → outcome S A.

#[export] Instance M_ret S : MRet (M S) := λ A a s, Ok a s.
#[export] Instance M_bind S : MBind (M S) := λ A B k m s,
  match m s with
  | Ok a s' => k a s'
  | Aborted => Aborted
  | Faulted f => Faulted f
  | NoFuel => NoFuel
  end.

Section primitives.
Context {S : Type}.

Definition get : M S S := λ s, Ok s s.
Definition gets {A} (f : S → A) : M S A := λ s, Ok (f s) s.
Definition modify (f : S → S) : M S unit := λ s, Ok tt (f s).
Definition undefined {A} (f : fault) : M S A := λ _, Faulted f.
Definition abort_ {A} : M S A := λ _, Aborted.
Definition out_of_fuel {A} : M S A := λ _, NoFuel.

(** Dereference: the object behind a pointer, or undefined behaviour. *)
Definition deref {A} (f : fault) (o : option A) : M S A :=
  match o with Some a => mret a | None => undefined f end.

Definition whenb (c : bool) (m : M S unit) : M S unit :=
  if c then m else mret tt.

(** [for(...)] over the elements of a list that was read beforehand. *)
Fixpoint mfor {A} (l : list A) (f : A → M S unit) : M S unit :=
  match l with
  | [] => mret tt
  | a :: l => f a;; mfor l f
  end.
End primitives.

(** A computation whose first step is known. *)
Lemma run_bind {S A B} (m : M S A) (k : A → M S B) s a s' : m s = Ok a s' → (m ≫= k) s = k a s'.
Proof. intros E. unfold mbind, M_bind. by rewrite E. Qed.

(** Run a component's operation on the part of the state it owns. *)
Definition zoom {S T A} (g : S → T) (p : T → S → S) (m : M T A) : M S A := λ s,
  match m (g s) with
  | Ok a t => Ok a (p t s)
  | Aborted => Aborted
  | Faulted f => Faulted f
  | NoFuel => NoFuel
  end.

(** ** Weakest preconditions

    [wp m Q s]: from [s], [m] returns (no abort, no undefined behaviour, enough
    fuel) and [Q] holds of its value and final state.  [safe] additionally
    admits an abort or an exhausted budget, never undefined behaviour. *)
Definition wp {S A} (m : M S A) (Q : A → S → Prop) (s : S) : Prop :=
  match m s with Ok a s' => Q a s' | _ => False end.

Definition safe {S A} (m : M S A) (Q : A → S → Prop) (s : S) : Prop :=
  match m s with Ok a s' => Q a s' | Faulted _ => False | _ => True end.

Section wp_rules.
Context {S : Type}.
Implicit Types s : S.

Lemma wp_ret {A} (a : A) Q s : Q a s → wp (mret a) Q s.
Proof. done. Qed.

Lemma wp_bind {A B} (m : M S A) (k : A → M S B) Q s :
  wp m (λ a, wp (k a) Q) s → wp (m ≫= k) Q s.
Proof. unfold wp, mbind, M_bind. by destruct (m s). Qed.

Lemma wp_bind_inv {A B} (m : M S A) (k : A → M S B) Q s :
  wp (m ≫= k) Q s → wp m (λ a, wp (k a) Q) s.
Proof. unfold wp, mbind, M_bind. by destruct (m s). Qed.

Lemma wp_mono {A} (m : M S A) (Q Q' : A → S → Prop) s :
  wp m Q s → (∀ a s', Q a s' → Q' a s') → wp m Q' s.
Proof. unfold wp. destruct (m s); auto. Qed.

Lemma wp_conj {A} (m : M S A) (Q Q' : A → S → Prop) s :
  wp m Q s → wp m Q' s → wp m (λ a s', Q a s' ∧ Q' a s') s.
Proof. unfold wp. destruct (m s); auto. Qed.

Lemma wp_Ok {A} (m : M S A) (Q : A → S → Prop) s :
  wp m Q s ↔ ∃ a s', m s = Ok a s' ∧ Q a s'.
Proof.
  unfold wp. split.
  - destruct (m s); [eauto|done..].
  - by intros (a & s' & -> & ?).
Qed.

(** What is known of a run that returns. *)
Lemma wp_run {A} (m : M S A) (Q Q' : A → S → Prop) s :
  wp m Q s → (∀ a s', m s = Ok a s' → Q a s' → Q' a s') → wp m Q' s.
Proof. unfold wp. destruct (m s); auto. Qed.

Lemma wp_get Q s : Q s s → wp get Q s.
Proof. done. Qed.

Lemma wp_gets {A} (f : S → A) Q s : Q (f s) s → wp (gets f) Q s.
Proof. done. Qed.

Lemma wp_modify (f : S → S) Q s : Q tt (f s) → wp (modify f) Q s.
Proof. done. Qed.

Lemma wp_deref {A} f (o : option A) a Q s :
  o = Some a → Q a s → wp (deref f o) Q s.
Proof. by intros ->. Qed.

Lemma wp_whenb c (m : M S unit) Q s :
  (c = true → wp m Q s) → (c = false → Q tt s) → wp (whenb c m) Q s.
Proof. destruct c; naive_solver. Qed.

Lemma wp_zoom {T A} (g : S → T) (p : T → S → S) (m : M T A) Q s :
  wp m (λ a t, Q a (p t s)) (g s) → wp (zoom g p m) Q s.
Proof. unfold wp, zoom. by destruct (m (g s)). Qed.

(** Invariant rule for loops: [I l s] holds with [l] still to be visited. *)
Lemma wp_mfor {A} (I : list A → S → Prop) (f : A → M S unit) (Q : unit → S → Prop) l s :
  I l s →
  (∀ a l' s', I (a :: l') s' → wp (f a) (λ _ s'', I l' s'') s') →
  (∀ s', I [] s' → Q tt s') →
  wp (mfor l f) Q s.
Proof.
  intros HI Hstep HQ. revert s HI. induction l as [|a l IH]; intros s HI; simpl.
  { apply wp_ret. auto. }
  apply wp_bind. eapply wp_mono; [by apply Hstep|]. auto.
Qed.

Lemma safe_wp {A} (m : M S A) Q s : wp m Q s → safe m Q s.
Proof. unfold wp, safe. by destruct (m s). Qed.

Lemma safe_bind {A B} (m : M S A) (k : A → M S B) Q s :
  safe m (λ a, safe (k a) Q) s → safe (m ≫= k) Q s.
Proof. unfold safe, mbind, M_bind. by destruct (m s). Qed.

Lemma safe_mono {A} (m : M S A) (Q Q' : A → S → Prop) s :
  safe m Q s → (∀ a s', Q a s' → Q' a s') → safe m Q' s.
Proof. unfold safe. destruct (m s); auto. Qed.
End wp_rules.

Create HintDb wp discriminated.
#[export] Hint Resolve wp_ret wp_get wp_gets wp_modify : wp.

(** One step of symbolic execution on the goal [wp m Q s]. *)
Ltac wp_step :=
  lazymatch goal with
  | |- wp (mbind _ _) _ _ => apply wp_bind
  | |- wp (mret _) _ _ => apply wp_ret
  | |- wp get _ _ => apply wp_get
  | |- wp (gets _) _ _ => apply wp_gets
  | |- wp (modify _) _ _ => apply wp_modify
  | |- wp (deref _ (Some _)) _ _ => eapply wp_deref; [reflexivity|]
  | |- wp (deref _ _) _ _ => eapply wp_deref; [eassumption|]
  | |- wp (zoom _ _ _) _ _ => apply wp_zoom
  | |- wp (whenb _ _) _ _ => apply wp_whenb; intros
  end; cbn beta.
Ltac wp_steps := repeat wp_step.

(** ** Frames

    [keeps f m]: whenever [m] returns, the part [f] of the state is what it was.
    The rules follow the structure of [m]; [solve_keeps] applies them and leaves
    the updates of the state to computation. *)
Definition keeps {S A T} (f : S → T) (m : M S A) : Prop :=
  ∀ s a s', m s = Ok a s' → f s' = f s.

Section keeps_rules.
Context {S T : Type} (f : S → T).

Lemma keeps_ret {A} (a : A) : keeps f (mret a).
Proof. by intros s b s' [= <- <-]. Qed.

Lemma keeps_bind {A B} (m : M S A) (k : A → M S B) :
  keeps f m → (∀ a, keeps f (k a)) → keeps f (m ≫= k).
Proof.
  intros Hm Hk s b s'. unfold mbind, M_bind. destruct (m s) as [a s1| | |] eqn:E; [|done..].
  intros Hrun. rewrite (Hk _ _ _ _ Hrun). by eapply Hm.
Qed.

(** A continuation that starts with a read knows what it read. *)
Lemma keeps_get_bind {B} (k : S → M S B) :
  (∀ s a s', k s s = Ok a s' → f s' = f s) → keeps f (get ≫= k).
Proof. intros Hk s a s'. apply Hk. Qed.

Lemma keeps_get : keeps f get.
Proof. by intros s b s' [= <- <-]. Qed.

Lemma keeps_gets {A} (g : S → A) : keeps f (gets g).
Proof. by intros s b s' [= <- <-]. Qed.

Lemma keeps_modify g : (∀ s, f (g s) = f s) → keeps f (modify g).
Proof. by intros Hg s b s' [= <- <-]. Qed.

Lemma keeps_undefined {A} e : keeps f (A := A) (undefined e).
Proof. by intros s b s'. Qed.

Lemma keeps_abort {A} : keeps f (A := A) abort_.
Proof. by intros s b s'. Qed.

Lemma keeps_out_of_fuel {A} : keeps f (A := A) out_of_fuel.
Proof. by intros s b s'. Qed.

Lemma keeps_deref {A} e (o : option A) : keeps f (deref e o).
Proof. destruct o; [apply keeps_ret|apply keeps_undefined]. Qed.

Lemma keeps_whenb c (m : M S unit) : keeps f m → keeps f (whenb c m).
Proof. destruct c; [done|intros _; apply keeps_ret]. Qed.

Lemma keeps_mfor {A} (l : list A) (g : A → M S unit) :
  (∀ a, keeps f (g a)) → keeps f (mfor l g).
Proof.
  intros Hg. induction l as [|a l IH]; [apply keeps_ret|]. by apply keeps_bind.
Qed.

Lemma keeps_zoom {U A} (g : S → U) p (m : M U A) :
  (∀ t s, f (p t s) = f s) → keeps f (zoom g p m).
Proof.
  intros Hp s a s'. unfold zoom. destruct (m (g s)); [|done..]. intros [= <- <-]. apply Hp.
Qed.

Lemma wp_keeps {A} (m : M S A) (Q : A → S → Prop) s :
  keeps f m → wp m Q s → wp m (λ a s', Q a s' ∧ f s' = f s) s.
Proof. unfold wp. intros Hm. destruct (m s) eqn:E; [|done..]. eauto. Qed.
End keeps_rules.

Create HintDb keeps discriminated.
#[export] Hint Resolve keeps_ret keeps_get keeps_gets keeps_undefined keeps_abort
  keeps_out_of_fuel keeps_deref : keeps.

Ltac keeps_step :=
  lazymatch goal with
  | |- keeps _ (mbind _ _) => apply keeps_bind; [|intros ?]
  | |- keeps _ (whenb _ _) => apply keeps_whenb
  | |- keeps _ (mfor _ _) => apply keeps_mfor; intros ?
  | |- keeps _ (modify _) => apply keeps_modify; intros ?; try done
  | |- keeps _ (zoom _ _ _) => apply keeps_zoom; intros ? ?; try done
  | |- keeps _ (match ?x with _ => _ end) => destruct x
  | |- keeps _ _ => solve [eauto 2 with keeps]
  end; cbn beta.
Ltac solve_keeps := repeat keeps_step.

(** ** Steps

    [respects R m]: whenever [m] returns, the states before and after are related
    by the preorder [R]. *)
Definition respects {S A} (R : relation S) (m : M S A) : Prop :=
  ∀ s a s', m s = Ok a s' → R s s'.

Section respects_rules.
Context {S : Type} (R : relation S) `{!PreOrder R}.

Lemma respects_keeps {T A} (f : S → T) (m : M S A) :
  (∀ s s', f s' = f s → R s s') → keeps f m → respects R m.
Proof. intros Hf Hm s a s' Hrun. by eapply Hf, Hm. Qed.

Lemma respects_bind {A B} (m : M S A) (k : A → M S B) :
  respects R m → (∀ a, respects R (k a)) → respects R (m ≫= k).
Proof.
  intros Hm Hk s b s'. unfold mbind, M_bind. destruct (m s) as [a s1| | |] eqn:E; [|done..].
  intros Hrun. etrans; [by eapply Hm|by eapply Hk].
Qed.

Lemma respects_mfor {A} (l : list A) (g : A → M S unit) :
  (∀ a, respects R (g a)) → respects R (mfor l g).
Proof.
  intros Hg. induction l as [|a l IH]; [by intros s b s' [= _ <-]|]. by apply respects_bind.
Qed.

Lemma respects_modify g : (∀ s, R s (g s)) → respects R (modify g).
Proof. by intros Hg s b s' [= _ <-]. Qed.

Lemma wp_respects {A} (m : M S A) (Q : A → S → Prop) s :
  respects R m → wp m Q s → wp m (λ a s', Q a s' ∧ R s s') s.
Proof. unfold wp. intros Hm. destruct (m s) eqn:E; [|done..]. eauto. Qed.
End respects_rules.

(** ** Logging macros that may abort (log.h)

    [ANIMPL(cond)] logs at level [LOG_ALERT] = 1 and [logmsg] aborts for every
    level up to [ERRLEVEL] = 2, provided that the configured level lets the
    message through; otherwise the failed condition is ignored. *)
Class LogLevel := LOGLEVEL : Z.

Definition LOG_ALERT : Z := 1.

Definition ANIMPL {S} `{LogLevel} (cond : bool) : M S unit :=
  if ((LOG_ALERT <=? LOGLEVEL)%Z && negb cond)%bool then abort_ else mret tt.

Definition SNIMPL {S} `{LogLevel} (res : bool) : M S unit :=
  if (res && (LOG_ALERT <=? LOGLEVEL)%Z)%bool then abort_ else mret tt.

(** The branches that are marked as not implemented. *)
Definition LNIMPL {S} `{LogLevel} : M S unit := ANIMPL false.

Lemma safe_ret {S A} (a : A) (Q : A → S → Prop) s : Q a s → safe (mret a) Q s.
Proof. done. Qed.

Lemma safe_ANIMPL {S} `{LogLevel} c (Q : unit → S → Prop) s : Q tt s → safe (ANIMPL c) Q s.
Proof. intros HQ. unfold ANIMPL. by case_match. Qed.

Lemma safe_SNIMPL {S} `{LogLevel} c (Q : unit → S → Prop) s : Q tt s → safe (SNIMPL c) Q s.
Proof. intros HQ. unfold SNIMPL. by case_match. Qed.

Lemma wp_ANIMPL {S} `{LogLevel} c (Q : unit → S → Prop) s :
  c = true → Q tt s → wp (ANIMPL c) Q s.
Proof. intros ->. unfold ANIMPL. by rewrite andb_false_r. Qed.

Lemma wp_SNIMPL {S} `{LogLevel} r (Q : unit → S → Prop) s :
  r = false → Q tt s → wp (SNIMPL r) Q s.
Proof. by intros ->. Qed.

(** ** Record updates

    [r <| f := v |>] and [r <| f ::= g |>], for records that declare how they
    are rebuilt from their projections. *)
Class Rebuild (R : Type) := rebuild : R → R.
Class Field {R T : Type} (proj : R → T) := over_field : (T → T) → R → R.
Arguments over_field {R T} proj {_} _ _ /.

Ltac solve_field :=
  lazymatch goal with
  | |- @Field ?R ?T ?proj =>
      let inst := constr:(_ : Rebuild R) in
      let e := eval hnf in (@rebuild R inst) in
      lazymatch eval pattern proj in e with
      | ?body _ =>
          let t := constr:(λ (g : T → T) (r : R), body (λ r', g (proj r')) r) in
          let t := eval cbv beta in t in exact t
      end
  end.
#[export] Hint Extern 1 (Field _) => solve_field : typeclass_instances.

Declare Scope record_scope.
Delimit Scope record_scope with rec.
#[global] Open Scope record_scope.
Notation "r <| f ::= g |>" := (over_field f g r)
  (at level 1, f at next level, left associativity) : record_scope.
Notation "r <| f := v |>" := (over_field f (λ _, v) r)
  (at level 1, f at next level, left associativity) : record_scope.

(** ** Machine integers *)
Definition u64 (z : Z) : Z := (z mod 2 ^ 64)%Z.
Definition u32 (z : Z) : Z := (z mod 2 ^ 32)%Z.
(** Two's complement reading of the low 32 bits ([int]). *)
Definition i32 (z : Z) : Z := ((z + 2 ^ 31) mod 2 ^ 32 - 2 ^ 31)%Z.

Lemma u64_small z : (0 ≤ z < 2 ^ 64)%Z → u64 z = z.
Proof. apply Z.mod_small. Qed.

Lemma u64_range z : (0 ≤ u64 z < 2 ^ 64)%Z.
Proof. apply Z.mod_pos_bound. lia. Qed.

Lemma u32_small z : (0 ≤ z < 2 ^ 32)%Z → u32 z = z.
Proof. apply Z.mod_small. Qed.

Lemma i32_small z : (- 2 ^ 31 ≤ z < 2 ^ 31)%Z → i32 z = z.
Proof. intros. unfold i32. rewrite Z.mod_small; lia. Qed.

Lemma i32_lt z : (i32 z < 2 ^ 31)%Z.
Proof. unfold i32. pose proof (Z.mod_pos_bound (z + 2 ^ 31) (2 ^ 32)). lia. Qed.

Lemma lxor_range n x y :
  (0 < n)%Z → (0 ≤ x < 2 ^ n)%Z → (0 ≤ y < 2 ^ n)%Z → (0 ≤ Z.lxor x y < 2 ^ n)%Z.
Proof.
  intros Hn Hx Hy. assert (0 ≤ Z.lxor x y)%Z by (apply Z.lxor_nonneg; lia). split; [done|].
  destruct (Z.eq_dec (Z.lxor x y) 0%Z) as [->|Hne]; [lia|].
  apply Z.log2_lt_pow2; [lia|]. eapply Z.le_lt_trans; [apply Z.log2_lxor; lia|].
  assert (Hlog : ∀ z, (0 ≤ z < 2 ^ n)%Z → (Z.log2 z < n)%Z).
  { intros z Hz. destruct (Z.eq_dec z 0%Z) as [->|]; [done|]. apply Z.log2_lt_pow2; lia. }
  apply Z.max_lub_lt; by apply Hlog.
Qed.

(** ** Bytes and messages *)
Abbreviation bytes := (list ascii).

(** A C string literal, without its terminating NUL. *)
Definition str (s : string) : bytes := String.list_ascii_of_string s.

(** [unsigned char] and [signed char] readings of a byte. *)
Definition uchar (c : ascii) : Z := Z.of_N (N_of_ascii c).
Definition schar (c : ascii) : Z :=
  if (uchar c <? 128)%Z then uchar c else (uchar c - 256)%Z.
(** The byte stored when an integer is assigned to a [char]. *)
Definition char_of (z : Z) : ascii := ascii_of_N (Z.to_N (z mod 256)).

Definition NUL : ascii := Ascii.zero.

(** The text has no NUL, so that the C functions on strings see all of it. *)
Definition nul_free (b : bytes) : Prop := NUL ∉ b.

Lemma uchar_range c : (0 ≤ uchar c < 256)%Z.
Proof. unfold uchar. pose proof (N_ascii_bounded c). lia. Qed.

Lemma schar_range c : (-128 ≤ schar c < 128)%Z.
Proof. unfold schar. pose proof (uchar_range c). case_match; lia. Qed.

Lemma char_of_uchar c : char_of (uchar c) = c.
Proof.
  unfold char_of. rewrite Z.mod_small by apply uchar_range.
  unfold uchar. rewrite N2Z.id. apply ascii_N_embedding.
Qed.

Lemma uchar_char_of z : uchar (char_of z) = (z mod 256)%Z.
Proof.
  unfold char_of, uchar. pose proof (Z.mod_pos_bound z 256).
  rewrite N_ascii_embedding; lia.
Qed.

Lemma uchar_inj c d : uchar c = uchar d → c = d.
Proof. intros H. rewrite <- (char_of_uchar c), H. apply char_of_uchar. Qed.

(** Little-endian representation of an integer object of [n] bytes. *)
Fixpoint le_bytes (n : nat) (z : Z) : bytes :=
  match n with
  | O => []
  | S n => char_of z :: le_bytes n (z / 256)
  end.

Fixpoint le_value (b : bytes) : Z :=
  match b with
  | [] => 0
  | c :: b => (uchar c + 256 * le_value b)%Z
  end.

Lemma length_le_bytes n z : length (le_bytes n z) = n.
Proof. revert z. induction n; intros; simpl; auto. Qed.

Lemma le_value_bytes n z : le_value (le_bytes n z) = (z mod 256 ^ Z.of_nat n)%Z.
Proof.
  revert z. induction n as [|n IH]; intros z; simpl le_bytes; simpl le_value.
  { by rewrite Z.mod_1_r. }
  rewrite IH, uchar_char_of, Nat2Z.inj_succ, Z.pow_succ_r by lia.
  rewrite Z.rem_mul_r by lia. lia.
Qed.

Lemma le_bytes_value b : le_bytes (length b) (le_value b) = b.
Proof.
  induction b as [|c b IH]; [done|]. cbn [length le_bytes le_value].
  pose proof (uchar_range c) as Hc.
  replace (char_of (uchar c + 256 * le_value b)) with c.
  2:{ rewrite <- (char_of_uchar c) at 1. unfold char_of. do 2 f_equal.
      rewrite (Z.mul_comm 256), Z.mod_add by lia. done. }
  f_equal. rewrite (Z.mul_comm 256), Z.div_add, Z.div_small by lia.
  by rewrite Z.add_0_l.
Qed.

Lemma le_value_bound b : (0 ≤ le_value b < 256 ^ Z.of_nat (length b))%Z.
Proof.
  induction b as [|c b IH]; [simpl; lia|]. cbn [length le_value].
  rewrite Nat2Z.inj_succ, Z.pow_succ_r by lia. pose proof (uchar_range c). lia.
Qed.

(** ** Lists *)

(** [LIST_REMOVE]/[TAILQ_REMOVE] of a node from the list it is linked on. *)
Definition unlink `{EqDecision A} (a : A) (l : list A) : list A :=
  filter (λ b, b ≠ a) l.

(** [LIST_NEXT]: the node after [a]. *)
Fixpoint next_of `{EqDecision A} (a : A) (l : list A) : option A :=
  match l with
  | [] => None
  | b :: l => if decide (b = a) then head l else next_of a l
  end.

(** [LIST_INSERT_AFTER(a, x, ...)]. *)
Fixpoint insert_after `{EqDecision A} (a x : A) (l : list A) : list A :=
  match l with
  | [] => []
  | b :: l => if decide (b = a) then b :: x :: l else b :: insert_after a x l
  end.

Section unlink.
Context `{EqDecision A}.
Implicit Types (a b : A) (l : list A).

Lemma elem_of_unlink a b l : b ∈ unlink a l ↔ b ∈ l ∧ b ≠ a.
Proof. unfold unlink. rewrite list_elem_of_filter. tauto. Qed.

Lemma unlink_not_in a l : a ∉ l → unlink a l = l.
Proof.
  intros H. unfold unlink. induction l as [|b l IH]; [done|].
  rewrite filter_cons. rewrite decide_True by set_solver.
  f_equal. apply IH. set_solver.
Qed.

Lemma NoDup_unlink a l : NoDup l → NoDup (unlink a l).
Proof. apply NoDup_filter. Qed.

Lemma unlink_cons_eq a l : a ∉ l → unlink a (a :: l) = l.
Proof.
  intros H. unfold unlink. rewrite filter_cons, decide_False by naive_solver.
  by apply unlink_not_in.
Qed.

Lemma unlink_cons_ne a b l : b ≠ a → unlink a (b :: l) = b :: unlink a l.
Proof. intros H. unfold unlink. by rewrite filter_cons, decide_True. Qed.

Lemma unlink_app a l1 l2 : unlink a (l1 ++ l2) = unlink a l1 ++ unlink a l2.
Proof. apply filter_app. Qed.

Lemma length_unlink a l :
  NoDup l → a ∈ l → S (length (unlink a l)) = length l.
Proof.
  induction 1 as [|b l Hb Hl IH]; [set_solver|]. intros Ha.
  destruct (decide (b = a)) as [->|Hne]; [by rewrite unlink_cons_eq|].
  rewrite unlink_cons_ne by done. simpl. rewrite IH; set_solver.
Qed.

Lemma unlink_mid a l1 l2 :
  NoDup (l1 ++ a :: l2) → unlink a (l1 ++ a :: l2) = l1 ++ l2.
Proof.
  intros (? & Hx & [??]%NoDup_cons)%NoDup_app.
  rewrite unlink_app, unlink_cons_eq by done.
  rewrite unlink_not_in; [done|]. intros Ha. by apply (Hx a); [|left].
Qed.

Lemma unlink_perm a l : NoDup l → a ∈ l → l ≡ₚ a :: unlink a l.
Proof.
  intros Hnd (l1 & l2 & ->)%list_elem_of_split. rewrite unlink_mid by done.
  symmetry. apply Permutation_middle.
Qed.

Lemma elem_of_insert_after a x b l :
  b ∈ insert_after a x l → b = x ∨ b ∈ l.
Proof. induction l as [|c l IH]; simpl; [auto|]. case_decide; set_solver. Qed.

Lemma insert_after_app a x l1 l2 :
  a ∉ l1 → insert_after a x (l1 ++ a :: l2) = l1 ++ a :: x :: l2.
Proof.
  induction l1 as [|b l1 IH]; intros Ha; simpl; [by rewrite decide_True|].
  rewrite decide_False by set_solver. f_equal. apply IH. set_solver.
Qed.

Lemma insert_after_perm a x l : a ∈ l → insert_after a x l ≡ₚ x :: l.
Proof.
  induction l as [|b l IH]; [set_solver|]. intros Ha. simpl. case_decide; [constructor|].
  rewrite IH by set_solver. constructor.
Qed.
End unlink.

Lemma next_of_mid `{EqDecision A} (a : A) l1 l2 :
  NoDup (l1 ++ a :: l2) → next_of a (l1 ++ a :: l2) = head l2.
Proof.
  induction l1 as [|b l1 IH]; simpl; [by rewrite decide_True|].
  intros [Hb Hnd]%NoDup_cons. rewrite decide_False; [by apply IH|].
  intros ->. apply Hb, elem_of_app. right. by left.
Qed.

(** An ordered part of a list is determined by its elements. *)
Lemma sublist_filter_eq {A} (P : A → Prop) `{∀ a, Decision (P a)} (k l : list A) :
  sublist k l → NoDup l → (∀ a, a ∈ k ↔ a ∈ l ∧ P a) → k = filter P l.
Proof.
  induction 1 as [|a k l Hs IH|a k l Hs IH]; intros Hnd Hk; [done|..]; apply NoDup_cons in Hnd as [Ha Hnd].
  - assert (Hak : a ∉ k) by (intros Hak; apply Ha; by eapply elem_of_submseteq, sublist_submseteq).
    rewrite filter_cons_True by (apply Hk; by left). f_equal. apply IH; [done|]. intros b.
    specialize (Hk b). rewrite !elem_of_cons in Hk. split.
    + intros Hb. destruct (proj1 Hk (or_intror Hb)) as [[->|?] ?]; done.
    + intros [Hb Hp]. destruct (proj2 Hk (conj (or_intror Hb) Hp)) as [->|?]; done.
  - assert (Hak : a ∉ k) by (intros Hak; apply Ha; by eapply elem_of_submseteq, sublist_submseteq).
    rewrite filter_cons_False by (intros Hp; apply Hak, Hk; split; [by left|done]). apply IH; [done|].
    intros b. rewrite Hk, elem_of_cons. split; [|tauto]. intros [[->|?] Hp]; [|done].
    destruct Hak. apply Hk. split; [by left|done].
Qed.

Lemma elem_of_concat {A} (a : A) (ls : list (list A)) :
  a ∈ concat ls ↔ ∃ i l, ls !! i = Some l ∧ a ∈ l.
Proof.
  rewrite list_elem_of_In, in_concat. split.
  - intros (l & Hl & Ha). apply list_elem_of_In, list_elem_of_lookup in Hl as [i Hi].
    exists i, l. by rewrite list_elem_of_In.
  - intros (i & l & Hi & Ha). exists l. rewrite <- !list_elem_of_In.
    split; [by eapply list_elem_of_lookup_2|done].
Qed.

(** ** The C heap

    Blocks are numbered in the order in which [malloc] was called, so a block
    never gets the address of another one, live or freed; NULL is [None].
    Objects of different types are never compared, so that each type has a heap
    of its own.  Whether a request of a given size succeeds is up to the
    environment. *)
Abbreviation addr := nat (only parsing).

Record heap := mk_heap { brk : nat; live : gset nat }.
#[export] Instance rebuild_heap : Rebuild heap := λ h, mk_heap (brk h) (live h).

Definition empty_heap : heap := mk_heap 0 ∅.

Class Malloc := malloc_ok : heap → Z → bool.

Definition malloc `{Malloc} (size : Z) : M heap (option addr) := λ h,
  if malloc_ok h size
  then Ok (Some (brk h)) (h <| brk ::= S |> <| live ::= λ l, {[brk h]} ∪ l |>)
  else Ok None (h <| brk ::= S |>).

(** [free(a)] of a block that is not live is undefined. *)
Definition free (a : addr) : M heap unit := λ h,
  if decide (a ∈ live h) then Ok tt (h <| live ::= λ l, l ∖ {[a]} |>)
  else Faulted UseAfterFree.

Definition heap_wf (h : heap) : Prop := ∀ a, a ∈ live h → a < brk h.

Lemma wp_malloc `{Malloc} size (Q : option addr → heap → Prop) h :
  heap_wf h →
  (∀ h', heap_wf h' → brk h ∉ live h → brk h ≤ brk h' →
         live h' = {[brk h]} ∪ live h → Q (Some (brk h)) h') →
  (∀ h', heap_wf h' → brk h ≤ brk h' → live h' = live h → malloc_ok h size = false →
         Q None h') →
  wp (malloc size) Q h.
Proof.
  intros Hwf Hok Hfail. unfold wp, malloc. destruct (malloc_ok h size) eqn:E; simpl.
  - apply Hok; simpl; [|by intros ?%Hwf; lia|lia|done].
    intros a; simpl. rewrite elem_of_union, elem_of_singleton.
    intros [->|?%Hwf]; lia.
  - apply Hfail; simpl; [|lia|done..]. intros a ?%Hwf; simpl. lia.
Qed.

(** With memory to spare. *)
Lemma wp_malloc_ok `{Malloc} size (Q : option addr → heap → Prop) h :
  heap_wf h → malloc_ok h size = true →
  (∀ h', heap_wf h' → brk h ∉ live h → live h' = {[brk h]} ∪ live h → Q (Some (brk h)) h') →
  wp (malloc size) Q h.
Proof.
  intros Hwf Hm HQ. unfold wp, malloc. rewrite Hm. apply HQ; simpl; [|by intros ?%Hwf; lia|done].
  intros a; simpl. rewrite elem_of_union, elem_of_singleton. intros [->|?%Hwf]; lia.
Qed.

Lemma wp_free a (Q : unit → heap → Prop) h :
  heap_wf h → a ∈ live h →
  (∀ h', heap_wf h' → brk h' = brk h → live h' = live h ∖ {[a]} → Q tt h') →
  wp (free a) Q h.
Proof.
  intros Hwf Ha HQ. unfold wp, free. rewrite decide_True by done.
  apply HQ; simpl; [|done..]. intros b; simpl. set_solver.
Qed.
