(* ===== verification/Sieve.v ===== *)
(** * The sieve (sieve.h, sieve.c)

    A fixed table of [max] pointers.  [sieve_find_hole] stores an object in the
    first empty cell found from [offset] on, cyclically, and hands out the cell
    number together with a serial [index]; requests and websocket connections
    are found again by that pair (Uidgen.v). *)

From S2P Require Import Prelude.

(** ** Data *)

(** [struct sieve_s], src/src/sieve.h:9-15 [sieve_s] *)
Record sieve (A : Type) := mk_sieve {
  index : Z;                 (* uint64_t *)
  max : nat;
  offset : nat;
  filled : Z;                (* size_t *)
  items : list (option A);   (* void *items[]; NULL is None *)
}.
Arguments mk_sieve {A} _ _ _ _ _.
Arguments index {A} _.
Arguments max {A} _.
Arguments offset {A} _.
Arguments filled {A} _.
Arguments items {A} _.
#[export] Instance rebuild_sieve A : Rebuild (sieve A) := λ s,
  mk_sieve (index s) (max s) (offset s) (filled s) (items s).

(** ** Operations *)
Section operations.
Context {A : Type}.
Implicit Types (s : sieve A) (item : A).

(** The cell [sieve->items[i]]. *)
Definition read_item (i : nat) : M (sieve A) (option A) :=
  s ← get; deref OutOfBounds (items s !! i).

(** [for(void **i = cur; i != end; ++i) if(!*i) ...], [n] being [end - cur];
    src/src/sieve.c:11-12 [sieve_find_hole] *)
Fixpoint scan_hole (i n : nat) : M (sieve A) (option nat) :=
  match n with
  | O => mret None
  | S n =>
      c ← read_item i;
      match c with
      | None => mret (Some i)
      | Some _ => scan_hole (S i) n
      end
  end.

(** The body run on the hole that was found;
    src/src/sieve.c:13-18 [sieve_find_hole] *)
Definition take_hole item (i : nat) : M (sieve A) (Z * nat) :=
  s ← get;
  modify (λ s, s <| offset := S i |>
                 <| index ::= λ x, u64 (x + 1) |>
                 <| items ::= λ l, <[i := Some item]> l |>
                 <| filled ::= λ x, u64 (x + 1) |>);;
  mret (index s, i).

(** Returns [*index] and [*hole], or [None] for -1 with [errno = EAGAIN];
    src/src/sieve.c:8-33 [sieve_find_hole] *)
Definition sieve_find_hole item : M (sieve A) (option (Z * nat)) :=
  s ← get;
  r ← scan_hole (offset s) (max s - offset s);
  match r with
  | Some i => x ← take_hole item i; mret (Some x)
  | None =>
      r ← scan_hole 0 (offset s);
      match r with
      | Some i => x ← take_hole item i; mret (Some x)
      | None => mret None
      end
  end.

(** [sizeof(sieve_t)] and the size of a pointer on the 64-bit targets. *)
Definition sizeof_sieve : Z := 32.
Definition sizeof_ptr : Z := 8.

(** [ssize] is an [int]; the cells are what fits in the block after the header;
    src/src/sieve.c:36-42 [sieve_prepare] *)
Definition sieve_prepare `{LogLevel, Malloc} (size : Z) : M heap (sieve A) :=
  let ssize := i32 (sizeof_sieve + sizeof_ptr * size) in
  b ← malloc (u64 ssize);
  match b with
  | None => ANIMPL false;; undefined NullDeref
  | Some _ =>
      mret (mk_sieve 0 (Z.to_nat size) 0 0
              (replicate (Z.to_nat ((ssize - sizeof_sieve) / sizeof_ptr)) None))
  end.

(** src/src/sieve.c:48-50 [sieve_full] *)
Definition sieve_full s : bool := (Z.of_nat (max s) <=? filled s)%Z.

(** [holeid] is a [size_t], possibly taken from a message;
    src/src/sieve.c:52-57 [sieve_get] *)
Definition sieve_get (holeid : Z) : M (sieve A) (option A) :=
  s ← get;
  if (Z.of_nat (max s) <? holeid)%Z then mret None
  else read_item (Z.to_nat holeid).

(** src/src/sieve.c:59-63 [sieve_empty] *)
Definition sieve_empty `{LogLevel} (holeid : Z) : M (sieve A) unit :=
  c ← read_item (Z.to_nat holeid);
  ANIMPL (bool_decide (is_Some c));;
  modify (λ s, s <| items ::= λ l, <[Z.to_nat holeid := None]> l |>
                 <| filled ::= λ x, u64 (x - 1) |>).

(** ** Invariant and abstraction *)

Definition occupied (l : list (option A)) : nat :=
  length (filter is_Some l).

Record sieve_wf s : Prop := {
  wf_items : length (items s) = max s;
  wf_offset : offset s ≤ max s;
  wf_filled : filled s = Z.of_nat (occupied (items s));
  wf_max : (Z.of_nat (max s) < 2 ^ 64)%Z;
}.

(** The partial map from cells to objects that the table stands for. *)
Definition holes s : gmap nat A := omap id (map_seq 0 (items s)).

(** [i] is the first empty cell at or after [offset], cyclically. *)
Definition first_hole s (i : nat) : Prop :=
  i < max s ∧ holes s !! i = None ∧
  (offset s ≤ i → ∀ j, offset s ≤ j < i → is_Some (holes s !! j)) ∧
  (i < offset s → (∀ j, offset s ≤ j < max s → is_Some (holes s !! j)) ∧
                  (∀ j, j < i → is_Some (holes s !! j))).
End operations.

(** ** Abstract specification

    A slot allocator with [cap] slots: [find] puts the object in some free slot
    and numbers it, [empty] releases a slot. *)
Inductive slot_op (A : Type) :=
  | OpFind (item : A)
  | OpEmpty (hole : nat).
Arguments OpFind {A} _.
Arguments OpEmpty {A} _.

Inductive slots {A} (cap : nat) :
    gmap nat A → Z → list (slot_op A) → list (option (Z * nat)) → gmap nat A → Z → Prop :=
  | slots_nil m ix : slots cap m ix [] [] m ix
  | slots_find m ix item hole ops rs m' ix' :
      hole < cap → m !! hole = None →
      slots cap (<[hole := item]> m) (u64 (ix + 1)) ops rs m' ix' →
      slots cap m ix (OpFind item :: ops) (Some (ix, hole) :: rs) m' ix'
  | slots_full m ix item ops rs m' ix' :
      (∀ i, i < cap → is_Some (m !! i)) →
      slots cap m ix ops rs m' ix' →
      slots cap m ix (OpFind item :: ops) (None :: rs) m' ix'
  | slots_empty m ix hole ops rs m' ix' :
      slots cap (delete hole m) ix ops rs m' ix' →
      slots cap m ix (OpEmpty hole :: ops) rs m' ix'.

(** The same history run on the implementation; [empty] is only called on
    holes that the caller got from [find] and has not emptied yet. *)
Fixpoint sieve_history `{LogLevel} {A} (ops : list (slot_op A)) :
    M (sieve A) (list (option (Z * nat))) :=
  match ops with
  | [] => mret []
  | OpFind item :: ops =>
      r ← sieve_find_hole item; rs ← sieve_history ops; mret (r :: rs)
  | OpEmpty hole :: ops => sieve_empty (Z.of_nat hole);; sieve_history ops
  end.

(** Every [empty] of the history targets an occupied cell. *)
Fixpoint legal_history `{LogLevel} {A} (ops : list (slot_op A)) (s : sieve A) : Prop :=
  match ops with
  | [] => True
  | OpFind item :: ops => safe (sieve_find_hole item) (λ _, legal_history ops) s
  | OpEmpty hole :: ops =>
      is_Some (holes s !! hole) ∧
      safe (sieve_empty (Z.of_nat hole)) (λ _, legal_history ops) s
  end.

(** ** Lemmas *)
Section lemmas.
Context {A : Type}.
Implicit Types (s : sieve A) (item : A).

Lemma lookup_holes s i : holes s !! i = items s !! i ≫= id.
Proof. unfold holes. by rewrite lookup_omap, lookup_map_seq_0. Qed.

Definition cell (c : option A) : nat := match c with Some _ => 1 | None => 0 end.

Lemma occupied_app (l1 l2 : list (option A)) :
  occupied (l1 ++ l2) = occupied l1 + occupied l2.
Proof. unfold occupied. by rewrite filter_app, length_app. Qed.

Lemma occupied_cons (c : option A) (l : list (option A)) :
  occupied (c :: l) = cell c + occupied l.
Proof.
  unfold occupied. rewrite filter_cons.
  destruct c; [by rewrite decide_True by eauto|].
  by rewrite decide_False by by intros [? [=]].
Qed.

Lemma occupied_le (l : list (option A)) : occupied l ≤ length l.
Proof. apply length_filter. Qed.

Lemma occupied_insert (l : list (option A)) i (c c' : option A) :
  l !! i = Some c →
  occupied (<[i := c']> l) + cell c
  = occupied l + cell c'.
Proof.
  intros Hi. rewrite <- (take_drop_middle l i c Hi) at 2.
  rewrite insert_take_drop by by eapply lookup_lt_Some.
  rewrite !occupied_app, !occupied_cons. lia.
Qed.

Lemma occupied_full (l : list (option A)) :
  (∀ i, i < length l → l !! i ≫= id ≠ None) → occupied l = length l.
Proof.
  induction l as [|c l IH]; intros H; [done|]. rewrite occupied_cons.
  rewrite IH by (intros i Hi; apply (H (S i)); simpl; lia).
  destruct c; [done|]. destruct (H 0); simpl; [lia|done].
Qed.

Lemma occupied_not_full (l : list (option A)) i :
  l !! i = Some None → occupied l < length l.
Proof.
  intros Hi. rewrite <- (take_drop_middle l i None Hi).
  rewrite occupied_app, length_app, occupied_cons; simpl.
  pose proof (occupied_le (take i l)).
  pose proof (occupied_le (drop (S i) l)). lia.
Qed.

Lemma wp_scan_hole n i s (Q : option nat → sieve A → Prop) :
  i + n ≤ length (items s) →
  (∀ j, i ≤ j < i + n → items s !! j = Some None →
        (∀ k, i ≤ k < j → is_Some (holes s !! k)) → Q (Some j) s) →
  ((∀ k, i ≤ k < i + n → is_Some (holes s !! k)) → Q None s) →
  wp (scan_hole i n) Q s.
Proof.
  revert i. induction n as [|n IH]; intros i Hlen Hsome Hnone; simpl.
  { wp_steps. apply Hnone. lia. }
  destruct (lookup_lt_is_Some_2 (items s) i) as [c Hc]; [lia|].
  unfold read_item. wp_steps. destruct c as [a|].
  - assert (Hi : is_Some (holes s !! i)) by (rewrite lookup_holes, Hc; eauto).
    apply IH; [lia| |].
    + intros j Hj Hjn Hk. apply Hsome; [lia|done|].
      intros k ?. destruct (decide (k = i)) as [->|]; [done|]. apply Hk. lia.
    + intros Hk. apply Hnone. intros k ?.
      destruct (decide (k = i)) as [->|]; [done|]. apply Hk. lia.
  - wp_steps. apply Hsome; [lia|done|]. lia.
Qed.

Lemma holes_insert s i item :
  i < length (items s) →
  holes (s <| items ::= λ l, <[i := Some item]> l |>) = <[i := item]> (holes s).
Proof.
  intros Hi. apply map_eq. intros j. rewrite lookup_holes. simpl.
  destruct (decide (i = j)) as [<-|Hne].
  - by rewrite list_lookup_insert_eq, lookup_insert_eq.
  - by rewrite list_lookup_insert_ne, lookup_insert_ne, lookup_holes.
Qed.

Lemma holes_delete s i :
  i < length (items s) →
  holes (s <| items ::= λ l, <[i := None]> l |>) = delete i (holes s).
Proof.
  intros Hi. apply map_eq. intros j. rewrite lookup_holes. simpl.
  destruct (decide (i = j)) as [<-|Hne].
  - by rewrite list_lookup_insert_eq, lookup_delete_eq.
  - by rewrite list_lookup_insert_ne, lookup_delete_ne, lookup_holes.
Qed.
End lemmas.

Section specifications.
Context {A : Type}.
Implicit Types (s : sieve A) (item : A).

(** What [sieve_find_hole] promises of the hole it returns. *)
Definition found s item (r : option (Z * nat)) s' : Prop :=
  match r with
  | Some (ix, hole) =>
      ix = index s ∧ index s' = u64 (index s + 1) ∧
      first_hole s hole ∧ holes s' = <[hole := item]> (holes s) ∧
      offset s' = S hole ∧ max s' = max s
  | None => s' = s ∧ sieve_full s = true
  end.

Lemma wp_take_hole s item i :
  sieve_wf s → items s !! i = Some None → first_hole s i →
  wp (take_hole item i) (λ r s', sieve_wf s' ∧ found s item (Some r) s') s.
Proof.
  intros [Hlen Hoff Hfill Hmax] Hi Hfirst. unfold take_hole. wp_steps.
  pose proof (occupied_insert _ _ _ (Some item) Hi) as Hocc.
  pose proof (occupied_not_full _ _ Hi) as Hlt.
  pose proof (lookup_lt_Some _ _ _ Hi).
  assert (u64 (filled s + 1) = (filled s + 1)%Z) as Hu by (apply u64_small; lia).
  simpl in *. split; [split; simpl in *|].
  - by rewrite length_insert.
  - lia.
  - rewrite Hu. lia.
  - done.
  - split_and!; [done..| |done|done]. by apply (holes_insert s).
Qed.

Lemma wp_sieve_find_hole s item :
  sieve_wf s →
  wp (sieve_find_hole item) (λ r s', sieve_wf s' ∧ found s item r s') s.
Proof.
  intros Hwf. pose proof Hwf as [Hlen Hoff Hfill Hmax].
  unfold sieve_find_hole. wp_steps. apply wp_scan_hole; [lia| |].
  { intros i Hi Hnone Hk. wp_steps. apply wp_take_hole; [done..|].
    split; [lia|]. rewrite lookup_holes, Hnone. split_and!; [done| |lia].
    intros _ j ?. apply Hk. lia. }
  intros Hhi. wp_steps. apply wp_scan_hole; [lia| |].
  { intros i Hi Hnone Hk. wp_steps. apply wp_take_hole; [done..|].
    split; [lia|]. rewrite lookup_holes, Hnone. split_and!; [done|lia|].
    intros _. split; intros j ?; [apply Hhi|apply Hk]; lia. }
  intros Hlo. wp_steps. split; [done|]. split; [done|].
  unfold sieve_full. apply Z.leb_le. rewrite Hfill, occupied_full; [lia|].
  intros i Hi. rewrite <- lookup_holes. apply not_eq_None_Some.
  destruct (decide (i < offset s)); [apply Hlo|apply Hhi]; lia.
Qed.

Lemma holes_lt s i item : sieve_wf s → holes s !! i = Some item → i < max s.
Proof.
  intros [<- _ _ _]. rewrite lookup_holes. intros (c & Hc & _)%bind_Some.
  by eapply lookup_lt_Some.
Qed.

Lemma wp_sieve_get s holeid :
  sieve_wf s → (0 ≤ holeid)%Z → holeid ≠ Z.of_nat (max s) →
  wp (sieve_get holeid) (λ r s', s' = s ∧ r = holes s !! Z.to_nat holeid) s.
Proof.
  intros [Hlen _ _ _] ? Hne. unfold sieve_get. wp_steps. rewrite lookup_holes.
  destruct (Z.ltb_spec (Z.of_nat (max s)) holeid).
  - wp_steps. rewrite lookup_ge_None_2 by lia. done.
  - unfold read_item.
    destruct (lookup_lt_is_Some_2 (items s) (Z.to_nat holeid)) as [c Hc]; [lia|].
    wp_steps. by rewrite Hc.
Qed.

Lemma wp_sieve_empty `{LogLevel} s i item :
  sieve_wf s → holes s !! i = Some item →
  wp (sieve_empty (Z.of_nat i))
     (λ _ s', sieve_wf s' ∧ holes s' = delete i (holes s) ∧
              index s' = index s ∧ max s' = max s ∧ offset s' = offset s) s.
Proof.
  intros Hwf Hi. pose proof (holes_lt _ _ _ Hwf Hi).
  destruct Hwf as [Hlen Hoff Hfill Hmax]. rewrite lookup_holes in Hi.
  apply bind_Some in Hi as (c & Hc & Heq); simpl in Heq; subst c.
  unfold sieve_empty, read_item. rewrite !Nat2Z.id. wp_steps.
  apply wp_ANIMPL; [by apply bool_decide_eq_true; eauto|]. wp_steps.
  pose proof (occupied_insert _ _ _ None Hc) as Hocc.
  pose proof (occupied_le (items s)).
  simpl in *. split; [split; simpl in *|].
  - by rewrite length_insert.
  - done.
  - rewrite u64_small; lia.
  - done.
  - split_and!; [|done..]. apply (holes_delete s). lia.
Qed.
End specifications.

(** ** Properties *)

Lemma sieve_full_holes {A} (s : sieve A) :
  sieve_wf s → sieve_full s = true → ∀ i, i < max s → is_Some (holes s !! i).
Proof.
  intros [Hlen _ Hfill _] Hfull i Hi. unfold sieve_full in Hfull.
  apply Z.leb_le in Hfull. rewrite lookup_holes.
  destruct (lookup_lt_is_Some_2 (items s) i) as [[a|] Hc]; [lia|rewrite Hc; eauto|].
  apply occupied_not_full in Hc. lia.
Qed.

(** From any well-formed table, [sieve_find_hole] terminates without
    undefined behaviour; it fails exactly when the table is full and otherwise
    stores the object in the first free cell after the previous one,
    cyclically, touching no other cell, and returns the current serial. *)
Theorem sieve_find_hole_correct {A} (s : sieve A) (item : A) (Hwf : sieve_wf s) :
  ∃ r s', sieve_find_hole item s = Ok r s' ∧ sieve_wf s' ∧ max s' = max s ∧
    match r with
    | None => s' = s ∧ (∀ i, i < max s → is_Some (holes s !! i))
    | Some (ix, hole) =>
        first_hole s hole ∧ ix = index s ∧ index s' = u64 (ix + 1) ∧
        holes s' = <[hole := item]> (holes s) ∧ offset s' = S hole
    end.
Proof.
  pose proof (wp_sieve_find_hole s item Hwf) as H.
  apply wp_Ok in H as (r & s' & Hr & Hwf' & Hf). exists r, s'.
  split; [done|]. split; [done|]. destruct r as [[ix hole]|]; simpl in Hf.
  - destruct Hf as (-> & ? & ? & ? & ? & ?). split_and!; done.
  - destruct Hf as [-> Hfull]. split_and!; [done..|].
    by apply sieve_full_holes.
Qed.

Definition example_sieve : sieve nat :=
  mk_sieve 7 3 2 2 [Some 10; None; Some 12].

Lemma example_sieve_wf : sieve_wf example_sieve.
Proof. split; [reflexivity|simpl; lia|reflexivity|simpl; lia]. Qed.

Lemma sieve_find_hole_correct_witness :
  ∃ r s', sieve_find_hole 11 example_sieve = Ok r s' ∧ r = Some (7%Z, 1).
Proof.
  destruct (sieve_find_hole_correct example_sieve 11 example_sieve_wf)
    as (r & s' & Hrun & _).
  exists r, s'. split; [exact Hrun|]. vm_compute in Hrun. injection Hrun as <- <-. reflexivity.
Defined.

Section history.
Context `{LogLevel} {A : Type}.

Lemma wp_sieve_history ops (s : sieve A) :
  sieve_wf s → legal_history ops s →
  wp (sieve_history ops)
    (λ rs s', sieve_wf s' ∧ max s' = max s ∧
              slots (max s) (holes s) (index s) ops rs (holes s') (index s')) s.
Proof.
  revert s. induction ops as [|[item|hole] ops IH]; intros s Hwf Hlegal; simpl.
  - split_and!; [done..|constructor].
  - wp_steps. pose proof (wp_sieve_find_hole s item Hwf) as Hw. revert Hw Hlegal.
    simpl. unfold wp at 1 2, safe. destruct (sieve_find_hole item s) as [r s1| | |]; try done.
    intros [Hwf1 Hf] Hl. wp_steps. eapply wp_mono; [by apply IH|].
    intros rs s2 (Hwf2 & Hmax2 & Hslots). wp_steps. split; [done|].
    destruct r as [[ix hole]|]; simpl in Hf.
    + destruct Hf as (-> & Hix & (Hlt & Hnone & _) & Hholes & _ & Hmax).
      rewrite Hmax, Hix, Hholes in *. split; [done|]. by constructor.
    + destruct Hf as [-> Hfull]. split; [done|]. constructor; [|done].
      by apply sieve_full_holes.
  - wp_steps. destruct Hlegal as [[item Hitem] Hl].
    pose proof (wp_sieve_empty s hole item Hwf Hitem) as Hw. revert Hw Hl.
    unfold wp at 1 2, safe. destruct (sieve_empty _ s) as [[] s1| | |]; try done.
    intros (Hwf1 & Hholes & Hix & Hmax & _) Hl.
    eapply wp_mono; [by apply IH|]. intros rs s2 (Hwf2 & Hmax2 & Hslots).
    rewrite Hmax, Hix, Hholes in *. split_and!; [done..|]. by constructor.
Qed.

(** A freshly prepared table is empty, provided its size fits the [int]
    computation of the block size and the allocation succeeds. *)
Lemma sieve_prepare_wf `{Malloc} (size : Z) (h : heap) :
  (0 ≤ size)%Z → (32 + 8 * size < 2 ^ 31)%Z → malloc_ok h (32 + 8 * size) = true →
  ∃ (s : sieve A) h', sieve_prepare size h = Ok s h' ∧ sieve_wf s ∧
    max s = Z.to_nat size ∧ holes s = ∅ ∧ index s = 0%Z.
Proof.
  intros Hlo Hhi Hok. unfold sieve_prepare, sizeof_sieve, sizeof_ptr.
  rewrite i32_small by lia. unfold malloc, mbind, M_bind.
  rewrite u64_small, Hok by lia. unfold mret, M_ret. do 2 eexists. split; [done|].
  replace ((32 + 8 * size - 32) / 8)%Z with size.
  2:{ replace (32 + 8 * size - 32)%Z with (size * 8)%Z by lia. by rewrite Z.div_mul. }
  assert (Hnone : ∀ i, replicate (Z.to_nat size) (@None A) !! i ≫= id = None).
  { intros i. destruct (replicate _ _ !! i) eqn:E; [|done].
    by apply lookup_replicate in E as [-> _]. }
  split_and!; [split; simpl|done| |done].
  - by rewrite length_replicate.
  - lia.
  - clear. induction (Z.to_nat size) as [|n IH]; [done|]. simpl.
    by rewrite occupied_cons.
  - lia.
  - apply map_eq. intros i. by rewrite lookup_holes, lookup_empty.
Qed.
End history.

(** C29: from [sieve_prepare] on, every history of [sieve_find_hole] and legal
    [sieve_empty] calls runs without abort or undefined behaviour and is a
    history of the abstract slot allocator: no cell is handed out twice while
    it is occupied, a request fails only when all [size] cells are occupied,
    and serials count the successful requests. *)
Theorem sieve_refines_slots `{LogLevel, Malloc} {A} (size : Z) (h h' : heap)
    (ops : list (slot_op A)) (s : sieve A)
    (Hlo : (0 ≤ size)%Z) (Hhi : (32 + 8 * size < 2 ^ 31)%Z)
    (Hprep : sieve_prepare size h = Ok s h') (Hlegal : legal_history ops s) :
  ∃ rs s', sieve_history ops s = Ok rs s' ∧ sieve_wf s' ∧
    slots (Z.to_nat size) ∅ 0 ops rs (holes s') (index s').
Proof.
  assert (Hok : malloc_ok h (32 + 8 * size) = true).
  { revert Hprep. unfold sieve_prepare, sizeof_sieve, sizeof_ptr, malloc, mbind, M_bind.
    rewrite i32_small, u64_small by lia. destruct (malloc_ok _ _); [done|].
    unfold ANIMPL. by destruct (_ && _)%bool. }
  destruct (sieve_prepare_wf (A:=A) size h Hlo Hhi Hok) as (s0 & h0 & Hs0 & Hwf & Hmax & Hholes & Hix).
  rewrite Hs0 in Hprep. injection Hprep as <- <-.
  pose proof (wp_sieve_history ops s0 Hwf Hlegal) as (rs & s' & ? & ? & _ & Hslots)%wp_Ok.
  rewrite Hmax, Hholes, Hix in Hslots. eauto.
Qed.

Lemma sieve_refines_slots_witness :
  let LL : LogLevel := 6%Z in
  let MM : Malloc := λ _ _, true in
  let ops := [OpFind 5; OpFind 6; OpFind 7; OpEmpty 0; OpFind 8] in
  ∃ (s : sieve nat) h, sieve_prepare 2 empty_heap = Ok s h ∧
  ∃ rs s', sieve_history ops s = Ok rs s' ∧
    rs = [Some (0%Z, 0); Some (1%Z, 1); None; Some (2%Z, 0)].
Proof.
  intros LL MM ops. do 2 eexists. split; [reflexivity|].
  assert (Hlegal : legal_history ops (mk_sieve 0 2 0 0 [None; None])).
  { vm_compute. eauto. }
  destruct (sieve_refines_slots 2 empty_heap (mk_heap 1 ({[0]} ∪ ∅)) ops (mk_sieve 0 2 0 0 [None; None]))
    as (rs & s' & Hrun & _); [lia|lia|reflexivity|exact Hlegal|].
  exists rs, s'. split; [exact Hrun|]. vm_compute in Hrun. injection Hrun as <- <-. reflexivity.
Defined.

(** C31: the bounds test of [sieve_get] lets [holeid = max] through, which reads
    past the last cell; every other index is handled. *)
Theorem sieve_get_bounds {A} (s : sieve A) (holeid : Z) (Hwf : sieve_wf s)
    (Hpos : (0 ≤ holeid)%Z) :
  sieve_get holeid s =
    if decide (holeid = Z.of_nat (max s)) then Faulted OutOfBounds
    else Ok (holes s !! Z.to_nat holeid) s.
Proof.
  case_decide as Hdec.
  - subst holeid. unfold sieve_get, read_item, mbind, M_bind, get.
    rewrite Z.ltb_irrefl, Nat2Z.id, lookup_ge_None_2; [done|]. destruct Hwf; lia.
  - pose proof (wp_sieve_get s holeid Hwf Hpos Hdec) as (r & s' & -> & -> & ->)%wp_Ok.
    done.
Qed.

Lemma sieve_get_bounds_witness :
  sieve_get 3 example_sieve = Faulted OutOfBounds ∧
  sieve_get 2 example_sieve = Ok (Some 12) example_sieve ∧
  sieve_get 1000 example_sieve = Ok None example_sieve.
Proof.
  split_and!; (rewrite sieve_get_bounds; [reflexivity|exact example_sieve_wf|lia]).
Defined.

(** For the largest size that config.yaml admits (1Gi) the [int] that holds
    the block size wraps to 32: the block has no cell at all and the first
    [sieve_find_hole] reads outside of it. *)
Theorem sieve_prepare_overflow `{LogLevel, Malloc} {A} (h : heap) (item : A)
    (Hok : malloc_ok h 32 = true) :
  ∃ (s : sieve A) h', sieve_prepare (2 ^ 30) h = Ok s h' ∧
    Z.of_nat (max s) = (2 ^ 30)%Z ∧ items s = [] ∧
    sieve_find_hole item s = Faulted OutOfBounds.
Proof.
  unfold sieve_prepare, sizeof_sieve, sizeof_ptr, malloc, mbind, M_bind.
  change (i32 (32 + 8 * 2 ^ 30)) with 32%Z. change (u64 32) with 32%Z.
  rewrite Hok. do 2 eexists. split; [reflexivity|]. cbn [max items].
  split; [rewrite Z2Nat.id; lia|]. split; [reflexivity|].
  unfold sieve_find_hole, mbind, M_bind, get. cbn [max offset items].
  destruct (Z.to_nat (2 ^ 30)) as [|n] eqn:E; [lia|]. reflexivity.
Qed.

Lemma sieve_prepare_overflow_witness :
  let LL : LogLevel := 6%Z in
  let MM : Malloc := λ _ _, true in
  ∃ (s : sieve nat) h, sieve_prepare (2 ^ 30) empty_heap = Ok s h ∧
    sieve_find_hole 5 s = Faulted OutOfBounds.
Proof.
  intros LL MM. destruct (sieve_prepare_overflow empty_heap 5 eq_refl)
    as (s & h & ? & _ & _ & ?).
  by exists s, h.
Defined.
