(* ===== verification/Pool.v ===== *)
(** * Object pools (pool.h, pool.c)

    A pool keeps up to [max_free] released blocks on a free list and serves
    allocations from it before calling [malloc].  A pool is paired with the heap
    of the blocks it manages; [pool_ok] says which blocks the clients own. *)

From S2P Require Import Prelude.

(** ** Data *)

(** [struct pool_s], src/src/pool.h:10-15 [pool_s] *)
Record pool := mk_pool {
  object_size : Z;
  max_free : Z;
  current_free : Z;
  objects : list addr;      (* LIST_HEAD(pool_list_s, pooled_s) *)
}.
#[export] Instance rebuild_pool : Rebuild pool := λ p,
  mk_pool (object_size p) (max_free p) (current_free p) (objects p).

(** The pool and the heap of its blocks. *)
Record arena := mk_arena { a_heap : heap; a_pool : pool }.
#[export] Instance rebuild_arena : Rebuild arena := λ a, mk_arena (a_heap a) (a_pool a).

Definition on_heap {A} : M heap A → M arena A :=
  zoom a_heap (λ h a, a <| a_heap := h |>).

(** [sizeof(pooled_t)]: two pointers. *)
Definition sizeof_pooled : Z := 16.

(** ** Operations *)
Section operations.
Context `{LogLevel, Malloc}.

(** [object_size >= sizeof(pooled_t)] compares as [size_t];
    src/src/pool.c:7-14 [init_pool] *)
Definition init_pool (object_size max_free : Z) : M pool unit :=
  ANIMPL (sizeof_pooled <=? u64 object_size)%Z;;
  modify (λ _, mk_pool object_size max_free 0 []).

(** src/src/pool.c:16-22 [free_pool] *)
Definition free_pool : M arena unit :=
  a ← get;
  mfor (objects (a_pool a)) (λ cur, on_heap (free cur)).

(** src/src/pool.c:24-32 [pool_alloc] *)
Definition pool_alloc : M arena (option addr) :=
  a ← get;
  if (current_free (a_pool a) =? 0)%Z then
    on_heap (malloc (object_size (a_pool a)))
  else
    match objects (a_pool a) with
    | [] => undefined NullDeref
    | val :: rest =>
        modify (λ a, a <| a_pool ::= λ p,
                       p <| objects := rest |>
                         <| current_free ::= λ n, (n - 1)%Z |> |>);;
        mret (Some val)
    end.

(** src/src/pool.c:33-41 [pool_free] *)
Definition pool_free (obj : addr) : M arena unit :=
  a ← get;
  if (current_free (a_pool a) <? max_free (a_pool a))%Z then
    modify (λ a, a <| a_pool ::= λ p,
                   p <| objects ::= λ l, obj :: l |>
                     <| current_free ::= λ n, (n + 1)%Z |> |>)
  else on_heap (free obj).
End operations.

(** ** Invariant *)

(** The clients of the pool own exactly the blocks [own]: those are live,
    distinct from the blocks on the free list, and nothing else is live. *)
Record pool_ok (own : gset addr) (a : arena) : Prop := {
  po_heap : heap_wf (a_heap a);
  po_free : current_free (a_pool a) = Z.of_nat (length (objects (a_pool a)));
  po_bound : (current_free (a_pool a) ≤ Z.max 0 (max_free (a_pool a)))%Z;
  po_nodup : NoDup (objects (a_pool a));
  po_live : live (a_heap a) = own ∪ list_to_set (objects (a_pool a));
  po_disj : ∀ b, b ∈ own → b ∉ objects (a_pool a);
}.

(** A client's use of the pool: blocks are obtained, and released by who owns
    them. *)
Inductive pool_op := PAlloc | PFree (obj : addr).

Fixpoint pool_history `{Malloc} (ops : list pool_op) (own : gset addr) :
    M arena (gset addr) :=
  match ops with
  | [] => mret own
  | PAlloc :: ops =>
      r ← pool_alloc;
      match r with
      | Some b => if decide (b ∈ own) then abort_ else pool_history ops ({[b]} ∪ own)
      | None => pool_history ops own
      end
  | PFree b :: ops =>
      if decide (b ∈ own) then pool_free b;; pool_history ops (own ∖ {[b]})
      else pool_history ops own
  end.

(** ** Lemmas *)
Section lemmas.
Context `{LogLevel, Malloc}.

Lemma pool_own_live own a b : pool_ok own a → b ∈ own → b ∈ live (a_heap a).
Proof. intros [_ _ _ _ -> _]. set_solver. Qed.

(** Allocation returns NULL or a block nobody owns. *)
Lemma wp_pool_alloc own a (Q : option addr → arena → Prop) :
  pool_ok own a →
  (∀ b a', b ∉ own → pool_ok ({[b]} ∪ own) a' → max_free (a_pool a') = max_free (a_pool a) →
           Q (Some b) a') →
  (∀ a', pool_ok own a' → a_pool a' = a_pool a →
         malloc_ok (a_heap a) (object_size (a_pool a)) = false → Q None a') →
  wp pool_alloc Q a.
Proof.
  intros [Hh Hf Hb Hnd Hl Hd] HQ1 HQ2. unfold pool_alloc. wp_steps.
  destruct (Z.eqb_spec (current_free (a_pool a)) 0) as [E|E].
  - unfold on_heap. wp_steps. apply wp_malloc; [done| |].
    + intros h' Hh' Hbrk Hle Hl'. apply HQ1; simpl; [set_solver| |done].
      split; simpl; auto.
      * rewrite Hl', Hl. set_solver.
      * intros c [->%elem_of_singleton|?]%elem_of_union; [|auto].
        intros Hc. apply Hbrk. rewrite Hl. set_solver.
    + intros h' Hh' Hle Hl' Hm. apply HQ2; [|done..]. split; simpl; auto. congruence.
  - destruct (objects (a_pool a)) as [|v rest] eqn:Eo; simpl in *; [lia|].
    wp_steps. apply NoDup_cons in Hnd as [Hv Hnd].
    apply HQ1; simpl; [set_solver| |done]. split; simpl; auto.
    + lia.
    + lia.
    + rewrite Hl. set_solver.
    + intros c. set_solver.
Qed.

Lemma wp_pool_free own a b (Q : unit → arena → Prop) :
  pool_ok own a → b ∈ own →
  (∀ a', pool_ok (own ∖ {[b]}) a' → max_free (a_pool a') = max_free (a_pool a) → Q tt a') →
  wp (pool_free b) Q a.
Proof.
  intros [Hh Hf Hb Hnd Hl Hd] Hown HQ. unfold pool_free. wp_steps.
  destruct (Z.ltb_spec (current_free (a_pool a)) (max_free (a_pool a))).
  - wp_steps. apply HQ; [|done]. split; simpl; auto; try lia.
    + constructor; auto.
    + rewrite Hl. apply set_eq. intros x. destruct (decide (x = b)); set_solver.
    + set_solver.
  - unfold on_heap. wp_steps. apply wp_free; [done|rewrite Hl; set_solver|].
    intros h' Hh' _ Hl'. apply HQ; [|done]. split; simpl; auto.
    + rewrite Hl', Hl. specialize (Hd b Hown). set_solver.
    + set_solver.
Qed.

(** The blocks that the pool has from [malloc], those on its free list included. *)
Definition blocks (a : arena) : nat := base.size (live (a_heap a)).

Lemma pool_own_blocks own a : pool_ok own a → base.size own ≤ blocks a.
Proof. intros [_ _ _ _ Hl _]. unfold blocks. rewrite Hl. apply subseteq_size. set_solver. Qed.

Lemma pool_alloc_blocks a o a' : pool_alloc a = Ok o a' →
  blocks a ≤ blocks a' ∧
  (blocks a' = blocks a ∨ (∃ n, malloc_ok (a_heap a) n = true) ∧ blocks a' ≤ S (blocks a)) ∧
  (o = None → ∃ n, malloc_ok (a_heap a) n = false).
Proof.
  unfold pool_alloc, mbind, M_bind, get. destruct (current_free (a_pool a) =? 0)%Z.
  - unfold on_heap, zoom, malloc. destruct (malloc_ok (a_heap a) _) eqn:E; intros [= <- <-]; unfold blocks; simpl.
    + split_and!; [apply subseteq_size; set_solver| |done]. right. split; [by eexists|].
      rewrite size_union_alt, size_singleton. apply le_n_S, subseteq_size. set_solver.
    + split_and!; [done|by left|eauto].
  - destruct (objects (a_pool a)); [done|]. unfold modify. simpl. intros [= <- <-]. unfold blocks. simpl.
    split_and!; [done|by left|done].
Qed.

Lemma pool_free_blocks b a a' : pool_free b a = Ok tt a' → blocks a' ≤ blocks a.
Proof.
  unfold pool_free, mbind, M_bind, get. case_match; [by intros [= <-]|].
  unfold on_heap, zoom, free. case_decide; [|done]. intros [= <-]. unfold blocks. simpl.
  apply subseteq_size. set_solver.
Qed.

Lemma init_pool_ok size mx h :
  (16 ≤ size < 2 ^ 64)%Z → heap_wf h → live h = ∅ →
  ∀ p, wp (init_pool size mx) (λ _ p', pool_ok ∅ (mk_arena h p') ∧ max_free p' = mx) p.
Proof.
  intros Hs Hh Hl p. unfold init_pool. wp_steps.
  apply wp_ANIMPL; [rewrite u64_small; [apply Z.leb_le; unfold sizeof_pooled|]; lia|].
  wp_steps. split; [|done].
  split; simpl; [done|done|lia|constructor|rewrite Hl; set_solver|set_solver].
Qed.

Lemma wp_pool_history ops own a :
  pool_ok own a →
  wp (pool_history ops own)
     (λ own' a', pool_ok own' a' ∧ max_free (a_pool a') = max_free (a_pool a)) a.
Proof.
  revert own a. induction ops as [|[|b] ops IH]; intros own a Hok; simpl.
  - done.
  - wp_steps. eapply wp_pool_alloc; [done| |].
    + intros b a' Hb Hok' <-. rewrite decide_False by done. by apply IH.
    + intros a' Hok' <- _. by apply IH.
  - case_decide; [|by apply IH]. wp_steps. eapply wp_pool_free; [done..|].
    intros a' Hok' <-. by apply IH.
Qed.
End lemmas.

(** ** Properties *)

(** C30: whatever sequence of allocations and releases the clients of a pool
    perform, a block that is owned by a client is never handed out again, every
    release of an owned block is legal, and between calls the live blocks are
    exactly the owned ones and at most [max_free] pooled ones. *)
Theorem pool_exclusive `{LogLevel, Malloc} (size mx : Z) (ops : list pool_op) (p : pool)
    (Hsize : (16 ≤ size < 2 ^ 64)%Z)
    (Hinit : init_pool size mx (mk_pool 0 0 0 []) = Ok tt p) :
  ∃ own a, pool_history ops ∅ (mk_arena empty_heap p) = Ok own a ∧
    live (a_heap a) = own ∪ list_to_set (objects (a_pool a)) ∧
    NoDup (objects (a_pool a)) ∧
    (∀ b, b ∈ own → b ∉ objects (a_pool a)) ∧
    (Z.of_nat (length (objects (a_pool a))) ≤ Z.max 0 mx)%Z.
Proof.
  assert (Hwf : heap_wf empty_heap) by (intros b; simpl; set_solver).
  pose proof (init_pool_ok size mx empty_heap Hsize Hwf eq_refl (mk_pool 0 0 0 [])) as Hp.
  unfold wp in Hp. rewrite Hinit in Hp. destruct Hp as [Hok Hmx].
  pose proof (wp_pool_history ops ∅ _ Hok) as (own & a & ? & [_ Hf Hb ? ? ?] & Hm)%wp_Ok.
  exists own, a. simpl in Hm. split_and!; [done..|]. rewrite <- Hf, <- Hmx, <- Hm. lia.
Qed.

Lemma pool_exclusive_witness :
  let LL : LogLevel := 6%Z in
  let MM : Malloc := λ _ _, true in
  let ops := [PAlloc; PAlloc; PFree 0; PFree 1; PAlloc] in
  ∃ own a, pool_history ops ∅ (mk_arena empty_heap (mk_pool 40 1 0 [])) = Ok own a ∧
    own = {[0]} ∧ live (a_heap a) = {[0]}.
Proof.
  intros LL MM ops.
  destruct (pool_exclusive 40 1 ops (mk_pool 40 1 0 [])) as (own & a & Hrun & _);
    [lia|reflexivity|].
  exists own, a. split; [exact Hrun|]. vm_compute in Hrun.
  injection Hrun as <- <-. split; vm_compute; reflexivity.
Defined.

