(* ===== verification/MsgQueue.v ===== *)
(** * Message queues (msgqueue.h, msgqueue.c)

    A queue is a tail queue of blocks taken from a pool that it shares with
    other queues: all backend sockets queue from one pool, all polling
    connections from another.  What a block holds is the business of the users
    of the queue. *)

From S2P Require Import Prelude Pool.

(** ** Data *)

(** [size] and [capacity] are [int]s; src/src/msgqueue.h:11-16 [queue_s] *)
Record queue := mk_queue {
  size : Z;
  capacity : Z;
  q_items : list addr;     (* TAILQ_HEAD(queue_head_s, queue_item_s) *)
}.
#[export] Instance rebuild_queue : Rebuild queue := λ q,
  mk_queue (size q) (capacity q) (q_items q).

(** A queue with the pool that it points to. *)
Record pooled_queue := mk_pq { pq_arena : arena; pq_queue : queue }.
#[export] Instance rebuild_pq : Rebuild pooled_queue := λ p,
  mk_pq (pq_arena p) (pq_queue p).

Definition on_arena {A} : M arena A → M pooled_queue A :=
  zoom pq_arena (λ a p, p <| pq_arena := a |>).

(** ** Operations *)
Section operations.
Context `{Malloc}.

(** src/src/msgqueue.c:6-12 [init_queue] *)
Definition init_queue (capacity : Z) : queue := mk_queue 0 capacity [].

(** src/src/msgqueue.c:14-20 [free_queue] *)
Definition free_queue : M pooled_queue unit :=
  p ← get;
  mfor (q_items (pq_queue p)) (λ cur, on_arena (pool_free cur)).

(** src/src/msgqueue.c:27-33 [queue_force_push] *)
Definition queue_force_push : M pooled_queue (option addr) :=
  res ← on_arena pool_alloc;
  match res with
  | None => mret None
  | Some res =>
      modify (λ p, p <| pq_queue ::= λ q,
                     q <| q_items ::= λ l, l ++ [res] |>
                       <| size ::= λ n, i32 (n + 1) |> |>);;
      mret (Some res)
  end.

(** src/src/msgqueue.c:22-25 [queue_push] *)
Definition queue_push : M pooled_queue (option addr) :=
  p ← get;
  if (capacity (pq_queue p) <=? size (pq_queue p))%Z then mret None
  else queue_force_push.

(** src/src/msgqueue.c:35-39 [queue_remove] *)
Definition queue_remove (item : addr) : M pooled_queue unit :=
  modify (λ p, p <| pq_queue ::= λ q, q <| q_items ::= unlink item |> |>);;
  on_arena (pool_free item);;
  modify (λ p, p <| pq_queue ::= λ q, q <| size ::= λ n, i32 (n - 1) |> |>).
End operations.

(** ** Invariant *)
Record queue_ok (q : queue) : Prop := {
  qo_size : size q = Z.of_nat (length (q_items q));
  qo_nodup : NoDup (q_items q);
}.

(** Several queues on one pool, and a client that pushes and removes. *)
Inductive queue_op := QPush (i : nat) | QForcePush (i : nat) | QRemove (i : nat) (item : addr).

Definition on_queue {A} (i : nat) (m : M pooled_queue A) :
    M (arena * list queue) (option A) := λ '(a, qs),
  match qs !! i with
  | None => Ok None (a, qs)
  | Some q =>
      match m (mk_pq a q) with
      | Ok r p => Ok (Some r) (pq_arena p, <[i := pq_queue p]> qs)
      | Aborted => Aborted
      | Faulted f => Faulted f
      | NoFuel => NoFuel
      end
  end.

Definition items_at (i : nat) (qs : list queue) : list addr :=
  match qs !! i with Some q => q_items q | None => [] end.

Definition queue_step `{Malloc} (op : queue_op) : M (arena * list queue) unit :=
  match op with
  | QPush i => on_queue i queue_push;; mret tt
  | QForcePush i => on_queue i queue_force_push;; mret tt
  | QRemove i item =>
      st ← get;
      (* an item is only ever removed from the queue that holds it *)
      if decide (item ∈ items_at i st.2)
      then on_queue i (queue_remove item);; mret tt
      else mret tt
  end.

Definition queue_history `{Malloc} (ops : list queue_op) : M (arena * list queue) unit :=
  mfor ops queue_step.

(** All items on the queues of the pool. *)
Definition all_items (qs : list queue) : list addr := concat (q_items <$> qs).

(** No block is on two queues, nor twice on one, and the queues own exactly the
    blocks that the pool handed out. *)
Definition queues_ok (st : arena * list queue) : Prop :=
  pool_ok (list_to_set (all_items st.2)) st.1 ∧
  NoDup (all_items st.2) ∧
  ∀ i q, st.2 !! i = Some q → size q = Z.of_nat (length (q_items q)).

(** The client-visible effect of an operation on the contents of the queues. *)
Definition queue_effect (op : queue_op) (qs qs' : list queue) : Prop :=
  match op with
  | QPush i | QForcePush i =>
      qs' = qs ∨
      ∃ q b, qs !! i = Some q ∧ (b ∉ all_items qs) ∧
        qs' = <[i := mk_queue (size q + 1) (capacity q) (q_items q ++ [b])]> qs
  | QRemove i item =>
      qs' = qs ∨
      ∃ q l1 l2, qs !! i = Some q ∧ q_items q = l1 ++ item :: l2 ∧
        qs' = <[i := mk_queue (size q - 1) (capacity q) (l1 ++ l2)]> qs
  end.

(** ** Lemmas *)

(** Some request for memory fails. *)
Definition out_of_memory `{Malloc} : Prop := ∃ h size, malloc_ok h size = false.

Section lemmas.
Context `{Malloc}.

Lemma wp_queue_force_push own p (Q : option addr → pooled_queue → Prop) :
  pool_ok own (pq_arena p) →
  (∀ b a', b ∉ own → pool_ok ({[b]} ∪ own) a' →
     Q (Some b) (mk_pq a' (mk_queue (i32 (size (pq_queue p) + 1)) (capacity (pq_queue p))
                                    (q_items (pq_queue p) ++ [b])))) →
  (∀ a', pool_ok own a' → out_of_memory → Q None (mk_pq a' (pq_queue p))) →
  wp queue_force_push Q p.
Proof.
  intros Hp H1 H2. unfold queue_force_push, on_arena. wp_steps.
  eapply wp_pool_alloc; [done| |].
  - intros b a' Hb Hok _. wp_steps. by apply H1.
  - intros a' Hok _ Hm. wp_steps. apply H2; [done|]. red. eauto.
Qed.

(** [queue_push] refuses exactly when the queue is full or memory is out. *)
Lemma wp_queue_push own p (Q : option addr → pooled_queue → Prop) :
  pool_ok own (pq_arena p) →
  (∀ b a', (size (pq_queue p) < capacity (pq_queue p))%Z →
     b ∉ own → pool_ok ({[b]} ∪ own) a' →
     Q (Some b) (mk_pq a' (mk_queue (i32 (size (pq_queue p) + 1)) (capacity (pq_queue p))
                                    (q_items (pq_queue p) ++ [b])))) →
  (∀ a', pool_ok own a' → (capacity (pq_queue p) ≤ size (pq_queue p))%Z ∨ out_of_memory →
     Q None (mk_pq a' (pq_queue p))) →
  wp queue_push Q p.
Proof.
  intros Hp H1 H2. unfold queue_push. wp_steps.
  destruct (Z.leb_spec (capacity (pq_queue p)) (size (pq_queue p))).
  - wp_steps. destruct p as [a q]. apply (H2 a); [done|by left].
  - eapply wp_queue_force_push; [done| |intros; apply H2; auto]. intros. by apply H1.
Qed.

Lemma wp_queue_remove own item p (Q : unit → pooled_queue → Prop) :
  pool_ok own (pq_arena p) → item ∈ own →
  (∀ a', pool_ok (own ∖ {[item]}) a' →
     Q tt (mk_pq a' (mk_queue (i32 (size (pq_queue p) - 1)) (capacity (pq_queue p))
                              (unlink item (q_items (pq_queue p)))))) →
  wp (queue_remove item) Q p.
Proof.
  intros Hp Hown HQ. unfold queue_remove, on_arena. wp_steps.
  eapply wp_pool_free; [done..|]. intros a' Hok _. wp_steps. by apply HQ.
Qed.

(** How many blocks the pool of a queue has after a push. *)
Lemma queue_push_blocks (bounded : bool) p o p' :
  (if bounded then queue_push else queue_force_push) p = Ok o p' →
  blocks (pq_arena p) ≤ blocks (pq_arena p') ∧
  (blocks (pq_arena p') = blocks (pq_arena p) ∨
   (∃ n, malloc_ok (a_heap (pq_arena p)) n = true) ∧ blocks (pq_arena p') ≤ S (blocks (pq_arena p))) ∧
  (o = None → bounded = true ∧ (capacity (pq_queue p) ≤ size (pq_queue p))%Z ∨
     ∃ n, malloc_ok (a_heap (pq_arena p)) n = false).
Proof.
  assert (Hforce : queue_force_push p = Ok o p' → 
    blocks (pq_arena p) ≤ blocks (pq_arena p') ∧
    (blocks (pq_arena p') = blocks (pq_arena p) ∨
     (∃ n, malloc_ok (a_heap (pq_arena p)) n = true) ∧ blocks (pq_arena p') ≤ S (blocks (pq_arena p))) ∧
    (o = None → ∃ n, malloc_ok (a_heap (pq_arena p)) n = false)).
  { unfold queue_force_push, on_arena, zoom, mbind, M_bind.
    destruct (pool_alloc (pq_arena p)) as [[b|] a| | |] eqn:E; [| |done..]; intros [= <- <-];
      destruct (pool_alloc_blocks _ _ _ E) as (? & ? & ?); by split_and!. }
  destruct bounded; [|intros (? & ? & ?)%Hforce; split_and!; [done..|by right; auto]].
  unfold queue_push, mbind, M_bind, get. destruct (Z.leb_spec (capacity (pq_queue p)) (size (pq_queue p))).
  - intros [= <- <-]. split_and!; [done|by left|intros _; by left].
  - intros (? & ? & ?)%Hforce. split_and!; [done..|by right; auto].
Qed.

Lemma queue_remove_blocks item p p' :
  queue_remove item p = Ok tt p' → blocks (pq_arena p') ≤ blocks (pq_arena p).
Proof.
  unfold queue_remove, on_arena, zoom, mbind, M_bind, modify. simpl.
  destruct (pool_free item (pq_arena p)) as [[] a| | |] eqn:E; [|done..]. intros [= <-].
  by apply pool_free_blocks in E.
Qed.

Lemma all_items_insert qs i q q' :
  qs !! i = Some q →
  ∃ rest, all_items qs ≡ₚ q_items q ++ rest ∧
          all_items (<[i := q']> qs) ≡ₚ q_items q' ++ rest.
Proof.
  intros Hi. exists (all_items (take i qs) ++ all_items (drop (S i) qs)).
  assert (Hmid : ∀ x, all_items (take i qs ++ x :: drop (S i) qs)
            ≡ₚ q_items x ++ all_items (take i qs) ++ all_items (drop (S i) qs)).
  { intros x. unfold all_items. rewrite fmap_app, concat_app. simpl.
    by rewrite Permutation_app_swap_app. }
  split.
  - rewrite <- (take_drop_middle qs i q Hi) at 1. apply Hmid.
  - rewrite insert_take_drop by by eapply lookup_lt_Some. apply Hmid.
Qed.

Lemma wp_on_queue {A} i q (m : M pooled_queue A) a qs (Q : option A → arena * list queue → Prop) :
  qs !! i = Some q →
  wp m (λ r p, Q (Some r) (pq_arena p, <[i := pq_queue p]> qs)) (mk_pq a q) →
  wp (on_queue i m) Q (a, qs).
Proof. intros Hi. unfold wp, on_queue. rewrite Hi. by destruct (m _). Qed.

Lemma queues_ok_push a a' qs i q b :
  queues_ok (a, qs) → qs !! i = Some q → b ∉ all_items qs →
  pool_ok ({[b]} ∪ list_to_set (all_items qs)) a' →
  queues_ok (a', <[i := mk_queue (size q + 1) (capacity q) (q_items q ++ [b])]> qs).
Proof.
  intros (Hp & Hnd & Hsz) Hi Hb Hok. simpl in *.
  destruct (all_items_insert qs i q (mk_queue (size q + 1) (capacity q) (q_items q ++ [b])) Hi)
    as (rest & Hold & Hnew). simpl in Hnew.
  assert (Hperm : all_items (<[i:=mk_queue (size q + 1) (capacity q) (q_items q ++ [b])]> qs)
                  ≡ₚ b :: all_items qs).
  { rewrite Hnew, Hold, <- app_assoc. simpl. symmetry. apply Permutation_middle. }
  split_and!; simpl.
  - assert (list_to_set (all_items (<[i:=mk_queue (size q + 1) (capacity q) (q_items q ++ [b])]> qs))
            =@{gset nat} {[b]} ∪ list_to_set (all_items qs)) as ->; [|done].
    rewrite (list_to_set_perm_L _ _ Hperm). done.
  - rewrite Hperm. by constructor.
  - intros j q'. rewrite list_lookup_insert_Some.
    intros [(<- & <- & _)|[? ?]]; [|eauto]. simpl. rewrite length_app. simpl.
    specialize (Hsz _ _ Hi). lia.
Qed.

Lemma queues_ok_remove a a' qs i q l1 item l2 :
  queues_ok (a, qs) → qs !! i = Some q → q_items q = l1 ++ item :: l2 →
  pool_ok (list_to_set (all_items qs) ∖ {[item]}) a' →
  queues_ok (a', <[i := mk_queue (size q - 1) (capacity q) (l1 ++ l2)]> qs).
Proof.
  intros (Hp & Hnd & Hsz) Hi Hq Hok. simpl in *.
  destruct (all_items_insert qs i q (mk_queue (size q - 1) (capacity q) (l1 ++ l2)) Hi)
    as (rest & Hold & Hnew). simpl in Hnew. rewrite Hq in Hold.
  set (qs' := <[i := _]> qs) in *.
  assert (Hperm : all_items qs ≡ₚ item :: all_items qs').
  { rewrite Hold, Hnew, <- !app_assoc. simpl. symmetry. apply Permutation_middle. }
  rewrite Hperm in Hnd. apply NoDup_cons in Hnd as [Hni Hnd].
  split_and!; simpl; [|done|].
  - replace (list_to_set (all_items qs') : gset nat)
      with ((list_to_set (all_items qs) : gset nat) ∖ {[item]}); [done|].
    rewrite (list_to_set_perm_L _ _ Hperm). simpl. apply set_eq. intros x.
    rewrite elem_of_difference, elem_of_union, elem_of_singleton, !elem_of_list_to_set.
    split; [tauto|]. intros Hx. split; [by right|]. by intros ->.
  - intros j q'. unfold qs'. rewrite list_lookup_insert_Some.
    intros [(<- & <- & _)|[? ?]]; [|eauto]. simpl. specialize (Hsz _ _ Hi).
    rewrite Hq, !length_app in *. simpl in *. lia.
Qed.

(** All blocks of the pool can be counted by an [int]. *)
Definition room (k : nat) (st : arena * list queue) : Prop :=
  (Z.of_nat (length (all_items st.2) + k) < 2 ^ 31)%Z.

Lemma queue_length st i q :
  queues_ok st → st.2 !! i = Some q → length (q_items q) ≤ length (all_items st.2).
Proof.
  intros _ Hi. destruct (all_items_insert st.2 i q q Hi) as (rest & -> & _). rewrite length_app. lia.
Qed.

Lemma queue_effect_length op qs qs' :
  queue_effect op qs qs' → length (all_items qs') ≤ S (length (all_items qs)).
Proof.
  assert (Hin : ∀ i q q', qs !! i = Some q → length (q_items q') ≤ S (length (q_items q)) →
    length (all_items (<[i := q']> qs)) ≤ S (length (all_items qs))).
  { intros i q q' Hi Hle. destruct (all_items_insert qs i q q' Hi) as (rest & -> & ->).
    rewrite !length_app. lia. }
  destruct op as [i|i|i item]; simpl.
  1,2: intros [->|(q & b & Hi & _ & ->)]; [lia|]; eapply Hin; [done|]; simpl; rewrite length_app; simpl; lia.
  intros [->|(q & l1 & l2 & Hi & Hq & ->)]; [lia|]. eapply Hin; [done|]. simpl. rewrite Hq, !length_app. simpl. lia.
Qed.

Lemma queue_push_effect (m : M pooled_queue (option addr)) i op a qs :
  m = queue_push ∧ op = QPush i ∨ m = queue_force_push ∧ op = QForcePush i →
  queues_ok (a, qs) → room 1 (a, qs) →
  wp (on_queue i m;; mret tt) (λ _ st', queues_ok st' ∧ queue_effect op qs st'.2) (a, qs).
Proof.
  intros Hm Hok Hroom. wp_steps. destruct (qs !! i) as [q|] eqn:Hi.
  2:{ unfold wp, on_queue. rewrite Hi. split; [done|].
      destruct Hm as [[_ ->]|[_ ->]]; by left. }
  apply (wp_on_queue i q); [done|].
  assert (Hpush : ∀ b a', b ∉ (list_to_set (all_items qs) : gset nat) →
     pool_ok ({[b]} ∪ list_to_set (all_items qs)) a' →
     let qs' := <[i:=mk_queue (size q + 1) (capacity q) (q_items q ++ [b])]> qs in
     queues_ok (a', qs') ∧ queue_effect op qs qs').
  { intros b a' Hb Ha'. rewrite elem_of_list_to_set in Hb.
    split; [by eapply queues_ok_push|].
    destruct Hm as [[_ ->]|[_ ->]]; right; eauto. }
  assert (Hnone : ∀ a', pool_ok (list_to_set (all_items qs)) a' →
     queues_ok (a', <[i:=q]> qs) ∧ queue_effect op qs (<[i:=q]> qs)).
  { intros a' Ha'. rewrite list_insert_id by done. destruct Hok as (_ & ? & ?).
    split; [split_and!; done|]. destruct Hm as [[_ ->]|[_ ->]]; by left. }
  assert (Hsz : i32 (size q + 1) = (size q + 1)%Z).
  { pose proof (queue_length (a, qs) i q Hok Hi) as Hle. destruct Hok as (_ & _ & Hsz).
    specialize (Hsz i q Hi). unfold room in Hroom. simpl in *. apply i32_small. lia. }
  destruct Hok as [Hp _].
  destruct Hm as [[-> _]|[-> _]].
  - eapply wp_queue_push; [exact Hp|intros; cbn [pq_queue]; rewrite Hsz; by apply Hpush|intros; by apply Hnone].
  - eapply wp_queue_force_push; [exact Hp|intros; cbn [pq_queue]; rewrite Hsz; by apply Hpush|intros; by apply Hnone].
Qed.

Lemma wp_queue_step op st :
  queues_ok st → room 1 st →
  wp (queue_step op) (λ _ st', queues_ok st' ∧ queue_effect op st.2 st'.2) st.
Proof.
  destruct st as [a qs]. intros Hok Hroom.
  destruct op as [i|i|i item]; cbn [queue_step]; [eapply queue_push_effect; eauto..|].
  wp_steps. unfold items_at. cbn [snd]. case_decide as Hin; wp_steps; [|by split; [|left]].
  destruct (qs !! i) as [q|] eqn:Hi; simpl in Hin; [|set_solver].
  pose proof Hok as (Hp & Hnd & _). simpl in *.
  apply list_elem_of_split in Hin as (l1 & l2 & Hq).
  apply (wp_on_queue i q); [done|].
  destruct (all_items_insert qs i q q Hi) as (rest & Hold & _).
  eapply wp_queue_remove; [done| |].
  { simpl. rewrite elem_of_list_to_set, Hold, Hq. set_solver. }
  intros a' Ha'. wp_steps. simpl.
  assert (Hsz : i32 (size q - 1) = (size q - 1)%Z).
  { pose proof (queue_length (a, qs) i q Hok Hi) as Hle. destruct Hok as (_ & _ & Hsz).
    specialize (Hsz i q Hi). unfold room in Hroom. simpl in *. rewrite Hq in *. apply i32_small.
    rewrite length_app in *. simpl in *. lia. }
  rewrite Hsz, Hq, unlink_mid.
  2:{ rewrite Hold, Hq in Hnd. by apply NoDup_app in Hnd as [? _]. }
  split; [by eapply queues_ok_remove|]. right. eauto 10.
Qed.

Lemma wp_queue_history ops st :
  queues_ok st → room (length ops) st → wp (queue_history ops) (λ _ st', queues_ok st') st.
Proof.
  intros Hok Hroom. apply (wp_mfor (λ l st', queues_ok st' ∧ room (length l) st')); [done| |naive_solver].
  unfold room. intros op l st' [Hok' Hr]. simpl in Hr.
  eapply wp_mono; [apply wp_queue_step; [done|unfold room; lia]|].
  intros _ st2 [? He%queue_effect_length]. split; [done|lia].
Qed.
End lemmas.

(** ** Properties *)

(** On any number of queues sharing a pool, an operation runs without
    undefined behaviour; a push either leaves every queue alone or appends one
    block that is on no queue to the end of its own queue, and a removal takes
    out exactly the requested item, keeping the order of the others. *)
Theorem queue_step_correct `{Malloc} (op : queue_op) (st : arena * list queue)
    (Hok : queues_ok st) (Hroom : room 1 st) :
  ∃ st', queue_step op st = Ok tt st' ∧ queues_ok st' ∧ queue_effect op st.2 st'.2.
Proof.
  pose proof (wp_queue_step op st Hok Hroom) as ([] & st' & ? & ? & ?)%wp_Ok. eauto.
Qed.

Definition example_queues : arena * list queue :=
  (mk_arena (mk_heap 3 {[0; 1; 2]}) (mk_pool 40 2 1 [1]),
   [mk_queue 1 1 [0]; mk_queue 1 5 [2]]).

Lemma example_queues_ok : queues_ok example_queues.
Proof.
  split_and!; simpl.
  - split; simpl; [|done|lia| |vm_compute; reflexivity|set_solver].
    + intros b. simpl. set_unfold. lia.
    + repeat constructor; set_solver.
  - unfold all_items. simpl. repeat constructor; set_solver.
  - intros [|[|i]] q Hq; [by injection Hq as <-..|done].
Qed.

Lemma queue_step_correct_witness :
  let MM : Malloc := λ _ _, true in
  (∃ st', queue_step (QPush 0) example_queues = Ok tt st' ∧ st'.2 = example_queues.2) ∧
  (∃ st', queue_step (QForcePush 0) example_queues = Ok tt st' ∧
          st'.2 = [mk_queue 2 1 [0; 1]; mk_queue 1 5 [2]]).
Proof.
  intros MM. split.
  - destruct (queue_step_correct (QPush 0) _ example_queues_ok ltac:(done)) as (st' & Hrun & _).
    exists st'. split; [exact Hrun|]. vm_compute in Hrun. injection Hrun as <-. reflexivity.
  - destruct (queue_step_correct (QForcePush 0) _ example_queues_ok ltac:(done)) as (st' & Hrun & _).
    exists st'. split; [exact Hrun|]. vm_compute in Hrun. injection Hrun as <-. reflexivity.
Defined.

(** [queue_push] succeeds exactly when the queue holds fewer than [capacity]
    items and a block can be had, so that a queue that is only fed through it
    never exceeds its capacity; [queue_force_push] has no such bound. *)
Theorem queue_push_bounded `{Malloc} (own : gset nat) (p : pooled_queue)
    (Hok : pool_ok own (pq_arena p))
    (Hint : (0 ≤ size (pq_queue p) < 2 ^ 31)%Z) (Hcap : (capacity (pq_queue p) < 2 ^ 31)%Z) :
  (∃ p', queue_push p = Ok None p' ∧ pq_queue p' = pq_queue p ∧
     ((capacity (pq_queue p) ≤ size (pq_queue p))%Z ∨
      ∃ p'', queue_force_push p = Ok None p'')) ∨
  (∃ b p', queue_push p = Ok (Some b) p' ∧ queue_force_push p = Ok (Some b) p' ∧
     (b ∉ own) ∧ q_items (pq_queue p') = q_items (pq_queue p) ++ [b] ∧
     size (pq_queue p') = (size (pq_queue p) + 1)%Z ∧
     (size (pq_queue p') ≤ capacity (pq_queue p'))%Z).
Proof.
  assert (Hf : wp queue_force_push (λ r p', match r with
    | None => pq_queue p' = pq_queue p
    | Some b => (b ∉ own) ∧ q_items (pq_queue p') = q_items (pq_queue p) ++ [b] ∧
        size (pq_queue p') = i32 (size (pq_queue p) + 1) ∧
        capacity (pq_queue p') = capacity (pq_queue p) end) p).
  { eapply wp_queue_force_push; [done| |done]. naive_solver. }
  apply wp_Ok in Hf as (r & p' & Hrun & Hf). unfold queue_push, mbind, M_bind, get.
  destruct (Z.leb_spec (capacity (pq_queue p)) (size (pq_queue p))).
  { left. exists p. split_and!; [done..|by left]. }
  destruct r as [b|]; [right|left].
  - exists b, p'. destruct Hf as (? & ? & Hsz & ?). rewrite i32_small in Hsz by lia. split_and!; [done..|]. lia.
  - exists p'. split_and!; [done..|]. right. by exists p'.
Qed.

Lemma queue_push_bounded_witness :
  let MM : Malloc := λ _ _, true in
  let p := mk_pq (mk_arena empty_heap (mk_pool 40 2 0 [])) (mk_queue 0 1 []) in
  ∃ b p', queue_push p = Ok (Some b) p' ∧ q_items (pq_queue p') = [0].
Proof.
  intros MM p.
  assert (Hok : pool_ok ∅ (pq_arena p)).
  { split; simpl; [intros b; simpl; set_solver|done|lia|constructor|done|set_solver]. }
  destruct (queue_push_bounded ∅ p Hok ltac:(done) ltac:(done)) as [(p' & Hrun & _)|(b & p' & Hrun & _ & _ & Hit & _)].
  - exfalso. vm_compute in Hrun. discriminate Hrun.
  - exists b, p'. split; [exact Hrun|]. vm_compute in Hrun. injection Hrun as <- <-. reflexivity.
Defined.
