(* ===== verification/Uidgen.v ===== *)
(** * Object identifiers (uidgen.h, uidgen.c)

    A request or websocket connection is known to the outside by 40 bytes: the
    instance id, the number of its sieve cell, the serial number of the sieve,
    and 8 bytes that are random for polling connections and zero otherwise.
    Incoming messages are matched by looking up the cell and comparing all 40
    bytes. *)

From S2P Require Import Prelude Sieve.

(** ** Layout *)

(** src/src/uidgen.h:6-9 [UID_LEN] *)
Definition UID_NRANDOM : nat := 8.
Definition IID_LEN : nat := 16.
Definition UID_LEN : nat := IID_LEN + 8 * 2 + UID_NRANDOM.

(** [memcpy(dst + off, src, length(src))] *)
Definition blit (off : nat) (src dst : bytes) : bytes :=
  take off dst ++ src ++ drop (off + length src) dst.

(** [UID_HOLE(data)] reads an [unsigned long] at offset [IID_LEN] of a buffer;
    src/src/uidgen.h:9-9 [UID_HOLE] *)
Definition UID_HOLE {S} (data : bytes) : M S Z :=
  if decide (IID_LEN + 8 ≤ length data)
  then mret (le_value (take 8 (drop IID_LEN data)))
  else undefined OutOfBounds.

(** [UID_EQ(a, b)] compares [UID_LEN] bytes of both buffers;
    src/src/uidgen.h:10-10 [UID_EQ] *)
Definition UID_EQ {S} (a b : bytes) : M S bool :=
  if decide (UID_LEN ≤ length a ∧ UID_LEN ≤ length b)
  then mret (bool_decide (take UID_LEN a = take UID_LEN b))
  else undefined OutOfBounds.

(** ** Operations *)

(** Big-endian bytes of a 64-bit integer ([htobe64] stored in memory). *)
Definition be_bytes8 (z : Z) : bytes := reverse (le_bytes 8 z).

(** [ident] is the configured server identifier, the time is what
    [gettimeofday] returned; the result is [root.instance_id];
    src/src/uidgen.c:10-21 [init_uid] *)
Definition init_uid (ident tv_sec tv_usec : Z) : bytes :=
  be_bytes8 ident ++ le_bytes 4 tv_sec ++ le_bytes 4 tv_usec.

(** What the operating system answers while /dev/urandom is read: to each [open],
    to each [read], where [None] is an error, and to [close]. *)
Inductive open_res := Opened | OpenEintr | OpenFailed.
#[export] Instance open_res_eq_dec : EqDecision open_res.
Proof. solve_decision. Defined.

Record random_device := mk_random {
  rd_opens : list open_res;
  rd_reads : list (option bytes);
  rd_close_fails : bool;
}.

Section random.
Context {S : Type} `{LogLevel}.

(** src/src/uidgen.c:44-48 [make_hole_uid] *)
Fixpoint open_random (opens : list open_res) : M S unit :=
  match opens with
  | [] => out_of_fuel
  | Opened :: _ => mret tt
  | e :: opens => SNIMPL (bool_decide (e ≠ OpenEintr));; open_random opens
  end.

(** Each [read] of up to [n] bytes starts at the same place, until one gives all
    of them; src/src/uidgen.c:49-52 [make_hole_uid] *)
Fixpoint read_random (n off : nat) (reads : list (option bytes)) (data : bytes) : M S bytes :=
  match reads with
  | [] => out_of_fuel
  | None :: reads => read_random n off reads data
  | Some b :: reads =>
      let b := take n b in
      let data := blit off b data in
      if decide (n ≤ length b) then mret data else read_random n off reads data
  end.
End random.

(** Returns the caller's buffer [data] and whether a hole was found; the device is
    only used for secure identifiers;
    src/src/uidgen.c:36-58 [make_hole_uid] *)
Definition make_hole_uid {A} `{LogLevel} (instance_id : bytes) (dev : random_device) (object : A)
    (data : bytes) (secure : bool) : M (sieve A) (bytes * bool) :=
  let data := blit 0 instance_id data in
  r ← sieve_find_hole object;
  match r with
  | None => mret (data, false)
  | Some (ix, hole) =>
      let data := blit IID_LEN (le_bytes 8 (Z.of_nat hole)) data in
      let data := blit (IID_LEN + 8) (le_bytes 8 ix) data in
      if secure then
        open_random (rd_opens dev);;
        data ← read_random UID_NRANDOM (UID_LEN - UID_NRANDOM) (rd_reads dev) data;
        SNIMPL (rd_close_fails dev);;
        mret (data, true)
      else mret (blit (UID_LEN - UID_NRANDOM) (replicate UID_NRANDOM NUL) data, true)
  end.

(** /dev/urandom can be read: it is opened, apart from interruptions, at last a
    read gives all bytes, and it is closed. *)
Record random_ok (dev : random_device) : Prop := {
  rk_open : ∃ k rest, rd_opens dev = replicate k OpenEintr ++ Opened :: rest;
  rk_read : ∃ b, length b = UID_NRANDOM ∧ Some b ∈ rd_reads dev;
  rk_close : rd_close_fails dev = false;
}.

(** It cannot be opened. *)
Definition random_refused (dev : random_device) : Prop :=
  ∃ k rest, rd_opens dev = replicate k OpenEintr ++ OpenFailed :: rest.

(** A device that gives these bytes at once. *)
Definition random_of (b : bytes) : random_device := mk_random [Opened] [Some b] false.

Lemma random_of_ok b : length b = UID_NRANDOM → random_ok (random_of b).
Proof. intros Hb. split; simpl; [by exists 0, []|exists b; split; [done|by left]|done]. Qed.

(** ** Specification

    A registry of identified objects: the table and the identifier that each
    registered object carries. *)
Record registry := mk_registry { r_sieve : sieve addr; r_uid : gmap nat bytes }.
#[export] Instance rebuild_registry : Rebuild registry := λ r,
  mk_registry (r_sieve r) (r_uid r).

(** The identifier with given fields. *)
Definition uid_of (iid : bytes) (hole : nat) (ix : Z) (tail : bytes) : bytes :=
  iid ++ le_bytes 8 (Z.of_nat hole) ++ le_bytes 8 ix ++ tail.

Section registry.
Context `{LogLevel} (iid : bytes).

Definition on_sieve {A} : M (sieve addr) A → M registry A :=
  zoom r_sieve (λ s r, r <| r_sieve := s |>).

(** Creation of object [a], as done by [hybi_start] and [http_request]. *)
Definition register (urandom : random_device) (secure : bool) (a : addr) :
    M registry (option bytes) :=
  '(uid, ok) ← on_sieve (make_hole_uid iid urandom a (replicate UID_LEN NUL) secure);
  if ok : bool then
    modify (λ r, r <| r_uid ::= λ m, <[a := uid]> m |>);; mret (Some uid)
  else mret None.

(** Removal of the object, by the cell number in its own identifier, as done by
    [hybi_stop] and [request_finish]. *)
Definition unregister (a : addr) : M registry unit :=
  r ← get;
  uid ← deref UseAfterFree (r_uid r !! a);
  hole ← UID_HOLE uid;
  on_sieve (sieve_empty hole);;
  modify (λ r', r' <| r_uid ::= λ m, delete a m |>).

(** Lookup of an incoming identifier, as done by [hybi_find] and
    [http_process]. *)
Definition lookup_uid (data : bytes) : M registry (option addr) :=
  hole ← UID_HOLE data;
  o ← on_sieve (sieve_get hole);
  match o with
  | None => mret None
  | Some a =>
      r ← get;
      uid ← deref UseAfterFree (r_uid r !! a);
      eq ← UID_EQ uid data;
      mret (if eq : bool then Some a else None)
  end.

Inductive registry_op :=
  | Register (urandom : random_device) (secure : bool) (a : addr)
  | Unregister (a : addr).

(** A history of creations and removals; the result lists the identifiers that
    were issued.  An object is created once and removed at most once. *)
Fixpoint registry_history (ops : list registry_op) : M registry (list bytes) :=
  match ops with
  | [] => mret []
  | Register urandom secure a :: ops =>
      r ← get;
      match r_uid r !! a with
      | Some _ => registry_history ops
      | None =>
          u ← register urandom secure a;
          us ← registry_history ops;
          mret (match u with Some u => u :: us | None => us end)
      end
  | Unregister a :: ops =>
      r ← get;
      match r_uid r !! a with
      | Some _ => unregister a;; registry_history ops
      | None => registry_history ops
      end
  end.

Definition valid_op (op : registry_op) : Prop :=
  match op with
  | Register urandom secure _ => secure = true → random_ok urandom
  | Unregister _ => True
  end.

(** Registered objects sit in the cell that their identifier names and carry a
    serial number that was issued before. *)
Record registry_ok (r : registry) : Prop := {
  ro_wf : sieve_wf (r_sieve r);
  ro_index : (0 ≤ index (r_sieve r))%Z;
  ro_hole : ∀ i a, holes (r_sieve r) !! i = Some a → ∃ ix tail,
    r_uid r !! a = Some (uid_of iid i ix tail) ∧ length tail = UID_NRANDOM ∧
    (0 ≤ ix < index (r_sieve r))%Z;
  ro_uid : ∀ a u, r_uid r !! a = Some u → ∃ i, holes (r_sieve r) !! i = Some a;
}.
End registry.

(** ** Lemmas *)

Ltac uid_lia := unfold UID_LEN, UID_NRANDOM, IID_LEN in *; simpl in *; lia.

Lemma blit_app off src pre rest :
  length pre = off → length src ≤ length rest →
  blit off src (pre ++ rest) = pre ++ src ++ drop (length src) rest.
Proof.
  intros <- Hle. unfold blit. rewrite take_app_length. do 2 f_equal.
  rewrite drop_app_ge by lia. f_equal. lia.
Qed.

Lemma length_blit off src dst :
  off + length src ≤ length dst → length (blit off src dst) = length dst.
Proof. intros H. unfold blit. rewrite !length_app, length_take, length_drop. lia. Qed.

Section layout.
Variable iid : bytes.
Hypothesis Hiid : length iid = IID_LEN.

Lemma uid_blits data hole ix tail :
  length data = UID_LEN → length tail = UID_NRANDOM →
  blit (UID_LEN - UID_NRANDOM) tail
    (blit (IID_LEN + 8) (le_bytes 8 ix)
      (blit IID_LEN (le_bytes 8 (Z.of_nat hole)) (blit 0 iid data)))
  = uid_of iid hole ix tail.
Proof.
  intros Hd Ht. unfold uid_of.
  pose proof (length_le_bytes 8 (Z.of_nat hole)) as Hh.
  pose proof (length_le_bytes 8 ix) as Hx.
  set (h := le_bytes 8 (Z.of_nat hole)) in *. set (x := le_bytes 8 ix) in *.
  unfold UID_LEN, UID_NRANDOM, IID_LEN in *.
  change (blit 0 iid data) with (iid ++ drop (length iid) data).
  rewrite blit_app by (rewrite ?length_drop; lia). rewrite drop_drop, app_assoc.
  rewrite blit_app by (rewrite ?length_app, ?length_drop; lia).
  rewrite drop_drop, app_assoc.
  rewrite blit_app by (rewrite ?length_app, ?length_drop; lia).
  rewrite drop_drop, drop_ge, app_nil_r by lia. by rewrite <- !app_assoc.
Qed.

Lemma length_uid_of hole ix tail :
  length tail = UID_NRANDOM → length (uid_of iid hole ix tail) = UID_LEN.
Proof.
  intros Ht. unfold uid_of. rewrite !length_app, !length_le_bytes, Hiid, Ht. done.
Qed.

Lemma uid_hole_field hole ix tail :
  (Z.of_nat hole < 2 ^ 64)%Z →
  le_value (take 8 (drop IID_LEN (uid_of iid hole ix tail))) = Z.of_nat hole.
Proof.
  intros Hh. unfold uid_of. rewrite drop_app_length' by done.
  rewrite take_app_length' by by rewrite length_le_bytes.
  rewrite le_value_bytes, Z.mod_small; [done|]. change (256 ^ Z.of_nat 8)%Z with (2 ^ 64)%Z. lia.
Qed.

Lemma uid_of_inj hole ix tail hole' ix' tail' :
  (0 ≤ ix < 2 ^ 64)%Z → (0 ≤ ix' < 2 ^ 64)%Z →
  uid_of iid hole ix tail = uid_of iid hole' ix' tail' → ix = ix'.
Proof.
  intros Hix Hix' Heq. unfold uid_of in Heq. apply app_inj_1 in Heq as [_ Heq]; [|done].
  apply app_inj_1 in Heq as [_ Heq]; [|by rewrite !length_le_bytes].
  apply app_inj_1 in Heq as [Heq _]; [|by rewrite !length_le_bytes].
  apply (f_equal le_value) in Heq. rewrite !le_value_bytes in Heq.
  change (256 ^ Z.of_nat 8)%Z with (2 ^ 64)%Z in Heq. by rewrite !Z.mod_small in Heq.
Qed.

Lemma wp_UID_HOLE {S} hole ix tail (Q : Z → S → Prop) s :
  length tail = UID_NRANDOM → (Z.of_nat hole < 2 ^ 64)%Z →
  Q (Z.of_nat hole) s → wp (UID_HOLE (uid_of iid hole ix tail)) Q s.
Proof.
  intros Ht Hh HQ. unfold UID_HOLE.
  rewrite decide_True by (rewrite length_uid_of by done; uid_lia).
  by rewrite uid_hole_field.
Qed.

Lemma wp_open_random {S} `{LogLevel} opens (Q : unit → S → Prop) s :
  (∃ k rest, opens = replicate k OpenEintr ++ Opened :: rest) → Q tt s → wp (open_random opens) Q s.
Proof.
  intros (k & rest & ->) HQ. induction k as [|k IH]; [done|]. simpl. wp_steps.
  by apply wp_SNIMPL.
Qed.

Lemma wp_read_random {S} n off reads data (Q : bytes → S → Prop) s :
  (∃ b, length b = n ∧ Some b ∈ reads) →
  (∀ b pre data', length b = n → data' = foldl (λ d b, blit off b d) data (pre ++ [b]) →
     Forall (λ b, length b ≤ n) pre → Q data' s) →
  wp (read_random n off reads data) Q s.
Proof.
  intros (b & Hb & Hin) HQ. revert data HQ. induction reads as [|o reads IH]; intros data HQ; [by apply elem_of_nil in Hin|].
  simpl. destruct o as [c|].
  2:{ apply IH; [|done]. by apply elem_of_cons in Hin as [?|?]. }
  case_decide as Hc.
  { wp_steps. rewrite length_take in Hc. apply (HQ (take n c) []); [rewrite length_take; lia|done|constructor]. }
  apply IH.
  - apply elem_of_cons in Hin as [[= ->]|?]; [|done]. destruct Hc. rewrite length_take. lia.
  - intros b' pre d' Hb' -> Hpre. apply (HQ b' (take n c :: pre)); [done|done|].
    constructor; [rewrite length_take; lia|done].
Qed.

(** The tail of the buffer ends up as the last bytes read. *)
Lemma blit_tail pre mid bs b :
  length mid = UID_NRANDOM → length pre = UID_LEN - UID_NRANDOM → length b = UID_NRANDOM →
  Forall (λ c, length c ≤ UID_NRANDOM) bs →
  foldl (λ d c, blit (UID_LEN - UID_NRANDOM) c d) (pre ++ mid) (bs ++ [b]) = pre ++ b.
Proof.
  intros Hm Hp Hb Hbs. revert mid Hm. induction Hbs as [|c bs Hc Hbs IH]; intros mid Hm; cbn [foldl app].
  - rewrite blit_app by (done || lia). rewrite drop_ge by lia. by rewrite app_nil_r.
  - rewrite blit_app by (done || lia). apply IH. rewrite length_app, length_drop. lia.
Qed.

Lemma wp_make_hole_uid {A} `{LogLevel} dev (object : A) data secure s :
  length data = UID_LEN → (secure = true → random_ok dev) → sieve_wf s →
  wp (make_hole_uid iid dev object data secure)
     (λ '(data', ok) s', sieve_wf s' ∧
        if ok : bool then
          ∃ hole tail, data' = uid_of iid hole (index s) tail ∧
            length tail = UID_NRANDOM ∧ found s object (Some (index s, hole)) s'
        else found s object None s') s.
Proof.
  intros Hd Hu Hwf. unfold make_hole_uid. wp_steps.
  eapply wp_mono; [by apply wp_sieve_find_hole|]. intros [[ix hole]|] s' [Hwf' Hf]; [|by wp_steps].
  pose proof Hf as [-> _]. destruct secure; wp_steps.
  - destruct (Hu eq_refl) as [Ho Hr Hc]. apply wp_open_random; [done|]. wp_steps.
    apply wp_read_random; [done|]. intros b bs data' Hb -> Hbs. wp_steps. apply wp_SNIMPL; [done|]. wp_steps.
    split; [done|]. exists hole, b. split_and!; [|done|done].
    pose proof (uid_blits data hole (index s) (replicate UID_NRANDOM NUL) Hd ltac:(by rewrite length_replicate)) as Hz.
    set (d := blit (IID_LEN + 8) _ _) in *.
    assert (Hld : length d = UID_LEN) by (unfold d; repeat (rewrite length_blit; [|rewrite ?length_blit, ?length_le_bytes, ?Hiid, ?Hd by (rewrite ?length_blit, ?length_le_bytes, ?Hiid, ?Hd; uid_lia); uid_lia]); done).
    clearbody d. rewrite <- (take_drop (UID_LEN - UID_NRANDOM) d).
    rewrite blit_tail; [|by rewrite length_drop, Hld|by rewrite length_take, Hld|done|done].
    assert (Htk : take (UID_LEN - UID_NRANDOM) d = take (UID_LEN - UID_NRANDOM) (blit (UID_LEN - UID_NRANDOM) (replicate UID_NRANDOM NUL) d)).
    { unfold blit. rewrite take_app_length' by (by rewrite length_take, Hld). done. }
    rewrite Htk, Hz. unfold uid_of. rewrite !app_assoc. rewrite take_app_length'; [done|].
    rewrite !length_app, !length_le_bytes, Hiid. done.
  - split; [done|]. exists hole, (replicate UID_NRANDOM NUL).
    split_and!; [by apply uid_blits; [|rewrite length_replicate]|by rewrite length_replicate|done].
Qed.

Lemma open_random_refused {S} `{LogLevel} dev (s : S) :
  (LOG_ALERT ≤ LOGLEVEL)%Z → random_refused dev → open_random (rd_opens dev) s = Aborted.
Proof.
  intros Hlog (k & rest & ->). induction k as [|k IH]; [|done]. simpl.
  unfold mbind, M_bind, SNIMPL. by rewrite (proj2 (Z.leb_le _ _) Hlog).
Qed.

(** A server that may not open /dev/urandom (for want of descriptors, say) ends, if it logs. *)
Lemma make_hole_uid_refused {A} `{LogLevel} dev (object : A) data s :
  (LOG_ALERT ≤ LOGLEVEL)%Z → random_refused dev → sieve_wf s → sieve_full s = false →
  make_hole_uid iid dev object data true s = Aborted.
Proof.
  intros Hlog Hd Hwf Hfull. unfold make_hole_uid.
  pose proof (wp_sieve_find_hole s object Hwf) as (o & s' & Hrun & _ & Hf)%wp_Ok.
  unfold mbind, M_bind. rewrite Hrun. destruct o as [[ix hole]|].
  2:{ destruct Hf as [_ Hf]. congruence. }
  by rewrite open_random_refused.
Qed.
End layout.

Section registry_lemmas.
Context `{LogLevel} (iid : bytes).
Hypothesis Hiid : length iid = IID_LEN.

Lemma holes_inj r i j a :
  registry_ok iid r → holes (r_sieve r) !! i = Some a → holes (r_sieve r) !! j = Some a → i = j.
Proof.
  intros [Hwf Hix Hh Hu] Hi Hj.
  destruct (Hh _ _ Hi) as (ix & t & Ha & Ht & _).
  destruct (Hh _ _ Hj) as (ix' & t' & Ha' & Ht' & _).
  pose proof (holes_lt _ _ _ Hwf Hi). pose proof (holes_lt _ _ _ Hwf Hj).
  rewrite Ha in Ha'. injection Ha' as Heq.
  pose proof (wf_max _ Hwf).
  apply (f_equal (λ u, le_value (take 8 (drop IID_LEN u)))) in Heq.
  rewrite !uid_hole_field in Heq by (done || lia). lia.
Qed.

Lemma wp_register urandom secure a r :
  registry_ok iid r → (secure = true → random_ok urandom) → r_uid r !! a = None →
  (index (r_sieve r) + 1 < 2 ^ 64)%Z →
  wp (register iid urandom secure a)
     (λ u r', registry_ok iid r' ∧
        match u with
        | None => r' = r
        | Some u => ∃ hole tail, u = uid_of iid hole (index (r_sieve r)) tail ∧
            r_uid r' = <[a := u]> (r_uid r) ∧ max (r_sieve r') = max (r_sieve r) ∧
            index (r_sieve r') = (index (r_sieve r) + 1)%Z
        end) r.
Proof.
  intros Hok Hlen Ha Hbound. pose proof Hok as [Hwf Hix Hh Hu].
  unfold register, on_sieve. wp_steps.
  eapply wp_mono; [apply wp_make_hole_uid; [done|by rewrite length_replicate|done..]|].
  intros [uid ok] s' [Hwf' Hf]. destruct ok; wp_steps.
  2:{ destruct Hf as [-> _]. split; [|by destruct r]. by destruct r. }
  destruct Hf as (hole & tail & -> & Ht & _ & Hix' & (_ & Hnone & _) & Hholes & _ & Hmax).
  assert (Hix'' : index s' = (index (r_sieve r) + 1)%Z) by (rewrite Hix'; apply u64_small; lia).
  split; [split; simpl|eauto 10].
  - done.
  - lia.
  - intros i b. rewrite Hholes, Hix''. destruct (decide (i = hole)) as [->|Hne].
    + rewrite lookup_insert_eq. intros [= <-]. exists (index (r_sieve r)), tail.
      rewrite lookup_insert_eq. split_and!; [done..|lia|lia].
    + rewrite lookup_insert_ne by done. intros Hb.
      destruct (Hh _ _ Hb) as (ix & t & Hbu & ? & ?). exists ix, t.
      rewrite lookup_insert_ne by congruence. split_and!; [done..|lia|lia].
  - intros b u. rewrite Hholes. destruct (decide (a = b)) as [<-|Hne].
    + intros _. exists hole. by rewrite lookup_insert_eq.
    + rewrite lookup_insert_ne by done. intros Hb. destruct (Hu _ _ Hb) as [i Hi].
      exists i. rewrite lookup_insert_ne; [done|]. by intros ->; congruence.
Qed.

Lemma wp_unregister a u r :
  registry_ok iid r → r_uid r !! a = Some u →
  wp (unregister a) (λ _ r', registry_ok iid r' ∧ r_uid r' = delete a (r_uid r) ∧
        max (r_sieve r') = max (r_sieve r) ∧ index (r_sieve r') = index (r_sieve r)) r.
Proof.
  intros Hok Ha. pose proof Hok as [Hwf Hix Hh Hu].
  destruct (Hu _ _ Ha) as [i Hi]. destruct (Hh _ _ Hi) as (ix & t & Ha' & Ht & Hlt).
  rewrite Ha in Ha'. injection Ha' as ->.
  pose proof (holes_lt _ _ _ Hwf Hi). pose proof (wf_max _ Hwf).
  unfold unregister, on_sieve. wp_steps. apply wp_UID_HOLE; [done..|lia|]. wp_steps.
  eapply wp_mono; [by eapply wp_sieve_empty|].
  intros _ s' (Hwf' & Hholes & Hix' & Hmax & _). wp_steps.
  split_and!; [split; simpl|done|done|done].
  - done.
  - lia.
  - intros j b. rewrite Hholes, Hix', lookup_delete_Some. intros [Hne Hj].
    destruct (Hh _ _ Hj) as (ix' & t' & Hb & ? & ?). exists ix', t'.
    rewrite lookup_delete_ne; [done|]. intros <-. by pose proof (holes_inj r i j a Hok Hi Hj).
  - intros b v. rewrite Hholes, lookup_delete_Some. intros [Hne Hb].
    destruct (Hu _ _ Hb) as [j Hj]. exists j. rewrite lookup_delete_ne; [done|].
    intros <-. congruence.
Qed.

Lemma wp_lookup_uid data r :
  registry_ok iid r → length data = UID_LEN →
  le_value (take 8 (drop IID_LEN data)) ≠ Z.of_nat (max (r_sieve r)) →
  wp (lookup_uid data)
     (λ o r', r' = r ∧ ∀ a, o = Some a ↔ r_uid r !! a = Some data) r.
Proof.
  intros Hok Hlen Hmax. pose proof Hok as [Hwf Hix Hh Hu].
  unfold lookup_uid, on_sieve, UID_HOLE. wp_steps.
  rewrite decide_True by uid_lia. wp_steps.
  eapply wp_mono; [apply wp_sieve_get; [done| |done]; apply le_value_bound|].
  intros o s' [-> Ho]. replace (r <| r_sieve := r_sieve r |>) with r by by destruct r.
  set (h := le_value _) in *.
  assert (Hlive : ∀ a, r_uid r !! a = Some data → o = Some a).
  { intros a Ha. destruct (Hu _ _ Ha) as [i Hi].
    destruct (Hh _ _ Hi) as (ix & t & Ha' & Ht & _). rewrite Ha in Ha'. injection Ha' as Hdata.
    pose proof (holes_lt _ _ _ Hwf Hi). pose proof (wf_max _ Hwf).
    unfold h in Ho. rewrite Hdata in Ho.  rewrite uid_hole_field in Ho by (done || lia). by rewrite Nat2Z.id, Hi in Ho. }
  destruct o as [b|]; wp_steps.
  - symmetry in Ho. destruct (Hh _ _ Ho) as (ix & t & Hb & Ht & _).
    pose proof (length_uid_of iid Hiid (Z.to_nat h) ix t Ht) as Hul.
    wp_steps. unfold UID_EQ. rewrite decide_True by uid_lia. wp_steps.
    split; [done|]. intros a. rewrite (take_ge (uid_of _ _ _ _)), (take_ge data) by uid_lia.
    case_bool_decide as Heq.
    + rewrite <- Heq. split; [by intros [= <-]|]. rewrite Heq. apply Hlive.
    + split; [done|]. intros Ha. specialize (Hlive a Ha). simplify_eq.
  - split; [done|]. intros a. split; [done|apply Hlive].
Qed.
End registry_lemmas.

Section history.
Context `{LogLevel} (iid : bytes).
Hypothesis Hiid : length iid = IID_LEN.

(** [u] was issued before and no registered object carries it. *)
Definition dead (u : bytes) (r : registry) : Prop :=
  (∃ hole ix tail, u = uid_of iid hole ix tail ∧ (0 ≤ ix < index (r_sieve r))%Z) ∧
  ∀ a, r_uid r !! a ≠ Some u.

(** What holds after at most [n] operations that issued [us]. *)
Record progress (r : registry) (n : nat) (us : list bytes) (r' : registry) : Prop := {
  pg_ok : registry_ok iid r';
  pg_max : max (r_sieve r') = max (r_sieve r);
  pg_index : (index (r_sieve r) ≤ index (r_sieve r')
              ≤ index (r_sieve r) + Z.of_nat n)%Z;
  pg_dead : ∀ u, dead u r → dead u r';
  pg_nodup : NoDup us;
  pg_issued : ∀ u, u ∈ us → ∃ hole ix tail, u = uid_of iid hole ix tail ∧
                (index (r_sieve r) ≤ ix < index (r_sieve r'))%Z;
}.

Lemma progress_refl r : registry_ok iid r → progress r 0 [] r.
Proof. intros Hok. split; [done|done|lia|done|constructor|set_solver]. Qed.

Lemma progress_mono r n n' us r' : n ≤ n' → progress r n us r' → progress r n' us r'.
Proof. intros ? []. split; [done|done|lia|done..]. Qed.

Lemma progress_register r r1 n u us r' a hole tail :
  registry_ok iid r → (index (r_sieve r) + Z.of_nat (S n) < 2 ^ 64)%Z →
  u = uid_of iid hole (index (r_sieve r)) tail → r_uid r1 = <[a := u]> (r_uid r) →
  max (r_sieve r1) = max (r_sieve r) → index (r_sieve r1) = (index (r_sieve r) + 1)%Z →
  progress r1 n us r' → progress r (S n) (u :: us) r'.
Proof.
  intros Hok Hbound Hu Huid Hmax Hix [Hok' Hmax' Hix' Hdead Hnd Hus].
  pose proof (ro_index _ _ Hok) as Hpos.
  assert (Hnew : ∀ hole' ix' tail', u = uid_of iid hole' ix' tail' →
            (0 ≤ ix' < 2 ^ 64)%Z → ix' = index (r_sieve r)).
  { intros hole' ix' tail' Heq Hr. rewrite Hu in Heq. symmetry.
    eapply uid_of_inj; [|exact Hr|exact Heq]. lia. }
  split; [done|congruence|lia| | |].
  - intros v [(h & ix & t & Hv & Hlt) Hnot]. apply Hdead.
    split; [exists h, ix, t; split; [done|lia]|].
    intros b. rewrite Huid, lookup_insert_Some. intros [[<- <-]|[? Hb]]; [|by eapply Hnot].
    apply Hnew in Hv; lia.
  - constructor; [|done]. intros (h & ix & t & Heq & Hlt)%Hus. apply Hnew in Heq; lia.
  - intros v [->|Hv]%elem_of_cons; [exists hole, (index (r_sieve r)), tail; split; [done|lia]|].
    destruct (Hus _ Hv) as (h & ix & t & ? & ?). exists h, ix, t. split; [done|lia].
Qed.

Lemma progress_unregister r r1 n us r' a :
  r_uid r1 = delete a (r_uid r) → max (r_sieve r1) = max (r_sieve r) →
  index (r_sieve r1) = index (r_sieve r) → progress r1 n us r' → progress r (S n) us r'.
Proof.
  intros Huid Hmax Hix [Hok' Hmax' Hix' Hdead Hnd Hus]. rewrite Hix in *.
  split; [done|congruence|lia| |done|done].
  intros v [Hv Hnot]. apply Hdead. split; [by rewrite Hix|].
  intros b. rewrite Huid, lookup_delete_Some. intros [_ Hb]. by eapply Hnot.
Qed.

Lemma wp_registry_history ops r :
  registry_ok iid r → Forall valid_op ops →
  (index (r_sieve r) + Z.of_nat (length ops) < 2 ^ 64)%Z →
  wp (registry_history iid ops) (progress r (length ops)) r.
Proof.
  revert r. induction ops as [|op ops IH]; intros r Hok Hval Hbound; simpl.
  { by apply progress_refl. }
  apply Forall_cons in Hval as [Hop Hval]. simpl in Hbound.
  pose proof (ro_index _ _ Hok) as Hpos.
  assert (Hskip : wp (registry_history iid ops) (progress r (S (length ops))) r).
  { eapply wp_mono; [apply IH; [done..|lia]|]. intros us r'. apply progress_mono. lia. }
  destruct op as [urandom secure a|a]; wp_steps;
    destruct (r_uid r !! a) as [u|] eqn:Ha; [done| | |done].
  - wp_steps. eapply wp_mono; [apply wp_register; [done..|lia]|].
    intros o r1 [Hok1 Ho]. wp_steps. destruct o as [u|]; [|subst r1].
    2:{ eapply wp_mono; [exact Hskip|]. intros us r' Hr'. by wp_steps. }
    destruct Ho as (hole & tail & Hu & Huid & Hmax & Hix).
    eapply wp_mono; [apply IH; [done..|lia]|]. intros us r2 Hr2. wp_steps.
    by eapply progress_register.
  - wp_steps. eapply wp_mono; [by eapply wp_unregister|].
    intros _ r1 (Hok1 & Huid & Hmax & Hix). eapply wp_mono; [apply IH; [done..|lia]|].
    intros us r2 Hr2. by eapply progress_unregister.
Qed.

(** Registered objects carry distinct identifiers. *)
Lemma r_uid_inj r a b u :
  registry_ok iid r → r_uid r !! a = Some u → r_uid r !! b = Some u → a = b.
Proof.
  intros [Hwf Hix Hh Hu] Ha Hb.
  destruct (Hu _ _ Ha) as [i Hi]. destruct (Hu _ _ Hb) as [j Hj].
  destruct (Hh _ _ Hi) as (ix & t & Ha' & Ht & _).
  destruct (Hh _ _ Hj) as (ix' & t' & Hb' & Ht' & _).
  assert (Heq : uid_of iid i ix t = uid_of iid j ix' t') by congruence.
  pose proof (holes_lt _ _ _ Hwf Hi). pose proof (holes_lt _ _ _ Hwf Hj).
  pose proof (wf_max _ Hwf).
  apply (f_equal (λ u, le_value (take 8 (drop IID_LEN u)))) in Heq.
  rewrite !uid_hole_field in Heq by (done || lia).
  assert (i = j) by lia. congruence.
Qed.

Lemma unregister_dead r r' a u :
  registry_ok iid r → r_uid r !! a = Some u → r_uid r' = delete a (r_uid r) →
  index (r_sieve r') = index (r_sieve r) → dead u r'.
Proof.
  intros Hok Ha Huid Hix. pose proof Hok as [Hwf Hpos Hh Hu]. split.
  - destruct (Hu _ _ Ha) as [i Hi]. destruct (Hh _ _ Hi) as (ix & t & Ha' & Ht & Hlt).
    rewrite Ha in Ha'. injection Ha' as ->. rewrite Hix. eauto.
  - intros b. rewrite Huid, lookup_delete_Some. intros [Hne Hb].
    by pose proof (r_uid_inj r a b u Hok Ha Hb).
Qed.

(** The cell field of a live identifier is in range. *)
Lemma live_field r a u :
  registry_ok iid r → r_uid r !! a = Some u →
  length u = UID_LEN ∧ (le_value (take 8 (drop IID_LEN u)) < Z.of_nat (max (r_sieve r)))%Z.
Proof.
  intros [Hwf Hpos Hh Hu] Ha.
  destruct (Hu _ _ Ha) as [i Hi]. destruct (Hh _ _ Hi) as (ix & t & Ha' & Ht & Hlt).
  rewrite Ha in Ha'. injection Ha' as ->.
  pose proof (holes_lt _ _ _ Hwf Hi). pose proof (wf_max _ Hwf).
  split; [by apply length_uid_of|]. rewrite uid_hole_field by (done || lia). lia.
Qed.
End history.

Definition empty_registry (s : sieve addr) : registry := mk_registry s ∅.

Lemma empty_registry_ok iid s :
  sieve_wf s → holes s = ∅ → (0 ≤ index s)%Z → registry_ok iid (empty_registry s).
Proof.
  intros Hwf Hh Hix. split; simpl; [done|done| |].
  - intros i a. by rewrite Hh, lookup_empty.
  - intros a u. by rewrite lookup_empty.
Qed.

(** ** Properties *)

(** C28: after any history of creations and removals, the identifiers issued so
    far are pairwise distinct, and looking up a 40-byte identifier (whose cell
    field is not the out-of-range value [max]) runs without undefined behaviour
    and finds an object exactly when that object is registered under it. *)
Theorem uid_lookup_correct `{LogLevel} (iid : bytes) (ops : list registry_op)
    (s : sieve addr)
    (Hiid : length iid = IID_LEN) (Hval : Forall valid_op ops)
    (Hwf : sieve_wf s) (Hempty : holes s = ∅) (Hix : index s = 0%Z)
    (Hbound : (Z.of_nat (length ops) < 2 ^ 64)%Z) :
  ∃ issued r, registry_history iid ops (empty_registry s) = Ok issued r ∧
    NoDup issued ∧
    ∀ data, length data = UID_LEN →
      le_value (take 8 (drop IID_LEN data)) ≠ Z.of_nat (max (r_sieve r)) →
      ∃ o, lookup_uid data r = Ok o r ∧ ∀ a, o = Some a ↔ r_uid r !! a = Some data.
Proof.
  assert (Hok : registry_ok iid (empty_registry s)) by (apply empty_registry_ok; [done..|lia]).
  pose proof (wp_registry_history iid Hiid ops (empty_registry s) Hok Hval) as Hrun.
  simpl in Hrun. rewrite Hix in Hrun. specialize (Hrun ltac:(lia)).
  apply wp_Ok in Hrun as (us & r & Hr & [Hokr _ _ _ Hnd _]).
  exists us, r. split; [done|]. split; [done|]. intros data Hlen Hmax.
  pose proof (wp_lookup_uid iid Hiid data r Hokr Hlen Hmax) as (o & r' & ? & -> & ?)%wp_Ok.
  eauto.
Qed.

Definition example_iid : bytes := replicate 16 (char_of 65).
Definition example_registry_sieve : sieve addr := mk_sieve 0 2 0 0 [None; None].

Lemma uid_lookup_correct_witness :
  let LL : LogLevel := 6%Z in
  let tail := replicate 8 (char_of 1) in
  let u := uid_of example_iid 1 1 tail in
  ∃ r, lookup_uid u r = Ok (Some 8) r ∧ length u = UID_LEN.
Proof.
  intros LL tail u.
  set (ops := [Register (random_of tail) true 7; Register (random_of tail) true 8; Unregister 7]).
  destruct (uid_lookup_correct example_iid ops example_registry_sieve)
    as (issued & r & Hrun & _ & Hfind).
  - reflexivity.
  - repeat (apply Forall_cons_2; [first [done|intros _; by apply random_of_ok]|]). constructor.
  - split; [reflexivity|simpl; lia|reflexivity|simpl; lia].
  - vm_compute. reflexivity.
  - reflexivity.
  - simpl. lia.
  - exists r. split; [|reflexivity].
    assert (Hr : r_uid r !! 8 = Some u ∧ max (r_sieve r) = 2).
    { vm_compute in Hrun. injection Hrun as <- <-. split; vm_compute; reflexivity. }
    destruct Hr as [Hr8 Hmax].
    destruct (Hfind u) as (o & Ho & Hiff); [reflexivity|rewrite Hmax; vm_compute; discriminate|].
    apply Hiff in Hr8. subst o. exact Ho.
Defined.

(** an identifier whose object was removed never resolves again, whatever
    is created or removed afterwards (for fewer than 2^64 operations): a late
    reply or command cannot reach the new owner of the cell. *)
Theorem stale_uid_rejected `{LogLevel} (iid : bytes) (ops1 ops2 : list registry_op)
    (s : sieve addr) (a : addr) (u : bytes) (us1 : list bytes) (r1 : registry)
    (Hiid : length iid = IID_LEN) (Hval1 : Forall valid_op ops1)
    (Hval2 : Forall valid_op ops2)
    (Hwf : sieve_wf s) (Hempty : holes s = ∅) (Hix : index s = 0%Z)
    (Hbound : (Z.of_nat (length ops1 + S (length ops2)) < 2 ^ 64)%Z)
    (Hrun1 : registry_history iid ops1 (empty_registry s) = Ok us1 r1)
    (Hlive : r_uid r1 !! a = Some u) :
  ∃ us2 r2, registry_history iid (Unregister a :: ops2) r1 = Ok us2 r2 ∧
    lookup_uid u r2 = Ok None r2.
Proof.
  assert (Hok : registry_ok iid (empty_registry s)) by (apply empty_registry_ok; [done..|lia]).
  pose proof (wp_registry_history iid Hiid ops1 (empty_registry s) Hok Hval1) as Hw1.
  simpl in Hw1. rewrite Hix in Hw1. specialize (Hw1 ltac:(lia)).
  unfold wp in Hw1. rewrite Hrun1 in Hw1. destruct Hw1 as [Hok1 Hmax1 Hix1 _ _ _].
  simpl in *. unfold mbind, M_bind, get. rewrite Hlive.
  pose proof (wp_unregister iid Hiid a u r1 Hok1 Hlive)
    as (x & r1' & -> & Hok1' & Huid & Hmax1' & Hix1')%wp_Ok.
  pose proof (unregister_dead iid Hiid r1 r1' a u Hok1 Hlive Huid Hix1') as Hdead.
  pose proof (wp_registry_history iid Hiid ops2 r1' Hok1' Hval2) as Hw2.
  rewrite Hix1' in Hw2. specialize (Hw2 ltac:(lia)).
  apply wp_Ok in Hw2 as (us2 & r2 & Hr2 & [Hok2 Hmax2 _ Hd _ _]).
  exists us2, r2. split; [done|]. destruct (Hd u Hdead) as [_ Hnot].
  destruct (live_field iid Hiid r1 a u Hok1 Hlive) as [Hlen Hfield].
  pose proof (wp_lookup_uid iid Hiid u r2 Hok2 Hlen) as Hlook.
  specialize (Hlook ltac:(rewrite Hmax2, Hmax1'; lia)).
  apply wp_Ok in Hlook as (o & r' & Ho & -> & Hiff). rewrite Ho.
  destruct o as [b|]; [|done]. destruct (Hnot b). by apply Hiff.
Qed.

Lemma stale_uid_rejected_witness :
  let LL : LogLevel := 6%Z in
  let tail := replicate 8 (char_of 1) in
  let u := uid_of example_iid 0 0 tail in
  ∃ us1 r1 us2 r2,
    registry_history example_iid [Register (random_of tail) true 7]
      (empty_registry example_registry_sieve) = Ok us1 r1 ∧
    registry_history example_iid
      [Unregister 7; Register (random_of tail) true 8; Register (random_of tail) true 9] r1 = Ok us2 r2 ∧
    lookup_uid u r2 = Ok None r2.
Proof.
  intros LL tail u.
  destruct (registry_history example_iid [Register (random_of tail) true 7]
              (empty_registry example_registry_sieve)) as [us1 r1| | |] eqn:Hrun1;
    [|vm_compute in Hrun1; discriminate Hrun1..].
  destruct (stale_uid_rejected example_iid [Register (random_of tail) true 7]
              [Register (random_of tail) true 8; Register (random_of tail) true 9] example_registry_sieve 7 u us1 r1)
    as (us2 & r2 & Hrun & Hnone).
  - reflexivity.
  - repeat (apply Forall_cons_2; [first [done|intros _; by apply random_of_ok]|]). constructor.
  - repeat (apply Forall_cons_2; [first [done|intros _; by apply random_of_ok]|]). constructor.
  - split; [reflexivity|simpl; lia|reflexivity|simpl; lia].
  - vm_compute. reflexivity.
  - reflexivity.
  - simpl. lia.
  - exact Hrun1.
  - vm_compute in Hrun1. injection Hrun1 as <- <-. vm_compute. reflexivity.
  - exists us1, r1, us2, r2. split; [reflexivity|]. split; [exact Hrun|exact Hnone].
Defined.
