(* ===== verification/Links.v ===== *)
(** * Incidence lists

    zerogw links an object on two lists at once: a subscription is on the list
    of its topic and on that of its connection, an output mapping on the list of
    its connection and on that of its socket.  [side_ok] is the invariant of one
    such direction, over the plain maps it is made of, so that it does not
    depend on the other fields of the objects. *)

From S2P Require Import Prelude.

(** A store less the nodes [l]. *)
Definition without {A} (l : list nat) (E : gmap nat A) : gmap nat A :=
  filter (λ p : nat * A, p.1 ∉ l) E.

Section without.
Context {A : Type}.
Implicit Types (E : gmap nat A) (l : list nat).

Lemma lookup_without l E e s : without l E !! e = Some s ↔ E !! e = Some s ∧ e ∉ l.
Proof. unfold without. by rewrite map_lookup_filter_Some. Qed.

Lemma without_nil E : without [] E = E.
Proof. apply map_eq. intros i. apply option_eq. intros x. rewrite lookup_without. set_solver. Qed.

Lemma without_snoc l e E : delete e (without l E) = without (l ++ [e]) E.
Proof.
  apply map_eq. intros i. apply option_eq. intros x.
  rewrite lookup_delete_Some, !lookup_without, elem_of_app, list_elem_of_singleton. naive_solver.
Qed.

Lemma without_cons e l E : without l (delete e E) = without (e :: l) E.
Proof.
  apply map_eq. intros i. apply option_eq. intros a. rewrite !lookup_without, lookup_delete_Some.
  rewrite not_elem_of_cons. split; intros; destruct_and?; split_and!; auto.
Qed.
End without.

Section side.
Context `{Countable K}.
Implicit Types (E : gmap nat K) (ls : gmap K (list nat)).
Implicit Types (e : nat) (k : K) (xs : list nat).

(** Node [e] with key [E !! e] is on the list of its key, once, and on no other
    list; the lists hold nothing but nodes. *)
Record side_ok E ls : Prop := {
  sd_node : ∀ e k, E !! e = Some k → ∃ xs, ls !! k = Some xs ∧ e ∈ xs;
  sd_list : ∀ k xs, ls !! k = Some xs → NoDup xs ∧ ∀ e, e ∈ xs → E !! e = Some k;
}.

Lemma side_elem E ls k xs e :
  side_ok E ls → ls !! k = Some xs → e ∈ xs ↔ E !! e = Some k.
Proof.
  intros [He Hl] Hxs. split; [by apply (Hl k xs Hxs)|].
  intros Hk. destruct (He _ _ Hk) as (xs' & ? & ?). naive_solver.
Qed.

Lemma side_NoDup E ls k xs : side_ok E ls → ls !! k = Some xs → NoDup xs.
Proof. intros [_ Hl] Hxs. by apply (Hl k xs Hxs). Qed.

Lemma side_insert E ls e k xs xs' :
  side_ok E ls → E !! e = None → ls !! k = Some xs → xs' ≡ₚ e :: xs →
  side_ok (<[e := k]> E) (<[k := xs']> ls).
Proof.
  intros Hok HE Hxs Hxs'. pose proof Hok as [He Hl].
  assert (Hne : ∀ k0 xs0 e0, ls !! k0 = Some xs0 → e0 ∈ xs0 → e ≠ e0).
  { intros k0 xs0 e0 Hx Hin ->. apply (side_elem _ _ _ _ _ Hok Hx) in Hin. congruence. }
  split.
  - intros e0 k0. rewrite lookup_insert_Some. intros [[<- <-]|[_ Hold]].
    { exists xs'. rewrite lookup_insert_eq. split; [done|]. rewrite Hxs'. by left. }
    destruct (He _ _ Hold) as (xs0 & Hx0 & Hin).
    destruct (decide (k = k0)) as [<-|]; [|exists xs0; by rewrite lookup_insert_ne].
    exists xs'. rewrite lookup_insert_eq. split; [done|].
    rewrite Hxs in Hx0. injection Hx0 as <-. rewrite Hxs'. by right.
  - intros k0 xs0. rewrite lookup_insert_Some. intros [[<- <-]|[Hk Hold]].
    + destruct (Hl _ _ Hxs) as [Hnd Hx]. split.
      { rewrite Hxs'. constructor; [|done]. intros Hin. by apply (Hne _ _ _ Hxs Hin). }
      intros e0. rewrite Hxs'. intros [->|Hin]%elem_of_cons; [by rewrite lookup_insert_eq|].
      rewrite lookup_insert_ne; [by apply Hx|by eapply Hne].
    + destruct (Hl _ _ Hold) as [Hnd Hx]. split; [done|]. intros e0 Hin.
      rewrite lookup_insert_ne; [by apply Hx|by eapply Hne].
Qed.

Lemma side_delete E ls e k xs :
  side_ok E ls → E !! e = Some k → ls !! k = Some xs →
  side_ok (delete e E) (<[k := unlink e xs]> ls).
Proof.
  intros Hok HE Hxs. pose proof Hok as [He Hl]. split.
  - intros e0 k0. rewrite lookup_delete_Some. intros [Hne Hold].
    destruct (He _ _ Hold) as (xs0 & Hx0 & Hin).
    destruct (decide (k = k0)) as [<-|]; [|exists xs0; by rewrite lookup_insert_ne].
    eexists. rewrite lookup_insert_eq. split; [done|].
    apply elem_of_unlink. by simplify_eq.
  - intros k0 xs0. rewrite lookup_insert_Some. intros [[<- <-]|[Hne Hold]].
    + destruct (Hl _ _ Hxs) as [Hnd Hx]. split; [by apply NoDup_unlink|].
      intros e0 [Hin Hne]%elem_of_unlink. rewrite lookup_delete_ne by done. by apply Hx.
    + destruct (Hl _ _ Hold) as [Hnd Hx]. split; [done|]. intros e0 Hin.
      rewrite lookup_delete_ne; [by apply Hx|]. intros ->.
      specialize (Hx _ Hin). congruence.
Qed.

Lemma side_new E ls k :
  side_ok E ls → ls !! k = None → side_ok E (<[k := []]> ls).
Proof.
  intros [He Hl] Hnone. split.
  - intros e0 k0 Hold. destruct (He _ _ Hold) as (xs0 & Hx0 & Hin).
    exists xs0. rewrite lookup_insert_ne; [done|congruence].
  - intros k0 xs0. rewrite lookup_insert_Some. intros [[<- <-]|[_ Hold]]; [|by apply Hl].
    split; [constructor|set_solver].
Qed.

Lemma side_del E ls k :
  side_ok E ls → ls !! k = Some [] → side_ok E (delete k ls).
Proof.
  intros [He Hl] Hnil. split.
  - intros e0 k0 Hold. destruct (He _ _ Hold) as (xs0 & Hx0 & Hin).
    exists xs0. rewrite lookup_delete_ne; [done|]. intros <-. simplify_eq. set_solver.
  - intros k0 xs0. rewrite lookup_delete_Some. intros [_ ?]. by apply Hl.
Qed.

(** Removing a key with all its nodes. *)
Lemma side_drop E ls k xs :
  side_ok E ls → ls !! k = Some xs → side_ok (without xs E) (delete k ls).
Proof.
  intros Hok Hk. pose proof Hok as [He Hl]. split.
  - intros e0 k0 [Hold Hn]%lookup_without. destruct (He _ _ Hold) as (xs0 & Hx0 & Hin).
    exists xs0. rewrite lookup_delete_ne; [done|]. intros <-. by simplify_eq.
  - intros k0 xs0. rewrite lookup_delete_Some. intros [Hne Hk0]. destruct (Hl _ _ Hk0) as [Hnd Hx].
    split; [done|]. intros e Hin. apply lookup_without. split; [by apply Hx|].
    intros Hin'. pose proof (Hx _ Hin). destruct (Hl _ _ Hk) as [_ Hx']. pose proof (Hx' _ Hin'). congruence.
Qed.

(** Reordering a list. *)
Lemma side_perm E ls k xs xs' :
  side_ok E ls → ls !! k = Some xs → xs' ≡ₚ xs → side_ok E (<[k := xs']> ls).
Proof.
  intros [He Hl] Hxs Hperm. split.
  - intros e0 k0 Hold. destruct (He _ _ Hold) as (xs0 & Hx0 & Hin).
    destruct (decide (k = k0)) as [<-|]; [|exists xs0; by rewrite lookup_insert_ne].
    exists xs'. rewrite lookup_insert_eq. split; [done|]. simplify_eq. by rewrite Hperm.
  - intros k0 xs0. rewrite lookup_insert_Some. intros [[<- <-]|[_ Hold]]; [|by apply Hl].
    destruct (Hl _ _ Hxs) as [Hnd Hx]. split; [by rewrite Hperm|].
    intros e0. rewrite Hperm. apply Hx.
Qed.

Lemma side_empty : side_ok ∅ ∅.
Proof. split; intros *; by rewrite lookup_empty. Qed.
End side.

(** Changing a field that a projection does not look at. *)
Lemma fmap_insert_same `{Countable K} {A B} (f : A → B) (m : gmap K A) k a a' :
  m !! k = Some a → f a' = f a → f <$> <[k := a']> m = f <$> m.
Proof.
  intros Hk Hf. rewrite fmap_insert, Hf. apply insert_id. by rewrite lookup_fmap, Hk.
Qed.

Lemma lookup_fmap_Some' `{Countable K} {A B} (f : A → B) (m : gmap K A) k a :
  m !! k = Some a → (f <$> m) !! k = Some (f a).
Proof. intros Hk. by rewrite lookup_fmap, Hk. Qed.

Lemma side_nil `{Countable K} {A} (f : A → list nat) (m : gmap K A) :
  map_Forall (λ _ a, f a = []) m → side_ok ∅ (f <$> m).
Proof.
  intros Hf. split; intros k x; [by rewrite lookup_empty|].
  rewrite lookup_fmap, fmap_Some. intros (a & Ha & ->). rewrite (Hf k a Ha).
  split; [constructor|set_solver].
Qed.

#[export] Hint Resolve lookup_fmap_Some' : core.
