(* ===== verification/State.v ===== *)
(** * State of the gateway (main.h, websocket.h, polling.h, request.h)

    The structures of the websocket and polling layers, the single [root]
    structure that they hang off, and the interface to the libraries that the
    code calls.  A C pointer is the address of an object in the map of its type;
    freeing the object deletes it from the map, so that a dangling pointer is
    visible. *)

From S2P Require Import Prelude Sieve Pool MsgQueue.

(** ** Statistics *)

(** Every counter is a [size_t]; src/src/main.h:21-54 [statistics_s] *)
Record statistics := mk_statistics {
  st_connects : Z;
  st_disconnects : Z;
  st_http_requests : Z;
  st_http_replies : Z;
  st_zmq_requests : Z;
  st_zmq_retries : Z;
  st_zmq_replies : Z;
  st_zmq_orphan_replies : Z;
  st_websock_connects : Z;
  st_websock_disconnects : Z;
  st_comet_connects : Z;
  st_comet_disconnects : Z;
  st_comet_acks : Z;
  st_comet_empty_replies : Z;
  st_comet_aborted_replies : Z;
  st_comet_received_messages : Z;
  st_comet_received_batches : Z;
  st_comet_sent_messages : Z;
  st_comet_sent_batches : Z;
  st_topics_created : Z;
  st_topics_removed : Z;
  st_websock_subscribed : Z;
  st_websock_unsubscribed : Z;
  st_websock_published : Z;
  st_websock_sent : Z;
  st_websock_received : Z;
  st_websock_backend_queued : Z;
  st_websock_backend_unqueued : Z;
  st_websock_sent_pings : Z;
  st_disk_requests : Z;
  st_disk_reads : Z;
  st_disk_bytes_read : Z;
}.
#[export] Instance rebuild_statistics : Rebuild statistics := λ r,
  mk_statistics (st_connects r) (st_disconnects r) (st_http_requests r)
    (st_http_replies r) (st_zmq_requests r) (st_zmq_retries r)
    (st_zmq_replies r) (st_zmq_orphan_replies r) (st_websock_connects r)
    (st_websock_disconnects r) (st_comet_connects r)
    (st_comet_disconnects r) (st_comet_acks r) (st_comet_empty_replies r)
    (st_comet_aborted_replies r) (st_comet_received_messages r)
    (st_comet_received_batches r) (st_comet_sent_messages r)
    (st_comet_sent_batches r) (st_topics_created r) (st_topics_removed r)
    (st_websock_subscribed r) (st_websock_unsubscribed r)
    (st_websock_published r) (st_websock_sent r) (st_websock_received r)
    (st_websock_backend_queued r) (st_websock_backend_unqueued r)
    (st_websock_sent_pings r) (st_disk_requests r) (st_disk_reads r)
    (st_disk_bytes_read r).

Definition zero_statistics : statistics := mk_statistics 0 0 0 0 0 0 0 0 0 0 0 0 0 0 0 0 0 0 0 0 0 0 0 0 0 0 0 0 0 0 0 0.

(** [counter += n] on a [size_t]. *)
Definition plus (n : Z) (c : Z) : Z := u64 (c + n).
Definition minus (n : Z) (c : Z) : Z := u64 (c - n).

(** ** Names of sockets, connections and routes *)

Abbreviation route_id := nat (only parsing).
Abbreviation conn_id := nat (only parsing).

(** The zeromq sockets of a route, and those of the server: to the disk threads,
    for control commands and for statistics. *)
Inductive sock_id :=
  | Subscribe (r : route_id)          (* route->websocket.subscribe *)
  | Forward (r : route_id)            (* route->websocket.forward *)
  | Named (r : route_id) (i : nat)    (* the i-th of route->websocket.named_outputs *)
  | Http (r : route_id)               (* route->zmq_forward.socket *)
  | DiskSock                          (* root.disk.socket *)
  | Control                           (* config->Server.control.socket *)
  | Estp.                             (* config->Estp.socket *)

#[export] Instance sock_id_eq_dec : EqDecision sock_id.
Proof. solve_decision. Defined.
#[export] Instance sock_id_countable : Countable sock_id.
Proof.
  refine (inj_countable'
    (λ s, match s with
          | Forward r => inl (inl r) | Named r i => inl (inr (r, i)) | Http r => inr (inl (inl r))
          | Subscribe r => inr (inl (inr r)) | DiskSock => inr (inr 0) | Control => inr (inr 1) | Estp => inr (inr 2)
          end)
    (λ s, match s with
          | inl (inl r) => Forward r | inl (inr (r, i)) => Named r i | inr (inl (inl r)) => Http r
          | inr (inl (inr r)) => Subscribe r
          | inr (inr 0) => DiskSock | inr (inr 1) => Control | inr (inr _) => Estp
          end) _).
  by intros [].
Defined.

(** ** The objects *)

(** src/src/websocket.h:17-20 [hybi_enum] *)
Inductive hybi_enum := HYBI_WEBSOCKET | HYBI_COMET.
#[export] Instance hybi_enum_eq_dec : EqDecision hybi_enum.
Proof. solve_decision. Defined.

(** src/src/polling.c:13-16 [format_enum] *)
Inductive format_enum := FMT_SINGLE | FMT_JSONLIST.
#[export] Instance format_enum_eq_dec : EqDecision format_enum.
Proof. solve_decision. Defined.

(** src/src/websocket.h:15-15 [WS_HAS_COOKIE] *)
Definition WS_HAS_COOKIE : Z := 1.

(** src/src/websocket.h:22-27 [subscriber_s] *)
Record subscriber := mk_subscriber {
  s_topic : addr;
  s_connection : addr;
}.
#[export] Instance rebuild_subscriber : Rebuild subscriber := λ r,
  mk_subscriber (s_topic r) (s_connection r).

(** The prefix is kept with its length; src/src/websocket.h:29-36 [output_s] *)
Record output := mk_output {
  o_socket : sock_id;
  o_connection : addr;
  o_prefix : bytes;
}.
#[export] Instance rebuild_output : Rebuild output := λ r,
  mk_output (o_socket r) (o_connection r) (o_prefix r).

(** What [void *msg] of a queued backend message points to: one of the two
    marker values, a message of the websocket library, or (polling) a request. *)
Inductive payload :=
  | MSG_CONNECT
  | MSG_DISCONNECT
  | PMessage (data : bytes)
  | PRequest (req : addr).
#[export] Instance payload_eq_dec : EqDecision payload.
Proof. solve_decision. Defined.

(** src/src/websocket.h:38-42 [backend_msg_s] *)
Record backend_msg := mk_backend_msg {
  b_hybi : addr;
  b_msg : payload;
}.
#[export] Instance rebuild_backend_msg : Rebuild backend_msg := λ r,
  mk_backend_msg (b_hybi r) (b_msg r).

(** src/src/polling.h:10-19 [comet_s] *)
Record comet := mk_comet {
  cur_request : option addr;
  overflow : bool;
  cur_format : format_enum;
  cur_limit : Z;
  first_index : Z;
  sendlater_active : bool;   (* ev_idle sendlater *)
  inactivity_active : bool;   (* ev_timer inactivity *)
  c_queue : queue;
}.
#[export] Instance rebuild_comet : Rebuild comet := λ r,
  mk_comet (cur_request r) (overflow r) (cur_format r) (cur_limit r)
    (first_index r) (sendlater_active r) (inactivity_active r)
    (c_queue r).

(** [h_conn] is only set for websockets, [h_comet] is the trailing array, which
    only polling connections are allocated with;
    src/src/websocket.h:54-65 [hybi_s] *)
Record hybi := mk_hybi {
  h_type : hybi_enum;
  h_refcnt : Z;   (* unsigned *)
  h_uid : bytes;
  h_flags : Z;
  h_cookie : bytes;
  h_route : route_id;
  h_subscribers : list addr;   (* by client_list *)
  h_outputs : list addr;   (* by client_list *)
  h_conn : option conn_id;
  h_comet : option comet;
}.
#[export] Instance rebuild_hybi : Rebuild hybi := λ r,
  mk_hybi (h_type r) (h_refcnt r) (h_uid r) (h_flags r) (h_cookie r)
    (h_route r) (h_subscribers r) (h_outputs r) (h_conn r) (h_comet r).

(** src/src/websocket.c:18-25 [topic_s] *)
Record topic := mk_topic {
  t_table : route_id;   (* the table of this route *)
  t_subscribers : list addr;   (* by topic_list *)
  t_hash : Z;   (* size_t *)
  t_name : bytes;   (* length, topic *)
}.
#[export] Instance rebuild_topic : Rebuild topic := λ r,
  mk_topic (t_table r) (t_subscribers r) (t_hash r) (t_name r).

(** src/src/websocket.c:27-32 [topic_hash_s] *)
Record topic_table := mk_topic_table {
  hash_size : Z;
  ntopics : Z;
  nsubscriptions : Z;
  table : option (list (list addr));   (* topic_t **table, by topic_list *)
}.
#[export] Instance rebuild_topic_table : Rebuild topic_table := λ r,
  mk_topic_table (hash_size r) (ntopics r) (nsubscriptions r) (table r).

(** The part of a route's configuration that the websocket and polling code
    reads, with the one field that it writes, [_topics]. *)
Record route := mk_route {
  rt_enabled : bool;
  rt_subscribe : bool;   (* subscribe.value_len *)
  rt_forward : bool;   (* forward.value_len *)
  rt_disable_websocket : bool;
  rt_allow_origins : list bytes;
  rt_frontend_commands : bool;
  rt_paused_command : bool;
  rt_topic_hash_size : Z;
  rt_max_backend_queue : Z;
  rt_outputs : list bytes;   (* keys of named_outputs *)
  rt_children : list route_id;   (* children, map *)
  rt_topics : option topic_table;   (* _topics *)
  rt_queue_limit : Z;   (* polling_fallback.queue_limit *)
  rt_timestamps : bool;   (* polling_fallback.timestamps *)
  rt_headers : list (bytes * bytes);
  rt_max_age : bytes;   (* access_control_max_age *)
}.
#[export] Instance rebuild_route : Rebuild route := λ r,
  mk_route (rt_enabled r) (rt_subscribe r) (rt_forward r)
    (rt_disable_websocket r) (rt_allow_origins r)
    (rt_frontend_commands r) (rt_paused_command r) (rt_topic_hash_size r)
    (rt_max_backend_queue r) (rt_outputs r) (rt_children r) (rt_topics r)
    (rt_queue_limit r) (rt_timestamps r) (rt_headers r) (rt_max_age r).

(** A zeromq socket of a route: its queue and the output mappings to it. *)
Record sock := mk_sock {
  so_queue : queue;
  so_outputs : list addr;   (* by output_list *)
}.
#[export] Instance rebuild_sock : Rebuild sock := λ r,
  mk_sock (so_queue r) (so_outputs r).

(** A request of the http library, with the fields that zerogw adds to it.  The
    strings are the ones of the library, without their terminating NUL.
    [rq_lent] counts the message parts with memory of the request that zeromq has
    not given back yet.
    src/src/request.h:19-34 [request_s] *)
Record request := mk_request {
  rq_uri : bytes;
  rq_method : bytes;
  rq_body : bytes;
  rq_origin : option bytes;    (* headerindex[WS_H_ORIGIN] *)
  rq_websocket : bool;
  rq_timeout_active : bool;    (* ev_timer timeout *)
  rq_route : option route_id;
  rq_hybi : option addr;
  rq_uid : bytes;
  rq_refcnt : Z;
  rq_retries : Z;
  rq_flags : Z;
  rq_path : bytes;
  rq_ip : option bytes;
  rq_addr : option Z;          (* the IPv4 address of the connection *)
  rq_fields : gmap nat bytes;  (* headerindex *)
  rq_bodypos : bool;           (* bodyposition, set when the body was read *)
  rq_response : option bytes;  (* response_msg *)
  rq_lent : nat;
}.
#[export] Instance rebuild_request : Rebuild request := λ r,
  mk_request (rq_uri r) (rq_method r) (rq_body r) (rq_origin r) (rq_websocket r)
    (rq_timeout_active r) (rq_route r) (rq_hybi r) (rq_uid r) (rq_refcnt r)
    (rq_retries r) (rq_flags r) (rq_path r) (rq_ip r) (rq_addr r) (rq_fields r)
    (rq_bodypos r) (rq_response r) (rq_lent r).

(** src/src/request.h:9-14 [request_flags] *)
Definition REQ_HAS_MESSAGE : Z := 1.
Definition REQ_IN_SIEVE : Z := 2.
Definition REQ_REPLIED : Z := 4.
Definition REQ_OWNS_WSMESSAGE : Z := 8.

(** ** Calls into the libraries

    Calls whose only effect is outside of the program are recorded in the trace
    of the run, in order. *)
Inductive send_res := Sent | EAGAIN | EINTR | EOTHER.
#[export] Instance send_res_eq_dec : EqDecision send_res.
Proof. solve_decision. Defined.

Inductive ws_res := WsOk | WsExfull | WsError.
#[export] Instance ws_res_eq_dec : EqDecision ws_res.
Proof. solve_decision. Defined.

Inductive event :=
  | ZmqSend (s : sock_id) (part : bytes) (more : bool) (res : send_res)
  | WsSend (c : conn_id) (msg : bytes) (res : ws_res)  (* ws_message_send *)
  | WsClose (c : conn_id)                              (* ws_connection_close *)
  | ReqHeader (req : addr) (name value : bytes)        (* ws_add_header *)
  | ReqReply (req : addr) (body : bytes)               (* ws_reply_data *)
  | ReqFree (req : addr)                               (* ws_request_free *)
  | FeedEvent (s : sock_id)                            (* ev_feed_event on its watcher *)
  | FeedSync (s : sock_id)                             (* ... on its sync timer *)
  | ReqStatus (req : addr) (line : bytes)              (* ws_statusline *)
  | ReqReset (req : addr)                              (* ws_reset_headers *)
  | ReqEndHeaders (req : addr)                         (* ws_finish_headers *)
  | CtlSend (part : bytes) (more : bool) (res : send_res) (* zmq_send on the control socket *)
  | ReqAborted (req : addr).                           (* its connection was closed before the reply *)

(** The answers of the libraries may depend on everything that happened before:
    [zmq_send] of a message part, [ws_message_send], whether a socket polls
    writable ([ZMQ_EVENTS]), the current time and the time that a request has
    waited as [sprintf] prints them in a given format, and the [Date] of a
    request ([gmtime_r] and [strftime] of its arrival, which may fail).  A message
    for browsers takes [malloc] of a [message_t], [ws_message_init], which may fail
    too, and for some messages the memory of [zmq_msg_init_size].
    [retries] bounds the iterations of the loops that repeat an interrupted
    send.  Two of the structures embed types of the libraries, so that their
    sizes are theirs.

    Memory for messages that wait for backends is granted by a function of its
    own, [backlog_malloc], because it has a limit: fewer than 2^31 messages wait at
    a time (64 GiB of them). *)
Class Env := {
  zmq_send_res : list event → sock_id → bytes → bool → send_res;
  ws_send_res : list event → conn_id → bytes → ws_res;
  zmq_writable : list event → sock_id → bool;
  time_text : list event → bytes → bytes;
  wait_text : list event → addr → bytes;
  http_date : addr → option bytes;
  retries : nat;
  sizeof_hybi : Z;
  sizeof_comet : Z;
  message_malloc : list event → bool;
  message_init_fails : list event → bool;
  message_text : list event → bool;
  backlog_malloc : Malloc;
  backlog_limit : ∀ h n, @malloc_ok backlog_malloc h n = true →
    (Z.of_nat (base.size (live h)) + 1 < 2 ^ 31)%Z;
}.

(** Memory that has this limit and no other. *)
Definition limited_malloc : Malloc := λ h _, bool_decide (Z.of_nat (base.size (live h)) + 1 < 2 ^ 31)%Z.

Lemma limited_malloc_limit h n :
  @malloc_ok limited_malloc h n = true → (Z.of_nat (base.size (live h)) + 1 < 2 ^ 31)%Z.
Proof. apply bool_decide_eq_true_1. Qed.

(** Messages for browsers can be made, and the library takes them or says that the
    connection is full. *)
Record message_laws `{Env} : Prop := {
  ml_send : ∀ tr c m, ws_send_res tr c m ≠ WsError;
  ml_malloc : ∀ tr, message_malloc tr = true;
  ml_init : ∀ tr, message_init_fails tr = false;
  ml_text : ∀ tr, message_text tr = true;
}.

(** ** The root structure (main.h, [serverroot_s] and [hybi_global_s])

    [hybi_heap], [topic_heap] and [output_heap] number the blocks of the types
    that are allocated directly; the other types live in pools. *)
Record root := mk_root {
  trace : list event;
  instance_id : bytes;
  stat : statistics;
  paused : bool;
  hsieve : sieve addr;   (* root.hybi.sieve *)
  request_sieve : sieve addr;
  requests : gmap nat request;
  hybi_heap : heap;
  hybis : gmap nat hybi;
  topic_heap : heap;
  topics : gmap nat topic;
  sub_arena : arena;   (* subscriber_pool *)
  subs : gmap nat subscriber;
  output_heap : heap;
  outputs : gmap nat output;
  backend_arena : arena;   (* backend_pool *)
  bmsgs : gmap nat backend_msg;
  frontend_arena : arena;   (* frontend_pool *)
  fmsgs : gmap nat bytes;
  routes : gmap nat route;
  socks : gmap sock_id sock;
  logfile : Z;   (* log.c: where the log goes *)
}.
#[export] Instance rebuild_root : Rebuild root := λ r,
  mk_root (trace r) (instance_id r) (stat r) (paused r) (hsieve r) (request_sieve r) (requests r)
    (hybi_heap r) (hybis r) (topic_heap r) (topics r) (sub_arena r)
    (subs r) (output_heap r) (outputs r) (backend_arena r) (bmsgs r)
    (frontend_arena r) (fmsgs r) (routes r) (socks r) (logfile r).

Abbreviation MR := (M root).

(** ** Access to the objects *)
Section access.

Definition get_hybi (a : addr) : MR hybi := r ← get; deref UseAfterFree (hybis r !! a).
Definition get_topic (a : addr) : MR topic := r ← get; deref UseAfterFree (topics r !! a).
Definition get_sub (a : addr) : MR subscriber := r ← get; deref UseAfterFree (subs r !! a).
Definition get_output (a : addr) : MR output := r ← get; deref UseAfterFree (outputs r !! a).
Definition get_route (a : route_id) : MR route := r ← get; deref UseAfterFree (routes r !! a).
Definition get_request (a : addr) : MR request := r ← get; deref UseAfterFree (requests r !! a).
Definition get_bmsg (a : addr) : MR backend_msg := r ← get; deref UseAfterFree (bmsgs r !! a).
Definition get_sock (s : sock_id) : MR sock := r ← get; deref UseAfterFree (socks r !! s).

Definition set_hybi (a : addr) (f : hybi → hybi) : MR unit :=
  h ← get_hybi a; modify (λ r, r <| hybis ::= λ m, <[a := f h]> m |>).
Definition set_topic (a : addr) (f : topic → topic) : MR unit :=
  t ← get_topic a; modify (λ r, r <| topics ::= λ m, <[a := f t]> m |>).
Definition set_route (a : route_id) (f : route → route) : MR unit :=
  t ← get_route a; modify (λ r, r <| routes ::= λ m, <[a := f t]> m |>).
Definition set_sock (s : sock_id) (f : sock → sock) : MR unit :=
  t ← get_sock s; modify (λ r, r <| socks ::= λ m, <[s := f t]> m |>).
Definition set_request (a : addr) (f : request → request) : MR unit :=
  q ← get_request a; modify (λ r, r <| requests ::= λ m, <[a := f q]> m |>).

(** Writing through [topic->table]. *)
Definition set_table (a : route_id) (f : topic_table → topic_table) : MR unit :=
  t ← get_route a; tbl ← deref NullDeref (rt_topics t);
  modify (λ r, r <| routes ::= λ m, <[a := t <| rt_topics := Some (f tbl) |>]> m |>).

Definition count (f : statistics → statistics) : MR unit :=
  modify (λ r, r <| stat ::= f |>).
Definition emit (e : event) : MR unit := modify (λ r, r <| trace ::= λ t, t ++ [e] |>).

Definition on_sub_arena {A} : M arena A → MR A :=
  zoom sub_arena (λ a r, r <| sub_arena := a |>).
Definition on_topic_heap {A} : M heap A → MR A :=
  zoom topic_heap (λ h r, r <| topic_heap := h |>).
Definition on_hybi_heap {A} : M heap A → MR A :=
  zoom hybi_heap (λ h r, r <| hybi_heap := h |>).
Definition on_output_heap {A} : M heap A → MR A :=
  zoom output_heap (λ h r, r <| output_heap := h |>).
Definition on_hsieve {A} : M (sieve addr) A → MR A :=
  zoom hsieve (λ s r, r <| hsieve := s |>).
Definition on_rsieve {A} : M (sieve addr) A → MR A :=
  zoom request_sieve (λ s r, r <| request_sieve := s |>).
End access.

(** ** Rules *)
Section rules.
Implicit Types (r : root).

Lemma wp_get_hybi a h Q r : hybis r !! a = Some h → Q h r → wp (get_hybi a) Q r.
Proof. intros E HQ. unfold get_hybi. by wp_steps. Qed.
Lemma wp_get_topic a t Q r : topics r !! a = Some t → Q t r → wp (get_topic a) Q r.
Proof. intros E HQ. unfold get_topic. by wp_steps. Qed.
Lemma wp_get_sub a s Q r : subs r !! a = Some s → Q s r → wp (get_sub a) Q r.
Proof. intros E HQ. unfold get_sub. by wp_steps. Qed.
Lemma wp_get_output a o Q r : outputs r !! a = Some o → Q o r → wp (get_output a) Q r.
Proof. intros E HQ. unfold get_output. by wp_steps. Qed.
Lemma wp_get_route a rt Q r : routes r !! a = Some rt → Q rt r → wp (get_route a) Q r.
Proof. intros E HQ. unfold get_route. by wp_steps. Qed.
Lemma wp_get_sock s so Q r : socks r !! s = Some so → Q so r → wp (get_sock s) Q r.
Proof. intros E HQ. unfold get_sock. by wp_steps. Qed.

Lemma wp_get_request a q Q r : requests r !! a = Some q → Q q r → wp (get_request a) Q r.
Proof. intros E HQ. unfold get_request. by wp_steps. Qed.
Lemma wp_get_bmsg a b Q r : bmsgs r !! a = Some b → Q b r → wp (get_bmsg a) Q r.
Proof. intros E HQ. unfold get_bmsg. by wp_steps. Qed.

Lemma wp_set_request a h f Q r :
  requests r !! a = Some h → Q tt (r <| requests := <[a := f h]> (requests r) |>) →
  wp (set_request a f) Q r.
Proof. intros E HQ. unfold set_request. wp_steps. by eapply wp_get_request. Qed.
Lemma wp_set_hybi a h f Q r :
  hybis r !! a = Some h → Q tt (r <| hybis := <[a := f h]> (hybis r) |>) →
  wp (set_hybi a f) Q r.
Proof. intros E HQ. unfold set_hybi. wp_steps. by eapply wp_get_hybi. Qed.
Lemma wp_set_topic a t f Q r :
  topics r !! a = Some t → Q tt (r <| topics := <[a := f t]> (topics r) |>) →
  wp (set_topic a f) Q r.
Proof. intros E HQ. unfold set_topic. wp_steps. by eapply wp_get_topic. Qed.
Lemma wp_set_route a rt f Q r :
  routes r !! a = Some rt → Q tt (r <| routes := <[a := f rt]> (routes r) |>) →
  wp (set_route a f) Q r.
Proof. intros E HQ. unfold set_route. wp_steps. by eapply wp_get_route. Qed.
Lemma wp_set_sock s so f Q r :
  socks r !! s = Some so → Q tt (r <| socks := <[s := f so]> (socks r) |>) →
  wp (set_sock s f) Q r.
Proof. intros E HQ. unfold set_sock. wp_steps. by eapply wp_get_sock. Qed.
Lemma wp_set_table a rt tbl f Q r :
  routes r !! a = Some rt → rt_topics rt = Some tbl →
  Q tt (r <| routes := <[a := rt <| rt_topics := Some (f tbl) |>]> (routes r) |>) →
  wp (set_table a f) Q r.
Proof.
  intros E Et HQ. unfold set_table. wp_steps. eapply wp_get_route; [done|]. wp_steps. done.
Qed.
Lemma wp_count f Q r : Q tt (r <| stat := f (stat r) |>) → wp (count f) Q r.
Proof. done. Qed.
Lemma wp_emit e Q r : Q tt (r <| trace := trace r ++ [e] |>) → wp (emit e) Q r.
Proof. done. Qed.

(** Frames: an update of one kind of object leaves the other kinds alone. *)
Context {T} (f : root → T).
Lemma keeps_read {A} (o : root → option A) e : keeps f (r ← get; deref e (o r)).
Proof. solve_keeps. Qed.

Lemma keeps_set_hybi a g :
  (∀ r h, hybis r !! a = Some h → f (r <| hybis := <[a := g h]> (hybis r) |>) = f r) →
  keeps f (set_hybi a g).
Proof.
  intros Hf r u r'. unfold set_hybi, get_hybi, mbind, M_bind, get, deref.
  destruct (hybis r !! a) eqn:E; [|done]. intros [= _ <-]. by apply Hf.
Qed.
Lemma keeps_set_request a g :
  (∀ r h, requests r !! a = Some h → f (r <| requests := <[a := g h]> (requests r) |>) = f r) →
  keeps f (set_request a g).
Proof.
  intros Hf r u r'. unfold set_request, get_request, mbind, M_bind, get, deref.
  destruct (requests r !! a) eqn:E; [|done]. intros [= _ <-]. by apply Hf.
Qed.
Lemma keeps_set_topic a g :
  (∀ r t, topics r !! a = Some t → f (r <| topics := <[a := g t]> (topics r) |>) = f r) →
  keeps f (set_topic a g).
Proof.
  intros Hf r u r'. unfold set_topic, get_topic, mbind, M_bind, get, deref.
  destruct (topics r !! a) eqn:E; [|done]. intros [= _ <-]. by apply Hf.
Qed.
Lemma keeps_set_route a g :
  (∀ r t, routes r !! a = Some t → f (r <| routes := <[a := g t]> (routes r) |>) = f r) →
  keeps f (set_route a g).
Proof.
  intros Hf r u r'. unfold set_route, get_route, mbind, M_bind, get, deref.
  destruct (routes r !! a) eqn:E; [|done]. intros [= _ <-]. by apply Hf.
Qed.
Lemma keeps_set_sock s g :
  (∀ r t, socks r !! s = Some t → f (r <| socks := <[s := g t]> (socks r) |>) = f r) →
  keeps f (set_sock s g).
Proof.
  intros Hf r u r'. unfold set_sock, get_sock, mbind, M_bind, get, deref.
  destruct (socks r !! s) eqn:E; [|done]. intros [= _ <-]. by apply Hf.
Qed.
Lemma keeps_set_table a g :
  (∀ r rt tbl, routes r !! a = Some rt → rt_topics rt = Some tbl →
     f (r <| routes := <[a := rt <| rt_topics := Some (g tbl) |>]> (routes r) |>) = f r) →
  keeps f (set_table a g).
Proof.
  intros Hf r u r'. unfold set_table, get_route, mbind, M_bind, get, deref.
  destruct (routes r !! a) as [rt|] eqn:E; [|done]. simpl.
  destruct (rt_topics rt) eqn:Et; [|done]. intros [= _ <-]. by eapply Hf.
Qed.
Lemma keeps_count g : (∀ r, f (r <| stat ::= g |>) = f r) → keeps f (count g).
Proof. apply keeps_modify. Qed.
Lemma keeps_emit e : (∀ r, f (r <| trace ::= λ t, t ++ [e] |>) = f r) → keeps f (emit e).
Proof. apply keeps_modify. Qed.
End rules.

#[export] Hint Extern 0 (keeps _ (get_hybi _)) => apply keeps_read : keeps.
#[export] Hint Extern 0 (keeps _ (get_topic _)) => apply keeps_read : keeps.
#[export] Hint Extern 0 (keeps _ (get_sub _)) => apply keeps_read : keeps.
#[export] Hint Extern 0 (keeps _ (get_output _)) => apply keeps_read : keeps.
#[export] Hint Extern 0 (keeps _ (get_route _)) => apply keeps_read : keeps.
#[export] Hint Extern 0 (keeps _ (get_sock _)) => apply keeps_read : keeps.
#[export] Hint Extern 0 (keeps _ (get_request _)) => apply keeps_read : keeps.
#[export] Hint Extern 0 (keeps _ (get_bmsg _)) => apply keeps_read : keeps.
#[export] Hint Extern 1 (keeps _ (set_request _ _)) => apply keeps_set_request; intros; done : keeps.
#[export] Hint Extern 0 (keeps _ (count _)) => apply keeps_count; intros ?; done : keeps.
#[export] Hint Extern 0 (keeps _ (emit _)) => apply keeps_emit; intros ?; done : keeps.
#[export] Hint Extern 0 (keeps _ (on_sub_arena _)) => apply keeps_zoom; intros ? ?; done : keeps.
#[export] Hint Extern 0 (keeps _ (on_topic_heap _)) => apply keeps_zoom; intros ? ?; done : keeps.
#[export] Hint Extern 0 (keeps _ (on_hybi_heap _)) => apply keeps_zoom; intros ? ?; done : keeps.
#[export] Hint Extern 0 (keeps _ (on_output_heap _)) => apply keeps_zoom; intros ? ?; done : keeps.
#[export] Hint Extern 0 (keeps _ (on_hsieve _)) => apply keeps_zoom; intros ? ?; done : keeps.
#[export] Hint Extern 0 (keeps _ (on_rsieve _)) => apply keeps_zoom; intros ? ?; done : keeps.
#[export] Hint Extern 1 (keeps _ (set_hybi _ _)) => apply keeps_set_hybi; intros; done : keeps.
#[export] Hint Extern 1 (keeps _ (set_topic _ _)) => apply keeps_set_topic; intros; done : keeps.
#[export] Hint Extern 1 (keeps _ (set_route _ _)) => apply keeps_set_route; intros; done : keeps.
#[export] Hint Extern 1 (keeps _ (set_sock _ _)) => apply keeps_set_sock; intros; done : keeps.
#[export] Hint Extern 1 (keeps _ (set_table _ _)) => apply keeps_set_table; intros; done : keeps.

(** Symbolic execution steps on the root structure whose side condition is a
    lookup in the context. *)
Ltac root_step :=
  lazymatch goal with
  | |- wp (get_hybi _) _ _ => eapply wp_get_hybi; [eassumption|]
  | |- wp (get_topic _) _ _ => eapply wp_get_topic; [eassumption|]
  | |- wp (get_sub _) _ _ => eapply wp_get_sub; [eassumption|]
  | |- wp (get_output _) _ _ => eapply wp_get_output; [eassumption|]
  | |- wp (get_route _) _ _ => eapply wp_get_route; [eassumption|]
  | |- wp (get_sock _) _ _ => eapply wp_get_sock; [eassumption|]
  | |- wp (get_request _) _ _ => eapply wp_get_request; [eassumption|]
  | |- wp (get_bmsg _) _ _ => eapply wp_get_bmsg; [eassumption|]
  | |- wp (set_request _ _) _ _ => eapply wp_set_request; [eassumption|]
  | |- wp (set_hybi _ _) _ _ => eapply wp_set_hybi; [eassumption|]
  | |- wp (set_topic _ _) _ _ => eapply wp_set_topic; [eassumption|]
  | |- wp (set_route _ _) _ _ => eapply wp_set_route; [eassumption|]
  | |- wp (set_sock _ _) _ _ => eapply wp_set_sock; [eassumption|]
  | |- wp (set_table _ _) _ _ => eapply wp_set_table; [eassumption|eassumption|]
  | |- wp (count _) _ _ => apply wp_count
  | |- wp (emit _) _ _ => apply wp_emit
  | |- _ => wp_step
  end; cbn beta.
Ltac root_steps := repeat root_step.

(** The structure before anything was allocated. *)
Definition empty_root : root :=
  let ar := mk_arena empty_heap (mk_pool 32 32 0 []) in
  mk_root [] [] zero_statistics false (mk_sieve 0 0 0 0 []) (mk_sieve 0 0 0 0 []) ∅ empty_heap ∅ empty_heap ∅ ar ∅
    empty_heap ∅ ar ∅ ar ∅ ∅ ∅ 1.

(** A connection without subscriptions and outputs, for use in examples. *)
Definition plain_hybi (ty : hybi_enum) (uid : bytes) (rid : route_id) : hybi :=
  mk_hybi ty 1 uid 0 [] rid [] [] (Some 0) None.

(** A route with websockets enabled. *)
Definition plain_route (hash_size max_backend_queue : Z) : route :=
  mk_route true true true false [] true true hash_size max_backend_queue [] [] None
    100 false [] (str "1728000").

(** A request as the http library passes it on. *)
Definition plain_request (method uri body : string) (rid : route_id) : request :=
  mk_request (str uri) (str method) (str body) None false false (Some rid) None (replicate 40 NUL) 1 0 0
    (str uri) None (Some 2130706433%Z) ∅ true None 0.
