(* ===== verification/Topics.v ===== *)
(** * Topics and subscriptions (websocket.c)

    A route has a chained hash table of topics; a subscription links a
    connection and a topic, on a list of each.  The abstract view is the
    relation [subscribed] between connections and named topics. *)

From S2P Require Import Prelude Sieve Pool MsgQueue Links State.

(** ** Operations *)
Section operations.
Context `{Malloc}.

(** [LIST_REMOVE(sub, topic_list)] and [LIST_REMOVE(sub, client_list)]. *)
Definition remove_from_topic (sub : addr) : MR unit :=
  s ← get_sub sub; set_topic (s_topic s) (λ t, t <| t_subscribers ::= unlink sub |>).
Definition remove_from_client (sub : addr) : MR unit :=
  s ← get_sub sub; set_hybi (s_connection s) (λ h, h <| h_subscribers ::= unlink sub |>).

(** [pool_free(&root.hybi.subscriber_pool, sub)] *)
Definition free_subscriber (sub : addr) : MR unit :=
  on_sub_arena (pool_free sub);; modify (λ r, r <| subs ::= delete sub |>).

(** Both removals, the release and the counters, in the order of [free_topic];
    src/src/websocket.c:41-45 [free_topic] *)
Definition drop_subscriber (rid : route_id) (sub : addr) : MR unit :=
  remove_from_topic sub;;
  remove_from_client sub;;
  free_subscriber sub;;
  set_table rid (λ tbl, tbl <| nsubscriptions ::= λ n, (n - 1)%Z |>);;
  count (λ st, st <| st_websock_unsubscribed ::= plus 1 |>).

(** src/src/websocket.c:36-51 [free_topic] *)
Definition free_topic (a : addr) : MR unit :=
  t ← get_topic a;
  mfor (t_subscribers t) (drop_subscriber (t_table t));;
  set_table (t_table t) (λ tbl, tbl <| table ::= λ o, map (unlink a) <$> o |>);;
  set_table (t_table t) (λ tbl, tbl <| ntopics ::= λ n, (n - 1)%Z |>);;
  count (λ st, st <| st_topics_removed ::= plus 1 |>);;
  on_topic_heap (free a);; modify (λ r, r <| topics ::= delete a |>).

(** [res += (res<<1) + (res<<4) + ...] on a [size_t]; the byte is a [char]. *)
Definition topic_hash_step (res : Z) (c : ascii) : Z :=
  let res := u64 (res + (Z.shiftl res 1 + Z.shiftl res 4 + Z.shiftl res 7
                         + Z.shiftl res 8 + Z.shiftl res 24)) in
  Z.lxor res (u64 (schar c)).

(** src/src/websocket.c:367-374 [topic_hash] *)
Definition topic_hash (s : bytes) : Z := foldl topic_hash_step 0%Z s.

Definition sizeof_topic : Z := 48.
Definition sizeof_topic_hash : Z := 24.
Definition sizeof_ptr : Z := 8.

(** src/src/websocket.c:376-386 [mktopic] *)
Definition mktopic (rid : route_id) (name : bytes) (hash : Z) : MR (option addr) :=
  result ← on_topic_heap (malloc (sizeof_topic + Z.of_nat (length name)));
  match result with
  | None => mret None
  | Some result =>
      count (λ st, st <| st_topics_created ::= plus 1 |>);;
      modify (λ r, r <| topics ::= <[result := mk_topic rid [] hash name]> |>);;
      mret (Some result)
  end.

(** [LIST_INSERT_HEAD((struct topic_head * )&table->table[cell], result, topic_list)],
    which writes to [result] without a test for NULL. *)
Definition insert_topic (rid : route_id) (cell : nat) (result : option addr) : MR unit :=
  result ← deref NullDeref result;
  rt ← get_route rid;
  tbl ← deref NullDeref (rt_topics rt);
  bs ← deref NullDeref (table tbl);
  l ← deref OutOfBounds (bs !! cell);
  set_table rid (λ tbl, tbl <| table := Some (<[cell := result :: l]> bs) |>).

(** [hash % table->hash_size], in [size_t]. *)
Definition topic_cell (hash hash_size : Z) : MR nat :=
  if (u64 hash_size =? 0)%Z then undefined DivisionByZero
  else mret (Z.to_nat (hash mod u64 hash_size)).

(** src/src/websocket.c:402-414 [find_topic] *)
Definition find_topic_first (rid : route_id) (name : bytes) (hash : Z) : MR (option addr) :=
  rt ← get_route rid;
  set_table rid (λ tbl, tbl <| hash_size := rt_topic_hash_size rt |>);;
  cells ← on_topic_heap (malloc (rt_topic_hash_size rt * sizeof_ptr));
  match cells with
  | None => undefined NullDeref       (* bzero of the result precedes the test *)
  | Some _ =>
      set_table rid (λ tbl, tbl <| table := Some (replicate (Z.to_nat (rt_topic_hash_size rt)) []) |>
                                <| ntopics := 1%Z |> <| nsubscriptions := 0%Z |>);;
      result ← mktopic rid name hash;
      bucket ← topic_cell hash (rt_topic_hash_size rt);
      insert_topic rid bucket result;;
      mret result
  end.

(** The comparison of [LIST_FOREACH(current, ...)]; src/src/websocket.c:426-431 [find_topic] *)
Fixpoint search_topic (hash : Z) (name : bytes) (l : list addr) : MR (option addr) :=
  match l with
  | [] => mret None
  | current :: l =>
      t ← get_topic current;
      if (Z.of_nat (length (t_name t)) =? Z.of_nat (length name))%Z
         && (t_hash t =? hash)%Z && bool_decide (t_name t = name)
      then mret (Some current)
      else search_topic hash name l
  end.

(** src/src/websocket.c:416-437 [find_topic] *)
Definition find_topic_in (rid : route_id) (tbl : topic_table) (bs : list (list addr))
    (name : bytes) (hash : Z) (create : bool) : MR (option addr) :=
  cell ← topic_cell hash (hash_size tbl);
  l ← deref OutOfBounds (bs !! cell);
  found ← search_topic hash name l;
  match found with
  | Some current => mret (Some current)
  | None =>
      if negb create then mret None
      else
        match l with
        | [] =>
            result ← mktopic rid name hash;
            set_table rid (λ tbl, tbl <| ntopics ::= λ n, (n + 1)%Z |>);;
            insert_topic rid cell result;; mret result
        | _ :: _ =>
            set_table rid (λ tbl, tbl <| ntopics ::= λ n, (n + 1)%Z |>);;
            result ← mktopic rid name hash;
            insert_topic rid cell result;; mret result
        end
  end.

(** [msg] is the data of the message; [topic_len] is an [int], and a negative
    one makes [topic_hash] run past the message;
    src/src/websocket.c:388-401 [find_topic] *)
Definition find_topic (rid : route_id) (msg : bytes) (create : bool) : MR (option addr) :=
  if (i32 (Z.of_nat (length msg)) <? 0)%Z then undefined OutOfBounds
  else
    let name := take (Z.to_nat (i32 (Z.of_nat (length msg)))) msg in
    let hash := topic_hash name in
    rt ← get_route rid;
    match rt_topics rt with
    | None =>
        if negb create then mret None
        else
          tbl ← on_topic_heap (malloc sizeof_topic_hash);
          match tbl with
          | None => mret None
          | Some _ =>
              set_route rid (λ rt, rt <| rt_topics := Some (mk_topic_table 0 0 0 None) |>);;
              find_topic_first rid name hash
          end
    | Some tbl =>
        match table tbl with
        | None => if negb create then mret None else find_topic_first rid name hash
        | Some bs => find_topic_in rid tbl bs name hash create
        end
    end.

(** [LIST_FOREACH(sub, &hybi->subscribers, client_list) if(sub->topic == topic) break] *)
Fixpoint find_subscription (a : addr) (l : list addr) : MR (option addr) :=
  match l with
  | [] => mret None
  | sub :: l =>
      s ← get_sub sub;
      if decide (s_topic s = a) then mret (Some sub) else find_subscription a l
  end.

(** src/src/websocket.c:440-457 [topic_subscribe] *)
Definition topic_subscribe (h a : addr) : MR bool :=
  hy ← get_hybi h;
  found ← find_subscription a (h_subscribers hy);
  match found with
  | Some _ => mret true
  | None =>
      sub ← on_sub_arena pool_alloc;
      match sub with
      | None => mret false
      | Some sub =>
          modify (λ r, r <| subs ::= <[sub := mk_subscriber a h]> |>);;
          set_topic a (λ t, t <| t_subscribers ::= cons sub |>);;
          set_hybi h (λ hy, hy <| h_subscribers ::= cons sub |>);;
          t ← get_topic a;
          set_table (t_table t) (λ tbl, tbl <| nsubscriptions ::= λ n, (n + 1)%Z |>);;
          count (λ st, st <| st_websock_subscribed ::= plus 1 |>);;
          mret true
      end
  end.

(** src/src/websocket.c:459-477 [topic_unsubscribe] *)
Definition topic_unsubscribe (h a : addr) : MR bool :=
  hy ← get_hybi h;
  found ← find_subscription a (h_subscribers hy);
  match found with
  | None => mret false
  | Some sub =>
      remove_from_topic sub;;
      remove_from_client sub;;
      t ← get_topic a;
      (match t_subscribers t with [] => free_topic a | _ :: _ => mret tt end);;
      free_subscriber sub;;
      set_table (t_table t) (λ tbl, tbl <| nsubscriptions ::= λ n, (n - 1)%Z |>);;
      count (λ st, st <| st_websock_unsubscribed ::= plus 1 |>);;
      mret true
  end.

(** [topic_subscribe] removes nothing from a list and inserts at the head of the
    target's only, so that the nodes visited are those linked at the start;
    src/src/websocket.c:520-530 [topic_clone] *)
Definition topic_clone (source target : addr) : MR unit :=
  src ← get_topic source;
  mfor (t_subscribers src) (λ sub,
    s ← get_sub sub;
    _ ← topic_subscribe (s_connection s) target;
    mret tt);;
  t ← get_topic target;
  match t_subscribers t with [] => free_topic target | _ :: _ => mret tt end.

(** The four commands of the backend that only change subscriptions, after their
    arguments were checked; false is [goto msg_error]. *)
Inductive topic_op :=
  | TSubscribe (h : addr) (rid : route_id) (name : bytes)
  | TUnsubscribe (h : addr) (rid : route_id) (name : bytes)
  | TClone (rid : route_id) (source target : bytes)
  | TDrop (rid : route_id) (name : bytes).

(** src/src/websocket.c:551-559 [websock_process] *)
Definition subscribe_command (h : addr) (rid : route_id) (name : bytes) : MR bool :=
  topic ← find_topic rid name true;
  ok ← (match topic with Some t => topic_subscribe h t | None => mret false end : MR bool);
  if ok : bool then mret true
  else
    t ← deref NullDeref topic;
    tp ← get_topic t;
    (match t_subscribers tp with [] => free_topic t | _ :: _ => mret tt end);;
    mret true.

(** src/src/websocket.c:567-569 [websock_process] *)
Definition unsubscribe_command (h : addr) (rid : route_id) (name : bytes) : MR bool :=
  topic ← find_topic rid name false;
  match topic with
  | None => mret false
  | Some t => topic_unsubscribe h t;; mret true
  end.

(** src/src/websocket.c:599-615 [websock_process] *)
Definition clone_command (rid : route_id) (source target : bytes) : MR bool :=
  src ← find_topic rid source false;
  match src with
  | None => mret true
  | Some src =>
      tgt ← find_topic rid target true;
      match tgt with
      | Some tgt => topic_clone src tgt;; mret true
      | None => mret true
      end
  end.

(** src/src/websocket.c:616-622 [websock_process] *)
Definition drop_command (rid : route_id) (name : bytes) : MR bool :=
  topic ← find_topic rid name false;
  match topic with
  | Some t => free_topic t;; mret true
  | None => mret true
  end.

Definition topic_command (op : topic_op) : MR bool :=
  match op with
  | TSubscribe h rid name => subscribe_command h rid name
  | TUnsubscribe h rid name => unsubscribe_command h rid name
  | TClone rid source target => clone_command rid source target
  | TDrop rid name => drop_command rid name
  end.

Definition topic_history (ops : list topic_op) : MR unit :=
  mfor ops (λ op, topic_command op;; mret tt).
End operations.

(** ** Abstract specification

    A set of triples: connection, route and topic name. *)
Definition pubsub := gset (nat * nat * bytes).

Definition pubsub_step (op : topic_op) (S : pubsub) : pubsub :=
  match op with
  | TSubscribe h rid name => {[(h, rid, name)]} ∪ S
  | TUnsubscribe h rid name => S ∖ {[(h, rid, name)]}
  | TClone rid source target =>
      S ∪ set_map (λ p : nat * nat * bytes, (p.1.1, rid, target))
            (filter (λ p : nat * nat * bytes, p.1.2 = rid ∧ p.2 = source) S)
  | TDrop rid name => filter (λ p : nat * nat * bytes, ¬ (p.1.2 = rid ∧ p.2 = name)) S
  end.

Definition pubsub_history (ops : list topic_op) (S : pubsub) : pubsub :=
  foldl (λ S op, pubsub_step op S) S ops.

(** Commands name existing connections and routes; messages are below 2 GiB. *)
Definition op_ok (r : root) (op : topic_op) : Prop :=
  let small (name : bytes) := (Z.of_nat (length name) < 2 ^ 31)%Z in
  match op with
  | TSubscribe h rid name | TUnsubscribe h rid name =>
      is_Some (hybis r !! h) ∧ is_Some (routes r !! rid) ∧ small name
  | TClone rid source target => is_Some (routes r !! rid) ∧ small source ∧ small target
  | TDrop rid name => is_Some (routes r !! rid) ∧ small name
  end.

(** ** Invariant *)

(** Table, hash and name of a topic, which never change. *)
Definition topic_key (t : topic) : nat * Z * bytes := (t_table t, t_hash t, t_name t).
Definition keys (r : root) : gmap nat (nat * Z * bytes) := topic_key <$> topics r.

(** All topics linked in the table of a route. *)
Definition table_items (rt : route) : list addr :=
  match rt_topics rt with
  | Some tbl => match table tbl with Some bs => concat bs | None => [] end
  | None => []
  end.

(** The linked subscriptions [E]: each one is on the list of its topic and on
    that of its connection, and no connection subscribes twice to a topic. *)
Record subs_ok (E : gmap nat subscriber) (r : root) : Prop := {
  so_topic : side_ok (s_topic <$> E) (t_subscribers <$> topics r);
  so_client : side_ok (s_connection <$> E) (h_subscribers <$> hybis r);
  so_uniq : ∀ e e' s, E !! e = Some s → E !! e' = Some s → e = e';
  so_pool : pool_ok (dom (subs r)) (sub_arena r);
}.

Definition cell_of (hash hash_size : Z) : nat := Z.to_nat (hash mod u64 hash_size).

(** A table has as many cells as it says, counts its topics, and has each in
    the cell of its hash. *)
Definition table_ok (ks : gmap nat (nat * Z * bytes)) (rt : route) : Prop :=
  (0 < rt_topic_hash_size rt < 2 ^ 31)%Z ∧
  ∀ tbl bs, rt_topics rt = Some tbl → table tbl = Some bs →
    hash_size tbl = Z.of_nat (length bs) ∧ (0 < hash_size tbl < 2 ^ 31)%Z ∧
    ntopics tbl = Z.of_nat (length (concat bs)) ∧
    ∀ i l a k, bs !! i = Some l → a ∈ l → ks !! a = Some k →
      i = cell_of k.1.2 (hash_size tbl).

Record tables_ok (ks : gmap nat (nat * Z * bytes)) (rts : gmap nat route) (h : heap) : Prop := {
  to_heap : heap_wf h;
  to_live : dom ks ⊆ live h;
  to_side : side_ok ((λ k, k.1.1) <$> ks) (table_items <$> rts);
  to_table : ∀ rid rt, rts !! rid = Some rt → table_ok ks rt;
  to_hash : ∀ a k, ks !! a = Some k → k.1.2 = topic_hash k.2;
  to_uniq : ∀ a a' k, ks !! a = Some k → ks !! a' = Some k → a = a';
}.

Record topics_ok (r : root) : Prop := {
  tk_subs : subs_ok (subs r) r;
  tk_tables : tables_ok (keys r) (routes r) (topic_heap r);
}.

(** ** Abstract view *)

(** The topic of a route with a given name. *)
Definition named (r : root) (rid : nat) (name : bytes) (a : addr) : Prop :=
  keys r !! a = Some (rid, topic_hash name, name).

(** Connection [c] is subscribed to the topic called [name] on route [rid]. *)
Definition subscribed (r : root) (c : addr) (rid : nat) (name : bytes) : Prop :=
  ∃ e a, subs r !! e = Some (mk_subscriber a c) ∧ named r rid name a.

(** A route apart from its topics. *)
Definition static_route (rt : route) : route := rt <| rt_topics := None |>.

(** What these operations do not touch: the traffic, the connections apart from
    their subscription lists, their outputs and all queues. *)
Definition untouched (r : root) :=
  (trace r, (instance_id r, paused r, hsieve r, hybi_heap r, request_sieve r, requests r),
   (λ h, h <| h_subscribers := [] |>) <$> hybis r, (output_heap r, outputs r),
   (backend_arena r, bmsgs r), (frontend_arena r, fmsgs r),
   static_route <$> routes r, socks r).

(** ** Lemmas *)
Section lemmas.
Context `{Malloc}.
Implicit Types (r : root) (E : gmap nat subscriber).

Lemma untouched_hybi r c h h' :
  hybis r !! c = Some h → h' <| h_subscribers := [] |> = h <| h_subscribers := [] |> →
  untouched (r <| hybis := <[c := h']> (hybis r) |>) = untouched r.
Proof.
  intros Hc Hh. unfold untouched. simpl. by erewrite fmap_insert_same.
Qed.

Lemma untouched_route r c rt rt' :
  routes r !! c = Some rt → rt' <| rt_topics := None |> = rt <| rt_topics := None |> →
  untouched (r <| routes := <[c := rt']> (routes r) |>) = untouched r.
Proof.
  intros Hc Hh. unfold untouched. simpl. by erewrite fmap_insert_same.
Qed.

Lemma keeps_untouched_hybi c f :
  keeps untouched (set_hybi c (λ h, h <| h_subscribers ::= f |>)).
Proof. apply keeps_set_hybi. intros. by eapply untouched_hybi. Qed.

Lemma keeps_untouched_table c f : keeps untouched (set_table c f).
Proof. apply keeps_set_table. intros. by eapply untouched_route. Qed.

Lemma keeps_untouched_topics c f :
  keeps untouched (set_route c (λ rt, rt <| rt_topics := f |>)).
Proof. apply keeps_set_route. intros. by eapply untouched_route. Qed.

Hint Resolve keeps_untouched_hybi keeps_untouched_table keeps_untouched_topics : keeps.

Lemma keeps_free_topic a : keeps untouched (free_topic a).
Proof.
  unfold free_topic, drop_subscriber, remove_from_topic, remove_from_client, free_subscriber.
  solve_keeps.
Qed.

Lemma keeps_mktopic rid name hash : keeps untouched (mktopic rid name hash).
Proof. unfold mktopic. solve_keeps. Qed.

Lemma keeps_search_topic {T} (f : root → T) hash name l : keeps f (search_topic hash name l).
Proof. induction l; simpl; solve_keeps. Qed.

Lemma keeps_find_subscription {T} (f : root → T) a l : keeps f (find_subscription a l).
Proof. induction l; simpl; solve_keeps. Qed.

Hint Resolve keeps_free_topic keeps_mktopic keeps_search_topic keeps_find_subscription : keeps.

Lemma keeps_find_topic rid name create : keeps untouched (find_topic rid name create).
Proof.
  unfold find_topic, find_topic_first, find_topic_in, insert_topic, topic_cell. solve_keeps.
Qed.

Lemma keeps_topic_subscribe h a : keeps untouched (topic_subscribe h a).
Proof. unfold topic_subscribe. solve_keeps. Qed.

Lemma keeps_topic_unsubscribe h a : keeps untouched (topic_unsubscribe h a).
Proof.
  unfold topic_unsubscribe, remove_from_topic, remove_from_client, free_subscriber. solve_keeps.
Qed.

Hint Resolve keeps_topic_subscribe : keeps.

Lemma keeps_topic_clone a b : keeps untouched (topic_clone a b).
Proof. unfold topic_clone. solve_keeps. Qed.
End lemmas.

Section tables.
Implicit Types (ks : gmap nat (nat * Z * bytes)) (rts : gmap nat route).

Lemma tables_ok_lookup ks rts h a k :
  tables_ok ks rts h → ks !! a = Some k →
  ∃ rt tbl bs, rts !! k.1.1 = Some rt ∧ rt_topics rt = Some tbl ∧ table tbl = Some bs ∧
    a ∈ concat bs.
Proof.
  intros Hok Ha. destruct (to_side _ _ _ Hok) as [Hn _].
  destruct (Hn a k.1.1) as (xs & Hxs & Hin); [by rewrite lookup_fmap, Ha|].
  rewrite lookup_fmap in Hxs. destruct (rts !! k.1.1) as [rt|]; [|done].
  injection Hxs as <-. unfold table_items in Hin.
  destruct (rt_topics rt) as [tbl|] eqn:Et; [|set_solver].
  destruct (table tbl) as [bs|] eqn:Eb; [|set_solver]. eauto 10.
Qed.

(** Counters of a table other than [ntopics]. *)
Lemma tables_ok_update ks rts h rid rt tbl tbl' :
  tables_ok ks rts h → rts !! rid = Some rt → rt_topics rt = Some tbl →
  table tbl' = table tbl → hash_size tbl' = hash_size tbl → ntopics tbl' = ntopics tbl →
  tables_ok ks (<[rid := rt <| rt_topics := Some tbl' |>]> rts) h.
Proof.
  intros [Hh Hl Hs Ht Hha Hu] Hr Et E1 E2 E3. split; auto.
  - erewrite fmap_insert_same; [done..|]. unfold table_items. simpl. by rewrite Et, E1.
  - intros rid' rt'. rewrite lookup_insert_Some. intros [[<- <-]|[_ ?]]; [|eauto].
    destruct (Ht _ _ Hr) as [Hsz Hb]. split; [done|]. simpl. intros tbl0 bs [= <-].
    rewrite E1, E2, E3. by apply Hb.
Qed.

Lemma concat_unlink a (bs : list (list nat)) : concat (map (unlink a) bs) = unlink a (concat bs).
Proof. induction bs as [|l bs IH]; [done|]. simpl. by rewrite IH, unlink_app. Qed.

Lemma side_unlinked (tot : gmap nat nat) (ls : gmap nat (list nat)) a k xs :
  side_ok tot ls → tot !! a = Some k → ls !! k = Some xs → NoDup xs ∧ a ∈ xs.
Proof.
  intros Hok Ha Hk. split; [by eapply side_NoDup|]. by eapply side_elem.
Qed.

Lemma tables_ok_remove ks rts h h' a k rt tbl bs tbl' :
  tables_ok ks rts h → ks !! a = Some k → rts !! k.1.1 = Some rt →
  rt_topics rt = Some tbl → table tbl = Some bs →
  table tbl' = Some (map (unlink a) bs) → hash_size tbl' = hash_size tbl →
  ntopics tbl' = (ntopics tbl - 1)%Z → heap_wf h' → live h' = live h ∖ {[a]} →
  tables_ok (delete a ks) (<[k.1.1 := rt <| rt_topics := Some tbl' |>]> rts) h'.
Proof.
  intros [Hh Hl Hs Ht Hha Hu] Ha Hr Et Eb E1 E2 E3 Hh' Hl'.
  assert (Hls : (table_items <$> rts) !! k.1.1 = Some (concat bs)).
  { rewrite lookup_fmap, Hr. simpl. unfold table_items. by rewrite Et, Eb. }
  assert (Hk : ((λ k : nat * Z * bytes, k.1.1) <$> ks) !! a = Some k.1.1)
    by by rewrite lookup_fmap, Ha.
  split; auto.
  - rewrite Hl'. rewrite dom_delete. set_solver.
  - rewrite fmap_delete, fmap_insert. unfold table_items at 1. simpl. rewrite E1, concat_unlink.
    eapply side_delete; [done|by rewrite lookup_fmap, Ha|done].
  - intros rid' rt'. rewrite lookup_insert_Some. intros [[<- <-]|[_ Hr']].
    + destruct (Ht _ _ Hr) as [Hsz Hb]. split; [done|]. simpl. intros tbl0 bs0 [= <-] Hbs0.
      rewrite E1 in Hbs0. injection Hbs0 as <-. rewrite E2, E3, length_map.
      destruct (Hb _ _ Et Eb) as (? & ? & Hn & Hc). split_and!; [done|lia|lia| |].
      * rewrite concat_unlink. destruct (side_unlinked _ _ _ _ _ Hs Hk Hls) as [Hnd Hin].
        pose proof (length_unlink _ _ Hnd Hin). lia.
      * intros i l a' k'. rewrite list_lookup_fmap, fmap_Some. intros (l0 & Hl0 & ->).
        intros [Hin _]%elem_of_unlink [_ Hk']%lookup_delete_Some. by eapply Hc.
    + destruct (Ht _ _ Hr') as [Hsz Hb]. split; [done|]. intros tbl0 bs0 Et0 Eb0.
      destruct (Hb _ _ Et0 Eb0) as (? & ? & Hn & Hc). split_and!; [done|lia|lia|done|].
      intros i l a' k' Hi Hin [_ Hk']%lookup_delete_Some. by eapply Hc.
  - intros a' k' [_ ?]%lookup_delete_Some. eauto.
  - intros a' a'' k' [_ ?]%lookup_delete_Some [_ ?]%lookup_delete_Some. eauto.
Qed.

Lemma concat_insert_perm (bs : list (list nat)) cell l a :
  bs !! cell = Some l → concat (<[cell := a :: l]> bs) ≡ₚ a :: concat bs.
Proof.
  intros Hc. rewrite insert_take_drop by by eapply lookup_lt_Some.
  rewrite <- (take_drop_middle bs cell l Hc) at 3. rewrite !concat_app. simpl.
  symmetry. apply Permutation_middle.
Qed.

Lemma tables_ok_add ks rts h h' a rid hash name rt tbl bs l tbl' :
  tables_ok ks rts h → ks !! a = None → rts !! rid = Some rt →
  rt_topics rt = Some tbl → table tbl = Some bs →
  hash = topic_hash name → (∀ a', ks !! a' ≠ Some (rid, hash, name)) →
  bs !! cell_of hash (hash_size tbl) = Some l →
  table tbl' = Some (<[cell_of hash (hash_size tbl) := a :: l]> bs) →
  hash_size tbl' = hash_size tbl → ntopics tbl' = (ntopics tbl + 1)%Z →
  heap_wf h' → live h' = {[a]} ∪ live h →
  tables_ok (<[a := (rid, hash, name)]> ks) (<[rid := rt <| rt_topics := Some tbl' |>]> rts) h'.
Proof.
  intros [Hh Hl Hs Ht Hha Hu] Ha Hr Et Eb Hhash Hnew Hcell E1 E2 E3 Hh' Hl'.
  assert (Hls : (table_items <$> rts) !! rid = Some (concat bs)).
  { rewrite lookup_fmap, Hr. simpl. unfold table_items. by rewrite Et, Eb. }
  split; auto.
  - rewrite Hl', dom_insert. set_solver.
  - rewrite !fmap_insert. simpl. eapply side_insert; [done|by rewrite lookup_fmap, Ha|done|].
    unfold table_items. simpl. rewrite E1. by apply concat_insert_perm.
  -
    assert (Hfresh : ∀ rid' rt' tbl0 bs0 i l0, rts !! rid' = Some rt' → rt_topics rt' = Some tbl0 →
              table tbl0 = Some bs0 → bs0 !! i = Some l0 → a ∉ l0).
    { intros rid' rt' tbl0 bs0 i l0 Hr' Et' Eb' Hi Hin.
      assert (Hls' : (table_items <$> rts) !! rid' = Some (concat bs0)).
      { rewrite lookup_fmap, Hr'. simpl. unfold table_items. by rewrite Et', Eb'. }
      assert (a ∈ concat bs0) as Hin'.
      { apply elem_of_concat. eauto. }
      rewrite (side_elem _ _ _ _ _ Hs Hls'), lookup_fmap, Ha in Hin'. done. }
    intros rid' rt'. rewrite lookup_insert_Some. intros [[<- <-]|[_ Hr']].
    + destruct (Ht _ _ Hr) as [Hsz Hb]. split; [done|]. simpl. intros tbl0 bs0 [= <-] Hbs0.
      rewrite E1 in Hbs0. injection Hbs0 as <-. rewrite E2, E3, length_insert.
      destruct (Hb _ _ Et Eb) as (? & ? & Hn & Hc). split_and!; [done|lia|lia| |].
      * rewrite (Permutation_length (concat_insert_perm _ _ _ _ Hcell)). simpl. lia.
      * intros i l0 a' k'. rewrite list_lookup_insert_Some.
        intros [(<- & <- & _)|[Hne Hi]] Hin; rewrite lookup_insert_Some.
        -- intros [[<- <-]|[Hnea Hk']]; [done|]. eapply Hc; [done| |done]. set_solver.
        -- intros [[<- <-]|[Hnea Hk']]; [|by eapply Hc]. by destruct (Hfresh _ _ _ _ _ _ Hr Et Eb Hi).
    + destruct (Ht _ _ Hr') as [Hsz Hb]. split; [done|]. intros tbl0 bs0 Et0 Eb0.
      destruct (Hb _ _ Et0 Eb0) as (? & ? & Hn & Hc). split_and!; [done|lia|lia|done|].
      intros i l0 a' k' Hi Hin. rewrite lookup_insert_Some.
      intros [[<- <-]|[Hnea Hk']]; [|by eapply Hc]. by destruct (Hfresh _ _ _ _ _ _ Hr' Et0 Eb0 Hi).
  - intros a' k'. rewrite lookup_insert_Some. intros [[<- <-]|[_ ?]]; [done|eauto].
  - intros a' a'' k'. rewrite !lookup_insert_Some.
    intros [[<- <-]|[? E']] [[<- E'']|[? ?]]; [done|naive_solver|subst; naive_solver|eauto].
Qed.

Lemma tables_ok_heap ks rts h h' :
  tables_ok ks rts h → heap_wf h' → live h ⊆ live h' → tables_ok ks rts h'.
Proof. intros [] ? ?. split; auto. set_solver. Qed.

(** The table of a route is set up: no topic is linked in it. *)
Lemma tables_ok_first ks rts h rid rt n :
  tables_ok ks rts h → rts !! rid = Some rt → table_items rt = [] →
  tables_ok ks (<[rid := rt <| rt_topics := Some (mk_topic_table (rt_topic_hash_size rt) 0 n
     (Some (replicate (Z.to_nat (rt_topic_hash_size rt)) []))) |>]> rts) h.
Proof.
  intros [Hh Hl Hs Ht Hha Hu] Hr Hnil.
  assert (Hrep : ∀ m, concat (replicate m []) =@{list nat} []) by by induction m.
  split; auto.
  - erewrite fmap_insert_same; [done..|]. rewrite Hnil. unfold table_items. simpl. apply Hrep.
  - intros rid' rt'. rewrite lookup_insert_Some. intros [[<- <-]|[_ ?]]; [|eauto].
    destruct (Ht _ _ Hr) as [Hsz _]. split; [done|]. simpl. intros tbl0 bs [= <-]. simpl.
    intros [= <-]. rewrite length_replicate, Hrep. simpl. split_and!; try lia.
    intros i l a k Hi Hin. apply lookup_replicate in Hi as [-> _]. set_solver.
Qed.

Lemma cell_of_lookup {A} hash n (bs : list A) :
  n = Z.of_nat (length bs) → (0 < n < 2 ^ 31)%Z → ∃ l, bs !! cell_of hash n = Some l.
Proof.
  intros -> Hn. apply lookup_lt_is_Some. unfold cell_of. rewrite u64_small by lia.
  pose proof (Z.mod_pos_bound hash (Z.of_nat (length bs))). lia.
Qed.

Lemma wp_topic_cell hash n Q (r : root) :
  (0 < n < 2 ^ 31)%Z → Q (cell_of hash n) r → wp (topic_cell hash n) Q r.
Proof.
  intros Hn HQ. unfold topic_cell. destruct (Z.eqb_spec (u64 n) 0) as [E|]; [|done].
  rewrite u64_small in E by lia. lia.
Qed.
End tables.

Section subscriptions.
Context `{Malloc}.
Implicit Types (r : root) (E : gmap nat subscriber).

Lemma keys_same r a t t' :
  topics r !! a = Some t → topic_key t' = topic_key t →
  topic_key <$> <[a := t']> (topics r) = keys r.
Proof. apply fmap_insert_same. Qed.

Lemma subs_ok_lookup E r e s :
  subs_ok E r → E !! e = Some s →
  ∃ t h, topics r !! s_topic s = Some t ∧ e ∈ t_subscribers t ∧
         hybis r !! s_connection s = Some h ∧ e ∈ h_subscribers h.
Proof.
  intros [[Ht _] [Hc _] _ _] He.
  destruct (Ht e (s_topic s)) as (xs & Hxs & Hin); [by rewrite lookup_fmap, He|].
  destruct (Hc e (s_connection s)) as (ys & Hys & Hin'); [by rewrite lookup_fmap, He|].
  rewrite lookup_fmap, fmap_Some in Hxs. rewrite lookup_fmap, fmap_Some in Hys. naive_solver.
Qed.

Lemma subs_ok_topic E r a t e :
  subs_ok E r → topics r !! a = Some t →
  e ∈ t_subscribers t ↔ ∃ s, E !! e = Some s ∧ s_topic s = a.
Proof.
  intros Hok Ha. rewrite (side_elem _ _ _ _ _ (so_topic _ _ Hok)) by eauto.
  rewrite lookup_fmap, fmap_Some. naive_solver.
Qed.

Lemma subs_ok_client E r c h e :
  subs_ok E r → hybis r !! c = Some h →
  e ∈ h_subscribers h ↔ ∃ s, E !! e = Some s ∧ s_connection s = c.
Proof.
  intros Hok Ha. rewrite (side_elem _ _ _ _ _ (so_client _ _ Hok)) by eauto.
  rewrite lookup_fmap, fmap_Some. naive_solver.
Qed.

Lemma subs_ok_delete E r r' sub s t h :
  subs_ok E r → E !! sub = Some s → topics r !! s_topic s = Some t →
  hybis r !! s_connection s = Some h →
  t_subscribers <$> topics r' =
    <[s_topic s := unlink sub (t_subscribers t)]> (t_subscribers <$> topics r) →
  h_subscribers <$> hybis r' =
    <[s_connection s := unlink sub (h_subscribers h)]> (h_subscribers <$> hybis r) →
  pool_ok (dom (subs r')) (sub_arena r') →
  subs_ok (delete sub E) r'.
Proof.
  intros [Ht Hc Hu _] He Hta Hh Ht' Hh' Hp. split; [| | |done].
  - rewrite Ht', fmap_delete. eapply side_delete; eauto.
  - rewrite Hh', fmap_delete. eapply side_delete; eauto.
  - intros e e' s' [_ ?]%lookup_delete_Some [_ ?]%lookup_delete_Some. eauto.
Qed.

Lemma wp_free_subscriber sub s (Q : unit → root → Prop) r :
  pool_ok (dom (subs r)) (sub_arena r) → subs r !! sub = Some s →
  (∀ a, pool_ok (dom (delete sub (subs r))) a →
     Q tt (r <| sub_arena := a |> <| subs := delete sub (subs r) |>)) →
  wp (free_subscriber sub) Q r.
Proof.
  intros Hp Hs HQ. unfold free_subscriber, on_sub_arena. root_steps.
  eapply wp_pool_free; [exact Hp|by eapply elem_of_dom_2|]. intros a Ha _. root_steps.
  apply HQ. by rewrite dom_delete_L.
Qed.

Definition tables_of r : Prop := tables_ok (keys r) (routes r) (topic_heap r).

Lemma wp_drop_subscriber E r sub s t :
  subs_ok E r → E ⊆ subs r → E !! sub = Some s → topics r !! s_topic s = Some t →
  tables_of r →
  wp (drop_subscriber (t_table t) sub) (λ _ r',
    subs_ok (delete sub E) r' ∧ tables_of r' ∧ keys r' = keys r ∧
    subs r' = delete sub (subs r) ∧
    topics r' = <[s_topic s := t <| t_subscribers ::= unlink sub |>]> (topics r)) r.
Proof.
  intros Hok Hsub He Ht Htab.
  assert (Hs : subs r !! sub = Some s) by by eapply lookup_weaken.
  destruct (subs_ok_lookup _ _ _ _ Hok He) as (t' & h & Ht' & _ & Hh & _). rewrite Ht in Ht'. injection Ht' as <-.
  assert (Hk : keys r !! s_topic s = Some (topic_key t)) by by apply lookup_fmap_Some'.
  destruct (tables_ok_lookup _ _ _ _ _ Htab Hk) as (rt & tbl & bs & Hrt & Htbl & Hbs & _).
  unfold drop_subscriber, remove_from_topic, remove_from_client. root_steps.
  eapply wp_free_subscriber; [apply Hok|done|]. intros a Ha. simpl in Hrt. root_steps.
  split_and!; [| | |done|done].
  - eapply subs_ok_delete; [done..| | |done]; simpl; by rewrite fmap_insert.
  - unfold tables_of, keys. simpl. erewrite keys_same by done.
    by eapply tables_ok_update.
  - by apply keys_same with t.
Qed.

Definition has_table r rid : Prop :=
  ∃ rt tbl, routes r !! rid = Some rt ∧ rt_topics rt = Some tbl.

(** The effect of [free_topic]: the topic and its subscriptions are gone. *)
Lemma wp_free_topic E r a t :
  subs_ok E r → E ⊆ subs r → topics r !! a = Some t → tables_of r →
  wp (free_topic a) (λ _ r',
    subs_ok (without (t_subscribers t) E) r' ∧ tables_of r' ∧ keys r' = delete a (keys r) ∧
    subs r' = without (t_subscribers t) (subs r) ∧ has_table r' (t_table t)) r.
Proof.
  intros Hok Hsub Ht Htab. unfold free_topic. root_steps.
  set (I := λ (l : list nat) (r' : root), ∃ v, t_subscribers t = v ++ l ∧
    subs_ok (without v E) r' ∧ subs r' = without v (subs r) ∧
    tables_of r' ∧ keys r' = keys r ∧ topics r' !! a = Some (t <| t_subscribers := l |>)).
  assert (Hle : ∀ v, without v E ⊆ without v (subs r)).
  { intros v. apply map_subseteq_spec. intros i x. rewrite !lookup_without.
    intros [? ?]. split; [by eapply lookup_weaken|done]. }
  apply (wp_mfor I).
  - exists []. rewrite !without_nil. split_and!; try done. by destruct t.
  - clear Hok. intros sub l r' (v & Hv & Hok & HS & Htab' & Hk & Ht').
    assert (Hin : sub ∈ t_subscribers (t <| t_subscribers := sub :: l |>)) by by left.
    rewrite (subs_ok_topic _ _ _ _ _ Hok Ht') in Hin. destruct Hin as (s & Hs & <-).
    pose proof (side_NoDup _ _ _ _ (so_topic _ _ Hok) (lookup_fmap_Some' t_subscribers _ _ _ Ht'))
      as Hnd. apply NoDup_cons in Hnd as [Hnl Hnd].
    assert (Hsub' : without v E ⊆ subs r') by by rewrite HS.
    eapply wp_mono; [by apply (wp_drop_subscriber _ r' sub s _ Hok Hsub' Hs Ht' Htab')|].
    intros _ r'' (Hok'' & Htab'' & Hk'' & Hs'' & Ht''). exists (v ++ [sub]).
    rewrite <- without_snoc. split_and!; [by rewrite <- app_assoc|done| |done|by rewrite Hk''|].
    + by rewrite Hs'', HS, without_snoc.
    + rewrite Ht'', lookup_insert_eq. simpl. by rewrite unlink_cons_eq.
  - intros r' (v & Hv & Hok' & HS & Htab' & Hk & Ht'). rewrite app_nil_r in Hv. subst v. root_steps.
    assert (Hka : keys r' !! a = Some (topic_key t)) by by rewrite Hk; apply lookup_fmap_Some'.
    destruct (tables_ok_lookup _ _ _ _ _ Htab' Hka) as (rt & tbl & bs & Hrt & Htbl & Hbs & _).
    simpl in Hrt. root_steps.
    eapply wp_set_table; [apply lookup_insert_eq|done|]. root_steps. unfold on_topic_heap. root_steps.
    apply wp_free; [apply Htab'|apply (to_live _ _ _ Htab'); by apply elem_of_dom_2 in Hka|].
    intros h' Hh' _ Hl'. root_steps. split_and!; [| | |done|].
    + destruct Hok' as [H1 H2 H3 H4]. split; [|done..]. simpl. rewrite fmap_delete.
      apply side_del; [done|]. by rewrite lookup_fmap, Ht'.
    + unfold tables_of, keys. simpl. rewrite fmap_delete, insert_insert_eq.
      eapply (tables_ok_remove _ _ _ _ a _ rt tbl bs _ Htab' Hka); simpl; try done.
      by rewrite Hbs.
    + unfold keys in *. simpl. by rewrite fmap_delete, Hk.
    + eexists _, _. simpl. by rewrite lookup_insert_eq.
Qed.

Lemma topic_has_table r a t : tables_of r → topics r !! a = Some t → has_table r (t_table t).
Proof.
  intros Htab Ht. assert (Hka : keys r !! a = Some (topic_key t)) by by apply lookup_fmap_Some'.
  destruct (tables_ok_lookup _ _ _ _ _ Htab Hka) as (rt & tbl & ? & ? & ? & _). by exists rt, tbl.
Qed.

Lemma wp_search_topic hash name l r :
  (∀ a, a ∈ l → is_Some (topics r !! a)) →
  wp (search_topic hash name l) (λ oa r', r' = r ∧
    let hit a := ∃ t, topics r !! a = Some t ∧ t_hash t = hash ∧ t_name t = name in
    match oa with Some a => a ∈ l ∧ hit a | None => ∀ a, a ∈ l → ¬ hit a end) r.
Proof.
  induction l as [|a l IH]; intros Hl; simpl; [split; [done|set_solver]|].
  destruct (Hl a) as [t Ht]; [by left|]. root_steps.
  destruct (decide (t_hash t = hash ∧ t_name t = name)) as [[E1 E2]|Hne].
  - rewrite E1, E2, !Z.eqb_refl, bool_decide_true by done. simpl. root_steps.
    split; [done|]. split; [by left|eauto].
  - assert ((Z.of_nat (length (t_name t)) =? Z.of_nat (length name))%Z
            && (t_hash t =? hash)%Z && bool_decide (t_name t = name) = false) as ->.
    { apply not_true_is_false. rewrite !andb_true_iff, bool_decide_eq_true, Z.eqb_eq, Z.eqb_eq. tauto. }
    eapply wp_mono; [apply IH; intros; apply Hl; by right|].
    intros [b|] r' [-> Hb]; (split; [done|]); simpl in *.
    + destruct Hb. split; [by right|done].
    + intros c [->|Hc]%elem_of_cons; [|by apply Hb]. naive_solver.
Qed.

(** The result of a successful search or creation. *)
Definition topic_found E r rid name (oa : option addr) r' : Prop :=
  ∃ a, oa = Some a ∧ subs_ok E r' ∧ tables_of r' ∧ subs r' = subs r ∧ named r' rid name a ∧
    keys r' = <[a := (rid, topic_hash name, name)]> (keys r) ∧ keys r ⊆ keys r'.

(** The new topic [a] is linked at the head of its cell. *)
Lemma new_topic E r r' rid name rt tbl bs l a :
  subs_ok E r → tables_of r → (∀ b, ¬ named r rid name b) → topics r !! a = None →
  routes r !! rid = Some rt → rt_topics rt = Some tbl → table tbl = Some bs →
  bs !! cell_of (topic_hash name) (hash_size tbl) = Some l →
  routes r' = <[rid := rt <| rt_topics := Some (tbl <| ntopics ::= λ n, (n + 1)%Z |>
    <| table := Some (<[cell_of (topic_hash name) (hash_size tbl) := a :: l]> bs) |>) |>]> (routes r) →
  topics r' = <[a := mk_topic rid [] (topic_hash name) name]> (topics r) →
  heap_wf (topic_heap r') → live (topic_heap r') = {[a]} ∪ live (topic_heap r) →
  hybis r' = hybis r → subs r' = subs r → sub_arena r' = sub_arena r →
  topic_found E r rid name (Some a) r'.
Proof.
  intros [H1 H2 H3 H4] Htab Hnew Ha Hrt Htbl Hbs Hl Er Et Hh Hlv Ehy Es Ea.
  assert (Hk : keys r' = <[a := (rid, topic_hash name, name)]> (keys r)).
  { unfold keys. by rewrite Et, fmap_insert. }
  assert (Hka : keys r !! a = None) by (unfold keys; by rewrite lookup_fmap, Ha).
  exists a. split_and!; [done| | |done| |done|rewrite Hk; by apply insert_subseteq].
  - split; rewrite ?Es, ?Ea, ?Ehy, ?Et; [|done..]. rewrite fmap_insert. simpl.
    apply side_new; [done|]. by rewrite lookup_fmap, Ha.
  - unfold tables_of. rewrite Hk, Er.
    eapply (tables_ok_add (keys r) (routes r) (topic_heap r)); try done.
  - unfold named. rewrite Hk. apply lookup_insert_eq.
Qed.

Lemma wp_insert_topic rid cell a rt tbl bs l (Q : unit → root → Prop) r :
  routes r !! rid = Some rt → rt_topics rt = Some tbl → table tbl = Some bs →
  bs !! cell = Some l →
  Q tt (r <| routes := <[rid := rt <| rt_topics :=
               Some (tbl <| table := Some (<[cell := a :: l]> bs) |>) |>]> (routes r) |>) →
  wp (insert_topic rid cell (Some a)) Q r.
Proof.
  intros Hrt Htbl Hbs Hl HQ. unfold insert_topic. by root_steps.
Qed.

Hypothesis Hmem : ∀ h size, malloc_ok h size = true.

Lemma wp_mktopic rid name hash (Q : option addr → root → Prop) r :
  heap_wf (topic_heap r) → dom (topics r) ⊆ live (topic_heap r) →
  (∀ a h' st, topics r !! a = None → heap_wf h' → live h' = {[a]} ∪ live (topic_heap r) →
     Q (Some a) (r <| topic_heap := h' |> <| stat := st |>
                   <| topics := <[a := mk_topic rid [] hash name]> (topics r) |>)) →
  wp (mktopic rid name hash) Q r.
Proof.
  intros Hh Hl HQ. unfold mktopic, on_topic_heap. root_steps.
  apply wp_malloc_ok; [done..|]. intros h' Hh' Hb Hl'. root_steps. apply HQ; [|done..].
  apply not_elem_of_dom. set_solver.
Qed.

Lemma tables_of_topics r : tables_of r → heap_wf (topic_heap r) ∧ dom (topics r) ⊆ live (topic_heap r).
Proof.
  intros Htab. split; [apply Htab|]. pose proof (to_live _ _ _ Htab) as Hd.
  unfold keys in Hd. by rewrite dom_fmap in Hd.
Qed.

Lemma table_items_lookup ks rts h rid rt tbl bs a k :
  tables_ok ks rts h → rts !! rid = Some rt → rt_topics rt = Some tbl → table tbl = Some bs →
  ks !! a = Some k → k.1.1 = rid → a ∈ concat bs.
Proof.
  intros Hok Hr Et Eb Ha <-. destruct (tables_ok_lookup _ _ _ _ _ Hok Ha) as (?&?&?&?&?&?&?).
  by simplify_eq.
Qed.

(** A search in the cell of the name decides whether the route has the topic. *)
Lemma found_named r rid rt tbl bs l name a t :
  tables_of r → routes r !! rid = Some rt → rt_topics rt = Some tbl → table tbl = Some bs →
  bs !! cell_of (topic_hash name) (hash_size tbl) = Some l → a ∈ l →
  topics r !! a = Some t → t_hash t = topic_hash name → t_name t = name → named r rid name a.
Proof.
  intros Htab Hrt Htbl Hbs Hl Hin Ht E1 <-.
  assert (Hin' : a ∈ concat bs).
  { apply elem_of_concat. eauto. }
  assert (Hls : (table_items <$> routes r) !! rid = Some (concat bs)).
  { rewrite lookup_fmap, Hrt. simpl. unfold table_items. by rewrite Htbl, Hbs. }
  rewrite (side_elem _ _ _ _ _ (to_side _ _ _ Htab) Hls) in Hin'.
  unfold named, keys in *. rewrite !lookup_fmap, Ht in Hin'. rewrite lookup_fmap, Ht.
  simpl in *.
  injection Hin' as <-. unfold topic_key. by rewrite E1.
Qed.

Lemma named_in_cell r rid rt tbl bs l name a :
  tables_of r → routes r !! rid = Some rt → rt_topics rt = Some tbl → table tbl = Some bs →
  bs !! cell_of (topic_hash name) (hash_size tbl) = Some l → named r rid name a →
  a ∈ l ∧ ∃ t, topics r !! a = Some t ∧ t_hash t = topic_hash name ∧ t_name t = name.
Proof.
  intros Htab Hrt Htbl Hbs Hl Hn. pose proof Hn as Hk. unfold named, keys in Hk.
  rewrite lookup_fmap, fmap_Some in Hk. destruct Hk as (t & Ht & [= E1 E2 E3]). split; [|eauto].
  pose proof (table_items_lookup _ _ _ _ _ _ _ _ _ Htab Hrt Htbl Hbs Hn eq_refl) as Hin.
  apply elem_of_concat in Hin as (i & l' & Hi & Hin').
  destruct (to_table _ _ _ Htab _ _ Hrt) as [_ Hb]. destruct (Hb _ _ Htbl Hbs) as (_ & _ & _ & Hc).
  pose proof (Hc _ _ _ _ Hi Hin' Hn) as ->. simpl in Hi. congruence.
Qed.

(** Searching an existing table, without or with creation. *)
Lemma wp_find_topic_in E r rid rt tbl bs name create :
  subs_ok E r → tables_of r → routes r !! rid = Some rt → rt_topics rt = Some tbl →
  table tbl = Some bs →
  wp (find_topic_in rid tbl bs name (topic_hash name) create) (λ oa r',
    topic_found E r rid name oa r' ∧ (create = false ∨ (∃ a, named r rid name a) → r' = r) ∨
    oa = None ∧ r' = r ∧ create = false ∧ ∀ a, ¬ named r rid name a) r.
Proof.
  intros Hok Htab Hrt Htbl Hbs. destruct (to_table _ _ _ Htab _ _ Hrt) as [_ Hb].
  destruct (Hb _ _ Htbl Hbs) as (Hsz & Hpos & Hn & _).
  destruct (cell_of_lookup (topic_hash name) _ bs Hsz Hpos) as [l Hl].
  unfold find_topic_in. root_steps. apply wp_topic_cell; [lia|]. root_steps.
  eapply wp_mono; [apply wp_search_topic|].
  { intros a Ha. assert (Hin : a ∈ concat bs).
    { apply elem_of_concat. eauto. }
    assert (Hls : (table_items <$> routes r) !! rid = Some (concat bs)).
    { rewrite lookup_fmap, Hrt. simpl. unfold table_items. by rewrite Htbl, Hbs. }
    rewrite (side_elem _ _ _ _ _ (to_side _ _ _ Htab) Hls) in Hin.
    unfold keys in Hin. rewrite !lookup_fmap in Hin. by destruct (topics r !! a). }
  intros [a|] r0 [-> Hhit]; simpl in Hhit.
  { root_steps. left. split; [|done]. destruct Hhit as [Hin (t & Ht & E1 & E2)].
    assert (named r rid name a) as Ha by by eapply (found_named r rid rt tbl bs l).
    exists a. split_and!; try done. unfold named in Ha. by rewrite insert_id. }
  assert (Hnew : ∀ a, ¬ named r rid name a).
  { intros a Ha. eapply named_in_cell in Ha as [? ?]; [|done..]. by eapply Hhit. }
  destruct create; simpl; root_steps; [|by right].
  destruct (tables_of_topics r Htab) as [Hh Hlv].
  destruct l as [|b l]; root_steps.
  - apply wp_mktopic; [done..|]. intros a h' st Ha Hh' Hl'. root_steps.
    eapply wp_insert_topic; [apply lookup_insert_eq|done..|]. root_steps. left.
    split; [|by intros [?|[? ?%Hnew]]].
    eapply (new_topic E r _ rid name rt tbl bs [] a); simpl; try done. by rewrite insert_insert_eq.
  - apply wp_mktopic; [done..|]. intros a h' st Ha Hh' Hl'. root_steps.
    eapply wp_insert_topic; [apply lookup_insert_eq|done..|]. root_steps. left.
    split; [|by intros [?|[? ?%Hnew]]].
    eapply (new_topic E r _ rid name rt tbl bs (b :: l) a); simpl; try done. by rewrite insert_insert_eq.
Qed.

Lemma named_has_table r rid rt name a :
  tables_of r → routes r !! rid = Some rt → named r rid name a →
  ∃ tbl bs, rt_topics rt = Some tbl ∧ table tbl = Some bs.
Proof.
  intros Htab Hrt Ha. destruct (tables_ok_lookup _ _ _ _ _ Htab Ha) as (rt' & tbl & bs & Hrt' & ? & ? & _).
  simpl in Hrt'. simplify_eq. eauto.
Qed.

Lemma wp_find_topic_first E r rid rt tbl name :
  subs_ok E r → tables_of r → routes r !! rid = Some rt → rt_topics rt = Some tbl →
  table tbl = None →
  wp (find_topic_first rid name (topic_hash name)) (λ oa r', topic_found E r rid name oa r') r.
Proof.
  intros Hok Htab Hrt Htbl Hnone. unfold find_topic_first. root_steps.
  destruct (to_table _ _ _ Htab _ _ Hrt) as [Hsz _].
  destruct (tables_of_topics r Htab) as [Hh Hlv]. unfold on_topic_heap. root_steps.
  apply wp_malloc_ok; [done..|]. intros h1 Hh1 _ Hl1. root_steps.
  eapply wp_set_table; [apply lookup_insert_eq|done|]. simpl. root_steps. rewrite insert_insert_eq.
  assert (Hnil : table_items rt = []) by (unfold table_items; by rewrite Htbl, Hnone).
  set (tbl1 := mk_topic_table (rt_topic_hash_size rt) 0 0
                 (Some (replicate (Z.to_nat (rt_topic_hash_size rt)) []))).
  set (r1 := r <| topic_heap := h1 |>
               <| routes := <[rid := rt <| rt_topics := Some tbl1 |>]> (routes r) |>).
  assert (Htab1 : tables_of r1).
  { apply tables_ok_heap with (topic_heap r); [|done|simpl; rewrite Hl1; simpl; set_solver].
    by apply tables_ok_first. }
  apply wp_mktopic; [done|simpl; set_solver|]. intros a h' st Ha Hh' Hl'. root_steps.
  apply wp_topic_cell; [done|]. root_steps.
  destruct (cell_of_lookup (topic_hash name) (rt_topic_hash_size rt)
              (replicate (Z.to_nat (rt_topic_hash_size rt)) (@nil nat))) as [l Hl];
    [rewrite length_replicate; lia|done|].
  eapply wp_insert_topic; [apply lookup_insert_eq|done|done|exact Hl|]. root_steps.
  eapply (new_topic E r1 _ rid name (rt <| rt_topics := Some tbl1 |>) tbl1 _ l a); simpl; try done.
  - destruct Hok. by split.
  - intros b Hb. destruct (named_has_table r rid rt name b Htab Hrt Hb) as (?&?&?&?). congruence.
  - by rewrite lookup_insert_eq.
  - by rewrite !insert_insert_eq.
Qed.

Lemma wp_find_topic E r rid rt name create :
  subs_ok E r → tables_of r → routes r !! rid = Some rt →
  (Z.of_nat (length name) < 2 ^ 31)%Z →
  wp (find_topic rid name create) (λ oa r',
    topic_found E r rid name oa r' ∧ (create = false ∨ (∃ a, named r rid name a) → r' = r) ∨
    oa = None ∧ r' = r ∧ create = false ∧ ∀ a, ¬ named r rid name a) r.
Proof.
  intros Hok Htab Hrt Hlen. unfold find_topic.
  rewrite i32_small, Nat2Z.id, firstn_all by lia.
  destruct (Z.ltb_spec (Z.of_nat (length name)) 0); [lia|]. root_steps.
  assert (Hno : ∀ P : Prop, (∀ tbl, rt_topics rt = Some tbl → table tbl = None) →
            (∃ a, named r rid name a) → P).
  { intros P Hn [a Ha]. destruct (named_has_table r rid rt name a Htab Hrt Ha) as (?&?&Ht&?).
    by rewrite (Hn _ Ht) in *. }
  destruct (rt_topics rt) as [tbl|] eqn:Htbl; [destruct (table tbl) as [bs|] eqn:Hbs|].
  - by eapply wp_find_topic_in.
  - destruct create; simpl.
    + eapply wp_mono; [by eapply wp_find_topic_first|]. simpl. intros oa r' Hf. left.
      split; [done|]. intros [?|Hex]; [done|]. apply Hno; [naive_solver|done].
    + root_steps. right. split_and!; [done..|]. intros a Ha. apply Hno; [naive_solver|eauto].
  - destruct create; simpl; root_steps.
    2:{ right. split_and!; [done..|]. intros a Ha. apply Hno; [done|eauto]. }
    destruct (tables_of_topics r Htab) as [Hh Hlv]. unfold on_topic_heap. root_steps.
    apply wp_malloc_ok; [done..|]. intros h1 Hh1 _ Hl1. root_steps.
    set (tbl0 := mk_topic_table 0 0 0 None).
    set (r1 := r <| topic_heap := h1 |>
                 <| routes := <[rid := rt <| rt_topics := Some tbl0 |>]> (routes r) |>).
    assert (Htab1 : tables_of r1).
    { apply tables_ok_heap with (topic_heap r); [|done|simpl; rewrite Hl1; simpl; set_solver].
      destruct Htab as [? ? Hs Ht ? ?]. split; auto.
      - simpl. erewrite fmap_insert_same; [done..|]. unfold table_items. by rewrite Htbl.
      - simpl. intros rid' rt'. rewrite lookup_insert_Some. intros [[<- <-]|[_ ?]]; [|eauto].
        destruct (Ht _ _ Hrt) as [? _]. split; [done|]. simpl. naive_solver. }
    eapply wp_mono; [eapply (wp_find_topic_first E r1 rid _ tbl0 name)|]; [|done| | |done|].
    + destruct Hok. by split.
    + simpl. apply lookup_insert_eq.
    + done.
    + intros oa r' Hf. left. split; [exact Hf|]. intros [?|Hex]; [done|by apply Hno].
Qed.

(** Connection [c] subscribes to the topic object [a]. *)
Definition linked r (c a : addr) : Prop := ∃ e, subs r !! e = Some (mk_subscriber a c).

Lemma wp_find_subscription a l r :
  (∀ e, e ∈ l → is_Some (subs r !! e)) →
  wp (find_subscription a l) (λ oe r', r' = r ∧
    match oe with
    | Some e => e ∈ l ∧ ∃ s, subs r !! e = Some s ∧ s_topic s = a
    | None => ∀ e s, e ∈ l → subs r !! e = Some s → s_topic s ≠ a
    end) r.
Proof.
  induction l as [|e l IH]; intros Hl; cbn [find_subscription].
  { root_steps. split; [done|set_solver]. }
  destruct (Hl e) as [s Hs]; [by left|]. root_steps. case_decide as Ea; root_steps.
  { split; [done|]. split; [by left|eauto]. }
  eapply wp_mono; [apply IH; intros; apply Hl; by right|].
  intros [b|] r' [-> Hb]; (split; [done|]).
  - destruct Hb. split; [by right|done].
  - intros e' s' [->|Hin]%elem_of_cons; [naive_solver|eauto].
Qed.

(** The search on the list of a connection decides [linked]. *)
Lemma wp_client_subscription r h hy a :
  topics_ok r → hybis r !! h = Some hy →
  wp (find_subscription a (h_subscribers hy)) (λ oe r', r' = r ∧
    match oe with
    | Some e => subs r !! e = Some (mk_subscriber a h)
    | None => ¬ linked r h a
    end) r.
Proof.
  intros [Hok _] Hh. eapply wp_mono; [apply wp_find_subscription|].
  { intros e. rewrite (subs_ok_client _ _ _ _ _ Hok Hh). naive_solver. }
  intros [e|] r' [-> He]; (split; [done|]).
  - destruct He as [Hin (s & Hs & <-)].
    rewrite (subs_ok_client _ _ _ _ _ Hok Hh) in Hin. destruct Hin as (s' & Hs' & <-).
    simplify_eq. by destruct s'.
  - intros [e He']. eapply He; [|done..]. rewrite (subs_ok_client _ _ _ _ _ Hok Hh). eauto.
Qed.

Lemma wp_topic_subscribe r h hy a t :
  topics_ok r → hybis r !! h = Some hy → topics r !! a = Some t →
  wp (topic_subscribe h a) (λ res r', topics_ok r' ∧ keys r' = keys r ∧ res = true ∧
    subs r ⊆ subs r' ∧ ∀ c b, linked r' c b ↔ linked r c b ∨ (c = h ∧ b = a)) r.
Proof.
  intros Hok Hh Ht. unfold topic_subscribe. root_steps.
  eapply wp_mono; [by apply (wp_client_subscription r h hy)|].
  intros [e|] r0 [-> He]; root_steps.
  { split_and!; [done..|]. intros c b. split; [tauto|]. intros [?|[-> ->]]; [done|by exists e]. }
  destruct Hok as [[H1 H2 H3 H4] Htab]. unfold on_sub_arena. root_steps.
  eapply wp_pool_alloc; [done| |intros; by rewrite Hmem in *].
  intros e ar He' Har _. rewrite not_elem_of_dom in He'. root_steps.
  assert (Hka : keys r !! a = Some (topic_key t)) by by apply lookup_fmap_Some'.
  destruct (tables_ok_lookup _ _ _ _ _ Htab Hka) as (rt & tbl & bs & Hrt & Htbl & Hbs & _).
  simpl in Hrt. eapply wp_get_topic; [apply lookup_insert_eq|]. simpl. root_steps.
  assert (Hkeys : topic_key <$> <[a := t <| t_subscribers ::= cons e |>]> (topics r) = keys r)
    by by eapply keys_same.
  split_and!; [|done|done|by apply insert_subseteq|].
  - split; [split; simpl| ].
    + rewrite !fmap_insert. eapply side_insert; [done|by rewrite lookup_fmap, He'|eauto|done].
    + rewrite !fmap_insert. eapply side_insert; [done|by rewrite lookup_fmap, He'|eauto|done].
    + intros e1 e2 s. rewrite !lookup_insert_Some.
      intros [[<- <-]|[? ?]] [[<- ?]|[? ?]]; simplify_eq; [done| | |eauto];
        exfalso; apply He; eexists; done.
    + by rewrite dom_insert_L.
    + unfold tables_of, keys. simpl in Hkeys |- *. rewrite Hkeys. by eapply tables_ok_update.
  - intros c b. unfold linked. simpl. split.
    + intros [e1 [[<- [= <- <-]]|[_ He1]]%lookup_insert_Some]; [by right|left; eauto].
    + intros [[e1 He1]|[-> ->]]; [|exists e; by rewrite lookup_insert_eq].
      exists e1. rewrite lookup_insert_ne; [done|congruence].
Qed.

Lemma wp_remove_from_topic e s t (Q : unit → root → Prop) r :
  subs r !! e = Some s → topics r !! s_topic s = Some t →
  Q tt (r <| topics := <[s_topic s := t <| t_subscribers ::= unlink e |>]> (topics r) |>) →
  wp (remove_from_topic e) Q r.
Proof. intros Hs Ht HQ. unfold remove_from_topic. by root_steps. Qed.

Lemma wp_remove_from_client e s h (Q : unit → root → Prop) r :
  subs r !! e = Some s → hybis r !! s_connection s = Some h →
  Q tt (r <| hybis := <[s_connection s := h <| h_subscribers ::= unlink e |>]> (hybis r) |>) →
  wp (remove_from_client e) Q r.
Proof. intros Hs Ht HQ. unfold remove_from_client. by root_steps. Qed.

(** After the unlinking, [free_topic] runs iff that was the last subscription. *)
Lemma wp_free_if_empty E r a t :
  subs_ok E r → E ⊆ subs r → topics r !! a = Some t → tables_of r →
  wp (match t_subscribers t with [] => free_topic a | _ :: _ => mret tt end) (λ _ r',
    subs_ok E r' ∧ tables_of r' ∧ subs r' = subs r ∧ has_table r' (t_table t) ∧
    keys r' = match t_subscribers t with [] => delete a (keys r) | _ => keys r end) r.
Proof.
  intros Hok Hsub Ht Htab. destruct (t_subscribers t) eqn:El.
  2:{ apply wp_ret. split_and!; try done. by eapply topic_has_table. }
  eapply wp_mono; [by eapply wp_free_topic|]. rewrite El, !without_nil. simpl. tauto.
Qed.

Lemma wp_topic_unsubscribe r h hy a t :
  topics_ok r → hybis r !! h = Some hy → topics r !! a = Some t →
  wp (topic_unsubscribe h a) (λ res r', topics_ok r' ∧
    (res = true ↔ linked r h a) ∧
    (∀ c b, linked r' c b ↔ linked r c b ∧ ¬ (c = h ∧ b = a)) ∧
    (keys r' = keys r ∨ res = true ∧ (∀ c, ¬ linked r' c a) ∧ keys r' = delete a (keys r))) r.
Proof.
  intros Hok Hh Ht. unfold topic_unsubscribe. root_steps.
  eapply wp_mono; [by apply (wp_client_subscription r h hy)|].
  intros [e|] r0 [-> He]; root_steps.
  2:{ split_and!; [done|done| |by left]. naive_solver. }
  destruct Hok as [Hok Htab]. pose proof Hok as [H1 H2 H3 H4].
  eapply wp_remove_from_topic; [done..|]. root_steps.
  eapply wp_remove_from_client; [done..|]. root_steps.
  eapply wp_get_topic; [apply lookup_insert_eq|]. root_steps.
  set (r1 := _ <| hybis := _ |>). set (t1 := t <| t_subscribers ::= unlink e |>).
  assert (Hok1 : subs_ok (delete e (subs r)) r1).
  { eapply (subs_ok_delete _ r); [done..| | |done]; simpl; by rewrite fmap_insert. }
  assert (tables_of r1 ∧ keys r1 = keys r) as [Htab1 Hk1].
  { assert (keys r1 = keys r) as Hk1 by by eapply keys_same.
    unfold tables_of. by rewrite Hk1. }
  assert (Ht1 : topics r1 !! a = Some t1) by apply lookup_insert_eq.
  eapply wp_mono; [apply (wp_free_if_empty _ r1 a t1 Hok1); [apply delete_subseteq|done..]|].
  intros _ r2 (Hok2 & Htab2 & Hs2 & (rt & tbl & Hrt & Htbl) & Hk2). simpl in Hrt. root_steps.
  eapply wp_free_subscriber; [apply Hok2|by rewrite Hs2|]. intros ar Har. root_steps.
  assert (Hlk : ∀ c b, (∃ e', delete e (subs r2) !! e' = Some (mk_subscriber b c)) ↔
                  linked r c b ∧ ¬ (c = h ∧ b = a)).
  { intros c b. rewrite Hs2. simpl. setoid_rewrite lookup_delete_Some. split.
    - intros (e' & Hne & He'). split; [by exists e'|]. intros [-> ->]. by eapply Hne, H3.
    - intros [[e' He'] Hne]. exists e'. split; [|done]. intros <-. rewrite He in He'.
      apply Hne. by simplify_eq. }
  split_and!; [|split; [by intros; exists e|done]|exact Hlk|].
  - destruct Hok2 as [J1 J2 J3 J4]. split; [split|]; simpl; rewrite ?Hs2; try done.
    + by rewrite Hs2 in Har.
    + by eapply tables_ok_update.
  - match goal with |- keys ?r' = _ ∨ _ => change (keys r') with (keys r2) end.
    rewrite Hk2, Hk1. simpl.
    destruct (unlink e (t_subscribers t)) as [|] eqn:El; [right|by left].
    split_and!; [done| |done]. intros c. setoid_rewrite Hlk. intros [[e' He'] Hne].
    assert (e' ∈ t_subscribers t) as Hin by by (rewrite (subs_ok_topic _ _ _ _ _ Hok Ht); eauto).
    assert (e' ∈ unlink e (t_subscribers t)) as Hin'.
    { apply elem_of_unlink. split; [done|]. intros ->. rewrite He in He'. apply Hne. by simplify_eq. }
    rewrite El in Hin'. set_solver.
Qed.

Lemma keys_topic r a k : keys r !! a = Some k → ∃ t, topics r !! a = Some t ∧ topic_key t = k.
Proof. unfold keys. rewrite lookup_fmap, fmap_Some. naive_solver. Qed.

Lemma linked_key r c a : topics_ok r → linked r c a → ∃ k, keys r !! a = Some k.
Proof.
  intros [Hok _] [e He]. destruct (subs_ok_lookup _ _ _ _ Hok He) as (t & _ & Ht & _).
  exists (topic_key t). by apply lookup_fmap_Some'.
Qed.

(** [free_topic] on the whole state. *)
Lemma wp_free_topic_ok r a t :
  topics_ok r → topics r !! a = Some t →
  wp (free_topic a) (λ _ r', topics_ok r' ∧ keys r' = delete a (keys r) ∧
    ∀ c b, linked r' c b ↔ linked r c b ∧ b ≠ a) r.
Proof.
  intros [Hok Htab] Ht. eapply wp_mono; [by eapply (wp_free_topic (subs r))|].
  intros _ r' (Hok' & Htab' & Hk & Hs & _). split_and!; [|done|].
  - split; [by rewrite Hs|done].
  - intros c b. unfold linked. rewrite Hs. setoid_rewrite lookup_without.
    setoid_rewrite (subs_ok_topic _ _ _ _ _ Hok Ht). split.
    + intros (e & He & Hn). split; [by exists e|]. intros ->. apply Hn. by eexists.
    + intros [[e He] Hne]. exists e. split; [done|]. intros (s & Hs' & E). simplify_eq.
Qed.

Lemma wp_topic_clone r source target ts tt :
  topics_ok r → topics r !! source = Some ts → topics r !! target = Some tt →
  wp (topic_clone source target) (λ _ r', topics_ok r' ∧
    (keys r' = keys r ∨ keys r' = delete target (keys r)) ∧
    ∀ c b, linked r' c b ↔ linked r c b ∨ (b = target ∧ linked r c source)) r.
Proof.
  intros Hok Hs Ht. unfold topic_clone. root_steps.
  apply (wp_mfor (λ l r', ∃ v, t_subscribers ts = v ++ l ∧ topics_ok r' ∧ keys r' = keys r ∧
    subs r ⊆ subs r' ∧ ∀ c b, linked r' c b ↔
      linked r c b ∨ (b = target ∧ ∃ e, e ∈ v ∧ subs r !! e = Some (mk_subscriber source c)))).
  - exists []. split_and!; [done..|]. set_solver.
  - intros e l r' (v & Hv & Hok' & Hk & Hsub & Hl). root_steps.
    assert (Hin : e ∈ t_subscribers ts) by (rewrite Hv; set_solver).
    rewrite (subs_ok_topic _ _ _ _ _ (tk_subs _ Hok) Hs) in Hin. destruct Hin as (s & He & E).
    assert (He' : subs r' !! e = Some s) by by eapply lookup_weaken.
    destruct (subs_ok_lookup _ _ _ _ (tk_subs _ Hok') He') as (_ & hy & _ & _ & Hhy & _).
    destruct (keys_topic r' target (topic_key tt)) as (tt' & Htt' & _).
    { rewrite Hk. by apply lookup_fmap_Some'. }
    root_steps. eapply wp_mono; [by eapply wp_topic_subscribe|].
    intros res r2 (Hok2 & Hk2 & _ & Hsub2 & Hl2). root_steps. exists (v ++ [e]).
    split_and!; [by rewrite <- app_assoc|done|by rewrite Hk2|by etrans|].
    intros c b. rewrite Hl2, Hl. setoid_rewrite elem_of_app. setoid_rewrite list_elem_of_singleton.
    destruct s as [st sc]. simpl in *. subst st. naive_solver.
  - intros r' (v & Hv & Hok' & Hk & Hsub & Hl). rewrite app_nil_r in Hv. subst v. root_steps.
    assert (Hl' : ∀ c b, linked r' c b ↔ linked r c b ∨ b = target ∧ linked r c source).
    { intros c b. rewrite Hl. unfold linked at 3.
      setoid_rewrite (subs_ok_topic _ _ _ _ _ (tk_subs _ Hok) Hs). split.
      - intros [?|(-> & e & _ & He)]; [by left|right; eauto].
      - intros [?|[-> [e He]]]; [by left|right]. split; [done|]. exists e. split; [by eexists|done]. }
    destruct (keys_topic r' target (topic_key tt)) as (tt' & Htt' & _).
    { rewrite Hk. by apply lookup_fmap_Some'. }
    root_steps. destruct (t_subscribers tt') eqn:El; [|apply wp_ret; auto].
    eapply wp_mono; [by eapply wp_free_topic_ok|]. intros _ r2 (Hok2 & Hk2 & Hl2).
    split_and!; [done|right; by rewrite Hk2, Hk|]. intros c b. rewrite Hl2, Hl'.
    split; [tauto|]. intros Hc. split; [done|]. intros ->. apply Hl' in Hc as [e He].
    assert (e ∈ t_subscribers tt') as Hin; [|rewrite El in Hin; set_solver].
    rewrite (subs_ok_topic _ _ _ _ _ (tk_subs _ Hok') Htt'). by eexists.
Qed.
End subscriptions.

(** ** Refinement *)
Definition refines (r : root) (S : pubsub) : Prop :=
  ∀ c rid name, subscribed r c rid name ↔ (c, rid, name) ∈ S.

Section refinement.
Context `{Malloc}.
Hypothesis Hmem : ∀ h size, malloc_ok h size = true.
Implicit Types (r : root) (S : pubsub).

Lemma subscribed_linked r c rid name :
  subscribed r c rid name ↔ ∃ a, linked r c a ∧ named r rid name a.
Proof. unfold subscribed, linked. naive_solver. Qed.

Lemma named_inj r rid name a b : topics_ok r → named r rid name a → named r rid name b → a = b.
Proof. intros [_ Htab]. apply (to_uniq _ _ _ Htab). Qed.

Lemma named_fun r rid rid' name name' a :
  named r rid name a → named r rid' name' a → rid = rid' ∧ name = name'.
Proof. unfold named. naive_solver. Qed.

(** Creating the topic subscribes nobody. *)
Lemma topic_found_refines r rid name oa r' S :
  topics_ok r → topic_found (subs r) r rid name oa r' → refines r S →
  ∃ a, oa = Some a ∧ named r' rid name a ∧ topics_ok r' ∧ refines r' S ∧
    ∀ rid' name' b, named r rid' name' b → named r' rid' name' b.
Proof.
  intros Hok (a & -> & Hok' & Htab' & Hs & Hn & Hk & Hsub) HS. exists a.
  assert (Hok1 : topics_ok r') by (split; [by rewrite Hs|done]).
  split_and!; try done; [|intros rid' name' b Hb; by eapply lookup_weaken].
  intros c rid' name'. rewrite <- (HS c rid' name'), !subscribed_linked.
  assert (Hl : ∀ b, linked r' c b ↔ linked r c b) by (intros; unfold linked; by rewrite Hs).
  setoid_rewrite Hl. split; intros (b & Hb & Hnb); exists b; (split; [done|]).
  - destruct (linked_key _ _ _ Hok Hb) as [k Hkb]. unfold named in *.
    rewrite (lookup_weaken _ _ _ _ Hkb Hsub) in Hnb. by rewrite Hkb, Hnb.
  - by eapply lookup_weaken.
Qed.

Lemma topic_not_found_refines r rid name S c :
  (∀ a, ¬ named r rid name a) → refines r S → (c, rid, name) ∉ S.
Proof. intros Hn HS. rewrite <- (HS c rid name), subscribed_linked. naive_solver. Qed.

Lemma named_topic r rid name a : named r rid name a → ∃ t, topics r !! a = Some t.
Proof. intros (t & ? & _)%keys_topic. eauto. Qed.

Lemma op_ok_frame r r' op : untouched r' = untouched r → op_ok r op → op_ok r' op.
Proof.
  intros Hu. unfold untouched in Hu. injection Hu as _ _ _ _ _ _ _ Eh _ _ _ _ _ _ Er _.
  assert (Hh : ∀ c, is_Some (hybis r' !! c) ↔ is_Some (hybis r !! c)).
  { intros c. rewrite <- !elem_of_dom. erewrite <- (dom_fmap_L _ (hybis r')), Eh. by rewrite dom_fmap_L. }
  assert (Hr : ∀ c, is_Some (routes r' !! c) ↔ is_Some (routes r !! c)).
  { intros c. rewrite <- !elem_of_dom. erewrite <- (dom_fmap_L _ (routes r')), Er. by rewrite dom_fmap_L. }
  destruct op; simpl; rewrite ?Hh, ?Hr; tauto.
Qed.

(** The two uses of [find_topic]. *)
Lemma wp_find_create r S rid name :
  topics_ok r → refines r S → is_Some (routes r !! rid) → (Z.of_nat (length name) < 2 ^ 31)%Z →
  wp (find_topic rid name true) (λ oa r', ∃ a t, oa = Some a ∧ named r' rid name a ∧
    topics r' !! a = Some t ∧ topics_ok r' ∧ refines r' S ∧ untouched r' = untouched r ∧
    ∀ rid' name' b, named r rid' name' b → named r' rid' name' b) r.
Proof.
  intros Hok HS [rt Hrt] Hlen.
  eapply wp_mono; [apply (wp_keeps untouched); [apply keeps_find_topic|by eapply (wp_find_topic Hmem (subs r)); [apply Hok..| |]]|].
  intros oa r' [[[Hf _]|(_ & _ & ? & _)] Hu]; [|done].
  destruct (topic_found_refines _ _ _ _ _ _ Hok Hf HS) as (a & -> & Hn & Hok' & HS' & Hmono).
  destruct (named_topic _ _ _ _ Hn) as [t Ht]. exists a, t. split_and!; done.
Qed.

Lemma wp_find_only r rid name :
  topics_ok r → is_Some (routes r !! rid) → (Z.of_nat (length name) < 2 ^ 31)%Z →
  wp (find_topic rid name false) (λ oa r', r' = r ∧
    match oa with
    | Some a => named r rid name a ∧ ∃ t, topics r !! a = Some t
    | None => ∀ a, ¬ named r rid name a
    end) r.
Proof.
  intros Hok [rt Hrt] Hlen.
  eapply wp_mono; [by eapply (wp_find_topic Hmem (subs r)); [apply Hok..| |]|].
  intros oa r' [[(a & -> & _ & _ & _ & Hn & _) Hr]|(-> & -> & _ & Hno)]; [|done].
  rewrite Hr in * by auto. split; [done|]. split; [done|]. by eapply named_topic.
Qed.

Lemma wp_subscribe_command r S h rid name :
  topics_ok r → refines r S → op_ok r (TSubscribe h rid name) →
  wp (subscribe_command h rid name) (λ ok r', ok = true ∧ topics_ok r' ∧
    refines r' (pubsub_step (TSubscribe h rid name) S)) r.
Proof.
  intros Hok HS Hop. pose proof Hop as (Hh & Hr & Hlen). unfold subscribe_command. root_steps.
  eapply wp_mono; [by apply (wp_find_create r S)|].
  intros oa r1 (a & t & -> & Hn & Ht & Hok1 & HS1 & Hu & _).
  apply (op_ok_frame _ _ _ Hu) in Hop as ([hy Hhy] & _ & _).
  root_steps. eapply wp_mono; [by eapply wp_topic_subscribe|].
  intros ok r2 (Hok2 & Hk & -> & _ & Hl). root_steps. split_and!; [done..|].
  intros c rid' name'. simpl. rewrite subscribed_linked, elem_of_union, elem_of_singleton.
  rewrite <- (HS1 c rid' name'), subscribed_linked. unfold named at 1. rewrite Hk.
  setoid_rewrite Hl. split.
  - intros (b & [Hb|[-> ->]] & Hnb); [right; eauto|left].
    by destruct (named_fun _ _ _ _ _ _ Hn Hnb) as [-> ->].
  - intros [[= -> -> ->]|(b & ? & ?)]; [exists a|exists b]; auto.
Qed.

Lemma wp_unsubscribe_command r S h rid name :
  topics_ok r → refines r S → op_ok r (TUnsubscribe h rid name) →
  wp (unsubscribe_command h rid name) (λ ok r', topics_ok r' ∧
    (ok = true ↔ ∃ a, named r rid name a) ∧
    refines r' (pubsub_step (TUnsubscribe h rid name) S)) r.
Proof.
  intros Hok HS ([hy Hhy] & Hr & Hlen). unfold unsubscribe_command. root_steps.
  eapply wp_mono; [by apply wp_find_only|]. intros [a|] r0 [-> Ha]; root_steps.
  - destruct Ha as [Hn [t Ht]]. eapply wp_mono; [by eapply wp_topic_unsubscribe|].
    intros res r2 (Hok2 & Hres & Hl & Hk). root_steps. split_and!; [done|by split; eauto|].
    intros c rid' name'. simpl. rewrite subscribed_linked, elem_of_difference, elem_of_singleton.
    rewrite <- (HS c rid' name'), subscribed_linked. setoid_rewrite Hl. split.
    + intros (b & [Hb Hne] & Hnb). assert (Hnb' : named r rid' name' b).
      { destruct Hk as [Hk|(_ & _ & Hk)]; unfold named in *; rewrite Hk in Hnb; [done|].
        by apply lookup_delete_Some in Hnb as [_ ?]. }
      split; [by exists b|]. intros [= -> -> ->]. apply Hne. split; [done|].
      by eapply (named_inj r).
    + intros [(b & Hb & Hnb) Hne]. exists b. split_and!; [done| |].
      * intros [-> ->]. by destruct (named_fun _ _ _ _ _ _ Hn Hnb) as [-> ->].
      * destruct Hk as [Hk|(_ & Hnone & Hk)]; unfold named in *; rewrite Hk; [done|].
        rewrite lookup_delete_ne; [done|]. intros <-. apply (Hnone c), Hl. split; [done|].
        intros [-> _]. apply Hne. by destruct (named_fun _ _ _ _ _ _ Hn Hnb) as [-> ->].
  - split_and!; [done|naive_solver|]. intros c rid' name'. simpl.
    rewrite elem_of_difference, elem_of_singleton, (HS c rid' name'). split; [|tauto].
    intros Hin. split; [done|]. intros [= -> -> ->]. by eapply topic_not_found_refines.
Qed.

Lemma wp_drop_command r S rid name :
  topics_ok r → refines r S → op_ok r (TDrop rid name) →
  wp (drop_command rid name) (λ ok r', ok = true ∧ topics_ok r' ∧
    refines r' (pubsub_step (TDrop rid name) S)) r.
Proof.
  intros Hok HS (Hr & Hlen). unfold drop_command. root_steps.
  eapply wp_mono; [by apply wp_find_only|]. intros [a|] r0 [-> Ha]; root_steps.
  - destruct Ha as [Hn [t Ht]]. eapply wp_mono; [by eapply wp_free_topic_ok|].
    intros _ r2 (Hok2 & Hk & Hl). root_steps. split_and!; [done..|].
    intros c rid' name'. simpl.
    rewrite elem_of_filter, <- (HS c rid' name'), !subscribed_linked. setoid_rewrite Hl. simpl.
    unfold named at 1. rewrite Hk. setoid_rewrite lookup_delete_Some. split.
    + intros (b & [Hb Hne] & _ & Hnb). split; [|by exists b].
      intros [-> ->]. by eapply Hne, (named_inj r).
    + intros [Hne (b & Hb & Hnb)]. exists b.
      assert (b ≠ a) by (intros ->; apply Hne; by destruct (named_fun _ _ _ _ _ _ Hn Hnb)).
      by split_and!.
  - split_and!; [done..|]. intros c rid' name'. simpl.
    rewrite elem_of_filter, (HS c rid' name'). simpl. split; [|tauto]. intros Hin.
    split; [|done]. intros [-> ->]. by eapply topic_not_found_refines.
Qed.

Lemma wp_clone_command r S rid source target :
  topics_ok r → refines r S → op_ok r (TClone rid source target) →
  wp (clone_command rid source target) (λ ok r', ok = true ∧ topics_ok r' ∧
    refines r' (pubsub_step (TClone rid source target) S)) r.
Proof.
  intros Hok HS (Hr & Hlen1 & Hlen2). unfold clone_command. root_steps.
  assert (Hstep : ∀ c rid' name', (c, rid', name') ∈ pubsub_step (TClone rid source target) S ↔
    (c, rid', name') ∈ S ∨ (rid' = rid ∧ name' = target ∧ (c, rid, source) ∈ S)).
  { intros c rid' name'. simpl. rewrite elem_of_union, elem_of_map. setoid_rewrite elem_of_filter.
    split; (intros [?|H1]; [by left|right]).
    - destruct H1 as ([[c1 r1] n1] & [= -> -> ->] & [? ?] & ?). simpl in *. by subst.
    - destruct H1 as (-> & -> & ?). by exists (c, rid, source). }
  eapply wp_mono; [by apply wp_find_only|]. intros [a|] r0 [-> Ha]; root_steps.
  2:{ split_and!; [done..|]. intros c rid' name'. rewrite Hstep, (HS c rid' name').
      split; [tauto|]. intros [?|(_ & _ & Hin)]; [done|]. by destruct (topic_not_found_refines _ _ _ _ c Ha HS). }
  destruct Ha as [Hn [ts Hts]]. eapply wp_mono; [by apply (wp_find_create r S)|].
  intros oa r1 (b & tt' & -> & Hnt & Htt & Hok1 & HS1 & _ & Hmono). root_steps.
  apply Hmono in Hn. clear ts Hts. destruct (named_topic _ _ _ _ Hn) as [ts Hts].
  eapply wp_mono; [by eapply wp_topic_clone|]. intros _ r2 (Hok2 & Hk & Hl). root_steps.
  split_and!; [done..|]. intros c rid' name'.
  rewrite Hstep, <- (HS1 c rid' name'), <- (HS1 c rid source), !subscribed_linked. split.
  - intros (d & Hd & Hnd). assert (Hnd1 : named r1 rid' name' d).
    { destruct Hk as [Hk|Hk]; unfold named in *; rewrite Hk in Hnd; [done|].
      by apply lookup_delete_Some in Hnd as [_ ?]. }
    apply Hl in Hd as [Hd|[-> Hd]]; [left; by exists d|right].
    destruct (named_fun _ _ _ _ _ _ Hnt Hnd1) as [-> ->]. split_and!; [done..|by exists a].
  - intros Hc. assert (∃ d, linked r2 c d ∧ named r1 rid' name' d) as (d & Hd & Hnd).
    { destruct Hc as [(d & Hd & Hnd)|(-> & -> & d & Hd & Hnd)].
      - exists d. split; [|done]. apply Hl. by left.
      - rewrite (named_inj r1 _ _ _ _ Hok1 Hnd Hn) in Hd. exists b. split; [|done].
        apply Hl. by right. }
    exists d. split; [done|]. destruct (linked_key _ _ _ Hok2 Hd) as [k Hkd].
    unfold named in *. destruct Hk as [Hk|Hk]; rewrite Hk in Hkd |- *; [done|].
    apply lookup_delete_Some in Hkd as [Hne _]. by rewrite lookup_delete_ne.
Qed.

Lemma wp_topic_command r S op :
  topics_ok r → refines r S → op_ok r op →
  wp (topic_command op) (λ _ r', topics_ok r' ∧ refines r' (pubsub_step op S)) r.
Proof.
  intros Hok HS Hop.
  destruct op; (eapply wp_mono; [first
    [by eapply wp_subscribe_command|by eapply wp_unsubscribe_command
    |by eapply wp_clone_command|by eapply wp_drop_command]|]); naive_solver.
Qed.

Lemma keeps_topic_command op : keeps untouched (topic_command op).
Proof.
  pose proof (λ rid name c, keeps_find_topic rid name c) as H1.
  pose proof (λ h a, keeps_topic_subscribe h a) as H2.
  pose proof (λ h a, keeps_topic_unsubscribe h a) as H3.
  pose proof (λ a b, keeps_topic_clone a b) as H4.
  pose proof (λ a, keeps_free_topic a) as H5.
  destruct op; simpl; unfold subscribe_command, unsubscribe_command, clone_command, drop_command;
    repeat (first [apply H1|apply H2|apply H3|apply H4|apply H5|keeps_step]).
Qed.

Lemma wp_topic_history ops r S :
  topics_ok r → refines r S → Forall (op_ok r) ops →
  wp (topic_history ops) (λ _ r', topics_ok r' ∧ refines r' (pubsub_history ops S) ∧
    untouched r' = untouched r) r.
Proof.
  unfold topic_history. intros Hok HS Hops. revert r S Hok HS Hops.
  induction ops as [|op ops IH]; intros r S Hok HS Hops; simpl; root_steps; [done|].
  apply Forall_cons in Hops as [Hop Hops]. eapply wp_mono.
  { apply (wp_keeps untouched); [apply keeps_topic_command|by eapply (wp_topic_command r S)]. }
  intros ok r' [[Hok' HS'] Hu]. root_steps. rewrite <- Hu. apply IH; [done..|].
  eapply Forall_impl; [done|]. intros op'. by apply op_ok_frame.
Qed.
End refinement.

(** ** Properties *)

(** No topic exists yet, and nobody is subscribed. *)
Record fresh_root (r : root) : Prop := {
  fr_subs : subs r = ∅;
  fr_topics : topics r = ∅;
  fr_hybis : map_Forall (λ _ h, h_subscribers h = []) (hybis r);
  fr_routes : map_Forall (λ _ rt, rt_topics rt = None ∧ (0 < rt_topic_hash_size rt < 2 ^ 31)%Z)
    (routes r);
  fr_arena : pool_ok ∅ (sub_arena r);
  fr_heap : heap_wf (topic_heap r);
}.

Lemma fresh_topics_ok r : fresh_root r → topics_ok r.
Proof.
  intros [Hs Ht Hh Hr Ha Hp]. split; [split|split]; unfold keys;
    rewrite ?Hs, ?Ht, ?fmap_empty, ?dom_empty_L; try done.
  - by apply side_nil.
  - apply side_nil. intros k rt Hk. destruct (Hr k rt Hk) as [E _].
    unfold table_items. by rewrite E.
  - intros rid rt Hk. destruct (Hr rid rt Hk) as [E ?]. split; [done|].
    intros tbl bs. by rewrite E.
Qed.

Lemma topic_hash_step_fnv h c :
  topic_hash_step h c = Z.lxor (u64 (h * 16777619)) (u64 (schar c)).
Proof. unfold topic_hash_step. rewrite !Z.shiftl_mul_pow2 by lia. do 2 f_equal. lia. Qed.

(** [topic_hash] is the FNV-1 hash on 64-bit words with the 32-bit prime
    16777619 and offset basis zero, bytes being sign-extended. *)
Theorem topic_hash_fnv (s : bytes) :
  topic_hash s = foldl (λ h c, Z.lxor (u64 (h * 16777619)) (u64 (schar c))) 0%Z s ∧
  (0 ≤ topic_hash s < 2 ^ 64)%Z.
Proof.
  assert (E : ∀ h, foldl topic_hash_step h s
            = foldl (λ h c, Z.lxor (u64 (h * 16777619)) (u64 (schar c))) h s).
  { induction s as [|c s' IH]; intros h; [done|]. simpl. by rewrite IH, topic_hash_step_fnv. }
  split; [apply E|]. unfold topic_hash. rewrite E. clear E.
  induction s as [|c s' IH] using rev_ind; [simpl; lia|].
  rewrite foldl_snoc. apply lxor_range; [lia|apply u64_range..].
Qed.

(** With [create], [find_topic] returns the topic of that name, making one
    when the route has none and otherwise changing nothing; without [create] it
    returns the topic if there is one and NULL if not.  A new topic has no
    subscribers. *)
Theorem find_topic_correct `{Malloc} (r : root) (rid : nat) (rt : route) (name : bytes)
    (create : bool) (Hmem : ∀ h size, malloc_ok h size = true) (Hok : topics_ok r)
    (Hrt : routes r !! rid = Some rt) (Hlen : (Z.of_nat (length name) < 2 ^ 31)%Z) :
  ∃ oa r', find_topic rid name create r = Ok oa r' ∧ topics_ok r' ∧ subs r' = subs r ∧
    (∀ a, oa = Some a ↔ named r' rid name a) ∧
    (oa = None ↔ create = false ∧ ∀ a, ¬ named r rid name a) ∧
    (∀ rid' name' a, (rid', name') ≠ (rid, name) →
       named r' rid' name' a ↔ named r rid' name' a) ∧
    ((∃ a, named r rid name a) ∨ create = false → r' = r).
Proof.
  pose proof (wp_find_topic Hmem (subs r) r rid rt name create (tk_subs _ Hok) (tk_tables _ Hok)
    Hrt Hlen) as (oa & r' & Hrun & Hpost)%wp_Ok.
  exists oa, r'. split; [done|].
  destruct Hpost as [[(a & -> & Hs & Ht & Esub & Hn & Hk & Hle) Hid]|(-> & -> & -> & Hno)].
  2:{ split_and!; try done; naive_solver. }
  assert (Hok' : topics_ok r') by (split; [by rewrite Esub|done]).
  split_and!; [done|done| | | |tauto].
  - intros b. split; [by intros [= ->]|]. intros Hb. f_equal. by eapply (named_inj r').
  - split; [done|]. intros [Ec Hno]. rewrite Hid in Hn by auto. by apply Hno in Hn.
  - intros rid' name' b Hne. unfold named.
    split; [|intros Hb; by eapply lookup_weaken].
    rewrite Hk, lookup_insert_Some. naive_solver.
Qed.

(** A server with one route and two connections. *)
Definition topic_example : root :=
  empty_root <| hybis := {[0 := plain_hybi HYBI_WEBSOCKET (str "a") 0;
                           1 := plain_hybi HYBI_WEBSOCKET (str "b") 0]} |>
             <| routes := {[0 := plain_route 4 10]} |>.

Lemma topic_example_fresh : fresh_root topic_example.
Proof.
  split; [done|done| | | |intros b; simpl; set_solver].
  - intros i x. simpl. rewrite lookup_insert_Some, lookup_singleton_Some. naive_solver.
  - intros i x. simpl. rewrite lookup_singleton_Some. intros [<- <-]. simpl. split; [done|lia].
  - split; simpl; [intros b; simpl; set_solver|done|lia|constructor|done|set_solver].
Qed.

Lemma find_topic_correct_witness :
  let MM : Malloc := λ _ _, true in
  (∃ r', find_topic 0 (str "news") true topic_example = Ok (Some 2) r' ∧ topics_ok r') ∧
  find_topic 0 (str "news") false topic_example = Ok None topic_example.
Proof.
  intros MM. split.
  - destruct (find_topic_correct topic_example 0 (plain_route 4 10) (str "news") true)
      as (oa & r' & Hrun & Hok & _); [done|apply fresh_topics_ok, topic_example_fresh|done|done|].
    exists r'. split; [|exact Hok]. rewrite Hrun. f_equal.
    vm_compute in Hrun. injection Hrun as <- _. reflexivity.
  - destruct (find_topic_correct topic_example 0 (plain_route 4 10) (str "news") false)
      as (oa & r' & Hrun & _ & _ & _ & Hno & _ & Hsame);
      [done|apply fresh_topics_ok, topic_example_fresh|done|done|].
    rewrite Hrun. rewrite Hsame by auto. f_equal. vm_compute in Hrun.
    injection Hrun as <- _. reflexivity.
Defined.

(** C27: as long as memory lasts (the code does not check every refusal), and
    starting from a server without topics, any sequence of subscribe, unsubscribe,
    clone and drop commands on existing connections runs without undefined
    behaviour, and who is subscribed to which topic afterwards is what
    the set of (connection, route, name) triples says; nothing else of the
    connections, outputs, queues and traffic is touched. *)
Theorem pubsub_refines `{Malloc} (r : root) (ops : list topic_op)
    (Hmem : ∀ h size, malloc_ok h size = true) (Hfresh : fresh_root r)
    (Hops : Forall (op_ok r) ops) :
  ∃ r', topic_history ops r = Ok tt r' ∧ topics_ok r' ∧ untouched r' = untouched r ∧
    ∀ c rid name, subscribed r' c rid name ↔ (c, rid, name) ∈ pubsub_history ops ∅.
Proof.
  assert (HS : refines r ∅).
  { intros c rid name. split; [|set_solver]. intros (e & a & He & _).
    by rewrite (fr_subs _ Hfresh), lookup_empty in He. }
  pose proof (wp_topic_history Hmem ops r ∅ (fresh_topics_ok r Hfresh) HS Hops)
    as ([] & r' & ? & ? & ? & ?)%wp_Ok. eauto.
Qed.

Lemma pubsub_refines_witness :
  let MM : Malloc := λ _ _, true in
  let ops := [TSubscribe 0 0 (str "x"); TSubscribe 1 0 (str "y"); TSubscribe 0 0 (str "y");
              TUnsubscribe 0 0 (str "x"); TClone 0 (str "y") (str "z"); TDrop 0 (str "y")] in
  ∃ r', topic_history ops topic_example = Ok tt r' ∧
    subscribed r' 0 0 (str "z") ∧ subscribed r' 1 0 (str "z") ∧ ¬ subscribed r' 0 0 (str "x") ∧
    ¬ subscribed r' 1 0 (str "y").
Proof.
  intros MM ops. assert (Hops : Forall (op_ok topic_example) ops).
  { repeat constructor; try (eexists; reflexivity). }
  destruct (pubsub_refines topic_example ops (λ _ _, eq_refl) topic_example_fresh Hops)
    as (r' & Hrun & _ & _ & HS).
  exists r'. split; [exact Hrun|]. rewrite !HS.
  split_and!; apply (bool_decide_unpack _); vm_compute; exact I.
Defined.
