(* ===== verification/Backend.v ===== *)
(** * Messages to the backend (websocket.c)

    Every zeromq socket of a route has a queue.  A message goes out at once when
    the server is not paused, nothing is queued for the socket and zeromq takes
    it; otherwise it is queued, and sent when the socket polls writable.  A
    queued message holds a reference to its connection. *)

From S2P Require Import Prelude Sieve Pool MsgQueue Links State.

(** ** Operations *)
Section operations.
Context `{LogLevel, Malloc, Env}.

(** [zmq_send] of one message part with [ZMQ_NOBLOCK]. *)
Definition zmq_send (s : sock_id) (part : bytes) (more : bool) : MR send_res :=
  r ← get;
  let res := zmq_send_res (trace r) s part more in
  emit (ZmqSend s part more res);; mret res.

(** [SNIMPL(zmq_send(...))] *)
Definition snimpl_send (s : sock_id) (part : bytes) (more : bool) : MR unit :=
  res ← zmq_send s part more; SNIMPL (bool_decide (res ≠ Sent)).

Definition has_cookie (h : hybi) : bool := negb (Z.land (h_flags h) WS_HAS_COOKIE =? 0)%Z.

Definition is_message (msg : payload) : bool :=
  match msg with MSG_CONNECT | MSG_DISCONNECT => false | PMessage _ | PRequest _ => true end.

(** The second part; src/src/websocket.c:84-102 [backend_send_real] *)
Definition message_kind (h : hybi) (msg : payload) : bytes :=
  match msg with
  | MSG_CONNECT => str "connect"
  | MSG_DISCONNECT => str "disconnect"
  | PMessage _ | PRequest _ => if has_cookie h then str "msgfrom" else str "message"
  end.

(** The bytes behind the last part; src/src/websocket.c:112-121 [backend_send_real] *)
Definition payload_data (ty : hybi_enum) (msg : payload) : MR bytes :=
  match ty, msg with
  | HYBI_COMET, PRequest req => q ← get_request req; mret (rq_body q)
  | HYBI_WEBSOCKET, PMessage data => mret data
  | _, _ => undefined UseAfterFree      (* the pointer has another type *)
  end.

(** [Sent] for 0, the [errno] for -1;
    src/src/websocket.c:73-125 [backend_send_real] *)
Definition backend_send_real (s : sock_id) (h : addr) (msg : payload) : MR send_res :=
  hy ← get_hybi h;
  res ← zmq_send s (h_uid hy) true;
  if bool_decide (res = EAGAIN ∨ res = EINTR) then mret res
  else
    SNIMPL (bool_decide (res ≠ Sent));;
    snimpl_send s (message_kind hy msg) (is_message msg || has_cookie hy);;
    whenb (has_cookie hy) (snimpl_send s (h_cookie hy) (is_message msg));;
    whenb (is_message msg) (data ← payload_data (h_type hy) msg; snimpl_send s data false);;
    mret Sent.

(** src/src/websocket.c:53-58 [hybi_free] *)
Definition hybi_free (h : addr) : MR unit :=
  on_hybi_heap (free h);; modify (λ r, r <| hybis ::= delete h |>).

(** [refcnt] is an [unsigned]; src/src/websocket.h:12-12 [hybi_INCREF] *)
Definition hybi_INCREF (h : addr) : MR unit :=
  set_hybi h (λ hy, hy <| h_refcnt ::= λ n, u32 (n + 1) |>).

(** src/src/websocket.h:13-13 [hybi_DECREF] *)
Definition hybi_DECREF (h : addr) : MR unit :=
  set_hybi h (λ hy, hy <| h_refcnt ::= λ n, u32 (n - 1) |>);;
  hy ← get_hybi h;
  whenb (h_refcnt hy <=? 0)%Z (hybi_free h).

(** An operation on the queue of a socket, which uses [backend_pool]. *)
Definition on_sock_queue {A} (s : sock_id) (m : M pooled_queue A) : MR A := λ r,
  match socks r !! s with
  | None => Faulted UseAfterFree
  | Some so =>
      match m (mk_pq (backend_arena r) (so_queue so)) with
      | Ok a p => Ok a (r <| backend_arena := pq_arena p |>
                          <| socks := <[s := so <| so_queue := pq_queue p |>]> (socks r) |>)
      | Aborted => Aborted
      | Faulted f => Faulted f
      | NoFuel => NoFuel
      end
  end.

(** The inner loop; false is the [return] on EAGAIN;
    src/src/websocket.c:141-145 [backend_unqueue] *)
Fixpoint unqueue_send (fuel : nat) (s : sock_id) (h : addr) (msg : payload) : MR bool :=
  match fuel with
  | O => out_of_fuel
  | S fuel =>
      res ← backend_send_real s h msg;
      match res with
      | Sent => mret true
      | EINTR => unqueue_send fuel s h msg
      | EAGAIN => mret false
      | EOTHER => SNIMPL true;; unqueue_send fuel s h msg
      end
  end.

(** src/src/websocket.c:136-149 [backend_unqueue] *)
Fixpoint unqueue_items (s : sock_id) (l : list addr) : MR unit :=
  match l with
  | [] => mret tt
  | cur :: l =>
      ptr ← get_bmsg cur;
      sent ← unqueue_send retries s (b_hybi ptr) (b_msg ptr);
      if sent : bool then
        hybi_DECREF (b_hybi ptr);;
        count (λ st, st <| st_websock_backend_queued ::= minus 1 |>);;
        on_sock_queue s (queue_remove cur);;
        modify (λ r, r <| bmsgs ::= delete cur |>);;
        unqueue_items s l
      else mret tt
  end.

(** src/src/websocket.c:127-150 [backend_unqueue] *)
Definition backend_unqueue (s : sock_id) : MR unit :=
  r ← get;
  so ← get_sock s;
  if (zmq_writable (trace r) s && negb (size (so_queue so) =? 0)%Z && negb (paused r))%bool
  then unqueue_items s (q_items (so_queue so))
  else mret tt.

(** The loop of the direct path; false when it is left for the queue;
    src/src/websocket.c:154-165 [backend_send] *)
Fixpoint send_direct (fuel : nat) (s : sock_id) (h : addr) (msg : payload) : MR bool :=
  match fuel with
  | O => out_of_fuel
  | S fuel =>
      r ← get;
      so ← get_sock s;
      if (negb (paused r) && (size (so_queue so) =? 0)%Z)%bool then
        res ← backend_send_real s h msg;
        match res with
        | Sent => mret true
        | EAGAIN => mret false
        | EINTR => send_direct fuel s h msg
        | EOTHER => SNIMPL true;; mret true
        end
      else mret false
  end.

(** src/src/websocket.c:167-181 [backend_send] *)
Definition backend_enqueue (s : sock_id) (h : addr) (msg : payload) (force : bool) : MR bool :=
  q ← (if force then on_sock_queue s (@queue_push backlog_malloc)
       else on_sock_queue s (@queue_force_push backlog_malloc));
  match q with
  | None => mret false
  | Some q =>
      count (λ st, st <| st_websock_backend_queued ::= plus 1 |>);;
      hybi_INCREF h;;
      modify (λ r, r <| bmsgs ::= <[q := mk_backend_msg h msg]> |>);;
      mret true
  end.

(** True for 0, false for -1; src/src/websocket.c:153-182 [backend_send] *)
Definition backend_send (s : sock_id) (h : addr) (msg : payload) (force : bool) : MR bool :=
  sent ← send_direct retries s h msg;
  if sent : bool then mret true else backend_enqueue s h msg force.
End operations.

(** ** Histories *)
Inductive backend_op :=
  | BSend (s : sock_id) (h : addr) (msg : payload) (force : bool)
  | BUnqueue (s : sock_id).

(** The result lists what was accepted, in order. *)
Fixpoint backend_history `{LogLevel, Env} (ops : list backend_op) :
    MR (list (sock_id * backend_msg)) :=
  match ops with
  | [] => mret []
  | BSend s h msg force :: ops =>
      ok ← backend_send s h msg force;
      rest ← backend_history ops;
      mret (if ok : bool then (s, mk_backend_msg h msg) :: rest else rest)
  | BUnqueue s :: ops => backend_unqueue s;; backend_history ops
  end.

(** ** Documented behaviour of zeromq

    The parts of a message are sent atomically, so that only the first one can
    be refused; a send on a valid socket fails with EAGAIN or EINTR only; and a
    send is not interrupted forever. *)
Record zmq_laws `{Env} : Prop := {
  zl_atomic : ∀ tr s p part more,
    zmq_send_res (tr ++ [ZmqSend s p true Sent]) s part more = Sent;
  zl_errors : ∀ tr s part more, zmq_send_res tr s part more ≠ EOTHER;
  zl_signal : ∀ tr s p, ∃ k, k < retries ∧
    zmq_send_res (tr ++ replicate k (ZmqSend s p true EINTR)) s p true ≠ EINTR;
}.

(** ** The messages on the wire *)

(** The complete multi-part messages that went out on a socket, and the parts of
    the one that is being sent. *)
Definition wire_step (s : sock_id) (w : list (list bytes) * list bytes) (e : event) :
    list (list bytes) * list bytes :=
  match e with
  | ZmqSend s' part more Sent =>
      if decide (s' = s) then
        if more : bool then (w.1, w.2 ++ [part]) else (w.1 ++ [w.2 ++ [part]], [])
      else w
  | _ => w
  end.

Definition wire (s : sock_id) (tr : list event) : list (list bytes) * list bytes :=
  foldl (wire_step s) ([], []) tr.

Definition delivered (s : sock_id) (tr : list event) : list (list bytes) := (wire s tr).1.

(** The parts of a message, by the protocol (doc/proto.rst). *)
Definition frames (hy : hybi) (msg : payload) (data : bytes) : list bytes :=
  match msg with
  | MSG_CONNECT | MSG_DISCONNECT =>
      [h_uid hy; message_kind hy msg] ++ (if has_cookie hy then [h_cookie hy] else [])
  | PMessage _ | PRequest _ =>
      [h_uid hy; message_kind hy msg] ++ (if has_cookie hy then [h_cookie hy] else []) ++ [data]
  end.

(** How a backend reads a message: connection, cookie, what happened. *)
Inductive backend_event := BConnect | BDisconnect | BMessage (data : bytes).

Definition parse_frames (f : list bytes) : option (bytes * option bytes * backend_event) :=
  match f with
  | uid :: kind :: rest =>
      if decide (kind = str "connect") then
        match rest with
        | [] => Some (uid, None, BConnect)
        | [cookie] => Some (uid, Some cookie, BConnect)
        | _ => None
        end
      else if decide (kind = str "disconnect") then
        match rest with
        | [] => Some (uid, None, BDisconnect)
        | [cookie] => Some (uid, Some cookie, BDisconnect)
        | _ => None
        end
      else if decide (kind = str "message") then
        match rest with [data] => Some (uid, None, BMessage data) | _ => None end
      else if decide (kind = str "msgfrom") then
        match rest with
        | [cookie; data] => Some (uid, Some cookie, BMessage data)
        | _ => None
        end
      else None
  | _ => None
  end.

(** The sends of all parts of a message. *)
Fixpoint sent_events (s : sock_id) (fs : list bytes) : list event :=
  match fs with
  | [] => []
  | f :: fs => ZmqSend s f (match fs with [] => false | _ :: _ => true end) Sent :: sent_events s fs
  end.

(** A refused first part. *)
Definition refused (e : event) : Prop :=
  match e with ZmqSend _ _ true (EAGAIN | EINTR) => True | _ => False end.

(** The data of a message, provided that the pointer has the right type. *)
Definition payload_of (r : root) (hy : hybi) (msg : payload) : option bytes :=
  match msg, h_type hy with
  | (MSG_CONNECT | MSG_DISCONNECT), _ => Some []
  | PRequest req, HYBI_COMET => rq_body <$> requests r !! req
  | PMessage data, HYBI_WEBSOCKET => Some data
  | _, _ => None
  end.

(** ** Invariant *)
Definition sock_items (so : sock) : list addr := q_items (so_queue so).

(** Queued messages of a connection. *)
Definition refs (ms : gmap nat backend_msg) (h : addr) : nat :=
  base.size (filter (λ p : nat * backend_msg, b_hybi p.2 = h) ms).

(** The blocks of [backend_pool]. *)
Definition backlog (r : root) : nat := blocks (backend_arena r).

(** [act] are the connections that are not closed yet.  Every queued message is
    on the queue of one socket; a connection is referenced once for being open
    and once per queued message, and it is allocated as long as that is not
    zero. *)
Record backend_ok (act : gset nat) (r : root) : Prop := {
  bo_owner : ∃ E : gmap nat sock_id, dom E = dom (bmsgs r) ∧ side_ok E (sock_items <$> socks r);
  bo_size : map_Forall (λ _ so, size (so_queue so) = Z.of_nat (length (sock_items so))) (socks r);
  bo_pool : pool_ok (dom (bmsgs r)) (backend_arena r);
  bo_heap : heap_wf (hybi_heap r);
  bo_live : dom (hybis r) ⊆ live (hybi_heap r);
  bo_ref : ∀ h hy, hybis r !! h = Some hy →
    h_refcnt hy = Z.of_nat ((if decide (h ∈ act) then 1 else 0) + refs (bmsgs r) h) ∧
    (0 < h_refcnt hy)%Z;
  bo_act : act ⊆ dom (hybis r);
  bo_msg : ∀ q b, bmsgs r !! q = Some b →
    ∃ hy, hybis r !! b_hybi b = Some hy ∧ is_Some (payload_of r hy (b_msg b));
  bo_room : (Z.of_nat (backlog r) < 2 ^ 31)%Z;
}.

(** Memory for a message was refused, when no more of them waited than now. *)
Definition no_memory `{Env} (r : root) : Prop :=
  ∃ h n, @malloc_ok backlog_malloc h n = false ∧ base.size (live h) ≤ backlog r.

(** What waits in the queue of a socket, as it will go out. *)
Definition msg_frames (r : root) (b : backend_msg) : list bytes :=
  match hybis r !! b_hybi b with
  | Some hy => frames hy (b_msg b) (default [] (payload_of r hy (b_msg b)))
  | None => []
  end.

Definition pending (r : root) (s : sock_id) : list (list bytes) :=
  match socks r !! s with
  | Some so => (λ q, match bmsgs r !! q with Some b => msg_frames r b | None => [] end)
                 <$> sock_items so
  | None => []
  end.

(** No message is half sent. *)
Definition between (r : root) : Prop := ∀ s, (wire s (trace r)).2 = [].

(** ** Lemmas: the wire *)
Section wire.

Lemma wire_app s tr tr' : wire s (tr ++ tr') = foldl (wire_step s) (wire s tr) tr'.
Proof. apply foldl_app. Qed.

Lemma wire_refused s w l : Forall refused l → foldl (wire_step s) w l = w.
Proof.
  intros Hl. revert w. induction Hl as [|e l He Hl IH]; intros w; [done|]. simpl.
  rewrite IH. destruct e as [? ? [] []| | | | | | | | | | | | ]; done.
Qed.

Lemma wire_other s s' w fs : s' ≠ s → foldl (wire_step s) w (sent_events s' fs) = w.
Proof.
  intros Hne. revert w. induction fs as [|f fs IH]; intros w; [done|].
  simpl. rewrite decide_False by done. apply IH.
Qed.

Lemma wire_sent s ms acc f fs :
  foldl (wire_step s) (ms, acc) (sent_events s (f :: fs)) = (ms ++ [acc ++ f :: fs], []).
Proof.
  revert f acc. induction fs as [|f' fs IH]; intros f acc; [simpl; by rewrite decide_True|].
  transitivity (foldl (wire_step s) (ms, acc ++ [f]) (sent_events s (f' :: fs))).
  - simpl. by destruct (decide (s = s)).
  - by rewrite IH, <- app_assoc.
Qed.

(** A complete message on the wire. *)
Lemma delivered_sent s s' tr l fs :
  Forall refused l → fs ≠ [] → (wire s tr).2 = [] →
  wire s (tr ++ l ++ sent_events s' fs) =
    (delivered s tr ++ (if decide (s' = s) then [fs] else []), []).
Proof.
  intros Hl Hfs Hw. rewrite wire_app, foldl_app, (wire_refused s _ l Hl).
  unfold delivered. destruct (wire s tr) as [ms acc]. simpl in *. subst acc.
  case_decide as E; [subst s'|by rewrite wire_other, app_nil_r].
  destruct fs as [|f fs]; [done|]. apply wire_sent.
Qed.
End wire.

Section lemmas.
Context `{LogLevel, Malloc, Env}.
Hypothesis Hzmq : zmq_laws.
Implicit Types (r : root).

(** ** Lemmas: one message *)

Lemma wp_snimpl_send s p part more tr (Q : unit → root → Prop) r :
  trace r = tr ++ [ZmqSend s p true Sent] →
  Q tt (r <| trace := trace r ++ [ZmqSend s part more Sent] |>) →
  wp (snimpl_send s part more) Q r.
Proof.
  intros Htr HQ. unfold snimpl_send, zmq_send. root_steps. rewrite Htr, zl_atomic, <- Htr by done.
  apply wp_SNIMPL; [done|]. done.
Qed.

Lemma wp_payload_data hy msg data r :
  payload_of r hy msg = Some data → is_message msg = true →
  wp (payload_data (h_type hy) msg) (λ d r', d = data ∧ r' = r) r.
Proof.
  unfold payload_of, payload_data. intros Hd Hm.
  destruct msg as [| |d|req], (h_type hy); try done; [by injection Hd as ->|].
  destruct (requests r !! req) as [q|] eqn:Eq; [|done]. injection Hd as <-. by root_steps.
Qed.

(** A message goes out completely, or its first part is refused. *)
Lemma wp_backend_send_real s h hy msg data r :
  hybis r !! h = Some hy → payload_of r hy msg = Some data →
  wp (backend_send_real s h msg) (λ res r',
    res = zmq_send_res (trace r) s (h_uid hy) true ∧
    (res = Sent ∧ r' = r <| trace := trace r ++ sent_events s (frames hy msg data) |> ∨
     (res = EAGAIN ∨ res = EINTR) ∧
     r' = r <| trace := trace r ++ [ZmqSend s (h_uid hy) true res] |>)) r.
Proof.
  intros Hh Hd. unfold backend_send_real. root_steps. unfold zmq_send. root_steps.
  pose proof (zl_errors Hzmq (trace r) s (h_uid hy) true) as Hne.
  destruct (zmq_send_res (trace r) s (h_uid hy) true) eqn:Eres; [| | |done].
  2,3: rewrite bool_decide_true by auto; root_steps; (split; [done|]); right; by auto.
  rewrite bool_decide_false by (by intros [?|?]). root_steps. apply wp_SNIMPL; [done|]. root_steps.
  destruct (is_message msg) eqn:Em, (has_cookie hy) eqn:Ec; simpl;
    (eapply wp_snimpl_send; [done|]; simpl; root_steps).
  - eapply wp_snimpl_send; [simpl; done|]; simpl; root_steps.
    eapply wp_mono; [by eapply wp_payload_data|]. intros ? ? [-> ->].
    eapply wp_snimpl_send; [simpl; done|]; simpl; root_steps. split; [done|left]. split; [done|].
    unfold frames. rewrite Ec. rewrite <- !app_assoc. by destruct msg.
  - eapply wp_mono; [by eapply wp_payload_data|]. intros ? ? [-> ->].
    eapply wp_snimpl_send; [simpl; done|]; simpl; root_steps. split; [done|left]. split; [done|].
    unfold frames. rewrite Ec. rewrite <- !app_assoc. by destruct msg.
  - eapply wp_snimpl_send; [simpl; done|]; simpl; root_steps. split; [done|left]. split; [done|].
    unfold frames. rewrite Ec. rewrite <- !app_assoc. by destruct msg.
  - split; [done|left]. split; [done|].
    unfold frames. rewrite Ec. rewrite <- !app_assoc. by destruct msg.
Qed.

(** *** The loops that repeat an interrupted send *)

(** Within [n] attempts the send is not interrupted. *)
Definition calm (n : nat) (tr : list event) (s : sock_id) (p : bytes) : Prop :=
  ∃ k, k < n ∧ zmq_send_res (tr ++ replicate k (ZmqSend s p true EINTR)) s p true ≠ EINTR.

Lemma calm_O tr s p : ¬ calm 0 tr s p.
Proof. intros (k & ? & _). lia. Qed.

Lemma calm_S n tr s p :
  calm (S n) tr s p → zmq_send_res tr s p true = EINTR →
  calm n (tr ++ [ZmqSend s p true EINTR]) s p.
Proof.
  intros ([|k] & Hk & Hc) Hi; simpl in Hc; [by rewrite app_nil_r in Hc|].
  exists k. split; [lia|]. by rewrite <- app_assoc.
Qed.

(** The message was sent, or not at all, after some refused attempts. *)
Definition attempt (s : sock_id) (fs : list bytes) r (sent : bool) r' : Prop :=
  ∃ l, Forall refused l ∧
    r' = r <| trace := trace r ++ l ++ (if sent then sent_events s fs else []) |>.

Lemma attempt_step s fs r e sent r' :
  refused e → attempt s fs (r <| trace := trace r ++ [e] |>) sent r' → attempt s fs r sent r'.
Proof.
  intros He (l & Hl & ->). exists (e :: l). split; [by constructor|]. simpl. by rewrite <- app_assoc.
Qed.

Lemma attempt_sent s fs r :
  attempt s fs r true (r <| trace := trace r ++ sent_events s fs |>).
Proof. by exists []. Qed.

Lemma attempt_refused s fs p r :
  attempt s fs r false (r <| trace := trace r ++ [ZmqSend s p true EAGAIN] |>).
Proof. exists [ZmqSend s p true EAGAIN]. split; [by repeat constructor|done]. Qed.

Lemma wp_unqueue_send fuel s h hy msg data r :
  hybis r !! h = Some hy → payload_of r hy msg = Some data → calm fuel (trace r) s (h_uid hy) →
  wp (unqueue_send fuel s h msg) (attempt s (frames hy msg data) r) r.
Proof.
  revert r. induction fuel as [|fuel IH]; intros r Hh Hd Hc; [by apply calm_O in Hc|].
  cbn [unqueue_send]. root_steps. eapply wp_mono; [by eapply wp_backend_send_real|].
  intros res r' [Hres [[-> ->]|[[-> | ->] ->]]]; root_steps.
  - apply attempt_sent.
  - apply attempt_refused.
  - eapply wp_mono; [apply IH; [done..|by apply calm_S]|]. intros sent r'. by apply attempt_step.
Qed.

Lemma wp_send_direct fuel s so h hy msg data r :
  hybis r !! h = Some hy → payload_of r hy msg = Some data → calm fuel (trace r) s (h_uid hy) →
  socks r !! s = Some so →
  wp (send_direct fuel s h msg) (λ sent r', attempt s (frames hy msg data) r sent r' ∧
    (sent = true → paused r = false ∧ size (so_queue so) = 0%Z)) r.
Proof.
  revert r. induction fuel as [|fuel IH]; intros r Hh Hd Hc Hs; [by apply calm_O in Hc|].
  cbn [send_direct]. root_steps.
  destruct (paused r) eqn:Ep; simpl.
  { root_steps. split; [|done]. exists []. split; [done|]. rewrite app_nil_r. by destruct r. }
  destruct (Z.eqb_spec (size (so_queue so)) 0) as [E|E].
  2:{ root_steps. split; [|done]. exists []. split; [done|]. rewrite app_nil_r. by destruct r. }
  root_steps. eapply wp_mono; [by eapply wp_backend_send_real|].
  intros res r' [Hres [[-> ->]|[[-> | ->] ->]]]; root_steps.
  - split; [apply attempt_sent|done].
  - split; [apply attempt_refused|done].
  - eapply wp_mono; [apply IH; [done..|by apply calm_S|done]|].
    intros sent r' [Ha Hq]. split; [by eapply attempt_step, Ha|intros; split; [done|]; by apply Hq].
Qed.

Lemma calm_retries tr s p : calm retries tr s p.
Proof. apply (zl_signal Hzmq). Qed.

(** *** Queueing *)

Lemma wp_on_sock_queue {A} s so (m : M pooled_queue A) (Q : A → root → Prop) r :
  socks r !! s = Some so →
  wp m (λ a p, Q a (r <| backend_arena := pq_arena p |>
                      <| socks := <[s := so <| so_queue := pq_queue p |>]> (socks r) |>))
     (mk_pq (backend_arena r) (so_queue so)) →
  wp (on_sock_queue s m) Q r.
Proof. intros Hs. unfold wp, on_sock_queue. rewrite Hs. by destruct (m _). Qed.

Lemma refs_insert ms q b h :
  ms !! q = None →
  refs (<[q := b]> ms) h = (if decide (b_hybi b = h) then 1 else 0) + refs ms h.
Proof.
  intros Hq. unfold refs. rewrite map_filter_insert. simpl. case_decide as E.
  - rewrite map_size_insert_None; [done|]. by apply map_lookup_filter_None_2; left.
  - by rewrite delete_id.
Qed.

Lemma refs_delete ms q b h :
  ms !! q = Some b →
  refs ms h = (if decide (b_hybi b = h) then 1 else 0) + refs (delete q ms) h.
Proof.
  intros Hq. rewrite <- (insert_delete_id ms q b Hq) at 1. apply refs_insert, lookup_delete_eq.
Qed.

Lemma refs_pos ms q b : ms !! q = Some b → 0 < refs ms (b_hybi b).
Proof. intros Hq. rewrite (refs_delete _ _ _ _ Hq), decide_True by done. lia. Qed.

(** [r'] has at least the connections of [r] that are in use, up to counts. *)
Definition same_conn r r' (h : addr) : Prop :=
  ∃ hy n, hybis r !! h = Some hy ∧ hybis r' !! h = Some (hy <| h_refcnt := n |>).

Lemma msg_frames_same r r' b :
  requests r' = requests r → same_conn r r' (b_hybi b) → msg_frames r' b = msg_frames r b.
Proof.
  intros Hq (hy & n & E1 & E2). unfold msg_frames. rewrite E1, E2. unfold payload_of. by rewrite Hq.
Qed.

Lemma payload_same r r' hy n msg :
  requests r' = requests r → payload_of r' (hy <| h_refcnt := n |>) msg = payload_of r hy msg.
Proof. intros Hq. unfold payload_of. by rewrite Hq. Qed.

(** The items of a socket are allocated messages. *)
Lemma item_msg act r s so q :
  backend_ok act r → socks r !! s = Some so → q ∈ sock_items so → ∃ b, bmsgs r !! q = Some b.
Proof.
  intros Hok Hs Hq. destruct (bo_owner _ _ Hok) as (E & Hd & Hside).
  rewrite (side_elem _ _ _ _ _ Hside (lookup_fmap_Some' sock_items _ _ _ Hs)) in Hq.
  apply elem_of_dom_2 in Hq. rewrite Hd, elem_of_dom in Hq. by destruct Hq; eauto.
Qed.

Lemma pending_same act r r' s so so' l :
  backend_ok act r → socks r !! s = Some so → socks r' !! s = Some so' →
  sock_items so = l ++ sock_items so' → requests r' = requests r →
  (∀ q b, q ∈ sock_items so' → bmsgs r !! q = Some b →
          bmsgs r' !! q = Some b ∧ same_conn r r' (b_hybi b)) →
  pending r s = ((λ q, match bmsgs r !! q with Some b => msg_frames r b | None => [] end) <$> l)
                  ++ pending r' s.
Proof.
  intros Hok Hs Hs' El Hreq Hq. unfold pending. rewrite Hs, Hs', El, fmap_app. f_equal.
  apply list_fmap_ext. intros i q Hi%list_elem_of_lookup_2.
  destruct (item_msg _ _ _ _ q Hok Hs) as [b Hb]; [clear Hzmq; rewrite El; set_solver|].
  destruct (Hq q b Hi Hb) as [Hb' Hc]. rewrite Hb, Hb'. symmetry. by apply msg_frames_same.
Qed.

(** *** The counters fit into their types *)

Lemma refs_size ms h : refs ms h ≤ base.size ms.
Proof.
  unfold refs. rewrite <- !size_dom. apply subseteq_size, subseteq_dom, map_filter_subseteq.
Qed.

Lemma msgs_room act r : backend_ok act r → (Z.of_nat (base.size (bmsgs r)) < 2 ^ 31)%Z.
Proof.
  intros Hok. pose proof (pool_own_blocks _ _ (bo_pool _ _ Hok)) as Hle. rewrite size_dom in Hle.
  pose proof (bo_room _ _ Hok). unfold backlog in *. lia.
Qed.

Lemma refcnt_bound act r h hy :
  backend_ok act r → hybis r !! h = Some hy → (0 < h_refcnt hy ≤ 2 ^ 31)%Z.
Proof.
  intros Hok Hh. destruct (bo_ref _ _ Hok _ _ Hh) as [Hr ?].
  pose proof (msgs_room _ _ Hok). pose proof (refs_size (bmsgs r) h). case_decide; lia.
Qed.

Lemma sock_room act r s so :
  backend_ok act r → socks r !! s = Some so → length (sock_items so) ≤ base.size (bmsgs r).
Proof.
  intros Hok Hs. destruct (bo_owner _ _ Hok) as (E & HE & Hside).
  pose proof (side_NoDup _ _ _ _ Hside (lookup_fmap_Some' sock_items _ _ _ Hs)) as Hnd.
  rewrite <- (size_list_to_set (C := gset nat) _ Hnd), <- size_dom, <- HE.
  apply subseteq_size. intros q Hq%elem_of_list_to_set.
  eapply elem_of_dom_2. by eapply side_elem in Hq; [|exact Hside|by apply (lookup_fmap_Some' sock_items)].
Qed.

(** Adding a message that is on no queue yet. *)
Lemma backend_ok_push act r s so h hy msg data q a :
  backend_ok act r → socks r !! s = Some so → hybis r !! h = Some hy →
  payload_of r hy msg = Some data → bmsgs r !! q = None →
  pool_ok ({[q]} ∪ dom (bmsgs r)) a → (Z.of_nat (blocks a) < 2 ^ 31)%Z → ∀ st,
  let so' := so <| so_queue := mk_queue (i32 (size (so_queue so) + 1)) (capacity (so_queue so))
                                        (q_items (so_queue so) ++ [q]) |> in
  let r' := r <| backend_arena := a |> <| socks := <[s := so']> (socks r) |> <| stat := st |>
              <| hybis := <[h := hy <| h_refcnt ::= λ n, u32 (n + 1) |>]> (hybis r) |>
              <| bmsgs := <[q := mk_backend_msg h msg]> (bmsgs r) |> in
  backend_ok act r' ∧ ∀ s', pending r' s' =
    pending r s' ++ (if decide (s' = s) then [frames hy msg data] else []).
Proof.
  intros Hok Hs Hh Hd Hq Ha Hroom st so' r'.
  pose proof Hok as [(E & HE & Hside) Hsz Hp Hhp Hlv Href Hact Hmsg Hrm].
  assert (Hinc : u32 (h_refcnt hy + 1) = (h_refcnt hy + 1)%Z).
  { destruct (refcnt_bound _ _ _ _ Hok Hh). apply u32_small. lia. }
  assert (Hsize : i32 (size (so_queue so) + 1) = (size (so_queue so) + 1)%Z).
  { pose proof (pool_own_blocks _ _ Ha) as Hle. rewrite size_union, size_singleton, size_dom in Hle.
    2:{ rewrite disjoint_singleton_l. by apply not_elem_of_dom. }
    pose proof (sock_room _ _ _ _ Hok Hs). rewrite (Hsz _ _ Hs). apply i32_small. lia. }
  assert (Hconn : ∀ h', is_Some (hybis r !! h') → same_conn r r' h').
  { intros h' [hy' Hh']. destruct (decide (h' = h)) as [->|Hne].
    - exists hy, (u32 (h_refcnt hy + 1)). split; [done|]. simpl. by rewrite lookup_insert_eq.
    - exists hy', (h_refcnt hy'). split; [done|]. simpl. rewrite lookup_insert_ne by done.
      rewrite Hh'. by destruct hy'. }
  assert (HEq : E !! q = None).
  { apply not_elem_of_dom. rewrite HE. by apply not_elem_of_dom. }
  split.
  - split; simpl.
    + exists (<[q := s]> E). rewrite !dom_insert_L, HE. split; [done|].
      rewrite fmap_insert. eapply side_insert; [done|done|by apply (lookup_fmap_Some' sock_items)|].
      unfold sock_items. simpl. by rewrite Permutation_app_comm.
    + apply map_Forall_insert_2; [|done]. simpl. unfold sock_items. simpl.
      rewrite Hsize, length_app. simpl. rewrite (Hsz _ _ Hs). unfold sock_items. lia.
    + by rewrite dom_insert_L.
    + done.
    + rewrite dom_insert_L. apply elem_of_dom_2 in Hh. set_solver.
    + intros h' hy'. rewrite lookup_insert_Some, refs_insert by done. simpl.
      intros [[<- <-]|[Hne Hh']]; simpl.
      * rewrite Hinc, (decide_True (P := h = h)) by done. destruct (Href _ _ Hh). lia.
      * rewrite (decide_False (P := h = h')) by done. by apply Href.
    + rewrite dom_insert_L. set_solver.
    + intros q' b. rewrite lookup_insert_Some. intros [[<- <-]|[_ Hb]]; simpl.
      * exists (hy <| h_refcnt ::= λ n, u32 (n + 1) |>). rewrite lookup_insert_eq. split; [done|].
        exists data. done.
      * destruct (Hmsg _ _ Hb) as (hy' & Hh' & Hd'). destruct (Hconn (b_hybi b)) as (hy2 & n & E1 & E2); [eauto|].
        simpl in E2. exists (hy2 <| h_refcnt := n |>). split; [done|].
        rewrite Hh' in E1. injection E1 as <-. by rewrite (payload_same r).
    + done.
  - intros s'. assert (Hold : ∀ s1 so1, socks r !! s1 = Some so1 →
      ((λ q', match bmsgs r' !! q' with Some b => msg_frames r' b | None => [] end) <$> sock_items so1)
      = pending r s1).
    { intros s1 so1 Hs1. unfold pending. rewrite Hs1. apply list_fmap_ext.
      intros i q' Hi%list_elem_of_lookup_2. destruct (item_msg _ _ _ _ q' Hok Hs1 Hi) as [b Hb].
      simpl. rewrite lookup_insert_ne by congruence. rewrite Hb. apply msg_frames_same; [done|].
      apply Hconn. destruct (Hmsg _ _ Hb) as (? & ? & _). eauto. }
    unfold pending at 1. simpl socks. case_decide as Es.
    + subst s'. rewrite lookup_insert_eq. unfold sock_items at 1. simpl.
      rewrite fmap_app. fold (sock_items so). f_equal; [by apply Hold|]. simpl.
      rewrite lookup_insert_eq. unfold msg_frames. simpl. rewrite lookup_insert_eq.
      unfold payload_of in *. simpl. by rewrite Hd.
    + rewrite lookup_insert_ne, app_nil_r by done. destruct (socks r !! s') as [so1|] eqn:Hs1; [by apply Hold|].
      unfold pending. by rewrite Hs1.
Qed.

(** *** Sending *)

(** Everything about the connections but their counts. *)
Definition ident (hy : hybi) : hybi := hy <| h_refcnt := 0%Z |>.
Definition conns r : gmap nat hybi := ident <$> hybis r.

(** Whatever was accepted for a socket has gone out or is still queued, in the
    order in which it was accepted. *)
Definition stream r (s : sock_id) : list (list bytes) := delivered s (trace r) ++ pending r s.

Lemma frames_nonempty hy msg data : frames hy msg data ≠ [].
Proof. by destruct msg. Qed.

Lemma backend_ok_trace act r tr : backend_ok act r → backend_ok act (r <| trace := tr |>).
Proof. intros []. by split. Qed.

Lemma stream_attempt s hy msg data r sent r' :
  between r → attempt s (frames hy msg data) r sent r' →
  between r' ∧ ∀ s', delivered s' (trace r') =
    delivered s' (trace r) ++ (if sent then if decide (s' = s) then [frames hy msg data] else [] else []).
Proof.
  intros Hb (l & Hl & ->).
  assert (Hw : ∀ s', wire s' (trace r ++ l ++ (if sent then sent_events s (frames hy msg data) else []))
    = (delivered s' (trace r) ++ (if sent then if decide (s' = s) then [frames hy msg data] else [] else []), [])).
  { intros s'. destruct sent.
    - rewrite delivered_sent; [|done|apply frames_nonempty|apply Hb].
      do 2 case_decide; congruence.
    - rewrite app_nil_r, wire_app, wire_refused, app_nil_r by done. unfold delivered.
      specialize (Hb s'). destruct (wire s' (trace r)). simpl in *. by subst. }
  split; intros s'; [|unfold delivered at 1]; simpl; by rewrite Hw.
Qed.

(** At most one message was queued. *)
Definition queued_one r r' (h : addr) (msg : payload) : Prop :=
  bmsgs r' = bmsgs r ∨
  ∃ q, (q ∉ dom (bmsgs r)) ∧ bmsgs r' = <[q := mk_backend_msg h msg]> (bmsgs r).

Lemma wp_backend_enqueue act s so h hy msg data force r :
  backend_ok act r → socks r !! s = Some so → hybis r !! h = Some hy →
  payload_of r hy msg = Some data →
  wp (backend_enqueue s h msg force) (λ ok r', backend_ok act r' ∧ trace r' = trace r ∧
    conns r' = conns r ∧ dom (socks r') = dom (socks r) ∧
    (ok = false → hybis r' = hybis r ∧
      (force = true ∧ (capacity (so_queue so) ≤ size (so_queue so))%Z ∨ no_memory r')) ∧
    queued_one r r' h msg ∧ backlog r ≤ backlog r' ∧
    ∀ s', pending r' s' =
      pending r s' ++ (if ok then if decide (s' = s) then [frames hy msg data] else [] else [])) r.
Proof.
  intros Hok Hs Hh Hd. unfold backend_enqueue. root_steps.
  set (Q0 := λ (q : option addr) (p : pooled_queue), match q with
    | None => pool_ok (dom (bmsgs r)) (pq_arena p) ∧ pq_queue p = so_queue so
    | Some q => (q ∉ dom (bmsgs r)) ∧ pool_ok ({[q]} ∪ dom (bmsgs r)) (pq_arena p) ∧
        pq_queue p = mk_queue (i32 (size (so_queue so) + 1)) (capacity (so_queue so))
                              (q_items (so_queue so) ++ [q]) end).
  set (Q := λ q p, Q0 q p ∧ (Z.of_nat (blocks (pq_arena p)) < 2 ^ 31)%Z ∧ backlog r ≤ blocks (pq_arena p) ∧
    (q = None → force = true ∧ (capacity (so_queue so) ≤ size (so_queue so))%Z ∨
       ∃ n, @malloc_ok backlog_malloc (a_heap (backend_arena r)) n = false)).
  assert (HQ : wp (if force then @queue_push backlog_malloc else @queue_force_push backlog_malloc) Q
                 (mk_pq (backend_arena r) (so_queue so))).
  { pose proof (bo_pool _ _ Hok) as Hp. eapply (wp_run _ Q0).
    - destruct force; [eapply wp_queue_push|eapply wp_queue_force_push]; try exact Hp;
        unfold Q0; simpl; intros; split_and?; naive_solver.
    - intros q p Hrun HQ. apply queue_push_blocks in Hrun as (Hle & Hgrow & Hnone).
      unfold Q. simpl in *. pose proof (bo_room _ _ Hok) as Hrm. unfold backlog in *. split_and!; [exact HQ| |done..].
      destruct Hgrow as [->|[(n & Hn%backlog_limit) ?]]; [done|]. unfold blocks in *. lia. }
  eapply wp_mono with (Q := λ q r', ∃ p, Q q p ∧ r' = r <| backend_arena := pq_arena p |>
                      <| socks := <[s := so <| so_queue := pq_queue p |>]> (socks r) |>).
  { destruct force; (eapply wp_on_sock_queue; [done|]); (eapply wp_mono; [by apply HQ|]); eauto. }
  intros [q|] r1 (p & Hp & ->); unfold Q, Q0 in Hp; destruct Hp as (Hp & Hroom & Hmore & Hnone).
  - destruct Hp as (Hq & Hpool & Eq). rewrite Eq. unfold hybi_INCREF.
    apply not_elem_of_dom in Hq. root_steps.
    destruct (backend_ok_push act r s so h hy msg data q (pq_arena p) Hok Hs Hh Hd Hq Hpool Hroom
      ((stat r) <| st_websock_backend_queued ::= plus 1 |>)) as [Hok' Hp'].
    split_and!; [exact Hok'|done| |by simpl; rewrite dom_insert_lookup_L|done| |exact Hmore|exact Hp'].
    2:{ right. exists q. split; [by apply not_elem_of_dom|done]. }
    unfold conns. simpl. by apply fmap_insert_same with hy.
  - destruct Hp as (Hpool & Eq). root_steps.
    assert (Es : <[s := so <| so_queue := pq_queue p |>]> (socks r) = socks r).
    { apply insert_id. rewrite Eq, Hs. by destruct so. }
    rewrite Es. split_and!; [|done..| |by left|done|by intros; rewrite app_nil_r]; [by destruct Hok; split|].
    intros _. split; [done|]. destruct (Hnone eq_refl) as [?|[n ?]]; [by left|right].
    by exists (a_heap (backend_arena r)), n.
Qed.

Lemma wp_backend_send act s so h hy msg data force r :
  backend_ok act r → between r → socks r !! s = Some so → hybis r !! h = Some hy →
  payload_of r hy msg = Some data →
  wp (backend_send s h msg force) (λ ok r', backend_ok act r' ∧ between r' ∧
    conns r' = conns r ∧ dom (socks r') = dom (socks r) ∧
    (ok = false → hybis r' = hybis r ∧
      (force = true ∧ (capacity (so_queue so) ≤ size (so_queue so))%Z ∨ no_memory r')) ∧
    queued_one r r' h msg ∧ backlog r ≤ backlog r' ∧
    ∀ s', stream r' s' =
      stream r s' ++ (if ok then if decide (s' = s) then [frames hy msg data] else [] else [])) r.
Proof.
  intros Hok Hb Hs Hh Hd. unfold backend_send. root_steps.
  eapply wp_mono; [eapply wp_send_direct; try done; apply calm_retries|].
  intros sent r1 [Hatt Hq]. destruct (stream_attempt _ _ _ _ _ _ _ Hb Hatt) as [Hb1 Hd1].
  destruct Hatt as (l & Hl & ->). destruct sent; root_steps.
  - destruct (Hq eq_refl) as [_ Hz].
    split_and!; [by apply backend_ok_trace|done..|by left|done|]. intros s'. unfold stream. rewrite Hd1.
    rewrite <- !app_assoc. f_equal. change (pending (_ <| trace := _ |>) s') with (pending r s').
    case_decide as E; [subst s'|by rewrite app_nil_r].
    assert (pending r s = []) as ->; [|done]. unfold pending. rewrite Hs.
    rewrite (bo_size _ _ Hok _ _ Hs) in Hz. by destruct (sock_items so).
  - eapply wp_mono; [eapply (wp_backend_enqueue act _ so h hy msg data); try done; by apply backend_ok_trace|].
    intros ok r2 (Hok2 & Ht & Hc & Hso & Hf & Hq1 & Hlog & Hp).
    split_and!; [done|intros s'; rewrite Ht; apply Hb1|done..|].
    intros s'. unfold stream. rewrite Hp, Ht, Hd1, app_nil_r. by rewrite app_assoc.
Qed.

(** *** Unqueueing *)

(** The connections after a reference of [h] was dropped. *)
Definition dropped r (h : addr) (hs : gmap nat hybi) : Prop :=
  ∃ hy, hybis r !! h = Some hy ∧
    (hs = <[h := hy <| h_refcnt ::= λ n, (n - 1)%Z |>]> (hybis r) ∧ (0 < h_refcnt hy - 1)%Z ∨
     hs = delete h (hybis r) ∧ (h_refcnt hy - 1 = 0)%Z).

Lemma wp_hybi_DECREF h hy (Q : unit → root → Prop) r :
  hybis r !! h = Some hy → heap_wf (hybi_heap r) → dom (hybis r) ⊆ live (hybi_heap r) →
  (0 < h_refcnt hy < 2 ^ 32)%Z →
  (∀ hp hs, dropped r h hs → heap_wf hp → dom hs ⊆ live hp →
            Q tt (r <| hybi_heap := hp |> <| hybis := hs |>)) →
  wp (hybi_DECREF h) Q r.
Proof.
  intros Hh Hwf Hlv Hpos HQ. unfold hybi_DECREF. root_steps.
  assert (Hdec : u32 (h_refcnt hy - 1) = (h_refcnt hy - 1)%Z) by (apply u32_small; lia).
  eapply wp_get_hybi; [apply lookup_insert_eq|]. root_steps; simpl in *; rewrite Hdec in *.
  - unfold hybi_free, on_hybi_heap. root_steps.
    apply wp_free; [done|simpl; apply Hlv; by apply elem_of_dom_2 in Hh|].
    intros h' Hh' _ Hl'. root_steps. simpl. rewrite delete_insert_eq. apply HQ; [|done|].
    + exists hy. split; [done|right]. split; [done|]. lia.
    + rewrite dom_delete, Hl'. simpl. clear Hzmq; set_solver.
  - destruct r as []. simpl in *. eapply HQ; [|exact Hwf|].
    + exists hy. split; [done|left]. split; [done|]. lia.
    + rewrite dom_insert. apply elem_of_dom_2 in Hh. clear Hzmq; set_solver.
Qed.

Lemma dropped_lookup r h hs h' hy' :
  dropped r h hs → hs !! h' = Some hy' →
  ∃ hy n, hybis r !! h' = Some hy ∧ hy' = hy <| h_refcnt := n |>.
Proof.
  intros (hy & Hh & [[-> _]|[-> _]]).
  - rewrite lookup_insert_Some. intros [[<- <-]|[_ Hh']]; [eauto|].
    exists hy', (h_refcnt hy'). split; [done|by destruct hy'].
  - rewrite lookup_delete_Some. intros [_ Hh'].
    exists hy', (h_refcnt hy'). split; [done|by destruct hy'].
Qed.

(** Connections that something still refers to survive. *)
Lemma dropped_survives act r q b hs h' :
  backend_ok act r → bmsgs r !! q = Some b → dropped r (b_hybi b) hs →
  h' ∈ act ∨ 0 < refs (delete q (bmsgs r)) h' → is_Some (hybis r !! h') →
  ∃ hy n, hybis r !! h' = Some hy ∧ hs !! h' = Some (hy <| h_refcnt := n |>).
Proof.
  intros Hok Hq (hy & Hh & Hdrop) Huse [hy' Hh'].
  destruct (decide (h' = b_hybi b)) as [->|Hne].
  - rewrite Hh in Hh'. injection Hh' as <-. destruct (bo_ref _ _ Hok _ _ Hh) as [Hr _].
    rewrite (refs_delete _ _ _ _ Hq), (decide_True (P := b_hybi b = b_hybi b)) in Hr by done.
    destruct Hdrop as [[-> _]|[_ Hz]].
    + exists hy, (h_refcnt hy - 1)%Z. by rewrite lookup_insert_eq.
    + exfalso. rewrite Hr in Hz. case_decide; destruct Huse; try done; lia.
  - exists hy', (h_refcnt hy'). split; [done|].
    assert (hs !! h' = hybis r !! h') as ->.
    { destruct Hdrop as [[-> _]|[-> _]]; [by rewrite lookup_insert_ne|by rewrite lookup_delete_ne]. }
    rewrite Hh'. by destruct hy'.
Qed.

(** Taking the first message off the queue of a socket. *)
Lemma backend_ok_pop act r s so q l b hs hp a st :
  backend_ok act r → socks r !! s = Some so → sock_items so = q :: l →
  bmsgs r !! q = Some b → dropped r (b_hybi b) hs → heap_wf hp → dom hs ⊆ live hp →
  pool_ok (dom (bmsgs r) ∖ {[q]}) a → blocks a ≤ backlog r →
  let so' := so <| so_queue := mk_queue (i32 (size (so_queue so) - 1)) (capacity (so_queue so)) l |> in
  let r' := r <| hybi_heap := hp |> <| hybis := hs |> <| stat := st |> <| backend_arena := a |>
              <| socks := <[s := so']> (socks r) |> <| bmsgs := delete q (bmsgs r) |> in
  backend_ok act r' ∧ ∀ s',
    (if decide (s' = s) then [msg_frames r b] else []) ++ pending r' s' = pending r s'.
Proof.
  intros Hok Hs Hl Hq Hdrop Hhp Hdom Ha Hfewer so' r'.
  pose proof Hok as [(E & HE & Hside) Hsz Hp _ _ Href Hact Hmsg Hroom].
  assert (Hsize : i32 (size (so_queue so) - 1) = (size (so_queue so) - 1)%Z).
  { pose proof (sock_room _ _ _ _ Hok Hs). pose proof (msgs_room _ _ Hok).
    rewrite (Hsz _ _ Hs), Hl in *. simpl in *. apply i32_small. lia. }
  pose proof (lookup_fmap_Some' sock_items _ _ _ Hs) as Hls. rewrite Hl in Hls.
  pose proof (side_NoDup _ _ _ _ Hside Hls) as Hnd. apply NoDup_cons in Hnd as [Hql Hnd].
  assert (HEq : E !! q = Some s) by (eapply side_elem; [done..|by left]).
  assert (Hconn : ∀ q' b', delete q (bmsgs r) !! q' = Some b' → same_conn r r' (b_hybi b')).
  { intros q' b' Hb'. apply (dropped_survives act r q b hs); [done..| |].
    - right. by eapply refs_pos.
    - apply lookup_delete_Some in Hb' as [_ Hb']. destruct (Hmsg _ _ Hb') as (? & ? & _). eauto. }
  split.
  - split; simpl.
    + exists (delete q E). rewrite dom_delete_L, HE, <- dom_delete_L. split; [done|].
      rewrite fmap_insert. assert (sock_items so' = unlink q (q :: l)) as ->.
      { by rewrite unlink_cons_eq. }
      by eapply side_delete.
    + apply map_Forall_insert_2; [|done]. simpl. unfold sock_items. simpl.
      rewrite Hsize, (Hsz _ _ Hs), Hl. simpl. lia.
    + by rewrite dom_delete_L.
    + done.
    + done.
    + intros h hy Hh. destruct Hdrop as (hy0 & Hh0 & Hdrop).
      destruct (bo_ref _ _ Hok _ _ Hh0) as [Hr0 _].
      rewrite (refs_delete _ _ _ _ Hq), (decide_True (P := b_hybi b = b_hybi b)) in Hr0 by done.
      destruct (decide (h = b_hybi b)) as [->|Hne].
      * destruct Hdrop as [[-> Hpos]|[-> _]]; [|by rewrite lookup_delete_eq in Hh].
        rewrite lookup_insert_eq in Hh. injection Hh as <-. simpl. lia.
      * assert (hybis r !! h = Some hy) as Hh'.
        { destruct Hdrop as [[-> _]|[-> _]];
            [by rewrite lookup_insert_ne in Hh|by rewrite lookup_delete_ne in Hh]. }
        destruct (Href _ _ Hh') as [Hr ?]. rewrite (refs_delete _ _ _ _ Hq), (decide_False (P := b_hybi b = h)) in Hr
            by congruence.
        done.
    + intros h Hh. pose proof (Hact _ Hh) as Hd. apply elem_of_dom in Hd.
      destruct (dropped_survives act r q b hs h Hok Hq Hdrop (or_introl Hh) Hd) as (hy & n & _ & Hn).
      by eapply elem_of_dom_2.
    + intros q' b' Hb'. destruct (Hconn _ _ Hb') as (hy & n & E1 & E2). simpl in E2.
      exists (hy <| h_refcnt := n |>). split; [done|]. rewrite (payload_same r) by done.
      apply lookup_delete_Some in Hb' as [_ Hb']. destruct (Hmsg _ _ Hb') as (hy' & E3 & ?).
      rewrite E1 in E3. by injection E3 as ->.
    + unfold backlog in *. simpl. lia.
  - intros s'. case_decide as Es.
    + subst s'. rewrite (pending_same act r r' s so so' [q] Hok Hs); [by simpl; rewrite Hq| | | |].
      * simpl. apply lookup_insert_eq.
      * done.
      * done.
      * intros q' b' Hin Hb'. assert (q' ≠ q) by (intros ->; done).
        assert (delete q (bmsgs r) !! q' = Some b') by by rewrite lookup_delete_ne.
        split; [done|by eapply Hconn].
    + destruct (socks r !! s') as [so1|] eqn:Hs1.
      2:{ unfold pending. simpl. rewrite lookup_insert_ne by done. by rewrite Hs1. }
      rewrite (pending_same act r r' s' so1 so1 [] Hok Hs1); [done| | | |].
      * simpl. by rewrite lookup_insert_ne.
      * done.
      * done.
      * intros q' b' Hin Hb'. assert (q' ≠ q).
        { intros ->. apply Es. pose proof (lookup_fmap_Some' sock_items _ _ _ Hs1) as Hls1.
          rewrite (side_elem _ _ _ _ _ Hside Hls1), HEq in Hin. congruence. }
        assert (delete q (bmsgs r) !! q' = Some b') by by rewrite lookup_delete_ne.
        split; [done|by eapply Hconn].
Qed.

(** What sending and queueing leave alone. *)
Definition off_backend r :=
  (instance_id r, (paused r, hsieve r, request_sieve r, requests r), (topic_heap r, topics r),
   (sub_arena r, subs r), (output_heap r, outputs r), (frontend_arena r, fmsgs r), routes r,
   so_outputs <$> socks r).

Lemma keeps_on_sock_queue {A} s (m : M pooled_queue A) : keeps off_backend (on_sock_queue s m).
Proof.
  intros r a r'. unfold on_sock_queue. destruct (socks r !! s) as [so|] eqn:Hs; [|done].
  destruct (m _); [|done..]. intros [= _ <-]. unfold off_backend. simpl.
  by erewrite fmap_insert_same.
Qed.

Lemma keeps_zmq_send {T} (f : root → T) s p more :
  (∀ r s p m res, f (r <| trace ::= λ t, t ++ [ZmqSend s p m res] |>) = f r) → keeps f (zmq_send s p more).
Proof.
  intros Hf. unfold zmq_send. apply keeps_bind; [apply keeps_get|intros r].
  apply keeps_bind; [apply keeps_emit; intros; apply Hf|intros; apply keeps_ret].
Qed.

Lemma keeps_backend_send_real {T} (f : root → T) s h msg :
  (∀ r s p m res, f (r <| trace ::= λ t, t ++ [ZmqSend s p m res] |>) = f r) → keeps f (backend_send_real s h msg).
Proof.
  intros Hf. pose proof (λ s p m, keeps_zmq_send f s p m Hf).
  assert (∀ b, keeps f (SNIMPL b)) by (intros; unfold SNIMPL; solve_keeps).
  unfold backend_send_real, snimpl_send, payload_data.
  repeat (first [assumption|apply H2|apply H3|keeps_step]).
Qed.

Lemma keeps_off_backend_send s h msg force : keeps off_backend (backend_send s h msg force).
Proof.
  assert (∀ s h msg, keeps off_backend (backend_send_real s h msg))
    by (intros; by apply keeps_backend_send_real).
  assert (∀ b, keeps off_backend (SNIMPL b)) by (intros; unfold SNIMPL; solve_keeps).
  assert (∀ n, keeps off_backend (send_direct n s h msg)).
  { induction n as [|n IH]; simpl; [solve_keeps|].
    repeat (first [apply H2|apply H3|apply IH|keeps_step]). }
  unfold backend_send, backend_enqueue, hybi_INCREF.
  repeat (first [apply H4|apply keeps_on_sock_queue|keeps_step]).
Qed.

Lemma keeps_off_backend_unqueue s : keeps off_backend (backend_unqueue s).
Proof.
  assert (∀ s h msg, keeps off_backend (backend_send_real s h msg))
    by (intros; by apply keeps_backend_send_real).
  assert (∀ b, keeps off_backend (SNIMPL b)) by (intros; unfold SNIMPL; solve_keeps).
  assert (∀ n h msg, keeps off_backend (unqueue_send n s h msg)).
  { induction n as [|n IH]; intros; simpl; [solve_keeps|].
    repeat (first [apply H2|apply H3|apply IH|keeps_step]). }
  assert (∀ l, keeps off_backend (unqueue_items s l)).
  { induction l as [|q l IH]; simpl; [solve_keeps|]. unfold hybi_DECREF, hybi_free.
    repeat (first [apply H4|apply IH|apply keeps_on_sock_queue|keeps_step]). }
  unfold backend_unqueue. repeat (first [apply H5|keeps_step]).
Qed.

Lemma conns_dropped r h hs : dropped r h hs → ident <$> hs ⊆ conns r.
Proof.
  intros Hd. apply map_subseteq_spec. intros h' x. unfold conns. rewrite !lookup_fmap, !fmap_Some.
  intros (hy' & Hh' & ->). destruct (dropped_lookup _ _ _ _ _ Hd Hh') as (hy & n & Hh & ->). eauto.
Qed.

Lemma wp_unqueue_items act s l so r :
  backend_ok act r → between r → socks r !! s = Some so → sock_items so = l →
  wp (unqueue_items s l) (λ _ r', backend_ok act r' ∧ between r' ∧ conns r' ⊆ conns r ∧
    dom (socks r') = dom (socks r) ∧ ∀ s', stream r' s' = stream r s') r.
Proof.
  revert so r. induction l as [|q l IH]; intros so r Hok Hb Hs Hl; cbn [unqueue_items].
  { root_steps. done. }
  destruct (item_msg act r s so q Hok Hs) as [b Hq]; [rewrite Hl; by left|]. root_steps.
  destruct (bo_msg _ _ Hok _ _ Hq) as (hy & Hh & [data Hd]).
  eapply wp_mono; [eapply wp_unqueue_send; [done..|apply calm_retries]|].
  intros sent r1 Hatt. destruct (stream_attempt _ _ _ _ _ _ _ Hb Hatt) as [Hb1 Hd1].
  destruct Hatt as (ev & Hev & E1). assert (Hp1 : ∀ s', pending r1 s' = pending r s') by (by subst r1).
  assert (Hok1 : backend_ok act r1) by (subst r1; by apply backend_ok_trace).
  destruct sent; root_steps.
  2:{ subst r1. split_and!; [done..|]. intros s'. unfold stream. by rewrite Hd1, app_nil_r. }
  pose proof (refcnt_bound _ _ _ _ Hok Hh) as Hpos.
  eapply (wp_hybi_DECREF _ hy); [by subst r1|apply Hok1|apply Hok1|lia|].
  intros hp hs Hdrop Hhp Hdom. root_steps.
  eapply wp_on_sock_queue; [by subst r1|].
  eapply (wp_run _ (λ _ p, pool_ok (dom (bmsgs r) ∖ {[q]}) (pq_arena p) ∧ pq_queue p = mk_queue
    (i32 (size (so_queue so) - 1)) (capacity (so_queue so)) (unlink q (q_items (so_queue so))))).
  { apply (wp_queue_remove (dom (bmsgs r))); [subst r1; apply Hok|by eapply elem_of_dom_2|]. by intros a Ha. }
  intros [] [a qu] Hfewer%queue_remove_blocks [Ha Equ]. simpl in Ha, Equ, Hfewer. subst qu. simpl. root_steps.
  assert (Hs1 : socks r1 !! s = Some so) by by subst r1.
  assert (Hq1 : bmsgs r1 !! q = Some b) by by subst r1.
  assert (Ha1 : pool_ok (dom (bmsgs r1) ∖ {[q]}) a) by by subst r1.
  assert (Hfw1 : blocks a ≤ backlog r1) by by subst r1.
  destruct (backend_ok_pop act r1 s so q l b hs hp a
    ((stat r1) <| st_websock_backend_queued ::= minus 1 |>) Hok1 Hs1 Hl Hq1 Hdrop Hhp Hdom Ha1 Hfw1)
    as [Hok2 Hp2].
  assert (Hul : unlink q (q_items (so_queue so)) = l).
  { destruct (bo_owner _ _ Hok) as (E & _ & Hside).
    pose proof (side_NoDup _ _ _ _ Hside (lookup_fmap_Some' sock_items _ _ _ Hs)) as Hnd.
    rewrite Hl in Hnd. unfold sock_items in Hl. rewrite Hl. apply unlink_cons_eq.
    by apply NoDup_cons in Hnd as [? _]. }
  rewrite Hul. eapply wp_mono; [apply (IH (so <| so_queue := mk_queue (i32 (size (so_queue so) - 1))
    (capacity (so_queue so)) l |>) _ Hok2 Hb1); [simpl; apply lookup_insert_eq|done]|].
  intros _ r3 (Hok3 & Hb3 & Hc3 & Hso3 & Hst3). split_and!; [done|done| | |].
  - etrans; [exact Hc3|]. change (conns r) with (conns (r <| trace := trace r1 |>)).
    subst r1. by eapply conns_dropped.
  - rewrite Hso3. simpl. rewrite dom_insert_lookup_L; subst r1; done.
  - intros s'. rewrite Hst3. unfold stream. simpl. rewrite Hd1, <- Hp1, <- (Hp2 s').
    rewrite <- app_assoc. f_equal. destruct (decide (s' = s)); [|done].
    assert (msg_frames r1 b = frames hy (b_msg b) data) as ->; [|done].
    subst r1. unfold msg_frames. simpl. rewrite Hh.
    assert (payload_of (r <| trace := trace r ++ ev ++ sent_events s (frames hy (b_msg b) data) |>)
              hy (b_msg b) = Some data) as E by exact Hd.
    simpl in E. by rewrite E.
Qed.

Lemma wp_backend_unqueue act s so r :
  backend_ok act r → between r → socks r !! s = Some so →
  wp (backend_unqueue s) (λ _ r', backend_ok act r' ∧ between r' ∧ conns r' ⊆ conns r ∧
    dom (socks r') = dom (socks r) ∧ ∀ s', stream r' s' = stream r s') r.
Proof.
  intros Hok Hb Hs. unfold backend_unqueue. root_steps. case_match; [|by root_steps].
  by eapply wp_unqueue_items.
Qed.

(** *** Histories *)

(** Connections of the command are open, the socket exists and the pointer has
    the type that goes with the connection. *)
Definition backend_op_ok (act : gset nat) r (op : backend_op) : Prop :=
  match op with
  | BSend s h msg _ => s ∈ dom (socks r) ∧ h ∈ act ∧
      ∃ hy, hybis r !! h = Some hy ∧ is_Some (payload_of r hy msg)
  | BUnqueue s => s ∈ dom (socks r)
  end.

(** The frames of an open connection do not change. *)
Lemma open_conn act r r' h hy :
  backend_ok act r' → conns r' ⊆ conns r → h ∈ act → hybis r !! h = Some hy →
  ∃ n, hybis r' !! h = Some (hy <| h_refcnt := n |>).
Proof.
  intros Hok Hc Hh Hhy. apply (bo_act _ _ Hok), elem_of_dom in Hh as [hy' Hh'].
  pose proof (lookup_weaken _ _ _ _ (lookup_fmap_Some' ident _ _ _ Hh') Hc) as E.
  unfold conns in E. rewrite lookup_fmap, Hhy in E. injection E as E.
  exists (h_refcnt hy'). rewrite Hh'. destruct hy, hy'. simpl in *. unfold ident in E. simpl in E.
  by simplify_eq.
Qed.

Lemma backend_op_ok_same act r r' op :
  backend_ok act r' → conns r' ⊆ conns r → dom (socks r') = dom (socks r) →
  requests r' = requests r → backend_op_ok act r op → backend_op_ok act r' op.
Proof.
  intros Hok Hc Hso Hreq. destruct op as [s h msg force|s]; simpl; rewrite Hso; [|done].
  intros (Hs & Hh & hy & Hhy & Hp). split_and!; [done..|].
  destruct (open_conn _ _ _ _ _ Hok Hc Hh Hhy) as [n Hn]. exists (hy <| h_refcnt := n |>).
  split; [done|]. by rewrite (payload_same r).
Qed.

Lemma msg_frames_open act r r' h hy msg :
  backend_ok act r' → conns r' ⊆ conns r → requests r' = requests r → h ∈ act →
  hybis r !! h = Some hy → msg_frames r' (mk_backend_msg h msg) = msg_frames r (mk_backend_msg h msg).
Proof.
  intros Hok Hc Hreq Hh Hhy. apply msg_frames_same; [done|].
  destruct (open_conn _ _ _ _ _ Hok Hc Hh Hhy) as [n Hn]. by exists hy, n.
Qed.

Definition accepted_for (s : sock_id) (acc : list (sock_id * backend_msg)) : list backend_msg :=
  (filter (λ p, p.1 = s) acc).*2.

Lemma off_backend_requests r r' : off_backend r' = off_backend r → requests r' = requests r.
Proof. unfold off_backend. congruence. Qed.

(** The frames of accepted messages do not depend on when they are looked at. *)
Lemma accepted_frames act r r' s acc :
  backend_ok act r → backend_ok act r' → conns r' ⊆ conns r → requests r' = requests r →
  Forall (λ p : sock_id * backend_msg, b_hybi p.2 ∈ act) acc →
  msg_frames r' <$> accepted_for s acc = msg_frames r <$> accepted_for s acc.
Proof.
  intros Hok Hok' Hc Hreq Hacc. unfold accepted_for. induction Hacc as [|[s0 [h msg]] acc Hh Hacc IH]; [done|].
  rewrite filter_cons. case_decide; [|done]. rewrite !fmap_cons, IH. f_equal. simpl in *.
  pose proof (bo_act _ _ Hok _ Hh) as [hy Hhy]%elem_of_dom.
  by eapply msg_frames_open.
Qed.

Lemma wp_backend_history ops act r :
  backend_ok act r → between r → Forall (backend_op_ok act r) ops →
  wp (backend_history ops) (λ acc r', backend_ok act r' ∧ between r' ∧ conns r' ⊆ conns r ∧
    Forall (λ p : sock_id * backend_msg, b_hybi p.2 ∈ act) acc ∧
    ∀ s, stream r' s = stream r s ++ (msg_frames r <$> accepted_for s acc)) r.
Proof.
  revert r. induction ops as [|[s h msg force|s] ops IH]; intros r Hok Hb Hops; simpl.
  { root_steps. split_and!; [done..|]. intros. by rewrite app_nil_r. }
  - apply Forall_cons in Hops as [([so Hs]%elem_of_dom & Hh & hy & Hhy & data & Hd) Hops]. root_steps.
    eapply wp_mono; [apply (wp_keeps off_backend);
      [apply keeps_off_backend_send|by eapply (wp_backend_send act)]|].
    intros ok r1 [(Hok1 & Hb1 & Hc1 & Hso1 & _ & _ & _ & Hst1) Hoff%off_backend_requests]. root_steps.
    assert (Hc1' : conns r1 ⊆ conns r) by by rewrite Hc1.
    eapply wp_mono; [apply IH; [done..|]|].
    { eapply Forall_impl; [done|]. intros op. by apply backend_op_ok_same. }
    intros acc r2 (Hok2 & Hb2 & Hc2 & Hacc & Hst2). root_steps.
    split_and!; [done|done|by etrans|destruct ok; [by constructor|done]|].
    intros s'. rewrite Hst2, Hst1, <- app_assoc, (accepted_frames act r r1) by done. f_equal.
    destruct ok; [|done]. unfold accepted_for. rewrite filter_cons. simpl.
    destruct (decide (s' = s)) as [->|Hne].
    + rewrite decide_True by done. simpl. unfold msg_frames at 2. simpl. rewrite Hhy.
      by rewrite Hd.
    + by rewrite decide_False by congruence.
  - apply Forall_cons in Hops as [[so Hs]%elem_of_dom Hops]. root_steps.
    eapply wp_mono; [apply (wp_keeps off_backend);
      [apply keeps_off_backend_unqueue|by eapply (wp_backend_unqueue act)]|].
    intros ok r1 [(Hok1 & Hb1 & Hc1 & Hso1 & Hst1) Hoff%off_backend_requests].
    eapply wp_mono; [apply IH; [done..|]|].
    { eapply Forall_impl; [done|]. intros op. by apply backend_op_ok_same. }
    intros acc r2 (Hok2 & Hb2 & Hc2 & Hacc & Hst2).
    split_and!; [done|done|by etrans|done|].
    intros s'. by rewrite Hst2, Hst1, (accepted_frames act r r1).
Qed.
End lemmas.

(** ** Properties *)

(** zeromq refuses the very first part and then takes everything. *)
Definition example_env : Env := {|
  zmq_send_res := λ tr _ _ _,
    match last tr with
    | Some (ZmqSend _ _ true Sent) => Sent
    | Some _ => Sent
    | None => EAGAIN
    end;
  ws_send_res := λ _ _ _, WsOk;
  zmq_writable := λ _ _, true;
  time_text := λ _ _, [];
  wait_text := λ _ _, [];
  http_date := λ _, Some (str "Thu, 01 Jan 1970 00:00:00 GMT");
  retries := 3;
  sizeof_hybi := 160;
  sizeof_comet := 200;
  message_malloc := λ _, true;
  message_init_fails := λ _, false;
  message_text := λ _, true;
  backlog_malloc := limited_malloc;
  backlog_limit := limited_malloc_limit;
|}.

Lemma example_laws : @zmq_laws example_env.
Proof.
  split.
  - intros tr s p part more. simpl. by rewrite last_snoc.
  - intros tr s part more. simpl. by destruct (last tr) as [[? ? [] []| | | | | | | | | | | | ]|].
  - intros tr s p. exists 0. split; [simpl; lia|]. rewrite app_nil_r. simpl.
    by destruct (last tr) as [[? ? [] []| | | | | | | | | | | | ]|].
Qed.

(** One open connection and one socket, whose queue holds at most one message. *)
Definition backend_example : root :=
  empty_root <| hybis := {[0 := plain_hybi HYBI_WEBSOCKET (str "id") 0]} |>
             <| hybi_heap := mk_heap 1 {[0]} |>
             <| socks := {[Forward 0 := mk_sock (mk_queue 0 1 []) []]} |>.

Lemma backend_example_ok p : backend_ok {[0]} (backend_example <| paused := p |>).
Proof.
  split; simpl.
  - exists ∅. split; [done|]. rewrite map_fmap_singleton. split; intros k x.
    + by rewrite lookup_empty.
    + rewrite lookup_singleton_Some. intros [<- <-]. split; [constructor|set_solver].
  - intros s so. rewrite lookup_singleton_Some. by intros [<- <-].
  - split; simpl; [intros b; simpl; set_solver|done|lia|constructor|done|set_solver].
  - intros a. simpl. rewrite elem_of_singleton. intros ->. lia.
  - set_solver.
  - intros h hy. rewrite lookup_singleton_Some. intros [<- <-]. by rewrite decide_True by set_solver.
  - set_solver.
  - done.
  - done.
Qed.

(** C26: a message to the backend goes out as one complete multi-part message or
    not at all (its first part was refused), and the parts tell the backend the
    connection, its cookie if it has one, and the event with its data. *)
Theorem backend_send_real_roundtrip `{LogLevel, Malloc, Env} (s : sock_id) (h : addr)
    (hy : hybi) (msg : payload) (data : bytes) (r : root) (Hzmq : zmq_laws)
    (Hh : hybis r !! h = Some hy) (Hd : payload_of r hy msg = Some data) (Hb : between r) :
  ∃ res r', backend_send_real s h msg r = Ok res r' ∧ between r' ∧
    ((res = Sent ∧ ∃ fs, delivered s (trace r') = delivered s (trace r) ++ [fs] ∧
       parse_frames fs = Some (h_uid hy, if has_cookie hy then Some (h_cookie hy) else None,
         match msg with
         | MSG_CONNECT => BConnect
         | MSG_DISCONNECT => BDisconnect
         | PMessage _ | PRequest _ => BMessage data
         end)) ∨
     (res = EAGAIN ∨ res = EINTR) ∧ ∀ s', delivered s' (trace r') = delivered s' (trace r)).
Proof.
  pose proof (wp_backend_send_real Hzmq s h hy msg data r Hh Hd) as (res & r' & Hrun & _ & Hr)%wp_Ok.
  exists res, r'. split; [done|]. destruct Hr as [[-> ->]|[Hres ->]].
  - destruct (stream_attempt s hy msg data r true _ Hb (attempt_sent _ _ _)) as [Hb' Hd'].
    split; [done|]. left. split; [done|]. exists (frames hy msg data).
    rewrite Hd', decide_True by done. split; [done|].
    unfold frames, message_kind. by destruct msg, (has_cookie hy).
  - assert (Hatt : attempt s (frames hy msg data) r false
      (r <| trace := trace r ++ [ZmqSend s (h_uid hy) true res] |>)).
    { exists [ZmqSend s (h_uid hy) true res]. split; [|done]. constructor; [|done].
      by destruct Hres as [-> | ->]. }
    destruct (stream_attempt s hy msg data r false _ Hb Hatt) as [Hb' Hd'].
    split; [done|]. right. split; [done|]. intros s'. by rewrite Hd', app_nil_r.
Qed.

Lemma backend_send_real_roundtrip_witness :
  let LL : LogLevel := 6%Z in let MM : Malloc := λ _ _, true in
  let r := backend_example <| trace := [FeedEvent (Forward 0)] |> in
  ∃ r', @backend_send_real LL example_env (Forward 0) 0 (PMessage (str "hi")) r = Ok Sent r' ∧
    delivered (Forward 0) (trace r') = [[str "id"; str "message"; str "hi"]].
Proof.
  intros LL MM r.
  destruct (@backend_send_real_roundtrip LL MM example_env (Forward 0) 0
    (plain_hybi HYBI_WEBSOCKET (str "id") 0) (PMessage (str "hi")) (str "hi") r)
    as (res & r' & Hrun & _); [apply example_laws|reflexivity|reflexivity|by intros []|].
  exists r'. vm_compute in Hrun. injection Hrun as <- <-. split; vm_compute; reflexivity.
Defined.

(** C20: over any sequence of sends and unqueueings, on any number of sockets,
    what was delivered on a socket followed by what is queued for it is what was
    accepted for it, in order: nothing is lost, duplicated or overtaken; queued
    messages keep their connections allocated, and no freed memory is used.  Memory
    may be refused at any time, and is when 2^31 messages would wait (64 GiB of
    them), so that the counters of their connections do not overflow. *)
Theorem backend_fifo `{LogLevel, Malloc, Env} (ops : list backend_op) (act : gset nat) (r : root)
    (Hzmq : zmq_laws) (Hok : backend_ok act r) (Hb : between r)
    (Hops : Forall (backend_op_ok act r) ops) :
  ∃ acc r', backend_history ops r = Ok acc r' ∧ backend_ok act r' ∧ between r' ∧
    ∀ s, delivered s (trace r') ++ pending r' s =
         delivered s (trace r) ++ pending r s ++ (msg_frames r <$> accepted_for s acc).
Proof.
  pose proof (wp_backend_history Hzmq ops act r Hok Hb Hops)
    as (acc & r' & Hrun & Hok' & Hb' & _ & _ & Hst)%wp_Ok.
  exists acc, r'. split_and!; [done..|]. intros s. rewrite app_assoc. apply Hst.
Qed.

Lemma backend_fifo_witness :
  let LL : LogLevel := 6%Z in let MM : Malloc := λ _ _, true in
  let ops := [BSend (Forward 0) 0 MSG_CONNECT false; BSend (Forward 0) 0 (PMessage (str "a")) false;
              BUnqueue (Forward 0); BSend (Forward 0) 0 MSG_DISCONNECT true] in
  ∃ acc r', @backend_history LL example_env ops backend_example = Ok acc r' ∧
    delivered (Forward 0) (trace r') = [[str "id"; str "connect"];
      [str "id"; str "message"; str "a"]; [str "id"; str "disconnect"]] ∧
    pending r' (Forward 0) = [].
Proof.
  intros LL MM ops.
  destruct (@backend_fifo LL MM example_env ops {[0]} backend_example)
    as (acc & r' & Hrun & _); [apply example_laws|apply (backend_example_ok false)|by intros []| |].
  - assert (Hs : Forward 0 ∈ dom (socks backend_example)) by by apply elem_of_dom.
    assert (Hc : ∀ msg, is_Some (payload_of backend_example (plain_hybi HYBI_WEBSOCKET (str "id") 0) msg) →
      ∃ hy, hybis backend_example !! 0 = Some hy ∧ is_Some (payload_of backend_example hy msg)).
    { intros msg ?. exists (plain_hybi HYBI_WEBSOCKET (str "id") 0). by split. }
    repeat (apply Forall_cons; split); try apply Forall_nil; try done;
      (split; [exact Hs|split; [set_solver|apply Hc; by eexists]]).
  - exists acc, r'. vm_compute in Hrun. injection Hrun as <- <-. split; [reflexivity|].
    split; vm_compute; reflexivity.
Defined.

(** The [force] argument does the opposite of its name.  While the server is
    paused and the queue of the socket is at its limit, a forced message (a
    disconnect) is refused and dropped, and one that is not forced is queued
    beyond the limit. *)
Theorem backend_send_force `{LogLevel, Malloc, Env} (act : gset nat) (r : root) (s : sock_id)
    (so : sock) (h : addr) (hy : hybi) (msg : payload)
    (Hmem : ∀ n, @malloc_ok backlog_malloc (a_heap (backend_arena r)) n = true) (Hfuel : 0 < retries)
    (Hok : backend_ok act r) (Hs : socks r !! s = Some so) (Hh : hybis r !! h = Some hy)
    (Hp : paused r = true)
    (Hfull : (capacity (so_queue so) ≤ size (so_queue so))%Z) :
  backend_send s h msg true r = Ok false r ∧
  ∃ r' so', backend_send s h msg false r = Ok true r' ∧ socks r' !! s = Some so' ∧
    size (so_queue so') = (size (so_queue so) + 1)%Z ∧ capacity (so_queue so') = capacity (so_queue so).
Proof.
  assert (Hdir : send_direct retries s h msg r = Ok false r).
  { destruct retries; [lia|]. unfold send_direct, get_sock, mbind, M_bind, get, deref.
    rewrite Hs. simpl. by rewrite Hp. }
  split.
  - unfold backend_send, mbind at 1, M_bind at 1. rewrite Hdir. unfold backend_enqueue.
    unfold mbind, M_bind, on_sock_queue. rewrite Hs. unfold queue_push, mbind, M_bind, get. simpl.
    apply Z.leb_le in Hfull. rewrite Hfull. simpl. f_equal. f_equal.
    assert (Es : <[s := so <| so_queue := so_queue so |>]> (socks r) = socks r).
    { apply insert_id. rewrite Hs. by destruct so. }
    simpl in Es. destruct r; simpl in *. by rewrite Es.
  - assert (wp (backend_send s h msg false) (λ ok r', ok = true ∧ ∃ so', socks r' !! s = Some so' ∧
      size (so_queue so') = (size (so_queue so) + 1)%Z ∧
      capacity (so_queue so') = capacity (so_queue so)) r) as (ok & r' & Hrun & -> & so' & ?)%wp_Ok;
      [|by exists r', so'].
    unfold backend_send, wp, mbind at 1, M_bind at 1. rewrite Hdir.
    change (wp (backend_enqueue s h msg false) (λ ok r', ok = true ∧ ∃ so', socks r' !! s = Some so' ∧
      size (so_queue so') = (size (so_queue so) + 1)%Z ∧
      capacity (so_queue so') = capacity (so_queue so)) r).
    unfold backend_enqueue. root_steps. eapply wp_on_sock_queue; [done|].
    unfold queue_force_push, on_arena. root_steps.
    eapply wp_pool_alloc; [apply (bo_pool _ _ Hok)| |intros; by rewrite Hmem in *].
    intros q a _ _ _. root_steps. unfold hybi_INCREF. root_steps. split; [done|].
    eexists. simpl. rewrite lookup_insert_eq. split; [done|]. split; [|done]. simpl.
    pose proof (sock_room _ _ _ _ Hok Hs). pose proof (pool_own_blocks _ _ (bo_pool _ _ Hok)) as Hle.
    pose proof (backlog_limit _ _ (Hmem 0%Z)). rewrite size_dom in Hle. unfold blocks in Hle.
    rewrite (bo_size _ _ Hok _ _ Hs). apply i32_small. lia.
Qed.

Lemma backend_send_force_witness :
  let LL : LogLevel := 6%Z in let MM : Malloc := λ _ _, true in
  let r := backend_example <| paused := true |>
             <| socks := {[Forward 0 := mk_sock (mk_queue 0 0 []) []]} |> in
  @backend_send LL example_env (Forward 0) 0 MSG_DISCONNECT true r = Ok false r.
Proof.
  intros LL MM r.
  assert (Hok : backend_ok {[0]} r).
  { destruct (backend_example_ok true) as [? ? ? ? ? ? ? ? ?]. split; try done.
    intros s so. simpl. rewrite lookup_singleton_Some. by intros [<- <-]. }
  destruct (@backend_send_force LL MM example_env {[0]} r (Forward 0)
    (mk_sock (mk_queue 0 0 []) []) 0 (plain_hybi HYBI_WEBSOCKET (str "id") 0) MSG_DISCONNECT)
    as [Hrun _]; [reflexivity|simpl; lia|exact Hok|reflexivity|reflexivity|reflexivity|simpl; lia|].
  exact Hrun.
Defined.
