(* ===== verification/Outputs.v ===== *)
(** * Named outputs of a connection (websocket.c)

    A backend may map prefixes of the messages of a connection to named sockets.
    A mapping is linked on the list of its connection and on that of its socket.
    The code keeps the mappings of a connection to the same socket adjacent on
    both lists, so that walking a list meets every socket (every connection)
    exactly once. *)

From S2P Require Import Prelude Sieve Pool MsgQueue Links State Backend.

(** ** Operations *)
Section operations.
Context `{LogLevel, Malloc, Env}.

(** [LIST_REMOVE(out, client_list)] and [LIST_REMOVE(out, output_list)]. *)
Definition unlink_client (out : addr) : MR unit :=
  o ← get_output out; set_hybi (o_connection o) (λ h, h <| h_outputs ::= unlink out |>).
Definition unlink_socket (out : addr) : MR unit :=
  o ← get_output out; set_sock (o_socket o) (λ s, s <| so_outputs ::= unlink out |>).

(** [free(out)] *)
Definition free_output (out : addr) : MR unit :=
  on_output_heap (free out);; modify (λ r, r <| outputs ::= delete out |>).

Definition sizeof_output : Z := 52.

(** [CONFIG_STRING_NAMEDOUTPUT_LOOP]: the named output with this key;
    src/src/websocket.c:641-648 [websock_process] *)
Fixpoint find_named (rid : route_id) (i : nat) (names : list bytes) (data : bytes) : option sock_id :=
  match names with
  | [] => None
  | key :: names =>
      if bool_decide (length key = length data) && bool_decide (data = key)
      then Some (Named rid i) else find_named rid (S i) names data
  end.

(** The last mapping with the same prefix and the last one to the same socket;
    src/src/websocket.c:654-664 [websock_process] *)
Fixpoint scan_outputs (data : bytes) (outsock : sock_id) (l : list addr)
    (old_prefix prev_output : option addr) : MR (option addr * option addr) :=
  match l with
  | [] => mret (old_prefix, prev_output)
  | cur :: l =>
      o ← get_output cur;
      scan_outputs data outsock l
        (if bool_decide (o_prefix o = data) then Some cur else old_prefix)
        (if bool_decide (o_socket o = outsock) then Some cur else prev_output)
  end.

(** src/src/websocket.c:687-694 [websock_process] *)
Definition link_output (hybi : addr) (outsock : sock_id) (output : addr)
    (prev_output : option addr) : MR unit :=
  match prev_output with
  | Some prev =>
      p ← get_output prev;
      set_hybi (o_connection p) (λ h, h <| h_outputs ::= insert_after prev output |>);;
      set_sock (o_socket p) (λ s, s <| so_outputs ::= insert_after prev output |>)
  | None =>
      set_hybi hybi (λ h, h <| h_outputs ::= cons output |>);;
      set_sock outsock (λ s, s <| so_outputs ::= cons output |>)
  end.

(** [prefix] and [name] are the last two parts of the command;
    src/src/websocket.c:638-695 [websock_process] *)
Definition add_output (rid : route_id) (hybi : addr) (prefix name : bytes) : MR unit :=
  rt ← get_route rid;
  match find_named rid 0 (rt_outputs rt) name with
  | None => mret tt
  | Some outsock =>
      hy ← get_hybi hybi;
      '(old_prefix, prev_output) ← scan_outputs prefix outsock (h_outputs hy) None None;
      match old_prefix with
      | None =>
          out ← on_output_heap (malloc (sizeof_output + Z.of_nat (length prefix) + 1));
          ANIMPL (bool_decide (is_Some out));;
          out ← deref NullDeref out;
          modify (λ r, r <| outputs ::= <[out := mk_output outsock hybi prefix]> |>);;
          link_output hybi outsock out prev_output
      | Some out =>
          o ← get_output out;
          if bool_decide (o_socket o ≠ outsock) then
            unlink_socket out;;
            unlink_client out;;
            modify (λ r, r <| outputs ::= <[out := o <| o_socket := outsock |>]> |>);;
            link_output hybi outsock out prev_output
          else mret tt
      end
  end.

(** src/src/websocket.c:704-713 [websock_process] *)
Fixpoint del_output_in (data : bytes) (l : list addr) : MR unit :=
  match l with
  | [] => mret tt
  | out :: l =>
      o ← get_output out;
      if bool_decide (o_prefix o = data) then
        unlink_client out;; unlink_socket out;; free_output out
      else del_output_in data l
  end.

(** src/src/websocket.c:702-716 [websock_process] *)
Definition del_output (hybi : addr) (prefix : bytes) : MR unit :=
  hy ← get_hybi hybi; del_output_in prefix (h_outputs hy).

(** The loop of [send_sync]: [msg] is what the next [zmq_send] of the loop
    sends first, [prev] the connection of the last entry that was not skipped;
    after [zmq_send] a message is empty.
    src/src/websocket.c:827-840 [send_sync] *)
Fixpoint sync_loop (s : sock_id) (msg : bytes) (prev : option addr) (l : list addr) : MR bytes :=
  match l with
  | [] => mret msg
  | item :: l =>
      o ← get_output item;
      if bool_decide (prev = Some (o_connection o)) then sync_loop s msg prev l
      else
        hy ← get_hybi (o_connection o);
        snimpl_send s msg true;;
        snimpl_send s (h_uid hy) true;;
        sync_loop s (if has_cookie hy then h_cookie hy else []) (Some (o_connection o)) l
  end.

(** src/src/websocket.c:809-843 [send_sync] *)
Definition send_sync (s : sock_id) : MR unit :=
  so ← get_sock s;
  match so_outputs so with
  | [] => mret tt
  | _ :: _ =>
      r ← get;
      res ← zmq_send s (instance_id r) true;
      if bool_decide (res = EAGAIN) then mret tt
      else
        SNIMPL (bool_decide (res ≠ Sent));;
        msg ← sync_loop s (str "sync") None (so_outputs so);
        snimpl_send s msg false
  end.

(** src/src/websocket.c:784-807 [heartbeat] *)
Definition heartbeat (rid : route_id) : MR unit :=
  r ← get;
  res ← zmq_send (Forward rid) (instance_id r) true;
  if bool_decide (res = EAGAIN) then mret tt
  else
    SNIMPL (bool_decide (res ≠ Sent));;
    res ← zmq_send (Forward rid) (str "heartbeat") false;
    SNIMPL (bool_decide (res ≠ Sent ∧ res ≠ EAGAIN)).
End operations.

(** ** Abstract specification

    A finite map from connections and prefixes to sockets. *)
Inductive output_op :=
  | OAdd (rid : route_id) (h : addr) (prefix name : bytes)
  | ODel (h : addr) (prefix : bytes).

Definition output_history `{LogLevel, Malloc} (ops : list output_op) : MR unit :=
  mfor ops (λ op, match op with
    | OAdd rid h prefix name => add_output rid h prefix name
    | ODel h prefix => del_output h prefix
    end).

Abbreviation mapping := (gmap (nat * bytes) sock_id).

Definition mapping_step (rts : gmap nat route) (m : mapping) (op : output_op) : mapping :=
  match op with
  | OAdd rid h prefix name =>
      match rts !! rid ≫= λ rt, find_named rid 0 (rt_outputs rt) name with
      | Some s => <[(h, prefix) := s]> m
      | None => m
      end
  | ODel h prefix => delete (h, prefix) m
  end.

(** ** Grouped lists

    Between two occurrences of a key there are only occurrences of that key. *)
Definition grouped {K} (ks : list K) : Prop :=
  ∀ i j k v, i ≤ j ≤ k → ks !! i = Some v → ks !! k = Some v → ks !! j = Some v.

(** The keys of the groups, in order; [prev] is the key of the group before. *)
Fixpoint heads `{EqDecision K} (prev : option K) (ks : list K) : list K :=
  match ks with
  | [] => []
  | v :: ks => if decide (prev = Some v) then heads prev ks else v :: heads (Some v) ks
  end.

Section grouped.
Context `{EqDecision K}.
Implicit Types (ks : list K) (v : K).

Lemma grouped_nil : grouped (@nil K).
Proof. intros i j k v _. by rewrite lookup_nil. Qed.

(** Every position of [ks'] shows what a corresponding position of [ks] shows. *)
Lemma grouped_map (g : nat → nat) ks ks' :
  (∀ n, n < length ks' → ks' !! n = ks !! g n) → (∀ m n, m ≤ n → g m ≤ g n) →
  grouped ks → grouped ks'.
Proof.
  intros Hg Hm Hk i j k v Hijk Hi Hk'.
  pose proof (lookup_lt_Some _ _ _ Hi). pose proof (lookup_lt_Some _ _ _ Hk').
  rewrite Hg in Hi, Hk' |- * by lia. apply (Hk (g i) (g j) (g k) v); [|done..].
  split; apply Hm; lia.
Qed.

Lemma grouped_dup k1 v k2 : grouped (k1 ++ v :: k2) → grouped (k1 ++ v :: v :: k2).
Proof.
  apply (grouped_map (λ n, if decide (n ≤ length k1) then n else n - 1)).
  - intros n _. case_decide.
    + destruct (decide (n = length k1)) as [->|]; [by rewrite !list_lookup_middle|].
      by rewrite !lookup_app_l by lia.
    + rewrite !lookup_app_r by lia. replace (n - length k1) with (S (n - 1 - length k1)) by lia.
      done.
  - intros m n ?. repeat case_decide; lia.
Qed.

Lemma grouped_drop k1 v k2 : grouped (k1 ++ v :: k2) → grouped (k1 ++ k2).
Proof.
  apply (grouped_map (λ n, if decide (n < length k1) then n else S n)).
  - intros n _. case_decide; [by rewrite !lookup_app_l by lia|].
    rewrite !lookup_app_r by lia. by replace (S n - length k1) with (S (n - length k1)) by lia.
  - intros m n ?. repeat case_decide; lia.
Qed.

Lemma grouped_cons v ks : v ∉ ks → grouped ks → grouped (v :: ks).
Proof.
  intros Hv Hk [|i] [|j] [|k] w Hijk Hi Hkk; try lia; simpl in *; try done.
  - injection Hi as <-. by apply list_elem_of_lookup_2 in Hkk.
  - eapply (Hk i j k); [lia|done..].
Qed.

Lemma grouped_tail v ks : grouped (v :: ks) → grouped ks.
Proof. apply (grouped_drop [] v ks). Qed.

(** The heads of the groups of a grouped list are distinct. *)
Lemma heads_spec prev ks :
  grouped (option_list prev ++ ks) →
  NoDup (heads prev ks) ∧ ∀ v, v ∈ heads prev ks ↔ v ∈ ks ∧ prev ≠ Some v.
Proof.
  revert prev. induction ks as [|v ks IH]; intros prev Hg; simpl.
  { split; [constructor|set_solver]. }
  case_decide as E.
  - subst prev. destruct (IH (Some v)) as [Hnd Hin]; [by apply grouped_tail in Hg|].
    split; [done|]. intros w. rewrite Hin, elem_of_cons. naive_solver.
  - destruct (IH (Some v)) as [Hnd Hin].
    { destruct prev; [by apply grouped_tail in Hg|done]. }
    split; [constructor; [|done]; rewrite Hin; naive_solver|].
    intros w. rewrite !elem_of_cons, Hin. split.
    + intros [->|[Hw Hne]]; [by auto|]. split; [by right|]. intros ->.
      apply list_elem_of_lookup in Hw as [n Hn]. apply E. simpl in Hg. f_equal.
      pose proof (Hg 0 1 (S (S n)) w ltac:(lia) eq_refl Hn) as Hv. by injection Hv.
    + intros [[->|Hw] Hne]; [by left|]. destruct (decide (w = v)); [by left|right]. naive_solver.
Qed.

Lemma heads_nodup ks : grouped ks → NoDup (heads None ks) ∧ ∀ v, v ∈ heads None ks ↔ v ∈ ks.
Proof.
  intros Hg. destruct (heads_spec None ks Hg) as [Hnd Hin]. split; [done|].
  intros v. rewrite Hin. naive_solver.
Qed.
End grouped.

Section grouped_lists.
Context `{EqDecision A} {K : Type} (f f' : A → K).
Implicit Types (l : list A).

Lemma grouped_ext l : (∀ e, e ∈ l → f' e = f e) → grouped (f <$> l) → grouped (f' <$> l).
Proof.
  intros He Hg. replace (f' <$> l) with (f <$> l); [done|].
  apply list_fmap_ext. intros i e Hi%list_elem_of_lookup_2. symmetry. by apply He.
Qed.

Lemma grouped_insert_after l prev out :
  (∀ e, e ∈ l → f' e = f e) → prev ∈ l → f' out = f prev → grouped (f <$> l) →
  grouped (f' <$> insert_after prev out l).
Proof.
  intros He Hp Ho Hg. apply list_elem_of_split_l in Hp as (l1 & l2 & -> & Hn).
  rewrite insert_after_app by done. apply grouped_ext in Hg; [|exact He].
  rewrite fmap_app in Hg |- *. rewrite !fmap_cons in *.
  rewrite Ho, <- (He prev) by set_solver. by apply grouped_dup.
Qed.

Lemma grouped_push l out :
  (∀ e, e ∈ l → f' e = f e ∧ f e ≠ f' out) → grouped (f <$> l) → grouped (f' <$> out :: l).
Proof.
  intros He Hg. rewrite fmap_cons. apply grouped_cons.
  - intros (e & Heq & Hin)%list_elem_of_fmap. destruct (He _ Hin) as [E1 E2]. congruence.
  - apply grouped_ext; [|done]. intros. by apply He.
Qed.

Lemma grouped_unlink l out :
  NoDup l → (∀ e, e ∈ l → e ≠ out → f' e = f e) → grouped (f <$> l) →
  grouped (f' <$> unlink out l).
Proof.
  intros Hnd He Hg. apply grouped_ext; [intros e [? ?]%elem_of_unlink; by apply He|].
  destruct (decide (out ∈ l)) as [Hin|]; [|by rewrite unlink_not_in].
  apply list_elem_of_split in Hin as (l1 & l2 & ->). rewrite unlink_mid by done.
  rewrite fmap_app in Hg |- *. by apply grouped_drop in Hg.
Qed.
End grouped_lists.

(** ** Invariant *)

Definition socket_of (E : gmap nat output) (out : addr) : option sock_id := o_socket <$> E !! out.
Definition conn_of (E : gmap nat output) (out : addr) : option addr := o_connection <$> E !! out.

(** The linked mappings [E]. *)
Record links_ok (E : gmap nat output) (r : root) : Prop := {
  oo_client : side_ok (o_connection <$> E) (h_outputs <$> hybis r);
  oo_socket : side_ok (o_socket <$> E) (so_outputs <$> socks r);
  oo_cgroup : map_Forall (λ _ hy, grouped (socket_of E <$> h_outputs hy)) (hybis r);
  oo_sgroup : map_Forall (λ _ so, grouped (conn_of E <$> so_outputs so)) (socks r);
  oo_prefix : ∀ a b o o', E !! a = Some o → E !! b = Some o' →
    o_connection o = o_connection o' → o_prefix o = o_prefix o' → a = b;
}.

Record outputs_ok (r : root) : Prop := {
  oo_links : links_ok (outputs r) r;
  oo_heap : heap_wf (output_heap r);
  oo_live : dom (outputs r) ⊆ live (output_heap r);
}.

(** Messages of connection [h] that start with [p] go to socket [s]. *)
Definition mapped (E : gmap nat output) (h : addr) (p : bytes) (s : sock_id) : Prop :=
  ∃ out, E !! out = Some (mk_output s h p).

(** ** Lemmas *)
Section lemmas.
Context `{LogLevel, Malloc, Env}.
Implicit Types (r : root) (E : gmap nat output).

Lemma links_client E r h hy out :
  links_ok E r → hybis r !! h = Some hy →
  out ∈ h_outputs hy ↔ ∃ o, E !! out = Some o ∧ o_connection o = h.
Proof.
  intros Hok Hh. rewrite (side_elem _ _ _ _ _ (oo_client _ _ Hok)) by eauto.
  rewrite lookup_fmap, fmap_Some. naive_solver.
Qed.

Lemma links_socket E r s so out :
  links_ok E r → socks r !! s = Some so →
  out ∈ so_outputs so ↔ ∃ o, E !! out = Some o ∧ o_socket o = s.
Proof.
  intros Hok Hh. rewrite (side_elem _ _ _ _ _ (oo_socket _ _ Hok)) by eauto.
  rewrite lookup_fmap, fmap_Some. naive_solver.
Qed.

Lemma links_lookup E r out o :
  links_ok E r → E !! out = Some o →
  ∃ hy so, hybis r !! o_connection o = Some hy ∧ out ∈ h_outputs hy ∧ NoDup (h_outputs hy) ∧
           socks r !! o_socket o = Some so ∧ out ∈ so_outputs so ∧ NoDup (so_outputs so).
Proof.
  intros Hok Ho. pose proof Hok as [[Hc Hc'] [Hs Hs'] _ _ _].
  destruct (Hc out (o_connection o)) as (xs & Hxs & Hin); [by rewrite lookup_fmap, Ho|].
  destruct (Hs out (o_socket o)) as (ys & Hys & Hin'); [by rewrite lookup_fmap, Ho|].
  destruct (Hc' _ _ Hxs) as [? _]. destruct (Hs' _ _ Hys) as [? _].
  rewrite lookup_fmap, fmap_Some in Hxs. rewrite lookup_fmap, fmap_Some in Hys. naive_solver.
Qed.

(** Unlinking a mapping from both lists. *)
Lemma links_delete E r r' out o hy so :
  links_ok E r → E !! out = Some o → hybis r !! o_connection o = Some hy →
  socks r !! o_socket o = Some so →
  hybis r' = <[o_connection o := hy <| h_outputs ::= unlink out |>]> (hybis r) →
  socks r' = <[o_socket o := so <| so_outputs ::= unlink out |>]> (socks r) →
  links_ok (delete out E) r'.
Proof.
  intros Hok Ho Hh Hs Eh Es. pose proof Hok as [Hc Hso Hcg Hsg Hp].
  assert (Hext : ∀ e, e ≠ out → delete out E !! e = E !! e) by (intros; by rewrite lookup_delete_ne).
  split; rewrite ?Eh, ?Es.
  - rewrite fmap_delete, fmap_insert. eapply side_delete; eauto.
  - rewrite fmap_delete, fmap_insert. eapply side_delete; eauto.
  - assert (Hall : map_Forall (λ _ hy, NoDup (h_outputs hy)) (hybis r)).
    { intros h hy' Hh'. eapply side_NoDup; [exact Hc|eauto]. }
    intros h hy'. rewrite lookup_insert_Some. intros [[<- <-]|[Hne Hh']]; simpl.
    + apply (grouped_unlink (socket_of E)); [by apply Hall in Hh| |by apply (Hcg _ _ Hh)].
      intros e _ He. unfold socket_of. by rewrite Hext.
    + apply (grouped_ext (socket_of E)); [|by apply (Hcg _ _ Hh')]. intros e He.
      unfold socket_of. rewrite Hext; [done|]. intros ->.
      apply (links_client E r h hy' out Hok Hh') in He as (o' & ? & ?). congruence.
  - intros s so'. rewrite lookup_insert_Some. intros [[<- <-]|[Hne Hs']]; simpl.
    + apply (grouped_unlink (conn_of E)); [|intros e _ He; unfold conn_of; by rewrite Hext|by apply (Hsg _ _ Hs)].
      eapply side_NoDup; [exact Hso|eauto].
    + apply (grouped_ext (conn_of E)); [|by apply (Hsg _ _ Hs')]. intros e He.
      unfold conn_of. rewrite Hext; [done|]. intros ->.
      apply (links_socket E r s so' out Hok Hs') in He as (o' & ? & ?). congruence.
  - intros a b oa ob [_ ?]%lookup_delete_Some [_ ?]%lookup_delete_Some. eauto.
Qed.

(** Linking a new mapping: after the last one to the same socket, or at the head
    when there is none. *)
Lemma links_insert E r r' out o hy so l l' :
  links_ok E r → E !! out = None → hybis r !! o_connection o = Some hy →
  socks r !! o_socket o = Some so →
  (∀ e o', E !! e = Some o' → o_connection o' = o_connection o → o_prefix o' ≠ o_prefix o) →
  (l = out :: h_outputs hy ∧ l' = out :: so_outputs so ∧
     (∀ e o', E !! e = Some o' → o_connection o' = o_connection o → o_socket o' ≠ o_socket o) ∨
   ∃ prev p, E !! prev = Some p ∧ o_connection p = o_connection o ∧ o_socket p = o_socket o ∧
     l = insert_after prev out (h_outputs hy) ∧ l' = insert_after prev out (so_outputs so)) →
  hybis r' = <[o_connection o := hy <| h_outputs := l |>]> (hybis r) →
  socks r' = <[o_socket o := so <| so_outputs := l' |>]> (socks r) →
  links_ok (<[out := o]> E) r'.
Proof.
  intros Hok Ho Hh Hs Hpre Hl Eh Es. pose proof Hok as [Hc Hso Hcg Hsg Hp].
  assert (Hext : ∀ e, is_Some (E !! e) → <[out := o]> E !! e = E !! e).
  { intros e [x He]. rewrite lookup_insert_ne; [done|congruence]. }
  assert (Hcl : ∀ h hy', hybis r !! h = Some hy' → ∀ e, e ∈ h_outputs hy' →
            socket_of (<[out := o]> E) e = socket_of E e).
  { intros h hy' Hh' e He. unfold socket_of. rewrite Hext; [done|].
    apply (links_client E r h hy' e Hok Hh') in He as (? & ? & _). eauto. }
  assert (Hsl : ∀ s so', socks r !! s = Some so' → ∀ e, e ∈ so_outputs so' →
            conn_of (<[out := o]> E) e = conn_of E e).
  { intros s so' Hs' e He. unfold conn_of. rewrite Hext; [done|].
    apply (links_socket E r s so' e Hok Hs') in He as (? & ? & _). eauto. }
  assert (Hperm : l ≡ₚ out :: h_outputs hy ∧ l' ≡ₚ out :: so_outputs so).
  { destruct Hl as [(-> & -> & _)|(prev & p & Hprev & E1 & E2 & -> & ->)]; [done|].
    split; apply insert_after_perm; [eapply links_client|eapply links_socket]; eauto. }
  split; rewrite ?Eh, ?Es.
  - rewrite !fmap_insert. eapply side_insert; [done|by rewrite lookup_fmap, Ho|eauto|]. apply Hperm.
  - rewrite !fmap_insert. eapply side_insert; [done|by rewrite lookup_fmap, Ho|eauto|]. apply Hperm.
  - intros h hy'. rewrite lookup_insert_Some. intros [[<- <-]|[Hne Hh']]; simpl.
    2:{ apply (grouped_ext (socket_of E)); [by eapply Hcl|by apply (Hcg _ _ Hh')]. }
    assert (Hout : socket_of (<[out := o]> E) out = Some (o_socket o)).
    { unfold socket_of. by rewrite lookup_insert_eq. }
    destruct Hl as [(-> & _ & Hno)|(prev & p & Hprev & E1 & E2 & -> & _)].
    + apply (grouped_push (socket_of E)); [|by apply (Hcg _ _ Hh)]. intros e He.
      split; [by eapply Hcl|]. rewrite Hout. unfold socket_of.
      apply (links_client E r _ _ _ Hok Hh) in He as (o' & Ho' & Hc'). rewrite Ho'.
      intros [= Heq]. by eapply Hno.
    + apply (grouped_insert_after (socket_of E)); [by eapply Hcl| | |by apply (Hcg _ _ Hh)].
      * eapply links_client; eauto.
      * rewrite Hout. unfold socket_of. rewrite Hprev. simpl. by rewrite E2.
  - intros s so'. rewrite lookup_insert_Some. intros [[<- <-]|[Hne Hs']]; simpl.
    2:{ apply (grouped_ext (conn_of E)); [by eapply Hsl|by apply (Hsg _ _ Hs')]. }
    assert (Hout : conn_of (<[out := o]> E) out = Some (o_connection o)).
    { unfold conn_of. by rewrite lookup_insert_eq. }
    destruct Hl as [(_ & -> & Hno)|(prev & p & Hprev & E1 & E2 & _ & ->)].
    + apply (grouped_push (conn_of E)); [|by apply (Hsg _ _ Hs)]. intros e He.
      split; [by eapply Hsl|]. rewrite Hout. unfold conn_of.
      apply (links_socket E r _ _ _ Hok Hs) in He as (o' & Ho' & Hc'). rewrite Ho'.
      intros [= Heq]. by eapply Hno.
    + apply (grouped_insert_after (conn_of E)); [by eapply Hsl| | |by apply (Hsg _ _ Hs)].
      * eapply links_socket; eauto.
      * rewrite Hout. unfold conn_of. rewrite Hprev. simpl. by rewrite E1.
  - intros a b oa ob. rewrite !lookup_insert_Some.
    intros [[<- <-]|[? Ha]] [[<- <-]|[? Hb]] Hc1 Hp1; [done| | |by eapply Hp];
      exfalso; eapply Hpre; eauto.
Qed.

(** The search of [scan_outputs] for the last element with a property. *)
Definition last_such (P : addr → Prop) (l : list addr) (o0 res : option addr) : Prop :=
  (res = o0 ∧ ∀ e, e ∈ l → ¬ P e) ∨ ∃ e, e ∈ l ∧ P e ∧ res = Some e.

Lemma last_such_cons P e l o0 res (b : bool) :
  (b = true ↔ P e) → last_such P l (if b then Some e else o0) res → last_such P (e :: l) o0 res.
Proof.
  intros Hb [[-> Hno]|(x & Hx & HP & ->)]; [|right; exists x; split_and!; [by right|done..]].
  destruct b.
  - right. exists e. split_and!; [by left|by apply Hb|done].
  - left. split; [done|]. intros x [->|Hx]%elem_of_cons; [|by apply Hno]. intros HP.
    apply Hb in HP. done.
Qed.

Lemma wp_scan_outputs data s l old prev r :
  (∀ e, e ∈ l → is_Some (outputs r !! e)) →
  wp (scan_outputs data s l old prev) (λ res r', r' = r ∧
    last_such (λ e, ∃ o, outputs r !! e = Some o ∧ o_prefix o = data) l old res.1 ∧
    last_such (λ e, ∃ o, outputs r !! e = Some o ∧ o_socket o = s) l prev res.2) r.
Proof.
  revert old prev. induction l as [|e l IH]; intros old prev Hl; cbn [scan_outputs].
  { root_steps. split; [done|]. split; left; (split; [done|set_solver]). }
  destruct (Hl e) as [o Ho]; [by left|]. root_steps.
  eapply wp_mono; [apply IH; intros; apply Hl; by right|]. intros res r' (-> & H2 & H3).
  split; [done|]. split; (eapply last_such_cons; [|done]); rewrite bool_decide_eq_true; naive_solver.
Qed.

Lemma wp_link_output E r hybi out o hy so prev (Q : unit → root → Prop) :
  links_ok E r → E ⊆ outputs r → o_connection o = hybi →
  hybis r !! hybi = Some hy → socks r !! o_socket o = Some so →
  last_such (λ e, ∃ o', E !! e = Some o' ∧ o_socket o' = o_socket o) (h_outputs hy) None prev →
  (∀ l l',
    (l = out :: h_outputs hy ∧ l' = out :: so_outputs so ∧
     (∀ e o', E !! e = Some o' → o_connection o' = o_connection o → o_socket o' ≠ o_socket o) ∨
     ∃ prev p, E !! prev = Some p ∧ o_connection p = o_connection o ∧ o_socket p = o_socket o ∧
       l = insert_after prev out (h_outputs hy) ∧ l' = insert_after prev out (so_outputs so)) →
    Q tt (r <| hybis := <[hybi := hy <| h_outputs := l |>]> (hybis r) |>
            <| socks := <[o_socket o := so <| so_outputs := l' |>]> (socks r) |>)) →
  wp (link_output hybi (o_socket o) out prev) Q r.
Proof.
  intros Hok Hsub Ec Hh Hs Hprev HQ. unfold link_output.
  destruct Hprev as [[-> Hno]|(e & He & (p & Hp & Es) & ->)].
  - root_steps. apply HQ. left. split_and!; [done..|]. intros e o' He Hc Hs'.
    apply (Hno e); [|eauto]. eapply links_client; eauto. exists o'. split; [done|congruence].
  - assert (Hc : o_connection p = hybi).
    { apply (links_client E r hybi hy e Hok Hh) in He as (p' & Hp' & ?). congruence. }
    assert (Hpo : outputs r !! e = Some p) by by eapply lookup_weaken.
    root_steps. rewrite Hc, Es. root_steps. apply HQ. right. exists e, p. split_and!; [done|congruence|done..].
Qed.

(** Removing a mapping altogether; also used when the connection closes. *)
Lemma wp_drop_output r out o hy so (Q : unit → root → Prop) :
  outputs_ok r → outputs r !! out = Some o → hybis r !! o_connection o = Some hy →
  socks r !! o_socket o = Some so →
  (∀ h', let r' := r <| hybis := <[o_connection o := hy <| h_outputs ::= unlink out |>]> (hybis r) |>
                     <| socks := <[o_socket o := so <| so_outputs ::= unlink out |>]> (socks r) |>
                     <| output_heap := h' |> <| outputs := delete out (outputs r) |> in
         outputs_ok r' → Q tt r') →
  wp (unlink_client out;; unlink_socket out;; free_output out) Q r ∧
  wp (unlink_socket out;; unlink_client out;; free_output out) Q r.
Proof.
  intros [Hok Hh Hl] Ho Hhy Hs HQ. unfold unlink_client, unlink_socket, free_output, on_output_heap.
  assert (Hlive : out ∈ live (output_heap r)) by (apply Hl; by eapply elem_of_dom_2).
  assert (Hfin : ∀ h', heap_wf h' → live h' = live (output_heap r) ∖ {[out]} →
    let r' := r <| hybis := <[o_connection o := hy <| h_outputs ::= unlink out |>]> (hybis r) |>
                     <| socks := <[o_socket o := so <| so_outputs ::= unlink out |>]> (socks r) |>
                     <| output_heap := h' |> <| outputs := delete out (outputs r) |> in
    outputs_ok r').
  { intros h' Hh' Hl' r'. split; [|done|]; simpl.
    - by eapply (links_delete (outputs r) r).
    - rewrite Hl', dom_delete. set_solver. }
  split; root_steps; (apply wp_free; [done|done|]); intros h' Hh' _ Hl'; root_steps;
    apply (HQ h'), Hfin; done.
Qed.

Hypothesis Hmem : ∀ h size, malloc_ok h size = true.

(** The new view after mapping prefix [p] of [h] to [s]. *)
Definition mapped_set (E E' : gmap nat output) (h : addr) (p : bytes) (s : sock_id) : Prop :=
  ∀ h' p' s', mapped E' h' p' s' ↔
    (h' = h ∧ p' = p ∧ s' = s) ∨ (mapped E h' p' s' ∧ ¬ (h' = h ∧ p' = p)).

Lemma mapped_insert E out s h p :
  E !! out = None → (∀ e o, E !! e = Some o → o_connection o = h → o_prefix o ≠ p) →
  mapped_set E (<[out := mk_output s h p]> E) h p s.
Proof.
  intros Hnone Hno h' p' s'. unfold mapped. split.
  - intros [e [[<- [= <- <- <-]]|[Hne He]]%lookup_insert_Some]; [by left|right].
    split; [eauto|]. intros [-> ->]. by eapply Hno.
  - intros [(-> & -> & ->)|[[e He] Hne]]; [exists out; by rewrite lookup_insert_eq|].
    exists e. rewrite lookup_insert_ne; [done|congruence].
Qed.

Lemma mapped_delete E out o h p :
  (∀ a b o o', E !! a = Some o → E !! b = Some o' →
    o_connection o = o_connection o' → o_prefix o = o_prefix o' → a = b) →
  E !! out = Some o → o_connection o = h → o_prefix o = p →
  ∀ h' p' s', mapped (delete out E) h' p' s' ↔ mapped E h' p' s' ∧ ¬ (h' = h ∧ p' = p).
Proof.
  intros Hu Ho Hc Hp h' p' s'. unfold mapped. split.
  - intros [e [Hne He]%lookup_delete_Some]. split; [eauto|]. intros [-> ->].
    apply Hne. by eapply Hu.
  - intros [[e He] Hne]. exists e. rewrite lookup_delete_ne; [done|]. intros <-.
    apply Hne. rewrite Ho in He. injection He as ->. done.
Qed.

Lemma find_named_lt rid i names data s :
  find_named rid i names data = Some s → ∃ j, s = Named rid j ∧ i ≤ j < i + length names ∧
    names !! (j - i) = Some data.
Proof.
  revert i. induction names as [|key names IH]; intros i; simpl; [done|]. case_match eqn:E.
  - intros [= <-]. apply andb_true_iff in E as [_ E%bool_decide_eq_true]. subst.
    exists i. split_and!; [done|lia|lia|]. by rewrite Nat.sub_diag.
  - intros (j & -> & ? & Hj)%IH. exists j. split_and!; [done|lia|lia|].
    replace (j - i) with (S (j - S i)) by lia. done.
Qed.

Lemma wp_add_output r rid rt hybi hy prefix name :
  outputs_ok r → routes r !! rid = Some rt → hybis r !! hybi = Some hy →
  (∀ i, i < length (rt_outputs rt) → is_Some (socks r !! Named rid i)) →
  wp (add_output rid hybi prefix name) (λ _ r', outputs_ok r' ∧
    match find_named rid 0 (rt_outputs rt) name with
    | Some s => mapped_set (outputs r) (outputs r') hybi prefix s
    | None => r' = r
    end) r.
Proof.
  intros [Hok Hh Hl] Hrt Hhy Hnames. unfold add_output. root_steps.
  destruct (find_named rid 0 (rt_outputs rt) name) as [s|] eqn:Efind; root_steps; [|done].
  destruct (find_named_lt _ _ _ _ _ Efind) as (j & Ej & Hj & _).
  destruct (Hnames j) as [so Hso]; [lia|]. rewrite <- Ej in Hso.
  eapply wp_mono; [apply wp_scan_outputs|].
  { intros e He. apply (links_client _ _ _ _ _ Hok Hhy) in He as (o & ? & _). eauto. }
  intros [old prev] r0 (-> & Hold & Hprev). simpl in Hold, Hprev. root_steps.
  destruct Hold as [[-> Hno]|(out & Hout & (o & Ho & Ep) & ->)].
  - unfold on_output_heap. root_steps. apply wp_malloc_ok; [done..|]. intros h' Hh' Hb Hl'.
    root_steps. apply wp_ANIMPL; [done|]. root_steps.
    set (out := brk (output_heap r)) in *. set (o := mk_output s hybi prefix).
    assert (Ho : outputs r !! out = None) by (apply not_elem_of_dom; set_solver).
    assert (Hno' : ∀ e o', outputs r !! e = Some o' → o_connection o' = hybi → o_prefix o' ≠ prefix).
    { intros e o' He Hc Hp. apply (Hno e); [|eauto]. eapply links_client; eauto. }
    apply (wp_link_output (outputs r) _ hybi out o hy so); try done.
    { by destruct Hok. } { simpl. by apply insert_subseteq. }
    intros l l' Hll. split; [split; simpl|by apply mapped_insert].
    + eapply (links_insert _ r); [done..|exact Hll|done|done].
    + done.
    + rewrite dom_insert, Hl'. set_solver.
  - apply (links_client _ _ _ _ _ Hok Hhy) in Hout as (o' & Ho' & Hc).
    rewrite Ho in Ho'. injection Ho' as <-. root_steps. case_bool_decide as Es; root_steps.
    2:{ split; [done|]. intros h' p' s'. split.
        - intros Hm. destruct (decide (h' = hybi ∧ p' = prefix)) as [[-> ->]|]; [left|by right].
          destruct Hm as [e He]. assert (e = out) as -> by (by eapply (oo_prefix _ _ Hok)).
          rewrite Ho in He. injection He as ->. done.
        - intros [(-> & -> & ->)|[? _]]; [|done]. exists out. rewrite Ho. destruct o. simpl in *. by subst. }
    destruct (links_lookup _ _ _ _ Hok Ho) as (hy' & so1 & Hh1 & _ & _ & Hs1 & _).
    rewrite Hc, Hhy in Hh1. injection Hh1 as <-.
    unfold unlink_socket, unlink_client. root_steps. rewrite Hc. root_steps.
    set (o1 := o <| o_socket := s |>). set (E := delete out (outputs r)).
    set (hy1 := hy <| h_outputs ::= unlink out |>).
    match goal with |- wp _ _ ?r' => set (r1 := r') end.
    assert (Hok1 : links_ok E r1).
    { apply (links_delete (outputs r) r r1 out o hy so1 Hok Ho); [by rewrite Hc|done|simpl; by rewrite Hc|done]. }
    assert (Hno : ∀ e o', E !! e = Some o' → o_connection o' = hybi → o_prefix o' ≠ prefix).
    { intros e o' [Hne He]%lookup_delete_Some Hc' Hp. apply Hne.
      eapply (oo_prefix _ _ Hok); eauto; congruence. }
    apply (wp_link_output E _ hybi out o1 hy1 so); [by destruct Hok1| |exact Hc| | | |].
    { simpl. apply map_subseteq_spec. intros e x [Hne He]%lookup_delete_Some.
      by rewrite lookup_insert_ne. }
    { simpl. apply lookup_insert_eq. }
    { simpl. by rewrite lookup_insert_ne. }
    { simpl. destruct Hprev as [[-> Hn]|(e & He & (p & Hp & Ep') & ->)].
      - left. split; [done|]. intros e [He _]%elem_of_unlink (o' & [_ Ho']%lookup_delete_Some & ?).
        eapply Hn; eauto.
      - right. exists e. assert (e ≠ out) by (intros ->; congruence). split_and!; [|..|done].
        + by apply elem_of_unlink.
        + exists p. unfold E. by rewrite lookup_delete_ne. }
    assert (Eo : <[out := o1]> (outputs r) = <[out := o1]> E) by (unfold E; by rewrite insert_delete_eq).
    intros l l' Hll. split; [split; simpl|].
    + rewrite Eo. eapply (links_insert E r1 _ out o1 hy1 so l l'); simpl; try done.
      * apply lookup_delete_eq.
      * rewrite Hc. apply lookup_insert_eq.
      * by rewrite lookup_insert_ne.
      * intros e o' He Hc'. rewrite Ep. apply (Hno e o' He). congruence.
      * by rewrite Hc.
    + done.
    + rewrite dom_insert. apply elem_of_dom_2 in Ho. set_solver.
    + simpl. rewrite Eo. assert (o1 = mk_output s hybi prefix) as ->.
      { unfold o1. destruct o. simpl in *. by subst. }
      intros h' p' s'. etrans; [apply (mapped_insert E out s hybi prefix); [apply lookup_delete_eq|done]|].
      unfold E. rewrite (mapped_delete (outputs r) out o hybi prefix (oo_prefix _ _ Hok) Ho Hc Ep).
      tauto.
Qed.

Lemma wp_del_output_in r data l :
  outputs_ok r → (∀ e, e ∈ l → is_Some (outputs r !! e)) →
  wp (del_output_in data l) (λ _ r', outputs_ok r' ∧
    ((∃ out o, out ∈ l ∧ outputs r !! out = Some o ∧ o_prefix o = data ∧
        outputs r' = delete out (outputs r)) ∨
     r' = r ∧ ∀ e o, e ∈ l → outputs r !! e = Some o → o_prefix o ≠ data)) r.
Proof.
  intros Hok. induction l as [|out l IH]; intros Hl; cbn [del_output_in].
  { root_steps. split; [done|right]. split; [done|set_solver]. }
  destruct (Hl out) as [o Ho]; [by left|]. root_steps. case_bool_decide as Ep.
  - destruct (links_lookup _ _ _ _ (oo_links _ Hok) Ho) as (hy & so & Hhy & _ & _ & Hs & _ & _).
    apply (wp_drop_output r out o hy so); [done..|]. intros h' r' Hok'. split; [done|left].
    exists out, o. split_and!; [by left|done..].
  - eapply wp_mono; [apply IH; intros; apply Hl; by right|]. intros _ r' [Hok' Hr]. split; [done|].
    destruct Hr as [(out' & o' & ? & ?)|[-> Hno]]; [left|right].
    + exists out', o'. split; [by right|done].
    + split; [done|]. intros e o' [->|He]%elem_of_cons He'; [congruence|by eapply Hno].
Qed.

Lemma wp_del_output r hybi hy prefix :
  outputs_ok r → hybis r !! hybi = Some hy →
  wp (del_output hybi prefix) (λ _ r', outputs_ok r' ∧ ∀ h p s,
    mapped (outputs r') h p s ↔ mapped (outputs r) h p s ∧ ¬ (h = hybi ∧ p = prefix)) r.
Proof.
  intros Hok Hhy. unfold del_output. root_steps. pose proof (oo_links _ Hok) as Hlk.
  eapply wp_mono; [apply wp_del_output_in; [done|]|].
  { intros e He. apply (links_client _ _ _ _ _ Hlk Hhy) in He as (o & ? & _). eauto. }
  intros _ r' [Hok' Hr]. split; [done|]. destruct Hr as [(out & o & Hin & Ho & Ep & ->)|[-> Hno]].
  - apply (links_client _ _ _ _ _ Hlk Hhy) in Hin as (o' & Ho' & Hc).
    rewrite Ho in Ho'. injection Ho' as <-. eapply mapped_delete; [apply Hlk|done..].
  - intros h p s. split; [|tauto]. intros Hm. split; [done|]. intros [-> ->].
    destruct Hm as [e He]. apply (Hno e _) in He; [done|]. eapply links_client; eauto.
Qed.
End lemmas.

(** ** Synchronisation *)
Section sync.
Context `{LogLevel, Malloc, Env}.
Hypothesis Hzmq : zmq_laws.
Implicit Types (r : root).

Lemma sent_events_snoc s ps m :
  sent_events s (ps ++ [m]) = ((λ p, ZmqSend s p true Sent) <$> ps) ++ [ZmqSend s m false Sent].
Proof. induction ps as [|p ps IH]; [done|]. simpl. rewrite IH. by destruct ps. Qed.

Lemma grouped_Some {K} (ks : list K) : grouped (Some <$> ks) → grouped ks.
Proof.
  intros Hg i j k v Hijk Hi Hk.
  assert (Hj : (Some <$> ks) !! j = Some (Some v)).
  { apply (Hg i j k); [done|..]; rewrite list_lookup_fmap; [by rewrite Hi|by rewrite Hk]. }
  rewrite list_lookup_fmap in Hj. destruct (ks !! j); [|done]. by injection Hj as ->.
Qed.

Lemma all_Some {A B} (f : A → option B) (l : list A) :
  (∀ e, e ∈ l → is_Some (f e)) → ∃ ks, f <$> l = Some <$> ks.
Proof.
  induction l as [|e l IH]; intros Hl; [by exists []|].
  destruct IH as [ks Hks]; [intros; apply Hl; by right|].
  destruct (Hl e) as [k Hk]; [by left|]. exists (k :: ks). by rewrite !fmap_cons, Hk, Hks.
Qed.

Definition sync_cookie (hy : hybi) : bytes := if has_cookie hy then h_cookie hy else [].
Definition sync_entries (hys : list hybi) : list bytes :=
  concat ((λ hy, [h_uid hy; sync_cookie hy]) <$> hys).

Lemma wp_sync_loop s msg prev l ks tr p r :
  trace r = tr ++ [ZmqSend s p true Sent] →
  conn_of (outputs r) <$> l = Some <$> ks → (∀ k, k ∈ ks → is_Some (hybis r !! k)) →
  wp (sync_loop s msg prev l) (λ m r', ∃ hys ps,
    Forall2 (λ k hy, hybis r !! k = Some hy) (heads prev ks) hys ∧
    ps ++ [m] = msg :: sync_entries hys ∧
    r' = r <| trace := trace r ++ ((λ p, ZmqSend s p true Sent) <$> ps) |>) r.
Proof.
  revert msg prev ks tr p r. induction l as [|e l IH]; intros msg prev ks tr p r Htr Hks Hlive;
    (destruct ks as [|k ks]; [|]; try done).
  { simpl. root_steps. exists [], []. split_and!; [constructor|done|]. simpl.
    rewrite app_nil_r. by destruct r. }
  rewrite !fmap_cons in Hks. injection Hks as He Hks. unfold conn_of in He.
  destruct (outputs r !! e) as [o|] eqn:Ho; [|done]. injection He as He.
  cbn [sync_loop heads]. root_steps. rewrite He. case_bool_decide as Ep.
  - rewrite decide_True by done. eapply IH; [done..|]. intros k' ?. apply Hlive. by right.
  - rewrite decide_False by done. destruct (Hlive k) as [hy Hhy]; [by left|]. root_steps.
    eapply (wp_snimpl_send Hzmq); [done|]. root_steps.
    eapply (wp_snimpl_send Hzmq); [done|]. root_steps.
    eapply wp_mono; [eapply (IH _ (Some k) ks); [done|exact Hks|]|].
    { intros k' ?. apply Hlive. by right. }
    intros m r' (hys & ps & Hf & Hps & ->). exists (hy :: hys), (msg :: h_uid hy :: ps).
    split_and!; [by constructor| |].
    + simpl. unfold sync_entries in *. simpl. by rewrite Hps.
    + simpl. by rewrite <- !app_assoc.
Qed.

Lemma wp_send_sync s so r :
  outputs_ok r → between r → socks r !! s = Some so →
  zmq_send_res (trace r) s (instance_id r) true ≠ EINTR →
  wp (send_sync s) (λ _ r', between r' ∧ r' = r <| trace := trace r' |> ∧
    (so_outputs so ≠ [] → zmq_send_res (trace r) s (instance_id r) true = Sent →
     ∃ ks hys, Forall2 (λ k hy, hybis r !! k = Some hy) ks hys ∧ NoDup ks ∧
       (∀ k, k ∈ ks ↔ ∃ p, mapped (outputs r) k p s) ∧
       delivered s (trace r') = delivered s (trace r) ++ [instance_id r :: str "sync" :: sync_entries hys]))
    r.
Proof.
  intros Hok Hb Hs Hint. pose proof (oo_links _ Hok) as Hlk.
  pose proof (zl_errors Hzmq (trace r) s (instance_id r) true) as Hne.
  destruct (zmq_send_res (trace r) s (instance_id r) true) eqn:Eres; [| |done..].
  - unfold send_sync. root_steps. destruct (so_outputs so) as [|e0 l0] eqn:El; root_steps.
    { split_and!; [done|by destruct r|done]. }
    unfold zmq_send. root_steps. rewrite Eres. rewrite bool_decide_false by done.
    root_steps. apply wp_SNIMPL; [done|]. root_steps. rewrite <- El.
    destruct (all_Some (conn_of (outputs r)) (so_outputs so)) as [ks Hks].
    { intros e He. apply (links_socket _ _ _ _ _ Hlk Hs) in He as (o & Ho & _).
      unfold conn_of. rewrite Ho. eauto. }
    assert (Hkin : ∀ k, k ∈ ks ↔ ∃ p, mapped (outputs r) k p s).
    { intros k. assert (k ∈ ks ↔ Some k ∈ conn_of (outputs r) <$> so_outputs so) as ->.
      { rewrite Hks, list_elem_of_fmap. naive_solver. }
      rewrite list_elem_of_fmap. unfold mapped, conn_of. split.
      - intros (e & He & Hin). apply (links_socket _ _ _ _ _ Hlk Hs) in Hin as (o & Ho & Eo).
        rewrite Ho in He. injection He as ->. exists (o_prefix o), e. rewrite Ho. destruct o. simpl in *. by subst.
      - intros (p & e & He). exists e. rewrite He. split; [done|].
        eapply links_socket; eauto. }
    destruct (heads_nodup ks) as [Hnd Hhd].
    { apply grouped_Some. rewrite <- Hks. apply (oo_sgroup _ _ Hlk _ _ Hs). }
    eapply wp_mono; [eapply (wp_sync_loop s (str "sync") None (so_outputs so) ks); [done|exact Hks|]|].
    { intros k (p & e & He)%Hkin. destruct (links_lookup _ _ _ _ Hlk He) as (hy & _ & Hhy & _). eauto. }
    intros m r' (hys & ps & Hf & Hps & ->). root_steps.
    unfold snimpl_send, zmq_send. root_steps. simpl.
    assert (Hlast : ∃ tr' p', (trace r ++ [ZmqSend s (instance_id r) true Sent]) ++
      ((λ p : bytes, ZmqSend s p true Sent) <$> ps) = tr' ++ [ZmqSend s p' true Sent]).
    { destruct ps as [|p ps _] using rev_ind; [by rewrite app_nil_r; eauto|].
      rewrite fmap_app, app_assoc. simpl. eauto. }
    destruct Hlast as (tr' & p' & Hlast). rewrite Hlast, (zl_atomic Hzmq), <- Hlast.
    apply wp_SNIMPL; [done|]. simpl.
    assert (Hall : (trace r ++ [ZmqSend s (instance_id r) true Sent]) ++
        ((λ p : bytes, ZmqSend s p true Sent) <$> ps) ++ [ZmqSend s m false Sent] =
      trace r ++ [] ++ sent_events s (instance_id r :: str "sync" :: sync_entries hys)).
    { rewrite <- Hps, app_comm_cons, sent_events_snoc, <- app_assoc. done. }
    rewrite app_assoc in Hall.
    assert (Hw : ∀ s', wire s' (trace r ++ [] ++ sent_events s (instance_id r :: str "sync" :: sync_entries hys)) =
      (delivered s' (trace r) ++ (if decide (s = s') then [instance_id r :: str "sync" :: sync_entries hys] else []), [])).
    { intros s'. by apply delivered_sent. }
    split_and!; [| done|].
    + intros s'. simpl. by rewrite Hall, Hw.
    + intros _ _. exists (heads None ks), hys. split_and!; [done|done| |].
      * intros k. by rewrite Hhd, Hkin.
      * unfold delivered at 1. simpl. by rewrite Hall, Hw, decide_True.
  - unfold send_sync. root_steps. destruct (so_outputs so) as [|e0 l0] eqn:El; root_steps.
    { split_and!; [done|by destruct r|done]. }
    unfold zmq_send. root_steps. rewrite Eres. simpl. root_steps.
    split_and!; [|done|done]. intros s'. simpl. rewrite wire_app. simpl. apply Hb.
Qed.
End sync.

(** ** Properties *)
Section history.
Context `{LogLevel, Malloc, Env}.
Hypothesis Hmem : ∀ h size, malloc_ok h size = true.
Implicit Types (r : root).

(** Commands name existing connections and routes with their sockets. *)
Definition output_op_ok r (op : output_op) : Prop :=
  match op with
  | OAdd rid h _ _ => h ∈ dom (hybis r) ∧ ∃ rt, routes r !! rid = Some rt ∧
      ∀ i, i < length (rt_outputs rt) → Named rid i ∈ dom (socks r)
  | ODel h _ => h ∈ dom (hybis r)
  end.

(** What [output_op_ok] looks at. *)
Definition static r := (routes r, dom (hybis r), dom (socks r)).

Lemma keeps_static_hybi h f : keeps static (set_hybi h f).
Proof.
  apply keeps_set_hybi. intros r hy Hh. unfold static. simpl. by rewrite dom_insert_lookup_L.
Qed.
Lemma keeps_static_sock s f : keeps static (set_sock s f).
Proof.
  apply keeps_set_sock. intros r so Hs. unfold static. simpl. by rewrite dom_insert_lookup_L.
Qed.
Lemma keeps_static_scan data s l o p : keeps static (scan_outputs data s l o p).
Proof. revert o p. induction l; intros; simpl; solve_keeps. Qed.

Hint Resolve keeps_static_hybi keeps_static_sock keeps_static_scan : keeps.

Lemma keeps_static_step op :
  keeps static (match op with OAdd rid h prefix name => add_output rid h prefix name
                | ODel h prefix => del_output h prefix end).
Proof.
  assert (∀ b, keeps static (ANIMPL b)) by (intros; unfold ANIMPL; solve_keeps).
  assert (∀ data l, keeps static (del_output_in data l)).
  { induction l; simpl; [solve_keeps|]. unfold unlink_client, unlink_socket, free_output. solve_keeps. }
  destruct op; unfold add_output, del_output, link_output, unlink_client, unlink_socket;
    repeat (first [apply H2|apply H3|keeps_step]).
Qed.

Lemma output_op_ok_static r r' op : static r' = static r → output_op_ok r op → output_op_ok r' op.
Proof. unfold static. intros [= E1 E2 E3]. destruct op; simpl; rewrite ?E1, ?E2, ?E3; done. Qed.

Lemma wp_output_history ops r m :
  outputs_ok r → (∀ h p s, mapped (outputs r) h p s ↔ m !! (h, p) = Some s) →
  Forall (output_op_ok r) ops →
  wp (output_history ops) (λ _ r', outputs_ok r' ∧
    ∀ h p s, mapped (outputs r') h p s ↔ foldl (mapping_step (routes r)) m ops !! (h, p) = Some s) r.
Proof.
  unfold output_history. revert r m. induction ops as [|op ops IH]; intros r m Hok Hm Hops.
  { simpl. by root_steps. }
  apply Forall_cons in Hops as [Hop Hops]. cbn [mfor foldl].
  assert (Hw : wp (match op with OAdd rid h prefix name => add_output rid h prefix name
                   | ODel h prefix => del_output h prefix end)
    (λ _ r', outputs_ok r' ∧ ∀ h p s, mapped (outputs r') h p s ↔
       mapping_step (routes r) m op !! (h, p) = Some s) r).
  { destruct op as [rid h prefix name|h prefix]; simpl in Hop.
    - destruct Hop as ([hy Hhy]%elem_of_dom & rt & Hrt & Hso).
      eapply wp_mono; [apply (wp_add_output Hmem r rid rt h hy); [done..|]|].
      { intros i Hi. by apply elem_of_dom, Hso. }
      intros _ r' [Hok' Hr]. split; [done|]. simpl. rewrite Hrt. simpl.
      destruct (find_named _ _ _ _) as [s0|]; [|by subst r'].
      intros h' p' s'. etrans; [apply Hr|]. rewrite Hm, lookup_insert_Some, pair_equal_spec. clear. naive_solver.
    - apply elem_of_dom in Hop as [hy Hhy]. eapply wp_mono; [by eapply wp_del_output|].
      intros _ r' [Hok' Hr]. split; [done|]. intros h' p' s'. simpl.
      rewrite Hr, Hm, lookup_delete_Some, pair_equal_spec. clear. naive_solver. }
  root_steps. eapply wp_mono; [apply (wp_keeps static); [apply keeps_static_step|exact Hw]|].
  intros _ r' [[Hok' Hm'] Hst].
 replace (routes r) with (routes r') by (unfold static in Hst; congruence).
  assert (Er : routes r' = routes r) by (unfold static in Hst; congruence).
  apply IH; [done|by rewrite Er|]. eapply Forall_impl; [done|].
  intros op'. by apply output_op_ok_static.
Qed.
End history.

(** C25: as long as memory lasts, any sequence of add_output and del_output commands on open connections
    implements updates of a finite map from (connection, prefix) to sockets, and
    keeps the mappings of a connection to one socket adjacent on both lists, with
    every mapping on exactly the two lists it belongs to. *)
Theorem outputs_refine `{LogLevel, Malloc} (ops : list output_op) (r : root) (m : mapping)
    (Hmem : ∀ h size, malloc_ok h size = true) (Hok : outputs_ok r)
    (Hm : ∀ h p s, mapped (outputs r) h p s ↔ m !! (h, p) = Some s)
    (Hops : Forall (output_op_ok r) ops) :
  ∃ r', output_history ops r = Ok tt r' ∧ outputs_ok r' ∧
    ∀ h p s, mapped (outputs r') h p s ↔ foldl (mapping_step (routes r)) m ops !! (h, p) = Some s.
Proof.
  pose proof (wp_output_history Hmem ops r m Hok Hm Hops) as ([] & r' & ? & ? & ?)%wp_Ok. eauto.
Qed.

(** One route with two named outputs, and two connections without mappings. *)
Definition outputs_example : root :=
  empty_root <| instance_id := str "gw" |>
             <| hybis := {[0 := plain_hybi HYBI_WEBSOCKET (str "a") 0;
                           1 := plain_hybi HYBI_WEBSOCKET (str "b") 0]} |>
             <| routes := {[0 := (plain_route 4 10) <| rt_outputs := [str "chat"; str "game"] |>]} |>
             <| socks := {[Named 0 0 := mk_sock (mk_queue 0 5 []) [];
                           Named 0 1 := mk_sock (mk_queue 0 5 []) []]} |>.

Lemma outputs_example_ok : outputs_ok outputs_example.
Proof.
  assert (Hh : map_Forall (λ _ h, h_outputs h = []) (hybis outputs_example)).
  { intros i x. simpl. rewrite lookup_insert_Some, lookup_singleton_Some. naive_solver. }
  assert (Hs : map_Forall (λ _ so, so_outputs so = []) (socks outputs_example)).
  { intros i x. simpl. rewrite lookup_insert_Some, lookup_singleton_Some. naive_solver. }
  split; [split| |]; simpl.
  - rewrite fmap_empty. by apply side_nil.
  - rewrite fmap_empty. by apply side_nil.
  - intros i x Hx. rewrite (Hh i x Hx). apply grouped_nil.
  - intros i x Hx. rewrite (Hs i x Hx). apply grouped_nil.
  - intros a b o o'. by rewrite lookup_empty.
  - intros b. simpl. set_solver.
  - set_solver.
Qed.

Lemma outputs_refine_witness :
  let LL : LogLevel := 6%Z in let MM : Malloc := λ _ _, true in
  let ops := [OAdd 0 0 (str "c:") (str "chat"); OAdd 0 0 (str "g:") (str "game");
              OAdd 0 0 (str "d:") (str "chat"); OAdd 0 1 (str "c:") (str "chat");
              OAdd 0 0 (str "g:") (str "chat"); ODel 0 (str "d:")] in
  ∃ r', output_history ops outputs_example = Ok tt r' ∧
    mapped (outputs r') 0 (str "g:") (Named 0 0) ∧ ¬ mapped (outputs r') 0 (str "d:") (Named 0 0).
Proof.
  intros LL MM ops.
  assert (Hops : Forall (output_op_ok outputs_example) ops).
  { assert (H0 : 0 ∈ dom (hybis outputs_example)) by (apply elem_of_dom; by eexists).
    assert (H1 : 1 ∈ dom (hybis outputs_example)) by (apply elem_of_dom; by eexists).
    assert (Hr : ∃ rt, routes outputs_example !! 0 = Some rt ∧
      ∀ i, i < length (rt_outputs rt) → Named 0 i ∈ dom (socks outputs_example)).
    { eexists. split; [reflexivity|]. intros [|[|i]] Hi; [| |simpl in Hi; lia];
        apply elem_of_dom; by eexists. }
    repeat (apply Forall_cons; split); try (apply Forall_nil_2);
      first [exact (conj H0 Hr)|exact (conj H1 Hr)|exact H0]. }
  destruct (outputs_refine ops outputs_example ∅ (λ _ _, eq_refl) outputs_example_ok)
    as (r' & Hrun & _ & Hm); [|exact Hops|].
  { intros h p s. rewrite lookup_empty. split; [|done]. intros [e He]. simpl in He. by apply lookup_empty_Some in He. }
  exists r'. split; [exact Hrun|]. rewrite !Hm.
  split; apply (bool_decide_unpack _); vm_compute; exact I.
Defined.

(** A sync message lists the identifier and the cookie of every connection
    with a mapping to the socket exactly once, after the instance id and the
    word sync; nothing is sent for a socket without mappings, or when zeromq
    refuses the first part. *)
Theorem send_sync_once `{LogLevel, Malloc, Env} (s : sock_id) (so : sock) (r : root)
    (Hzmq : zmq_laws) (Hok : outputs_ok r) (Hb : between r) (Hs : socks r !! s = Some so)
    (Hint : zmq_send_res (trace r) s (instance_id r) true ≠ EINTR) :
  ∃ r', send_sync s r = Ok tt r' ∧ between r' ∧ r' = r <| trace := trace r' |> ∧
    (so_outputs so ≠ [] → zmq_send_res (trace r) s (instance_id r) true = Sent →
     ∃ ks hys, Forall2 (λ k hy, hybis r !! k = Some hy) ks hys ∧ NoDup ks ∧
       (∀ k, k ∈ ks ↔ ∃ p, mapped (outputs r) k p s) ∧
       delivered s (trace r') = delivered s (trace r) ++ [instance_id r :: str "sync" :: sync_entries hys]).
Proof.
  pose proof (wp_send_sync Hzmq s so r Hok Hb Hs Hint) as ([] & r' & ? & ? & ? & ?)%wp_Ok. eauto 10.
Qed.

Lemma send_sync_once_witness :
  let LL : LogLevel := 6%Z in let MM : Malloc := λ _ _, true in
  let r0 := outputs_example <| trace := [FeedSync (Named 0 0)] |> in
  let ops := [OAdd 0 0 (str "c:") (str "chat"); OAdd 0 1 (str "c:") (str "chat");
              OAdd 0 0 (str "d:") (str "chat")] in
  ∃ r r', output_history ops r0 = Ok tt r ∧ @send_sync LL example_env (Named 0 0) r = Ok tt r' ∧
    delivered (Named 0 0) (trace r') = [[str "gw"; str "sync"; str "b"; []; str "a"; []]].
Proof.
  intros LL MM r0 ops. assert (Hok : outputs_ok r0).
  { destruct outputs_example_ok as [[H1 H2 H3 H4 H5] H6 H7]. by split; [split|..]. }
  assert (Hops : Forall (output_op_ok r0) ops).
  { assert (H0 : 0 ∈ dom (hybis r0)) by (apply elem_of_dom; by eexists).
    assert (H1 : 1 ∈ dom (hybis r0)) by (apply elem_of_dom; by eexists).
    assert (Hr : ∃ rt, routes r0 !! 0 = Some rt ∧
      ∀ i, i < length (rt_outputs rt) → Named 0 i ∈ dom (socks r0)).
    { eexists. split; [reflexivity|]. intros [|[|i]] Hi; [| |simpl in Hi; lia];
        apply elem_of_dom; by eexists. }
    repeat (apply Forall_cons; split); try (apply Forall_nil_2);
      first [exact (conj H0 Hr)|exact (conj H1 Hr)]. }
  assert (Hnone : ∀ h p s, mapped (outputs r0) h p s ↔ (∅ : mapping) !! (h, p) = Some s).
  { intros h p s. rewrite lookup_empty. split; [|done]. intros [e He]. simpl in He. by apply lookup_empty_Some in He. }
  pose proof (wp_output_history (λ _ _, eq_refl) ops r0 ∅ Hok Hnone Hops)
    as ([] & r & Hrun & Hok1 & _)%wp_Ok.
  assert (Hs : ∃ so, socks r !! Named 0 0 = Some so ∧ trace r = [FeedSync (Named 0 0)]).
  { vm_compute in Hrun. injection Hrun as <-. eexists. split; vm_compute; reflexivity. }
  destruct Hs as (so & Hs & Ht).
  destruct (@send_sync_once LL MM example_env (Named 0 0) so r
    example_laws Hok1) as (r' & Hrun' & _); [intros s; rewrite Ht; by destruct s|exact Hs|rewrite Ht; done|].
  exists r, r'. split; [exact Hrun|]. split; [exact Hrun'|].
  vm_compute in Hrun. injection Hrun as <-. vm_compute in Hrun'. injection Hrun' as <-.
  vm_compute. reflexivity.
Defined.
