(* ===== verification/Hybi.v ===== *)
(** * Life of a connection (websocket.c)

    Opening a connection enters it in the sieve and tells the backend; closing
    it takes it out of the sieve, tells the backend and every named output once,
    and drops its subscriptions and mappings.  The object itself lives until the
    last queued message that refers to it is gone. *)

From S2P Require Import Prelude Sieve Pool MsgQueue Uidgen Links State Topics Backend Outputs.

(** ** Operations *)
Section operations.
Context `{LogLevel, Malloc, Env}.

(** The caller provides a buffer with at least [UID_LEN] bytes;
    src/src/websocket.c:358-365 [hybi_find] *)
Definition hybi_find (data : bytes) : MR (option addr) :=
  hole ← UID_HOLE data;
  o ← on_hsieve (sieve_get hole);
  match o with
  | None => mret None
  | Some h =>
      hy ← get_hybi h;
      eq ← UID_EQ (h_uid hy) data;
      mret (if eq : bool then Some h else None)
  end.

(** The object between [malloc] and the end of [hybi_start]: the identifier is
    the caller's memory until [make_hole_uid] fills it in, and the polling part
    is initialized by [comet_connect]. *)
Definition new_hybi (ty : hybi_enum) (uid : bytes) (rid : route_id) : hybi :=
  mk_hybi ty 1 uid 0 [] rid [] [] None None.

(** [urandom] is what /dev/urandom gives to [make_hole_uid];
    src/src/websocket.c:249-279 [hybi_start] *)
Definition hybi_start (rid : route_id) (ty : hybi_enum) (urandom : random_device) : MR (option addr) :=
  hb ← on_hybi_heap (malloc (if decide (ty = HYBI_COMET) then sizeof_hybi + sizeof_comet
                             else sizeof_hybi));
  match hb with
  | None => mret None
  | Some h =>
      r ← get;
      '(uid, ok) ← on_hsieve (make_hole_uid (instance_id r) urandom h (replicate UID_LEN NUL)
                                            (bool_decide (ty = HYBI_COMET)));
      if negb ok then on_hybi_heap (free h);; mret None
      else
        modify (λ r, r <| hybis ::= <[h := new_hybi ty uid rid]> |>);;
        sent ← backend_send (Forward rid) h MSG_CONNECT false;
        if sent : bool then mret (Some h)
        else
          hole ← UID_HOLE uid;
          on_hsieve (sieve_empty hole);;
          on_hybi_heap (free h);;
          modify (λ r, r <| hybis ::= delete h |>);;
          mret None
  end.

(** src/src/websocket.c:189-200 [hybi_stop] *)
Definition stop_subscription (sub : addr) : MR unit :=
  remove_from_client sub;;
  remove_from_topic sub;;
  s ← get_sub sub;
  t ← get_topic (s_topic s);
  set_table (t_table t) (λ tbl, tbl <| nsubscriptions ::= λ n, (n - 1)%Z |>);;
  count (λ st, st <| st_websock_unsubscribed ::= plus 1 |>);;
  (match t_subscribers t with [] => free_topic (s_topic s) | _ :: _ => mret tt end);;
  free_subscriber sub.

(** src/src/websocket.c:201-214 [hybi_stop] *)
Fixpoint stop_outputs (h : addr) (l : list addr) : MR unit :=
  match l with
  | [] => mret tt
  | out :: l =>
      o ← get_output out;
      last ← (match l with
              | [] => mret true
              | nxt :: _ => n ← get_output nxt; mret (bool_decide (o_socket n ≠ o_socket o))
              end : MR bool);
      (if last : bool then backend_send (o_socket o) h MSG_DISCONNECT true;; mret tt
       else mret tt);;
      unlink_socket out;;
      unlink_client out;;
      free_output out;;
      stop_outputs h l
  end.

(** src/src/websocket.c:184-216 [hybi_stop] *)
Definition hybi_stop (h : addr) : MR unit :=
  hy ← get_hybi h;
  hole ← UID_HOLE (h_uid hy);
  on_hsieve (sieve_empty hole);;
  backend_send (Forward (h_route hy)) h MSG_DISCONNECT true;;
  hy ← get_hybi h;
  mfor (h_subscribers hy) stop_subscription;;
  hy ← get_hybi h;
  stop_outputs h (h_outputs hy);;
  hybi_DECREF h.

(** [conn] is the websocket; its idle timer is the library's.
    src/src/websocket.c:233-247 [websock_start] *)
Definition websock_start (c : conn_id) (rid : route_id) (urandom : random_device) : MR bool :=
  h ← hybi_start rid HYBI_WEBSOCKET urandom;
  match h with
  | None => mret false
  | Some h =>
      set_hybi h (λ hy, hy <| h_conn := Some c |>);;
      count (λ st, st <| st_websock_connects ::= plus 1 |>);;
      mret true
  end.

(** [h] is [conn->hybi]; src/src/websocket.c:60-66 [websock_stop] *)
Definition websock_stop (h : addr) : MR unit :=
  count (λ st, st <| st_websock_disconnects ::= plus 1 |>);;
  count (λ st, st <| st_disconnects ::= plus 1 |>);;
  hybi_stop h.

(** The command set_cookie; src/src/websocket.c:717-727 [websock_process] *)
Definition set_cookie (h : addr) (cookie : bytes) : MR unit :=
  set_hybi h (λ hy, hy <| h_cookie := cookie |>
                       <| h_flags ::= λ f, Z.lor f WS_HAS_COOKIE |>).
End operations.

(** ** Invariant *)

(** The sieve holds exactly the open connections, each in the cell that its
    identifier names. *)
Record sieve_ok (act : gset nat) (r : root) : Prop := {
  sv_wf : sieve_wf (hsieve r);
  sv_iid : length (instance_id r) = IID_LEN;
  sv_act : ∀ h, h ∈ act ↔ ∃ i, holes (hsieve r) !! i = Some h;
  sv_uid : ∀ i h, holes (hsieve r) !! i = Some h → ∃ hy ix tail, hybis r !! h = Some hy ∧
    h_uid hy = uid_of (instance_id r) i ix tail ∧ length tail = UID_NRANDOM;
}.

Record server_ok (act : gset nat) (r : root) : Prop := {
  sr_sieve : sieve_ok act r;
  sr_backend : backend_ok act r;
  sr_between : between r;
  sr_topics : topics_ok r;
  sr_outputs : outputs_ok r;
  sr_subs : ∀ e s, subs r !! e = Some s → s_connection s ∈ act;
  sr_outs : ∀ e o, outputs r !! e = Some o → o_connection o ∈ act;
  sr_kind : ∀ e o, outputs r !! e = Some o → ∃ rid i, o_socket o = Named rid i;
  sr_route : ∀ h hy, hybis r !! h = Some hy → Forward (h_route hy) ∈ dom (socks r);
}.

(** ** Lemmas: frames *)
Section frames.
Implicit Types (r : root).

Lemma topics_ok_frame r r' :
  topics_ok r → subs r' = subs r → topics r' = topics r → sub_arena r' = sub_arena r →
  routes r' = routes r → topic_heap r' = topic_heap r →
  h_subscribers <$> hybis r' = h_subscribers <$> hybis r → topics_ok r'.
Proof.
  intros [[H1 H2 H3 H4] H5] E1 E2 E3 E4 E5 E6. unfold keys in H5.
  split; [split|unfold keys]; rewrite ?E1, ?E2, ?E3, ?E4, ?E5, ?E6; done.
Qed.

Lemma map_Forall_proj `{Countable K} {A B} (f : A → B) (P : B → Prop) (m m' : gmap K A) :
  f <$> m' = f <$> m → map_Forall (λ _ a, P (f a)) m → map_Forall (λ _ a, P (f a)) m'.
Proof.
  intros E Hm k a Hk. apply (lookup_fmap_Some' f) in Hk. rewrite E, lookup_fmap, fmap_Some in Hk.
  destruct Hk as (a' & Ha & ->). by eapply Hm.
Qed.

Lemma links_ok_frame E r r' :
  links_ok E r → h_outputs <$> hybis r' = h_outputs <$> hybis r →
  so_outputs <$> socks r' = so_outputs <$> socks r → links_ok E r'.
Proof.
  intros [H1 H2 H3 H4 H5] E1 E2. split; rewrite ?E1, ?E2; try done.
  - by eapply (map_Forall_proj h_outputs (λ l, grouped (socket_of E <$> l))).
  - by eapply (map_Forall_proj so_outputs (λ l, grouped (conn_of E <$> l))).
Qed.

Lemma outputs_ok_frame r r' :
  outputs_ok r → outputs r' = outputs r → output_heap r' = output_heap r →
  h_outputs <$> hybis r' = h_outputs <$> hybis r →
  so_outputs <$> socks r' = so_outputs <$> socks r → outputs_ok r'.
Proof.
  intros [H1 H2 H3] E1 E2 E3 E4. split; rewrite ?E1, ?E2; try done. by eapply links_ok_frame.
Qed.

(** Connections keep what the backend layer looks at. *)
Definition core (hy : hybi) : hybi :=
  hy <| h_subscribers := [] |> <| h_outputs := [] |> <| h_conn := None |> <| h_comet := None |>.

Lemma frames_core hy hy' msg data : core hy' = core hy → frames hy' msg data = frames hy msg data.
Proof. intros E. destruct hy, hy'. injection E as -> -> -> -> -> ->. done. Qed.

Lemma core_lookup r r' h hy' :
  core <$> hybis r' = core <$> hybis r → hybis r' !! h = Some hy' →
  ∃ hy, hybis r !! h = Some hy ∧ core hy' = core hy.
Proof.
  intros E Hh. apply (lookup_fmap_Some' core) in Hh. rewrite E, lookup_fmap, fmap_Some in Hh.
  destruct Hh as (hy & ? & ?). eauto.
Qed.

(** The bodies of the requests that wait to be sent. *)
Definition same_bodies r r' : Prop := ∀ q b req,
  bmsgs r !! q = Some b → b_msg b = PRequest req →
  rq_body <$> requests r' !! req = rq_body <$> requests r !! req.

Lemma same_bodies_eq r r' : requests r' = requests r → same_bodies r r'.
Proof. intros E q b req _ _. by rewrite E. Qed.

Lemma payload_core r r' hy hy' q b :
  same_bodies r r' → core hy' = core hy → bmsgs r !! q = Some b →
  payload_of r' hy' (b_msg b) = payload_of r hy (b_msg b).
Proof.
  intros Hq E Hb. specialize (Hq q b). unfold payload_of.
  assert (h_type hy' = h_type hy) as -> by by apply (f_equal h_type) in E.
  destruct (b_msg b); try done. destruct (h_type hy); [done|]. by apply Hq.
Qed.

Lemma backend_ok_frame act r r' :
  backend_ok act r → bmsgs r' = bmsgs r → so_queue <$> socks r' = so_queue <$> socks r →
  backend_arena r' = backend_arena r → hybi_heap r' = hybi_heap r →
  core <$> hybis r' = core <$> hybis r → same_bodies r r' →
  backend_ok act r' ∧ ∀ s, pending r' s = pending r s.
Proof.
  intros [H1 H2 H3 H4 H5 H6 H7 H8 H9] E1 E2 E3 E4 E5 E6.
  assert (Ed : dom (hybis r') = dom (hybis r)).
  { by rewrite <- (dom_fmap_L core), E5, dom_fmap_L. }
  assert (Ei : sock_items <$> socks r' = sock_items <$> socks r).
  { unfold sock_items. change (λ so, q_items (so_queue so)) with (q_items ∘ so_queue).
    by rewrite !map_fmap_compose, E2. }
  split; [split; rewrite ?E1, ?E3, ?E4, ?Ed, ?Ei; try done|].
  - by apply (map_Forall_proj so_queue (λ q, size q = Z.of_nat (length (q_items q))) (socks r)).
  - intros h hy Hh. destruct (core_lookup _ _ _ _ E5 Hh) as (hy0 & Hh0 & Ec).
    apply (f_equal h_refcnt) in Ec. simpl in Ec. rewrite Ec. apply (H6 _ _ Hh0).
  - intros q b Hq. destruct (H8 _ _ Hq) as (hy & Hh & Hp).
    assert (core <$> hybis r' !! b_hybi b = Some (core hy)) as Hh'.
    { by rewrite <- lookup_fmap, E5, lookup_fmap, Hh. }
    apply fmap_Some in Hh' as (hy' & Hh' & Ec). exists hy'. split; [done|].
    by rewrite (payload_core r r' hy hy' q b).
  - unfold backlog. by rewrite E3.
  - intros s. assert (Es : sock_items <$> (socks r' !! s) = sock_items <$> (socks r !! s)).
    { by rewrite <- !lookup_fmap, Ei. }
    unfold pending. destruct (socks r' !! s), (socks r !! s); try done. injection Es as ->.
    apply list_fmap_ext. intros i q _. rewrite E1. destruct (bmsgs r !! q) as [b|] eqn:Hq; [|done].
    unfold msg_frames.
    assert (Eh : core <$> hybis r' !! b_hybi b = core <$> hybis r !! b_hybi b)
      by by rewrite <- !lookup_fmap, E5.
    destruct (hybis r' !! b_hybi b), (hybis r !! b_hybi b); try done. apply (inj Some) in Eh as Ec.
    rewrite (payload_core r r' h0 _ q b) by done. by apply frames_core.
Qed.

Lemma sieve_ok_frame act r r' :
  sieve_ok act r → hsieve r' = hsieve r → instance_id r' = instance_id r →
  (∀ h, h ∈ act → h_uid <$> hybis r' !! h = h_uid <$> hybis r !! h) → sieve_ok act r'.
Proof.
  intros [H1 H2 H3 H4] E1 E2 E3. split; rewrite ?E1, ?E2; try done.
  intros i h Hi. destruct (H4 i h Hi) as (hy & ix & tl & Hh & Hu & Ht).
  assert (Hact : h ∈ act) by (apply H3; eauto). specialize (E3 h Hact). rewrite Hh in E3.
  destruct (hybis r' !! h) as [hy'|] eqn:Hh'; [|done]. injection E3 as E3.
  exists hy', ix, tl. rewrite E3. done.
Qed.
End frames.

(** ** Lemmas: subscriptions of a closing connection *)
Section stop_subscriptions.
Context `{Malloc}.
Implicit Types (r : root).

Lemma wp_stop_subscription r e s :
  topics_ok r → subs r !! e = Some s →
  wp (stop_subscription e) (λ _ r', topics_ok r' ∧ subs r' = delete e (subs r) ∧
    keys r' ⊆ keys r) r.
Proof.
  intros [Hok Htab] He. destruct (subs_ok_lookup _ _ _ _ Hok He) as (t & hy & Ht & _ & Hhy & _).
  unfold stop_subscription. root_steps.
  eapply wp_remove_from_client; [done..|]. root_steps.
  eapply wp_remove_from_topic; [done..|]. root_steps.
  eapply wp_get_topic; [apply lookup_insert_eq|]. root_steps.
  destruct (topic_has_table r _ _ Htab Ht) as (rt & tbl & Hrt & Htbl). simpl in Hrt. root_steps.
  match goal with |- wp _ _ ?r' => set (r1 := r') end.
  set (t1 := t <| t_subscribers ::= unlink e |>).
  assert (Hok1 : subs_ok (delete e (subs r)) r1).
  { eapply (subs_ok_delete _ r); [done..| | |apply Hok]; simpl; by rewrite fmap_insert. }
  assert (keys r1 = keys r) as Hk1 by by apply (keys_same r (s_topic s) t).
  assert (Htab1 : tables_of r1).
  { unfold tables_of. rewrite Hk1. by eapply tables_ok_update. }
  assert (Ht1 : topics r1 !! s_topic s = Some t1) by apply lookup_insert_eq.
  eapply wp_mono; [apply (wp_free_if_empty _ r1 (s_topic s) t1 Hok1); [apply delete_subseteq|done..]|].
  intros _ r2 (Hok2 & Htab2 & Hs2 & _ & Hk2). simpl in Hs2.
  eapply wp_free_subscriber; [apply Hok2|by rewrite Hs2|]. intros ar Har.
  destruct Hok2 as [J1 J2 J3 J4]. split_and!; [|simpl; by rewrite Hs2|].
  - split; [split|]; simpl; rewrite ?Hs2 in *; done.
  - change (keys r2 ⊆ keys r). rewrite Hk2, Hk1. destruct (t_subscribers t1); [|done].
    apply delete_subseteq.
Qed.

Lemma keeps_stop_subscription e : keeps untouched (stop_subscription e).
Proof.
  pose proof keeps_untouched_hybi as H1. pose proof keeps_untouched_table as H2.
  pose proof (λ a, keeps_free_topic a) as H3.
  unfold stop_subscription, remove_from_client, remove_from_topic, free_subscriber.
  repeat (first [apply H1|apply H2|apply H3|keeps_step]).
Qed.

Lemma wp_stop_subscriptions r l :
  topics_ok r → NoDup l → (∀ e, e ∈ l → is_Some (subs r !! e)) →
  wp (mfor l stop_subscription) (λ _ r', topics_ok r' ∧ subs r' = without l (subs r) ∧
    keys r' ⊆ keys r ∧ untouched r' = untouched r) r.
Proof.
  intros Hok Hnd Hl.
  apply (wp_mfor (λ l' r', ∃ v, l = v ++ l' ∧ topics_ok r' ∧ subs r' = without v (subs r) ∧
    keys r' ⊆ keys r ∧ untouched r' = untouched r)).
  - exists []. rewrite without_nil. done.
  - intros e l' r' (v & Hv & Hok' & Hs & Hk & Hu).
    assert (He : ∃ s, subs r' !! e = Some s).
    { destruct (Hl e) as [s Hse]; [rewrite Hv; set_solver|]. exists s.
      rewrite Hs, lookup_without. split; [done|]. rewrite Hv in Hnd.
      apply NoDup_app in Hnd as (_ & Hx & _). intros Hin. eapply Hx; [done|by left]. }
    destruct He as [s He].
    eapply wp_mono; [apply (wp_keeps untouched); [apply keeps_stop_subscription|
      by eapply wp_stop_subscription]|].
    intros _ r2 [(Hok2 & Hs2 & Hk2) Hu2]. exists (v ++ [e]).
    split_and!; [by rewrite <- app_assoc|done| |by etrans|by rewrite Hu2].
    by rewrite Hs2, Hs, without_snoc.
  - intros r' (v & Hv & Hok' & Hs & Hk & Hu). rewrite app_nil_r in Hv. by subst v.
Qed.

(** Subscriptions survive as long as they stay in the list. *)
Lemma subscribed_without r r' l c rid name :
  topics_ok r' → subs r' = without l (subs r) → keys r' ⊆ keys r →
  subscribed r' c rid name ↔ ∃ e a, subs r !! e = Some (mk_subscriber a c) ∧ (e ∉ l) ∧ named r rid name a.
Proof.
  intros Hok Hs Hk. unfold subscribed. rewrite Hs. setoid_rewrite lookup_without. split.
  - intros (e & a & [He Hn] & Ha). exists e, a. split_and!; [done..|]. by eapply lookup_weaken.
  - intros (e & a & He & Hn & Ha). exists e, a. split; [done|].
    destruct (linked_key r' c a Hok) as [k Hka]; [exists e; rewrite Hs, lookup_without; done|].
    unfold named in *. by rewrite (lookup_weaken _ _ _ _ Hka Hk) in Ha; simplify_eq.
Qed.
End stop_subscriptions.

(** ** Lemmas: mappings of a closing connection *)
Section stop_outputs.
Context `{LogLevel, Malloc, Env}.
Hypothesis Hzmq : zmq_laws.
Implicit Types (r : root).

(** What backend_send does to the layers above. *)
Lemma fmap_via `{Countable K} {A B C} (f : A → C) (g : A → B) (m m' : gmap K A) :
  (∀ a a', g a = g a' → f a = f a') → g <$> m' = g <$> m → f <$> m' = f <$> m.
Proof.
  intros Hfg E. apply map_eq. intros k. rewrite !lookup_fmap.
  assert (Hk : g <$> m' !! k = g <$> m !! k) by by rewrite <- !lookup_fmap, E.
  destruct (m' !! k), (m !! k); try done. simpl in *. f_equal. apply Hfg. congruence.
Qed.

Lemma ident_subscribers a a' : ident a = ident a' → h_subscribers a = h_subscribers a'.
Proof. by intros [=]. Qed.
Lemma ident_outputs a a' : ident a = ident a' → h_outputs a = h_outputs a'.
Proof. by intros [=]. Qed.
Lemma ident_uid a a' : ident a = ident a' → h_uid a = h_uid a'.
Proof. by intros [=]. Qed.

(** A connection whose list of mappings ends here is told once per socket. *)
Record sent_frame r r' : Prop := {
  sf_off : off_backend r' = off_backend r;
  sf_conns : conns r' = conns r;
  sf_dom : dom (socks r') = dom (socks r);
}.

Lemma sent_frame_topics r r' : sent_frame r r' → topics_ok r → topics_ok r'.
Proof.
  intros [Ho Hc _] Hok. unfold off_backend in Ho. injection Ho as ? ? ? ? ? ? ? ? ? ? ? ? ? ? ?.
  apply (topics_ok_frame r); try done. by eapply fmap_via; [apply ident_subscribers|].
Qed.

Lemma sent_frame_outputs r r' : sent_frame r r' → outputs_ok r → outputs_ok r'.
Proof.
  intros [Ho Hc _] Hok. unfold off_backend in Ho. injection Ho as ? ? ? ? ? ? ? ? ? ? ? ? ? ? ?.
  apply (outputs_ok_frame r); try done. by eapply fmap_via; [apply ident_outputs|].
Qed.

Lemma sent_frame_sieve act r r' : sent_frame r r' → sieve_ok act r → sieve_ok act r'.
Proof.
  intros [Ho Hc _] Hok. unfold off_backend in Ho. injection Ho as ? ? ? ? ? ? ? ? ? ? ? ? ? ? ?.
  apply (sieve_ok_frame act r); try done. intros h _. rewrite <- !lookup_fmap.
  f_equal. by eapply fmap_via; [apply ident_uid|].
Qed.

Definition shape (hy : hybi) : hybi := (ident hy) <| h_outputs := [] |>.

(** What closing the mappings leaves alone. *)
(** The queued messages that refer to a request. *)
Definition is_request (msg : payload) : bool := match msg with PRequest _ => true | _ => false end.
Definition posted (ms : gmap nat backend_msg) : gmap nat backend_msg :=
  filter (λ p : nat * backend_msg, is_request (b_msg p.2) = true) ms.

Lemma posted_insert ms q b :
  q ∉ dom ms → is_request (b_msg b) = false → posted (<[q := b]> ms) = posted ms.
Proof.
  intros Hq Hb. unfold posted. apply map_filter_insert_not'; simpl; [by rewrite Hb|].
  intros b' Hb'. by apply not_elem_of_dom in Hq; rewrite Hq in Hb'.
Qed.

Definition quiet0 r :=
  ((instance_id r, paused r, hsieve r), (request_sieve r, requests r), (topic_heap r, topics r),
   (sub_arena r, subs r), (frontend_arena r, fmsgs r), routes r,
   shape <$> hybis r, dom (socks r)).

Definition quiet r := (quiet0 r, posted (bmsgs r)).

Lemma quiet_hybi r h hy hy' :
  hybis r !! h = Some hy → shape hy' = shape hy →
  quiet (r <| hybis := <[h := hy']> (hybis r) |>) = quiet r.
Proof. intros Hh E. unfold quiet, quiet0. simpl. by erewrite fmap_insert_same. Qed.

Lemma quiet_sock r s so so' :
  socks r !! s = Some so → quiet (r <| socks := <[s := so']> (socks r) |>) = quiet r.
Proof. intros Hs. unfold quiet, quiet0. simpl. by rewrite dom_insert_lookup_L. Qed.

Lemma keeps_sock_queue {T} (f : root → T) {A} s (m : M pooled_queue A) :
  (∀ r a so q, socks r !! s = Some so →
     f (r <| backend_arena := a |> <| socks := <[s := so <| so_queue := q |>]> (socks r) |>) = f r) →
  keeps f (on_sock_queue s m).
Proof.
  intros Hf r a r'. unfold on_sock_queue. destruct (socks r !! s) as [so|] eqn:Hs; [|done].
  destruct (m _); [|done..]. intros [= _ <-]. by apply Hf.
Qed.

Lemma keeps_backend_send {T} (f : root → T) s h msg force :
  (∀ r s p m res, f (r <| trace ::= λ t, t ++ [ZmqSend s p m res] |>) = f r) →
  (∀ r a so q, socks r !! s = Some so →
     f (r <| backend_arena := a |> <| socks := <[s := so <| so_queue := q |>]> (socks r) |>) = f r) →
  (∀ r hy n, hybis r !! h = Some hy → f (r <| hybis := <[h := hy <| h_refcnt := n |>]> (hybis r) |>) = f r) →
  (∀ r st, f (r <| stat := st |>) = f r) → (∀ r m, f (r <| bmsgs := m |>) = f r) →
  keeps f (backend_send s h msg force).
Proof.
  intros H2 H3 H4 H5 H6.
  assert (∀ s h msg, keeps f (backend_send_real s h msg)) as J1
    by (intros; by apply keeps_backend_send_real).
  assert (∀ b, keeps f (SNIMPL b)) as J2 by (intros; unfold SNIMPL; solve_keeps).
  assert (∀ n, keeps f (send_direct n s h msg)) as J3.
  { induction n as [|n IH]; simpl; [solve_keeps|].
    repeat (first [apply J1|apply J2|apply IH|keeps_step]). }
  unfold backend_send, backend_enqueue, hybi_INCREF.
  repeat (first [apply J3|apply keeps_sock_queue; by auto
    |apply keeps_set_hybi; intros r hy ?; by apply (H4 r hy (u32 (h_refcnt hy + 1)))
    |apply keeps_count; intros; apply H5|apply keeps_modify; intros; apply H6|keeps_step]).
Qed.

Lemma keeps_quiet_send s h msg force : keeps quiet0 (backend_send s h msg force).
Proof.
  apply keeps_backend_send; try done.
  - intros r a so q Hs. unfold quiet0. simpl. by rewrite dom_insert_lookup_L.
  - intros r hy n Hh. unfold quiet0. simpl. by erewrite fmap_insert_same.
Qed.

(** Other sockets do not notice. *)
Lemma keeps_other_sock s s' h msg force :
  s' ≠ s → keeps (λ r, socks r !! s') (backend_send s h msg force).
Proof.
  intros Hne. apply keeps_backend_send; try done.
  intros r a so q _. simpl. by rewrite lookup_insert_ne.
Qed.

Lemma wp_bind3 {A B C D} (a : MR A) (b : MR B) (c : MR C) (k : MR D) Q r :
  wp (a;; b;; c) (λ _, wp k Q) r → wp (a;; b;; c;; k) Q r.
Proof.
  unfold wp, mbind, M_bind. destruct (a r) as [? r1| | |]; [|done..].
  destruct (b r1) as [? r2| | |]; [|done..]. by destruct (c r2).
Qed.

(** The queue of the socket is at its limit. *)
Definition full r (s : sock_id) : Prop :=
  ∃ so, socks r !! s = Some so ∧ (capacity (so_queue so) ≤ size (so_queue so))%Z.

(** The backend behind [s] is told, unless its queue is full or memory for the
    message is refused. *)
Definition told r r' (s : sock_id) (fs : list bytes) : Prop :=
  stream r' s = stream r s ++ [fs] ∨ stream r' s = stream r s ∧ (full r s ∨ no_memory r').

Lemma no_memory_later r r' : no_memory r → backlog r ≤ backlog r' → no_memory r'.
Proof. intros (h & n & ? & ?) Hle. exists h, n. split; [done|lia]. Qed.

Lemma told_later r r1 r' s fs :
  told r r1 s fs → stream r' s = stream r1 s → backlog r1 ≤ backlog r' → told r r' s fs.
Proof.
  unfold told. intros [?|[? [?|?]]] -> Hle; [by left|right; split; [done|by left]|right; split; [done|right]].
  by eapply no_memory_later.
Qed.

Lemma wp_tell act r s h hy :
  backend_ok act r → between r → s ∈ dom (socks r) → hybis r !! h = Some hy →
  wp (backend_send s h MSG_DISCONNECT true) (λ _ r', backend_ok act r' ∧ between r' ∧
    sent_frame r r' ∧ quiet r' = quiet r ∧ (∀ s', s' ≠ s → socks r' !! s' = socks r !! s') ∧
    told r r' s (frames hy MSG_DISCONNECT []) ∧ (∀ s', s' ≠ s → stream r' s' = stream r s') ∧
    backlog r ≤ backlog r') r.
Proof.
  intros Hok Hb [so Hs]%elem_of_dom Hh.
  assert (Hoth : wp (backend_send s h MSG_DISCONNECT true) (λ _ r',
    ∀ s', s' ≠ s → socks r' !! s' = socks r !! s') r).
  { pose proof (wp_backend_send Hzmq act s so h hy MSG_DISCONNECT [] true r Hok Hb Hs Hh eq_refl)
      as (ok & r' & Hrun & _)%wp_Ok.
    apply wp_Ok. exists ok, r'. split; [done|]. intros s' Hne.
    by apply (keeps_other_sock s s' h MSG_DISCONNECT true Hne r ok r'). }
  pose proof (wp_conj _ _ _ _ Hoth (wp_keeps quiet0 _ _ _ (keeps_quiet_send s h MSG_DISCONNECT true)
    (wp_keeps off_backend _ _ _ (keeps_off_backend_send s h MSG_DISCONNECT true)
    (wp_backend_send Hzmq act s so h hy MSG_DISCONNECT [] true r Hok Hb Hs Hh eq_refl)))) as Hw.
  eapply wp_mono; [exact Hw|].
  intros ok r' (Ho & [[(Hok' & Hb' & Hc & Hd & Hf & H1q & Hmore & Hst) Hoff] Hq]).
  split_and!; [done..| |done| | |done].
  { unfold quiet. f_equal; [done|]. destruct H1q as [->|(q & Hqn & ->)]; [done|by apply posted_insert]. }
  - unfold told. rewrite Hst, decide_True by done. destruct ok; [by left|right].
    rewrite app_nil_r. split; [done|]. destruct (Hf eq_refl) as [_ [[_ ?]|?]]; [left; by exists so|by right].
  - intros s' Hne. rewrite Hst, decide_False by done. destruct ok; by rewrite app_nil_r.
Qed.

Lemma quiet_shape r r' h hy :
  quiet r' = quiet r → hybis r !! h = Some hy → ∃ hy', hybis r' !! h = Some hy' ∧ shape hy' = shape hy.
Proof.
  intros Hq Hh. unfold quiet, quiet0 in Hq. injection Hq as _ _ _ _ _ _ _ _ _ _ _ _ Hhs _ _.
  assert (Hk : shape <$> hybis r' !! h = Some (shape hy)) by by rewrite <- lookup_fmap, Hhs, lookup_fmap, Hh.
  apply fmap_Some in Hk as (hy' & ? & ?). eauto.
Qed.

Lemma frames_shape hy hy' : shape hy' = shape hy → frames hy' MSG_DISCONNECT [] = frames hy MSG_DISCONNECT [].
Proof. destruct hy, hy'. intros [= -> -> -> -> -> -> -> ->]. done. Qed.

(** The sockets that the mappings in [l] lead to. *)
Definition led E (l : list addr) (s : sock_id) : Prop := Some s ∈ socket_of E <$> l.

#[local] Instance led_dec E l s : Decision (led E l s) := decide_rel elem_of _ _.

(** One notice for each socket of [l]; the others hear nothing. *)
Definition notified r r' (P : sock_id → Prop) (fs : list bytes) : Prop :=
  ∀ s, (P s → told r r' s fs) ∧ (¬ P s → stream r' s = stream r s).

Definition same_queue r r' (s : sock_id) : Prop :=
  stream r' s = stream r s ∧ so_queue <$> socks r' !! s = so_queue <$> socks r !! s.

Lemma told_same r r1 r' s fs : same_queue r r1 s → told r1 r' s fs → told r r' s fs.
Proof.
  intros [E1 E2]. unfold told. rewrite E1. intros [?|[? [(so & Hs & Hq)|?]]]; [by left|right..]; [|tauto].
  split; [done|left]. rewrite Hs in E2. unfold full.
  destruct (socks r !! s) as [so0|]; [|done]. injection E2 as E2. exists so0. by rewrite <- E2.
Qed.

Lemma wp_drop_backend act r out o hy so (Q : unit → root → Prop) :
  backend_ok act r → between r → outputs_ok r → outputs r !! out = Some o →
  hybis r !! o_connection o = Some hy → socks r !! o_socket o = Some so →
  (∀ r', backend_ok act r' → between r' → outputs_ok r' → outputs r' = delete out (outputs r) →
     quiet r' = quiet r → (∀ s, same_queue r r' s) → backlog r' = backlog r →
     hybis r' !! o_connection o = Some (hy <| h_outputs ::= unlink out |>) → Q tt r') →
  wp (unlink_socket out;; unlink_client out;; free_output out) Q r.
Proof.
  intros Hok Hb Hout Ho Hhy Hs HQ. apply (wp_drop_output r out o hy so); [done..|].
  intros h' r' Hout'.
  assert (Hqs : so_queue <$> socks r' = so_queue <$> socks r) by (simpl; by erewrite fmap_insert_same).
  destruct (backend_ok_frame act r r' Hok) as [Hok' Hp]; [done|done|done|done| |done|].
  { simpl. by erewrite fmap_insert_same. }
  apply HQ; try done.
  - unfold r', quiet, quiet0. simpl. by erewrite dom_insert_lookup_L, fmap_insert_same.
  - intros s. split; [unfold stream; by rewrite Hp|]. by rewrite <- !lookup_fmap, Hqs.
  - apply lookup_insert_eq.
Qed.

Lemma led_cons E out o l s : E !! out = Some o → led E (out :: l) s ↔ s = o_socket o ∨ led E l s.
Proof.
  intros Ho. unfold led. rewrite fmap_cons, elem_of_cons. unfold socket_of at 1. rewrite Ho. simpl.
  split; (intros [?|?]; [left; congruence|by right]).
Qed.

Lemma led_delete E out l s : out ∉ l → led (delete out E) l s ↔ led E l s.
Proof.
  intros Hn. unfold led. replace (socket_of (delete out E) <$> l) with (socket_of E <$> l); [done|].
  apply list_fmap_ext. intros i e He. apply list_elem_of_lookup_2 in He.
  unfold socket_of. rewrite lookup_delete_ne; [done|]. set_solver.
Qed.

(** The next mapping of the list leads to another socket, so no later one comes
    back to this socket. *)
Lemma last_of_group E out o l :
  E !! out = Some o → grouped (socket_of E <$> out :: l) →
  match l with
  | [] => True
  | nxt :: _ => ∃ n, E !! nxt = Some n ∧ o_socket n ≠ o_socket o
  end → ¬ led E l (o_socket o).
Proof.
  intros Ho Hg Hl. destruct l as [|nxt l]; [intros []%elem_of_nil|]. destruct Hl as (n & Hn & Hne).
  intros Hin. apply list_elem_of_lookup_1 in Hin as [k Hk].
  assert (Hk' : (socket_of E <$> out :: nxt :: l) !! S k = Some (Some (o_socket o))) by done.
  specialize (Hg 0 1 (S k) (Some (o_socket o))). simpl in Hg.
  assert (Some (socket_of E nxt) = Some (Some (o_socket o))) as E1.
  { apply Hg; [lia| |done]. unfold socket_of. by rewrite Ho. }
  unfold socket_of in E1. rewrite Hn in E1. simpl in E1. congruence.
Qed.

(** What is left once the mappings [l] of connection [h] are gone. *)
Record cut act r r' (fs : list bytes) (l : list addr) : Prop := {
  cut_backend : backend_ok act r';
  cut_between : between r';
  cut_outputs : outputs_ok r';
  cut_left : outputs r' = without l (outputs r);
  cut_quiet : quiet r' = quiet r;
  cut_told : notified r r' (led (outputs r) l) fs;
  cut_more : backlog r ≤ backlog r';
}.

(** The first mapping goes, whether or not its socket was told just before. *)
Lemma wp_cut_first act r r1 h hy fs out l o (k : MR unit) :
  backend_ok act r1 → between r1 → outputs_ok r1 → outputs r1 = outputs r → quiet r1 = quiet r →
  outputs r !! out = Some o → o_connection o = h → hybis r1 !! h = Some hy →
  h_outputs hy = out :: l → NoDup (out :: l) → backlog r ≤ backlog r1 →
  (∀ s, s ≠ o_socket o → same_queue r r1 s) →
  (if decide (led (outputs r) l (o_socket o)) then same_queue r r1 (o_socket o)
   else told r r1 (o_socket o) fs) →
  (∀ r2 hy2, backend_ok act r2 → between r2 → outputs_ok r2 → outputs r2 = delete out (outputs r) →
     hybis r2 !! h = Some hy2 → shape hy2 = shape hy → h_outputs hy2 = l →
     wp k (λ _ r', cut act r2 r' fs l) r2) →
  wp (unlink_socket out;; unlink_client out;; free_output out;; k)
     (λ _ r', cut act r r' fs (out :: l)) r1.
Proof.
  intros Hok Hb Hout Eo Eq Ho Hc Hh Hl Hnd Hmore Hsame Htold Hk. apply wp_bind3.
  rewrite <- Eo in Ho. destruct (links_lookup _ _ _ _ (oo_links _ Hout) Ho) as (hy' & so & Hh' & _ & _ & Hs & _).
  apply (wp_drop_backend act r1 out o hy' so); [done..|].
  intros r2 Hok2 Hb2 Hout2 Eo2 Eq2 Hs2 Hmore2 Hh2. rewrite Hc in Hh2, Hh'. rewrite Hh in Hh'. injection Hh' as <-.
  apply NoDup_cons in Hnd as [Hn Hnd].
  eapply wp_mono; [eapply (Hk r2); [done..|by rewrite Eo2, Eo|done|done|]|].
  { simpl. rewrite Hl. by apply unlink_cons_eq. }
  intros _ r' [C1 C2 C3 C4 C5 C6 C7]. split; [done..| | | |lia].
  - by rewrite C4, Eo2, Eo, without_cons.
  - by rewrite C5, Eq2.
  - rewrite Eo2, Eo in C6. rewrite Eo in Ho. intros s. rewrite (led_cons _ _ _ _ _ Ho).
    destruct (C6 s) as [T1 T2]. rewrite led_delete in T1, T2 by done.
    assert (Hq2 : stream r2 s = stream r1 s) by apply Hs2.
    destruct (decide (s = o_socket o)) as [->|Hne].
    + split; [intros _|tauto]. case_decide as Hd.
      * apply (told_same r r1); [done|]. by apply (told_same r1 r2), T1.
      * apply (told_later r r1); [done|by rewrite (T2 Hd)|lia].
    + specialize (Hsame s Hne). split.
      * intros [?|Hd]; [done|]. apply (told_same r r1); [done|]. by apply (told_same r1 r2), T1.
      * intros Hno. destruct Hsame as [E1 _]. rewrite T2, Hq2 by tauto. done.
Qed.

Lemma wp_stop_outputs act r h hy l :
  backend_ok act r → between r → outputs_ok r → hybis r !! h = Some hy → h_outputs hy = l →
  wp (stop_outputs h l) (λ _ r', cut act r r' (frames hy MSG_DISCONNECT []) l) r.
Proof.
  revert r hy. induction l as [|out l IH]; intros r hy Hok Hb Hout Hh Hl; cbn [stop_outputs].
  { root_steps. split; [done..| |done| |done].
    - by rewrite without_nil.
    - intros s. split; [intros []%elem_of_nil|done]. }
  pose proof (oo_links _ Hout) as Hlk.
  assert (Hall : ∀ e, e ∈ out :: l → ∃ o, outputs r !! e = Some o ∧ o_connection o = h).
  { intros e He. eapply links_client; [done..|]. by rewrite Hl. }
  destruct (Hall out) as (o & Ho & Hc); [by left|].
  pose proof (oo_cgroup _ _ Hlk _ _ Hh) as Hg. simpl in Hg. rewrite Hl in Hg.
  assert (Hnd : NoDup (out :: l)).
  { rewrite <- Hl. eapply side_NoDup; [apply (oo_client _ _ Hlk)|]. by rewrite lookup_fmap, Hh. }
  destruct (links_lookup _ _ _ _ Hlk Ho) as (_ & so & _ & _ & _ & Hs & _).
  assert (Hrec : ∀ r2 hy2, backend_ok act r2 → between r2 → outputs_ok r2 →
     outputs r2 = delete out (outputs r) → hybis r2 !! h = Some hy2 → shape hy2 = shape hy →
     h_outputs hy2 = l →
     wp (stop_outputs h l) (λ _ r', cut act r2 r' (frames hy MSG_DISCONNECT []) l) r2).
  { intros r2 hy2 ? ? ? _ Hh2 Es Hl2. rewrite <- (frames_shape hy hy2) by done. by apply IH. }
  root_steps.
  apply (wp_mono _ (λ last r', r' = r ∧ last = negb (bool_decide (led (outputs r) l (o_socket o))))).
  { destruct l as [|nxt l].
    - root_steps. split; [done|]. by rewrite bool_decide_eq_false_2 by (intros []%elem_of_nil).
    - destruct (Hall nxt) as (n & Hn & _); [right; by left|]. root_steps. split; [done|].
      case_bool_decide as E.
      + rewrite bool_decide_eq_false_2; [done|]. apply (last_of_group _ out o _ Ho Hg). eauto.
      + rewrite bool_decide_eq_true_2; [done|]. apply (led_cons _ _ _ _ _ Hn). left.
        destruct (decide (o_socket n = o_socket o)); [done|by destruct E]. }
  intros last r1 [-> ->]. apply wp_bind. set (fs := frames hy MSG_DISCONNECT []) in *.
  case_bool_decide as Hd; simpl.
  - apply wp_ret. eapply (wp_cut_first act r r); try done. by rewrite decide_True by done.
  - apply wp_bind.
    eapply wp_mono; [apply (wp_tell act r (o_socket o) h hy Hok Hb); [by eapply elem_of_dom_2|done]|].
    intros _ r1 (Hok1 & Hb1 & Hf & Hq & Hos & Ht & Hst & Hmore). apply wp_ret.
    assert (∃ hy1, hybis r1 !! h = Some hy1 ∧ ident hy1 = ident hy) as (hy1 & Hh1 & Ei).
    { pose proof (sf_conns _ _ Hf) as Hcs. unfold conns in Hcs.
      assert (ident <$> hybis r1 !! h = Some (ident hy)) as (hy1 & ? & ?)%fmap_Some; [|by eauto].
      by rewrite <- lookup_fmap, Hcs, lookup_fmap, Hh. }
    assert (outputs r1 = outputs r) as Eo1.
    { pose proof (sf_off _ _ Hf) as Ho1. unfold off_backend in Ho1. by injection Ho1. }
    assert (shape hy1 = shape hy) as Es1 by (unfold shape; by rewrite Ei).
    eapply (wp_cut_first act r r1 h hy1); try done.
    + by eapply sent_frame_outputs.
    + rewrite <- Hl. by apply ident_outputs.
    + intros s Hne. split; [by apply Hst|by rewrite Hos].
    + by rewrite decide_False.
    + intros r2 hy2 ? ? ? ? ? Es2 ?. apply (Hrec r2 hy2); try done. congruence.
Qed.
End stop_outputs.

(** ** Lemmas: forgetting a connection *)
Section forget.
Implicit Types (r : root).

(** Nothing is on the lists of [h]. *)
Record idle r (h : addr) : Prop := {
  id_subs : ∀ e s, subs r !! e = Some s → s_connection s ≠ h;
  id_outs : ∀ e o, outputs r !! e = Some o → o_connection o ≠ h;
}.

Lemma fmap_dropped {A} (f : hybi → A) r h hs :
  (∀ hy n, f (hy <| h_refcnt := n |>) = f hy) → dropped r h hs →
  f <$> hs = f <$> hybis r ∨ f <$> hs = delete h (f <$> hybis r).
Proof.
  intros Hf (hy & Hh & [[-> _]|[-> _]]); [left|right].
  - erewrite fmap_insert_same; [done..|]. apply Hf.
  - by rewrite fmap_delete.
Qed.

Lemma side_dropped {B} (p : B → addr) (f : hybi → list nat) (E : gmap nat B) r h hs :
  (∀ hy n, f (hy <| h_refcnt := n |>) = f hy) → dropped r h hs →
  (∀ e b, E !! e = Some b → p b ≠ h) →
  side_ok (p <$> E) (f <$> hybis r) → side_ok (p <$> E) (f <$> hs).
Proof.
  intros Hf Hd Hi Hok. destruct (fmap_dropped f r h hs Hf Hd) as [->| ->]; [done|].
  destruct Hd as (hy & Hh & _). apply side_del; [done|].
  rewrite lookup_fmap, Hh. simpl. f_equal.
  destruct (f hy) as [|e l] eqn:El; [done|exfalso].
  assert (He : (p <$> E) !! e = Some h).
  { eapply side_elem; [done|by apply lookup_fmap_Some'|]. rewrite El. by left. }
  rewrite lookup_fmap, fmap_Some in He. destruct He as (b & Hb & ->). by eapply Hi.
Qed.

Lemma topics_ok_dropped r h hs hp :
  topics_ok r → idle r h → dropped r h hs →
  topics_ok (r <| hybi_heap := hp |> <| hybis := hs |>).
Proof.
  intros [[H1 H2 H3 H4] H5] [Hs _] Hd. split; [split|]; try done. simpl. by eapply side_dropped.
Qed.

Lemma outputs_ok_dropped r h hs hp :
  outputs_ok r → idle r h → dropped r h hs →
  outputs_ok (r <| hybi_heap := hp |> <| hybis := hs |>).
Proof.
  intros [[H1 H2 H3 H4 H5] H6 H7] [_ Ho] Hd. split; [split|..]; try done; simpl.
  - by eapply side_dropped.
  - intros c hy' Hc. destruct (dropped_lookup _ _ _ _ _ Hd Hc) as (hy & n & Hh & ->). exact (H3 c hy Hh).
Qed.

Lemma sieve_ok_dropped act r h hs hp :
  sieve_ok act r → h ∉ act → dropped r h hs → sieve_ok act (r <| hybi_heap := hp |> <| hybis := hs |>).
Proof.
  intros Hok Hn Hd. apply (sieve_ok_frame act r); try done.
  intros h' Hh'. simpl. assert (Hne : h' ≠ h) by congruence.
  destruct Hd as (hy & _ & [[-> _]|[-> _]]); [by rewrite lookup_insert_ne|by rewrite lookup_delete_ne].
Qed.

(** The reference for being open goes last. *)
Lemma backend_ok_close act r h hs hp :
  backend_ok act r → h ∈ act → dropped r h hs → heap_wf hp → dom hs ⊆ live hp →
  let r' := r <| hybi_heap := hp |> <| hybis := hs |> in
  backend_ok (act ∖ {[h]}) r' ∧ ∀ s, pending r' s = pending r s.
Proof.
  intros Hok Hact Hd Hhp Hlv r'. pose proof Hok as [H1 H2 H3 H4 H5 H6 H7 H8 H9].
  assert (Hconn : ∀ q b, bmsgs r !! q = Some b → same_conn r r' (b_hybi b)).
  { intros q b Hq. destruct (H8 _ _ Hq) as (hy & Hh & _). pose proof (refs_pos _ _ _ Hq) as Hr.
    destruct (decide (b_hybi b = h)) as [E|Hne]; [|exists hy, (h_refcnt hy); split; [done|]].
    - destruct Hd as (hy0 & Hh0 & [[-> _]|[_ Hz]]).
      + exists hy0, (h_refcnt hy0 - 1)%Z. rewrite E. split; [done|]. simpl. by rewrite lookup_insert_eq.
      + exfalso. destruct (H6 _ _ Hh0) as [Hc _]. rewrite decide_True in Hc by done. rewrite E in Hr. lia.
    - assert (hs !! b_hybi b = hybis r !! b_hybi b) as E.
      { destruct Hd as (? & _ & [[-> _]|[-> _]]); [by rewrite lookup_insert_ne|by rewrite lookup_delete_ne]. }
      simpl. rewrite E, Hh. by destruct hy. }
  split; [split; try done|].
  - intros h' hy' Hh'. simpl in Hh'. destruct Hd as (hy & Hh & Hd).
    destruct (H6 _ _ Hh) as [Hc _]. rewrite decide_True in Hc by done.
    destruct (decide (h' = h)) as [->|Hne].
    + destruct Hd as [[-> Hpos]|[-> _]]; [|by rewrite lookup_delete_eq in Hh'].
      rewrite lookup_insert_eq in Hh'. injection Hh' as <-. simpl.
      rewrite decide_False by set_solver. lia.
    + assert (hybis r !! h' = Some hy') as Hold.
      { destruct Hd as [[-> _]|[-> _]];
          [by rewrite lookup_insert_ne in Hh'|by rewrite lookup_delete_ne in Hh']. }
      destruct (H6 _ _ Hold) as [Hr Hpos]. split; [|done]. rewrite Hr. simpl.
      destruct (decide (h' ∈ act)); [rewrite decide_True by set_solver|rewrite decide_False by set_solver]; done.
  - intros h' Hh'. apply elem_of_difference in Hh' as [Ha Hne%not_elem_of_singleton].
    apply H7, elem_of_dom in Ha as [hy' Ha]. apply elem_of_dom. exists hy'. simpl.
    destruct Hd as (hy & _ & [[-> _]|[-> _]]); [by rewrite lookup_insert_ne|by rewrite lookup_delete_ne].
  - intros q b Hq. destruct (Hconn _ _ Hq) as (hy & n & E1 & E2). exists (hy <| h_refcnt := n |>).
    split; [done|]. rewrite (payload_same r) by done. destruct (H8 _ _ Hq) as (hy' & E3 & ?). congruence.
  - intros s. destruct (socks r !! s) as [so|] eqn:Hs; [|unfold pending; simpl; by rewrite Hs].
    by rewrite (pending_same act r r' s so so [] Hok Hs) by eauto.
Qed.
End forget.

(** ** Lemmas: closing *)
Section closing.
Context `{LogLevel, Malloc, Env}.
Hypothesis Hzmq : zmq_laws.
Implicit Types (r : root).

(** A connection apart from its counter and its lists. *)
Definition bare (hy : hybi) : hybi := (shape hy) <| h_subscribers := [] |>.

(** What only polling and the http side look at. *)
Definition aside r :=
  (fmsgs r, frontend_arena r, requests r, request_sieve r,
   static_route <$> routes r, posted (bmsgs r)).

Definition calm r := (instance_id r, hsieve r, bare <$> hybis r, dom (socks r), aside r).

Lemma calm_quiet r r' : quiet r' = quiet r → calm r' = calm r.
Proof.
  intros Hq. unfold quiet, quiet0 in Hq. injection Hq as E1 _ E2 E5 E6 _ _ _ _ E7 E8 E9 E3 E4 E10.
  unfold calm, aside. rewrite E1, E2, E4, E5, E6, E7, E8, E9, E10. do 3 f_equal. eapply fmap_via; [|exact E3].
  intros a a' E. unfold bare. by rewrite E.
Qed.

Lemma calm_untouched r r' : untouched r' = untouched r → calm r' = calm r.
Proof.
  intros Hq. unfold untouched in Hq.
  injection Hq as _ E1 _ E2 _ E5 E6 E3 _ _ _ E10 E7 E8 E9 E4.
  unfold calm, aside. rewrite E1, E2, E4, E5, E6, E7, E8, E9, E10. do 3 f_equal. eapply fmap_via; [|exact E3].
  intros a a' E. destruct a, a'. unfold bare, shape, ident. injection E as. by subst.
Qed.

Lemma calm_bare r r' h hy :
  calm r' = calm r → hybis r !! h = Some hy → ∃ hy', hybis r' !! h = Some hy' ∧ bare hy' = bare hy.
Proof.
  intros Hq Hh. unfold calm in Hq. injection Hq as _ _ Hhs _ _.
  assert (Hk : bare <$> hybis r' !! h = Some (bare hy)) by by rewrite <- lookup_fmap, Hhs, lookup_fmap, Hh.
  apply fmap_Some in Hk as (hy' & ? & ?). eauto.
Qed.

Lemma frames_bare hy hy' : bare hy' = bare hy → frames hy' MSG_DISCONNECT [] = frames hy MSG_DISCONNECT [].
Proof. destruct hy, hy'. intros [= -> -> -> -> -> -> ->]. done. Qed.

Lemma sieve_ok_calm act r r' : calm r' = calm r → sieve_ok act r → sieve_ok act r'.
Proof.
  intros E Hok. unfold calm in E. injection E as E1 E2 E3 _ _. apply (sieve_ok_frame act r); [done..|].
  intros h _. rewrite <- !lookup_fmap. f_equal. eapply fmap_via; [|exact E3].
  intros a a' Eb. destruct a, a'. by injection Eb.
Qed.

(** The layers that a closing connection is taken out of, one by one. *)
Record layers act r : Prop := {
  ly_backend : backend_ok act r;
  ly_between : between r;
  ly_topics : topics_ok r;
  ly_outputs : outputs_ok r;
}.

Lemma layers_tell act r s h hy :
  layers act r → s ∈ dom (socks r) → hybis r !! h = Some hy →
  wp (backend_send s h MSG_DISCONNECT true) (λ _ r', layers act r' ∧ calm r' = calm r ∧
    subs r' = subs r ∧ keys r' = keys r ∧ outputs r' = outputs r ∧
    (∀ s', s' ≠ s → same_queue r r' s') ∧ told r r' s (frames hy MSG_DISCONNECT []) ∧
    backlog r ≤ backlog r') r.
Proof.
  intros [H1' H2' H3 H4] Hs Hh. eapply wp_mono; [by apply (wp_tell Hzmq act)|].
  intros _ r' (Hok & Hb & Hf & Hq & Hos & Ht & Hst & Hmore).
  pose proof (sf_off _ _ Hf) as Ho. unfold off_backend in Ho. injection Ho as ? ? ? ? ? ? E1 ? E2 ? E3 ? ? ? ?.
  split_and!; [|by apply calm_quiet|done|unfold keys; by rewrite E1|done| |done|done].
  - split; [done..| |]; [by eapply sent_frame_topics|by eapply sent_frame_outputs].
  - intros s' Hne. split; [by apply Hst|by rewrite Hos].
Qed.

Lemma layers_unsubscribe act r h hy :
  layers act r → hybis r !! h = Some hy →
  wp (mfor (h_subscribers hy) stop_subscription) (λ _ r', layers act r' ∧ calm r' = calm r ∧
    subs r' = without (h_subscribers hy) (subs r) ∧ keys r' ⊆ keys r ∧ outputs r' = outputs r ∧
    (∀ s, same_queue r r' s) ∧ backlog r' = backlog r) r.
Proof.
  intros [H1' H2' H3 H4] Hh. pose proof (so_client _ _ (tk_subs _ H3)) as Hside.
  assert (Hls : (h_subscribers <$> hybis r) !! h = Some (h_subscribers hy)) by by apply lookup_fmap_Some'.
  eapply wp_mono; [apply wp_stop_subscriptions; [done|by eapply side_NoDup|]|].
  { intros e He. apply (side_elem _ _ _ _ _ Hside Hls) in He.
    rewrite lookup_fmap, fmap_Some in He. destruct He as (s & Hs & _). eauto. }
  intros _ r' (Ht & Hs & Hk & Hu). pose proof (calm_untouched _ _ Hu) as Hc.
  unfold untouched in Hu. injection Hu as Etr _ _ _ E1 _ E2 E3 E4 E5 E6 E7 _ _ _ E8.
  assert (Hcore : core <$> hybis r' = core <$> hybis r).
  { eapply fmap_via; [|exact E3]. intros a a' E. exact (f_equal (λ x : hybi, x <| h_outputs := [] |> <| h_conn := None |> <| h_comet := None |>) E). }
  destruct (backend_ok_frame act r r' H1') as [Hok Hp]; try done;
    [by rewrite E8|by apply same_bodies_eq|].
  split_and!; [|done|done|done|done| |].
  - split; [done| |done|].
    + intros s. unfold between in H2'. by rewrite Etr.
    + apply (outputs_ok_frame r); try done; [|by rewrite E8].
      eapply fmap_via; [|exact E3]. intros a a' E. by apply (f_equal h_outputs) in E.
  - intros s. split; [unfold stream; by rewrite Hp, Etr|by rewrite E8].
  - unfold backlog. congruence.
Qed.

Lemma layers_stop_outputs act r h hy :
  layers act r → hybis r !! h = Some hy →
  wp (stop_outputs h (h_outputs hy)) (λ _ r', layers act r' ∧ calm r' = calm r ∧
    subs r' = subs r ∧ keys r' = keys r ∧ outputs r' = without (h_outputs hy) (outputs r) ∧
    notified r r' (λ s, ∃ p, mapped (outputs r) h p s) (frames hy MSG_DISCONNECT []) ∧
    backlog r ≤ backlog r') r.
Proof.
  intros [H1' H2' H3 H4] Hh. pose proof (oo_links _ H4) as Hlk.
  eapply wp_mono; [by apply (wp_stop_outputs Hzmq act r h hy (h_outputs hy))|].
  intros _ r' [C1 C2 C3 C4 C5 C6 C7]. pose proof (calm_quiet _ _ C5) as Hc.
  unfold quiet, quiet0 in C5. injection C5 as _ _ _ _ _ E1 E2 E3 E4 _ _ E5 E6 _ _.
  split_and!; [|done|done|unfold keys; by rewrite E2|done| |done].
  - split; [done| | |done]; [done|]. apply (topics_ok_frame r); try done.
    eapply fmap_via; [|exact E6]. intros a a' E. by apply (f_equal h_subscribers) in E.
  - intros s. destruct (C6 s) as [T1 T2].
    assert (Hled : led (outputs r) (h_outputs hy) s ↔ ∃ p, mapped (outputs r) h p s).
    { unfold led. rewrite list_elem_of_fmap. unfold mapped, socket_of. split.
      - intros (e & Hs & He). apply (links_client _ _ _ _ _ Hlk Hh) in He as (o & Ho & Hc').
        rewrite Ho in Hs. exists (o_prefix o), e. destruct o; simpl in *. congruence.
      - intros (p & e & He). exists e. rewrite He. split; [done|].
        apply (links_client _ _ _ _ _ Hlk Hh). eauto. }
    rewrite <- Hled. done.
Qed.

(** What is different once [h] is closed. *)
Record gone r r' (h : addr) (hy : hybi) : Prop := {
  cl_subs : ∀ c rid name, subscribed r' c rid name ↔ subscribed r c rid name ∧ c ≠ h;
  cl_outs : ∀ c p s, mapped (outputs r') c p s ↔ mapped (outputs r) c p s ∧ c ≠ h;
  cl_told : notified r r' (λ s, s = Forward (h_route hy) ∨ ∃ p, mapped (outputs r) h p s)
                     (frames hy MSG_DISCONNECT []);
  cl_conns : ∀ c, c ≠ h → bare <$> hybis r' !! c = bare <$> hybis r !! c;
  cl_nodes : ∀ e s, subs r' !! e = Some s ↔ subs r !! e = Some s ∧ s_connection s ≠ h;
  cl_fixed : dom (socks r') = dom (socks r) ∧ static_route <$> routes r' = static_route <$> routes r;
}.

Record closed r r' (h : addr) (hy : hybi) : Prop := {
  cl_gone : gone r r' h hy;
  cl_aside : aside r' = aside r ∧ instance_id r' = instance_id r ∧ dom (socks r') = dom (socks r);
}.

Lemma without_subs act r h hy e s :
  layers act r → hybis r !! h = Some hy →
  without (h_subscribers hy) (subs r) !! e = Some s ↔ subs r !! e = Some s ∧ s_connection s ≠ h.
Proof.
  intros Hl Hh. pose proof (so_client _ _ (tk_subs _ (ly_topics _ _ Hl))) as Hside.
  assert (Hls : (h_subscribers <$> hybis r) !! h = Some (h_subscribers hy)) by by apply lookup_fmap_Some'.
  rewrite lookup_without. split; intros [He Hn]; (split; [done|]); intros Hc; apply Hn;
    apply (side_elem _ _ _ _ _ Hside Hls) || apply (side_elem _ _ _ _ _ Hside Hls) in Hc;
    rewrite lookup_fmap, He in *; simpl in *; congruence.
Qed.

Lemma without_outs act r h hy e o :
  layers act r → hybis r !! h = Some hy →
  without (h_outputs hy) (outputs r) !! e = Some o ↔ outputs r !! e = Some o ∧ o_connection o ≠ h.
Proof.
  intros Hl Hh. pose proof (oo_links _ (ly_outputs _ _ Hl)) as Hlk.
  rewrite lookup_without, (links_client _ _ _ _ e Hlk Hh).
  split; intros [He Hn]; (split; [done|]); [intros Hc; apply Hn; eauto|].
  intros (o' & He' & Hc). congruence.
Qed.

(** Everything of [h] is gone from the lists, and everyone was told. *)
Record detached act r r' (h : addr) (hy : hybi) : Prop := {
  dt_layers : layers act r';
  dt_calm : calm r' = calm r;
  dt_keys : keys r' ⊆ keys r;
  dt_subs : ∀ e s, subs r' !! e = Some s ↔ subs r !! e = Some s ∧ s_connection s ≠ h;
  dt_outs : ∀ e o, outputs r' !! e = Some o ↔ outputs r !! e = Some o ∧ o_connection o ≠ h;
  dt_told : notified r r' (λ s, s = Forward (h_route hy) ∨ ∃ p, mapped (outputs r) h p s)
                     (frames hy MSG_DISCONNECT []);
}.

Lemma wp_detach act r h hy (k : MR unit) (Q : unit → root → Prop) :
  layers act r → hybis r !! h = Some hy → Forward (h_route hy) ∈ dom (socks r) →
  (∀ e o, outputs r !! e = Some o → ∃ rid i, o_socket o = Named rid i) →
  (∀ r', detached act r r' h hy → wp k Q r') →
  wp (backend_send (Forward (h_route hy)) h MSG_DISCONNECT true;;
      hy ← get_hybi h;
      mfor (h_subscribers hy) stop_subscription;;
      hy ← get_hybi h;
      stop_outputs h (h_outputs hy);; k) Q r.
Proof.
  intros Hl1 Hh Hdom Hknd HQ. apply wp_bind.
  eapply wp_mono; [by apply (layers_tell act r _ h hy Hl1)|].
  intros _ r2 (Hl2 & Hc2 & Hs2 & Hk2 & Ho2 & Hq2 & Ht2 & Hm2).
  destruct (calm_bare _ _ h hy Hc2 Hh) as (hy2 & Hh2 & Eb2). root_steps.
  eapply wp_mono; [by apply (layers_unsubscribe act r2 h hy2)|].
  intros _ r3 (Hl3 & Hc3 & Hs3 & Hk3 & Ho3 & Hq3 & Hm3).
  destruct (calm_bare _ _ h hy2 Hc3 Hh2) as (hy3 & Hh3 & Eb3). root_steps.
  eapply wp_mono; [by apply (layers_stop_outputs act r3 h hy3)|].
  intros _ r4 (Hl4 & Hc4 & Hs4 & Hk4 & Ho4 & Ht4 & Hm4). apply HQ. split; [done|congruence|..].
  - rewrite Hk4, <- Hk2. done.
  - intros e s. rewrite Hs4, Hs3, (without_subs _ _ _ _ _ _ Hl2 Hh2). by rewrite Hs2.
  - intros e o. rewrite Ho4, (without_outs _ _ _ _ _ _ Hl3 Hh3). by rewrite Ho3, Ho2.
  - rewrite (frames_bare hy hy3) in Ht4 by congruence. rewrite Ho3, Ho2 in Ht4.
    intros s. destruct (Ht4 s) as [T1 T2]. destruct (Hq3 s) as [Est3 _].
    destruct (decide (s = Forward (h_route hy))) as [->|Hne].
    + assert (Hno : ¬ ∃ p, mapped (outputs r) h p (Forward (h_route hy))).
      { intros (p & e & He). by destruct (Hknd _ _ He) as (? & ? & ?). }
      split; [|tauto]. intros _. apply (told_later r r2); [done|by rewrite (T2 Hno)|lia].
    + destruct (Hq2 s Hne) as [Est2 _]. split.
      * intros [?|Hm]; [done|]. apply (told_same r r2), (told_same r2 r3); auto.
      * intros Hno. rewrite T2, Est3, Est2; tauto.
Qed.

Lemma holes_uniq act r i j h :
  sieve_ok act r → holes (hsieve r) !! i = Some h → holes (hsieve r) !! j = Some h → i = j.
Proof.
  intros [Hwf Hiid _ Hu] Hi Hj.
  destruct (Hu _ _ Hi) as (hy & ix & t & Hh & Ha & Ht). destruct (Hu _ _ Hj) as (hy' & ix' & t' & Hh' & Ha' & Ht').
  rewrite Hh in Hh'. injection Hh' as <-. rewrite Ha in Ha'.
  pose proof (holes_lt _ _ _ Hwf Hi). pose proof (holes_lt _ _ _ Hwf Hj). pose proof (wf_max _ Hwf).
  apply (f_equal (λ u, le_value (take 8 (drop IID_LEN u)))) in Ha'.
  rewrite !uid_hole_field in Ha' by (done || lia). lia.
Qed.

Lemma sieve_ok_delete act r i h sv :
  sieve_ok act r → holes (hsieve r) !! i = Some h → sieve_wf sv → holes sv = delete i (holes (hsieve r)) →
  sieve_ok (act ∖ {[h]}) (r <| hsieve := sv |>).
Proof.
  intros Hok Hi Hwf Hho. pose proof Hok as [_ H2' H3 H4]. split; [done|done|..]; simpl; rewrite Hho.
  - intros h'. rewrite elem_of_difference, not_elem_of_singleton, H3. split.
    + intros [[j Hj] Hne]. exists j. rewrite lookup_delete_ne; [done|]. intros ->. congruence.
    + intros [j [Hne Hj]%lookup_delete_Some]. split; [by exists j|]. intros ->.
      apply Hne. by eapply holes_uniq.
  - intros j h' [_ Hj]%lookup_delete_Some. by apply H4.
Qed.

Lemma subscribed_detached r r' h c rid name :
  topics_ok r' → keys r' ⊆ keys r →
  (∀ e s, subs r' !! e = Some s ↔ subs r !! e = Some s ∧ s_connection s ≠ h) →
  subscribed r' c rid name ↔ subscribed r c rid name ∧ c ≠ h.
Proof.
  intros Hok Hk Hs. unfold subscribed. split.
  - intros (e & a & [He Hc]%Hs & Ha). split; [|done]. exists e, a. split; [done|]. by eapply lookup_weaken.
  - intros ((e & a & He & Ha) & Hc). exists e, a.
    assert (He' : subs r' !! e = Some (mk_subscriber a c)) by by apply Hs.
    split; [done|]. destruct (linked_key r' c a Hok) as [k Hka]; [by exists e|].
    unfold named in *. by rewrite (lookup_weaken _ _ _ _ Hka Hk) in Ha; simplify_eq.
Qed.

(** The last reference to an open connection that is on no list any more. *)
Lemma detached_close act r r1 r4 h hy i sv hs hp :
  server_ok act r → holes (hsieve r) !! i = Some h → sieve_wf sv →
  holes sv = delete i (holes (hsieve r)) → r1 = r <| hsieve := sv |> →
  detached act r1 r4 h hy → dropped r4 h hs → heap_wf hp → dom hs ⊆ live hp →
  let r5 := r4 <| hybi_heap := hp |> <| hybis := hs |> in
  server_ok (act ∖ {[h]}) r5 ∧ closed r r5 h hy.
Proof.
  intros [Hsv Hbk Hbt Htp Hou Hsub Hout Hknd Hrt] Hi Hwf' Hho -> [Hl4 Hc4 Hk4 Hs4 Ho4 Ht4] Hd Hhp Hlv r5.
  set (r1 := r <| hsieve := sv |>) in *.
  assert (Hact : h ∈ act) by (apply (sv_act _ _ Hsv); eauto).
  pose proof (ly_backend _ _ Hl4) as Hbk4.
  destruct (backend_ok_close act r4 h hs hp Hbk4 Hact Hd Hhp Hlv) as [Hbk5 Hp5].
  assert (Hidle : idle r4 h) by (split; intros e x [_ ?]%(Hs4 e) || intros e x [_ ?]%(Ho4 e); done).
  assert (Htp5 : topics_ok r5) by (apply (topics_ok_dropped r4 h); [apply Hl4|done..]).
  split; [split|split; [split|]].
  - apply (sieve_ok_dropped _ r4 h); [|set_solver|done].
    apply (sieve_ok_calm _ r1); [done|]. by apply (sieve_ok_delete act r i h).
  - done.
  - exact (ly_between _ _ Hl4).
  - done.
  - apply (outputs_ok_dropped r4 h); [apply Hl4|done..].
  - intros e s [He ?]%Hs4. apply Hsub in He. set_solver.
  - intros e o [He ?]%Ho4. apply Hout in He. set_solver.
  - intros e o [He ?]%Ho4. by eapply Hknd.
  - intros h' hy' Hh'. destruct (dropped_lookup _ _ _ _ _ Hd Hh') as (hy5 & n & Hh5 & ->).
    destruct (calm_bare r4 r1 h' hy5 (eq_sym Hc4) Hh5) as (hy1 & Hh1 & Eb).
    unfold calm in Hc4. injection Hc4 as _ _ _ Hdm _. simpl. rewrite Hdm.
    apply (f_equal h_route) in Eb. simpl in Eb. rewrite <- Eb. by apply (Hrt h').
  - intros c rid name. by apply (subscribed_detached r1 r5).
  - intros c p s. unfold mapped. split.
    + intros [e [He ?]%Ho4]. eauto.
    + intros [[e He] ?]. exists e. by apply Ho4.
  - intros s. destruct (Ht4 s) as [T1 T2].
    assert (Hst : stream r5 s = stream r4 s) by (unfold stream; by rewrite Hp5).
    split; [|by rewrite Hst]. intros Hs. by apply (told_later r r4); [apply T1|..].
  - intros c Hc. unfold calm in Hc4. injection Hc4 as _ _ Hcs _ _.
    assert (hs !! c = hybis r4 !! c) as E.
    { destruct Hd as (? & _ & [[-> _]|[-> _]]); [by rewrite lookup_insert_ne|by rewrite lookup_delete_ne]. }
    simpl. rewrite E, <- !lookup_fmap, Hcs. done.
  - exact Hs4.
  - split; [exact (f_equal (λ p, p.1.2) Hc4)|exact (f_equal (λ p, p.2.1.2) Hc4)].
  - split_and!; [exact (f_equal snd Hc4)| |].
    + exact (f_equal (λ p, p.1.1.1.1) Hc4).
    + exact (f_equal (λ p, p.1.2) Hc4).
Qed.

Lemma wp_hybi_stop act r h hy :
  server_ok act r → h ∈ act → hybis r !! h = Some hy →
  wp (hybi_stop h) (λ _ r', server_ok (act ∖ {[h]}) r' ∧ closed r r' h hy) r.
Proof.
  intros Hok Hact Hh. pose proof Hok as [Hsv Hbk Hbt Htp Hou Hsub Hout Hknd Hrt].
  pose proof Hsv as [Hwf Hiid Hac Huid].
  destruct (proj1 (Hac h) Hact) as [i Hi].
  destruct (Huid i h Hi) as (hy0 & ix & tl & Hh0 & Hu & Htl). rewrite Hh in Hh0. injection Hh0 as <-.
  pose proof (holes_lt _ _ _ Hwf Hi). pose proof (wf_max _ Hwf).
  unfold hybi_stop. root_steps. rewrite Hu. apply wp_UID_HOLE; [done|done|lia|]. unfold on_hsieve. root_steps.
  eapply wp_mono; [by apply (wp_sieve_empty _ i h)|]. intros _ sv (Hwf' & Hho & _ & Hmx & _).
  set (r1 := r <| hsieve := sv |>).
  assert (Hl1 : layers act r1).
  { split; [|done|by destruct Htp as [[] ?]; split; [split|]|by destruct Hou as [[] ? ?]; split; [split|..]].
    by destruct Hbk; split. }
  apply (wp_detach act r1 h hy); [done|done|by apply (Hrt h)|done|].
  intros r4 Hdt. pose proof Hdt as [Hl4 Hc4 _ _ _ _].
  destruct (calm_bare _ _ h hy Hc4 Hh) as (hy4 & Hh4 & Eb4).
  pose proof (ly_backend _ _ Hl4) as Hbk4.
  pose proof (refcnt_bound _ _ _ _ Hbk4 Hh4).
  apply (wp_hybi_DECREF h hy4); [done|apply Hbk4|apply Hbk4|lia|].
  intros hp hs Hd Hhp Hlv. by apply (detached_close act r r1 r4 h hy i sv hs hp).
Qed.
End closing.

(** ** Lemmas: opening *)
Section opening.
Context `{LogLevel, Malloc, Env}.
Hypothesis Hzmq : zmq_laws.
Implicit Types (r : root).

Lemma server_ok_sent act r r' :
  server_ok act r → sent_frame r r' → backend_ok act r' → between r' → server_ok act r'.
Proof.
  intros [] Hf Hok Hb. pose proof (sf_off _ _ Hf) as Ho. unfold off_backend in Ho.
  injection Ho as ? ? ? ? ? ? ? ? E1 ? E2 ? ? ? ?.
  split; rewrite ?E1, ?E2; try done.
  - by eapply sent_frame_sieve.
  - by eapply sent_frame_topics.
  - by eapply sent_frame_outputs.
  - intros h hy Hh. rewrite (sf_dom _ _ Hf).
    assert (Hi : ident <$> hybis r !! h = Some (ident hy)).
    { pose proof (sf_conns _ _ Hf) as Hc. unfold conns in Hc.
      by rewrite <- lookup_fmap, <- Hc, lookup_fmap, Hh. }
    apply fmap_Some in Hi as (hy0 & Hh0 & Ei). apply (f_equal h_route) in Ei. simpl in Ei.
    rewrite Ei. by eapply sr_route0.
Qed.

Lemma server_ok_heap act r hp :
  server_ok act r → heap_wf hp → dom (hybis r) ⊆ live hp → server_ok act (r <| hybi_heap := hp |>).
Proof.
  intros [[] [] ? [[] ?] [[] ? ?] ? ? ? ?] Hhp Hlv.
  split; [split|split|done|split; [split|]|split; [split| |]|..]; done.
Qed.

(** A new connection [h] in cell [i]. *)
Lemma server_ok_open act r h i hy ix tl sv :
  server_ok act r → hybis r !! h = None → h ∈ live (hybi_heap r) → h_refcnt hy = 1%Z →
  h_subscribers hy = [] → h_outputs hy = [] → Forward (h_route hy) ∈ dom (socks r) →
  h_uid hy = uid_of (instance_id r) i ix tl → length tl = UID_NRANDOM →
  sieve_wf sv → holes (hsieve r) !! i = None → holes sv = <[i := h]> (holes (hsieve r)) →
  server_ok ({[h]} ∪ act) (r <| hsieve := sv |> <| hybis := <[h := hy]> (hybis r) |>).
Proof.
  intros [Hsv Hbk Hbt Htp Hou Hsub Hout Hknd Hrt] Hn Hlv Hrc Hs0 Ho0 Hsk Hu Htl Hwf Hi Hho.
  assert (Hna : h ∉ act).
  { intros Ha. apply (bo_act _ _ Hbk), elem_of_dom in Ha as [? ?]. congruence. }
  split; simpl; try done.
  - destruct Hsv as [_ V1 V2 V3]. split; [done|done|..]; simpl; rewrite Hho.
    + intros h'. rewrite elem_of_union, elem_of_singleton, V2. split.
      * intros [->|[j Hj]]; [exists i; apply lookup_insert_eq|]. exists j.
        rewrite lookup_insert_ne; [done|congruence].
      * intros [j [[_ ->]|[_ Hj]]%lookup_insert_Some]; [by left|right; eauto].
    + intros j h' [[<- <-]|[_ Hj]]%lookup_insert_Some.
      { exists hy, ix, tl. by rewrite lookup_insert_eq. }
      destruct (V3 _ _ Hj) as (hy' & ix' & tl' & Hh' & ?). exists hy', ix', tl'.
      rewrite lookup_insert_ne; [done|congruence].
  - pose proof Hbk as [B1 B2 B3 B4 B5 B6 B7 B8 B9].
    assert (Hr0 : refs (bmsgs r) h = 0).
    { unfold refs. apply map_size_empty_iff. apply map_empty_filter. intros q b Hq Hb. simpl in Hb.
      destruct (B8 _ _ Hq) as (? & ? & _). congruence. }
    split; simpl; try done.
    + rewrite dom_insert. set_solver.
    + intros h' hy' [[<- <-]|[Hne Hh']]%lookup_insert_Some.
      { rewrite decide_True by set_solver. lia. }
      destruct (B6 _ _ Hh') as [-> ?]. split; [|done].
      destruct (decide (h' ∈ act)); [rewrite decide_True by set_solver|rewrite decide_False by set_solver]; done.
    + rewrite dom_insert. set_solver.
    + intros q b Hq. destruct (B8 _ _ Hq) as (hy' & Hh' & ?). exists hy'.
      rewrite lookup_insert_ne; [done|congruence].
  - destruct Htp as [[T1 T2 T3 T4] T5]. split; [split|]; simpl; try done.
    rewrite fmap_insert, Hs0. apply side_new; [done|]. by rewrite lookup_fmap, Hn.
  - destruct Hou as [[O1 O2 O3 O4 O5] O6 O7]. split; [split|..]; simpl; try done.
    + rewrite fmap_insert, Ho0. apply side_new; [done|]. by rewrite lookup_fmap, Hn.
    + apply map_Forall_insert_2; [|done]. rewrite Ho0. apply grouped_nil.
  - intros e s He. apply Hsub in He. set_solver.
  - intros e o He. apply Hout in He. set_solver.
  - intros h' hy' [[<- <-]|[_ Hh']]%lookup_insert_Some; [done|by eapply Hrt].
Qed.

(** Forgetting a connection that has nothing on its lists. *)
Lemma server_ok_forget act r h i sv hs hp :
  server_ok act r → holes (hsieve r) !! i = Some h → sieve_wf sv →
  holes sv = delete i (holes (hsieve r)) → idle r h → dropped r h hs → heap_wf hp → dom hs ⊆ live hp →
  let r' := r <| hsieve := sv |> <| hybi_heap := hp |> <| hybis := hs |> in
  server_ok (act ∖ {[h]}) r' ∧ ∀ s, stream r' s = stream r s.
Proof.
  intros [Hsv Hbk Hbt Htp Hou Hsub Hout Hknd Hrt] Hi Hwf Hho Hid Hd Hhp Hlv r'.
  assert (Hact : h ∈ act) by (apply (sv_act _ _ Hsv); eauto).
  set (r1 := r <| hsieve := sv |>).
  assert (Hbk1 : backend_ok act r1) by by destruct Hbk; split.
  assert (Hd1 : dropped r1 h hs) by done.
  destruct (backend_ok_close act r1 h hs hp Hbk1 Hact Hd1 Hhp Hlv) as [Hbk5 Hp5].
  split; [|intros s; unfold stream; f_equal; apply Hp5]. split; try done.
  - apply (sieve_ok_dropped _ r1 h); [|set_solver|done]. by apply (sieve_ok_delete act r i h).
  - destruct (topics_ok_dropped r h hs hp Htp Hid Hd) as [[] ?]. split; [split|]; done.
  - destruct (outputs_ok_dropped r h hs hp Hou Hid Hd) as [[] ? ?]. split; [split|..]; done.
  - intros e s He. pose proof (id_subs _ _ Hid _ _ He). apply Hsub in He. set_solver.
  - intros e o He. pose proof (id_outs _ _ Hid _ _ He). apply Hout in He. set_solver.
  - intros h' hy' Hh'. destruct (dropped_lookup _ _ _ _ _ Hd Hh') as (hy5 & n & Hh5 & ->). exact (Hrt h' hy5 Hh5).
Qed.

(** What opening [h] changes. *)
Record opened (act : gset nat) r r' (h : addr) (ty : hybi_enum) (rid : route_id) (uid : bytes) : Prop := {
  op_new : h ∉ dom (hybis r);
  op_conns : conns r' = <[h := ident (new_hybi ty uid rid)]> (conns r);
  op_uid : ∀ h' hy', h' ∈ act → hybis r !! h' = Some hy' → h_uid hy' ≠ uid;
  op_subs : subs r' = subs r ∧ keys r' = keys r;
  op_outs : outputs r' = outputs r;
  op_told : ∀ s, stream r' s = stream r s ++
    (if decide (s = Forward rid) then [[uid; str "connect"]] else []);
  op_posted : posted (bmsgs r') = posted (bmsgs r);
}.

(** A connection that was refused leaves nothing behind. *)
Record refused r r' : Prop := {
  rf_hybis : hybis r' = hybis r;
  rf_subs : subs r' = subs r ∧ keys r' = keys r;
  rf_outs : outputs r' = outputs r;
  rf_told : ∀ s, stream r' s = stream r s;
  rf_posted : posted (bmsgs r') = posted (bmsgs r);
}.

Lemma uid_taken act r i h hy uid ix tl :
  sieve_ok act r → holes (hsieve r) !! i = None → (Z.of_nat i < 2 ^ 64)%Z →
  h ∈ act → hybis r !! h = Some hy → uid = uid_of (instance_id r) i ix tl → h_uid hy ≠ uid.
Proof.
  intros [V0 V1 V2 V3] Hi Hlt Hh Hhy -> Hu. apply V2 in Hh as [j Hj].
  destruct (V3 _ _ Hj) as (hy' & ix' & tl' & Hhy' & Hu' & _). simplify_eq.
  rewrite Hu in Hu'. pose proof (holes_lt _ _ _ V0 Hj). pose proof (wf_max _ V0).
  apply (f_equal (λ u, le_value (take 8 (drop IID_LEN u)))) in Hu'.
  rewrite !uid_hole_field in Hu' by (done || lia). assert (i = j) as -> by lia. congruence.
Qed.

(** The backend hears of the connection, or the connection is undone. *)
Lemma wp_announce act r h ty rid uid i :
  server_ok ({[h]} ∪ act) r → h ∉ act → hybis r !! h = Some (new_hybi ty uid rid) →
  holes (hsieve r) !! i = Some h → idle r h →
  wp (sent ← backend_send (Forward rid) h MSG_CONNECT false;
      if sent : bool then mret (Some h)
      else
        hole ← UID_HOLE uid;
        on_hsieve (sieve_empty hole);;
        on_hybi_heap (free h);;
        modify (λ r, r <| hybis ::= delete h |>);;
        mret None)
     (λ o r', subs r' = subs r ∧ keys r' = keys r ∧ outputs r' = outputs r ∧
        posted (bmsgs r') = posted (bmsgs r) ∧
        match o with
        | Some h' => h' = h ∧ server_ok ({[h]} ∪ act) r' ∧ conns r' = conns r ∧
            ∀ s, stream r' s = stream r s ++
              (if decide (s = Forward rid) then [[uid; str "connect"]] else [])
        | None => server_ok act r' ∧ hybis r' = delete h (hybis r) ∧
            (∀ s, stream r' s = stream r s) ∧ no_memory r'
        end) r.
Proof.
  intros Hok Hna Hh Hi Hid. pose proof Hok as [Hsv Hbk Hbt _ _ _ _ _ Hrt].
  pose proof (Hrt _ _ Hh) as [so Hs]%elem_of_dom. simpl in Hs.
  apply wp_bind. eapply wp_mono; [apply (wp_keeps off_backend); [apply keeps_off_backend_send|]|].
  { by apply (wp_backend_send Hzmq ({[h]} ∪ act) (Forward rid) so h (new_hybi ty uid rid) MSG_CONNECT [] false r). }
  intros sent r1 [(Hok1 & Hbt1 & Hc1 & Hd1 & Hf1 & Hq1 & _ & Hst1) Hoff].
  assert (Hok1' : server_ok ({[h]} ∪ act) r1) by (by eapply server_ok_sent).
  unfold off_backend in Hoff. injection Hoff as Eiid _ Esv _ _ _ Etp _ Esb _ Eou _ _ _ _.
  assert (Ek : keys r1 = keys r) by (unfold keys; by rewrite Etp).
  assert (Epo : posted (bmsgs r1) = posted (bmsgs r)).
  { destruct Hq1 as [->|(q & Hqn & ->)]; [done|by apply posted_insert]. }
  destruct sent; root_steps; [split_and!; done|].
  destruct (Hf1 eq_refl) as [Eh [[? _]|Hoom]]; [done|].
  assert (Hi1 : holes (hsieve r1) !! i = Some h) by by rewrite Esv.
  destruct (sr_sieve _ _ Hok1') as [Hwf Hiid _ Huid].
  destruct (Huid _ _ Hi1) as (hy & ix & tl & Hh1 & Hu & Htl). rewrite Eh, Hh in Hh1. injection Hh1 as <-.
  simpl in Hu. rewrite Hu. pose proof (holes_lt _ _ _ Hwf Hi1). pose proof (wf_max _ Hwf).
  apply wp_UID_HOLE; [done|done|lia|]. unfold on_hsieve. root_steps.
  eapply wp_mono; [by apply (wp_sieve_empty _ i h)|]. intros _ sv (Hwf' & Hho & _). unfold on_hybi_heap. root_steps.
  assert (Hlv : h ∈ live (hybi_heap r1)).
  { apply (bo_live _ _ Hok1), elem_of_dom. rewrite Eh. eauto. }
  apply wp_free; [apply Hok1|done|]. intros hp Hhp _ Hl. root_steps.
  destruct (server_ok_forget ({[h]} ∪ act) r1 h i sv (delete h (hybis r1)) hp) as [Hok2 Hst2]; try done.
  { destruct Hid as [I1 I2]. split; rewrite ?Esb, ?Eou; done. }
  { exists (new_hybi ty uid rid). rewrite Eh. split; [done|by right]. }
  { rewrite dom_delete, Hl. pose proof (bo_live _ _ Hok1). clear Hzmq. set_solver. }
  replace (({[h]} ∪ act) ∖ {[h]}) with act in Hok2 by (apply leibniz_equiv; clear Hzmq; set_solver).
  split_and!; [done..|by simpl; rewrite Eh| |done].
  intros s. by rewrite Hst2, Hst1, app_nil_r.
Qed.

Lemma wp_hybi_start act r rid ty urandom :
  server_ok act r → Forward rid ∈ dom (socks r) → (ty = HYBI_COMET → random_ok urandom) →
  wp (hybi_start rid ty urandom) (λ o r', match o with
    | Some h => server_ok ({[h]} ∪ act) r' ∧ ∃ uid, opened act r r' h ty rid uid
    | None => server_ok act r' ∧ refused r r' ∧ (sieve_full (hsieve r) = true ∨ out_of_memory ∨ no_memory r')
    end) r.
Proof.
  intros Hok Hsk Hur. pose proof Hok as [Hsv Hbk Hbt Htp Hou Hsub Hout Hknd Hrt].
  pose proof Hsv as [Hwf Hiid _ _]. unfold hybi_start, on_hybi_heap, on_hsieve. root_steps.
  apply wp_malloc; [apply Hbk| |].
  2:{ intros hp Hhp _ Hl Hf. root_steps. split_and!; [|done|right; left; by do 2 eexists].
      apply server_ok_heap; [done..|]. rewrite Hl. apply Hbk. }
  intros hp Hhp Hfr _ Hl. root_steps. set (h := brk (hybi_heap r)) in *.
  assert (Hnh : h ∉ dom (hybis r)) by (intros Hd; apply Hfr; by apply Hbk).
  pose proof (proj1 (not_elem_of_dom (hybis r) h) Hnh) as Hn.
  assert (Hna : h ∉ act) by (intros Ha; by apply Hnh, (bo_act _ _ Hbk)).
  set (r1 := r <| hybi_heap := hp |>).
  assert (Hok1 : server_ok act r1).
  { apply server_ok_heap; [done..|]. rewrite Hl. pose proof (bo_live _ _ Hbk). clear Hzmq. set_solver. }
  eapply wp_mono; [apply wp_make_hole_uid; [done|by rewrite length_replicate|by intros ?%bool_decide_eq_true_1; auto|done]|].
  intros [uid [|]] sv [Hwfs Hsp]; cbn [negb]; root_steps.
  2:{ destruct Hsp as [-> Hfull]. apply wp_free; [done|simpl; rewrite Hl; clear Hzmq; set_solver|].
      intros hp' Hhp' _ Hl'. root_steps. split_and!; [|done|by left].
      apply (server_ok_heap act r1 hp'); [done|done|].
      simpl in *. rewrite Hl', Hl. pose proof (bo_live _ _ Hbk). clear Hzmq. set_solver. }
  destruct Hsp as (i & tl & Hu & Htl & Hsp). destruct Hsp as (_ & _ & [Hlt [Hhi _]] & Hho & _ & _).
  set (r2 := r1 <| hsieve := sv |> <| hybis := <[h := new_hybi ty uid rid]> (hybis r1) |>).
  assert (Hok2 : server_ok ({[h]} ∪ act) r2).
  { apply (server_ok_open act r1 h i _ (index (hsieve r)) tl); try done.
    simpl. rewrite Hl. clear Hzmq. set_solver. }
  assert (Hid : idle r2 h).
  { split; intros e x He Hc; [apply Hsub in He|apply Hout in He]; congruence. }
  apply wp_bind_inv. eapply wp_mono; [apply (wp_announce act r2 h ty rid uid i Hok2 Hna)|].
  { apply lookup_insert_eq. } { simpl. rewrite Hho. apply lookup_insert_eq. } { done. }
  assert (Hst : ∀ s, stream r2 s = stream r s).
  { intros s. unfold stream. f_equal.
    destruct (socks r !! s) as [so|] eqn:Hs; [|unfold pending; simpl; by rewrite Hs].
    rewrite (pending_same act r r2 s so so []); try done.
    intros q b _ Hq. split; [done|]. destruct (bo_msg _ _ Hbk _ _ Hq) as (hy & Hh & _).
    exists hy, (h_refcnt hy). split; [done|]. simpl. rewrite lookup_insert_ne by congruence.
    rewrite Hh. by destruct hy. }
  intros o r3 (E1 & E2 & E3 & E4 & Ho). destruct o as [h'|].
  - destruct Ho as (-> & Hok3 & Hc3 & Hst3). split; [done|]. exists uid. split; try done.
    + rewrite Hc3. unfold conns. simpl. by rewrite fmap_insert.
    + intros h' hy' Hh' Hhy'. eapply (uid_taken act r i h'); try done. pose proof (wf_max _ Hwf). simpl in Hlt. lia.
    + intros s. by rewrite Hst3, Hst.
  - destruct Ho as (Hok3 & Hh3 & Hst3 & Hoom). split_and!; [done| |by right; right]. split; try done.
    + rewrite Hh3. simpl. rewrite delete_insert_eq, delete_id; done.
    + intros s. by rewrite Hst3, Hst.
Qed.
End opening.

(** ** Lemmas: looking up *)
Section finding.
Context `{LogLevel, Malloc, Env}.
Implicit Types (r : root).

Lemma wp_hybi_find act r data :
  server_ok act r → length data = UID_LEN →
  le_value (take 8 (drop IID_LEN data)) ≠ Z.of_nat (max (hsieve r)) →
  wp (hybi_find data) (λ o r', r' = r ∧ ∀ h, o = Some h ↔
    h ∈ act ∧ h_uid <$> hybis r !! h = Some data) r.
Proof.
  intros Hok Hlen Hmax. destruct (sr_sieve _ _ Hok) as [Hwf Hiid Hact Huid].
  unfold hybi_find, on_hsieve, UID_HOLE. rewrite decide_True by uid_lia. root_steps.
  eapply wp_mono; [apply wp_sieve_get; [done|apply le_value_bound|done]|].
  intros o s' [-> Ho]. replace (r <| hsieve := hsieve r |>) with r by by destruct r.
  set (n := le_value _) in *.
  assert (Hlive : ∀ h, h ∈ act → h_uid <$> hybis r !! h = Some data → o = Some h).
  { intros h Ha Hd. apply Hact in Ha as [i Hi].
    destruct (Huid _ _ Hi) as (hy & ix & t & Hh & Hu & Ht). rewrite Hh in Hd. injection Hd as Hd.
    pose proof (holes_lt _ _ _ Hwf Hi). pose proof (wf_max _ Hwf).
    unfold n in Ho. rewrite <- Hd, Hu, uid_hole_field, Nat2Z.id, Hi in Ho by (done || lia). done. }
  destruct o as [b|]; root_steps.
  - symmetry in Ho. destruct (Huid _ _ Ho) as (hy & ix & t & Hh & Hu & Ht).
    pose proof (length_uid_of _ Hiid (Z.to_nat n) ix t Ht) as Hul.
    root_steps. unfold UID_EQ. rewrite Hu, decide_True by uid_lia. root_steps.
    split; [done|]. intros h. rewrite (take_ge (uid_of _ _ _ _)), (take_ge data) by uid_lia.
    case_bool_decide as Heq.
    + split; [intros [= <-]|intros [? ?]; by apply Hlive].
      split; [apply Hact; eauto|]. rewrite Hh. simpl. congruence.
    + split; [done|]. intros [Ha Hd]. specialize (Hlive h Ha Hd). simplify_eq.
      rewrite Hh in Hd. injection Hd. congruence.
  - split; [done|]. intros h. split; [done|]. intros [? ?]. by apply Hlive.
Qed.
End finding.

(** ** Properties *)

(** A server with one route, no connections and room for one. *)
Definition example_server : root :=
  empty_root <| instance_id := replicate 16 "A"%char |> <| hsieve := mk_sieve 0 1 0 0 [None] |>
             <| routes := {[0 := plain_route 4 10]} |>
             <| socks := {[Forward 0 := mk_sock (mk_queue 0 2 []) []]} |>.

Lemma example_server_ok : server_ok ∅ example_server.
Proof.
  assert (Hno : ∀ (f : sock → list nat) (E : gmap nat sock_id), E = ∅ → f (mk_sock (mk_queue 0 2 []) []) = [] →
    side_ok E (f <$> socks example_server)).
  { intros f E -> Hf. simpl. rewrite map_fmap_singleton, Hf. split; intros k x; [by rewrite lookup_empty|].
    rewrite lookup_singleton_Some. intros [<- <-]. split; [constructor|set_solver]. }
  assert (Hnil : ∀ K (c : EqDecision K) (d : Countable K) (E : gmap nat K),
    E = ∅ → side_ok E (∅ : gmap K (list nat))).
  { intros K c d E ->. split; intros k x; by rewrite lookup_empty. }
  assert (Hpool : pool_ok ∅ (sub_arena example_server)).
  { split; simpl; [intros b; simpl; set_solver|done|lia|constructor|done|set_solver]. }
  split; try done.
  - split; try done.
    + split; simpl; [done|lia|done|lia].
    + intros h. split; [set_solver|]. intros [i Hi]. by destruct i as [|[|i]].
  - split; simpl; try done.
    + exists ∅. split; [done|]. by apply (Hno sock_items).
    + intros s so. rewrite lookup_singleton_Some. by intros [<- <-].
  - apply fresh_topics_ok. split; try done.
    intros k x. simpl. rewrite lookup_singleton_Some. intros [<- <-]. simpl. split; [done|lia].
  - split; [split; try done; try by apply Hnil|done|done].
    + by apply (Hno so_outputs).
    + intros s so. simpl. rewrite lookup_singleton_Some. intros [<- <-]. apply grouped_nil.
Qed.

(** A polling connection needs random bytes; without them the server ends. *)
Lemma hybi_start_aborts `{LogLevel, Malloc, Env} (act : gset nat) (r : root) (rid : route_id) (dev : random_device) :
  server_ok act r → malloc_ok (hybi_heap r) (sizeof_hybi + sizeof_comet) = true →
  sieve_full (hsieve r) = false → random_refused dev → (LOG_ALERT ≤ LOGLEVEL)%Z →
  hybi_start rid HYBI_COMET dev r = Aborted.
Proof.
  intros Hok Hm Hfull Hd Hlog. destruct (sr_sieve _ _ Hok) as [Hwf Hiid _ _].
  unfold hybi_start, on_hybi_heap, on_hsieve, zoom, mbind at 1, M_bind at 1. rewrite decide_True by done.
  unfold malloc. rewrite Hm. unfold mbind, M_bind, get. simpl.
  by rewrite (make_hole_uid_refused (instance_id r)).
Qed.

(** C16: opening a connection, for a polling one as long as /dev/urandom can be
    read, either enters a fresh object under an identifier that no open connection
    has, and the backend of its route gets exactly one "connect", or the table or
    the memory is exhausted and nothing changed; the invariant of the whole server
    is kept.  If there is room for a polling connection but /dev/urandom cannot be
    opened, the server aborts (unless its log level hides the failure). *)
Theorem hybi_start_correct `{LogLevel, Malloc, Env} (act : gset nat) (r : root) (rid : route_id)
    (ty : hybi_enum) (dev : random_device) (Hzmq : zmq_laws) (Hok : server_ok act r)
    (Hrid : Forward rid ∈ dom (socks r)) :
  ((ty = HYBI_COMET → random_ok dev) →
   ∃ o r', hybi_start rid ty dev r = Ok o r' ∧
    match o with
    | Some h => server_ok ({[h]} ∪ act) r' ∧ ∃ uid, opened act r r' h ty rid uid
    | None => server_ok act r' ∧ refused r r' ∧
        (sieve_full (hsieve r) = true ∨ out_of_memory ∨ no_memory r')
    end) ∧
  (ty = HYBI_COMET → random_refused dev → (LOG_ALERT ≤ LOGLEVEL)%Z →
   malloc_ok (hybi_heap r) (sizeof_hybi + sizeof_comet) = true → sieve_full (hsieve r) = false →
   hybi_start rid ty dev r = Aborted).
Proof.
  split; [intros; by apply wp_Ok, (wp_hybi_start Hzmq)|].
  intros ->. intros. by apply (hybi_start_aborts act).
Qed.

Lemma hybi_start_correct_witness :
  let LL : LogLevel := 6%Z in let MM : Malloc := λ _ _, true in
  let dev := random_of (replicate 8 "r"%char) in
  (∃ r', @hybi_start LL MM example_env 0 HYBI_COMET dev example_server = Ok (Some 0) r' ∧
    server_ok {[0]} r' ∧ stream r' (Forward 0) =
      [[uid_of (replicate 16 "A"%char) 0 0 (replicate 8 "r"%char); str "connect"]]) ∧
  @hybi_start LL MM example_env 0 HYBI_COMET (mk_random [OpenEintr; OpenFailed] [] false) example_server = Aborted.
Proof.
  intros LL MM dev. split.
  - destruct (@hybi_start_correct LL MM example_env ∅ example_server 0 HYBI_COMET dev
      example_laws example_server_ok) as [Hgo _]; [by apply elem_of_dom|].
    destruct Hgo as (o & r' & Hrun & Ho); [intros _; by apply random_of_ok|].
    vm_compute in Hrun. injection Hrun as <- <-. destruct Ho as [Hok (uid & Hop)].
    eexists. split; [vm_compute; reflexivity|]. split; [|vm_compute; reflexivity].
    by rewrite (right_id_L ∅ (∪)) in Hok.
  - destruct (@hybi_start_correct LL MM example_env ∅ example_server 0 HYBI_COMET
      (mk_random [OpenEintr; OpenFailed] [] false) example_laws example_server_ok) as [_ Hab]; [by apply elem_of_dom|].
    apply Hab; [done|by exists 1, []|done..].
Defined.

(** A websocket is open on the example server. *)
Definition example_open : root :=
  let LL : LogLevel := 0%Z in let MM : Malloc := λ _ _, true in
  match @hybi_start LL MM example_env 0 HYBI_WEBSOCKET (random_of (replicate 8 "r"%char)) example_server with
  | Ok _ r => r
  | _ => example_server
  end.

Lemma example_open_ok : server_ok {[0]} example_open.
Proof.
  set (LL := 0%Z : LogLevel). set (MM := (λ _ _, true) : Malloc).
  destruct (proj1 (wp_Ok _ _ _) (@wp_hybi_start LL MM example_env example_laws ∅ example_server 0
    HYBI_WEBSOCKET (random_of (replicate 8 "r"%char)) example_server_ok ltac:(by apply elem_of_dom) ltac:(done)))
    as (o & r' & Hrun & Ho).
  unfold example_open, LL, MM in *. rewrite Hrun. destruct o as [h|].
  - destruct Ho as [Ho _]. rewrite (right_id_L ∅ (∪)) in Ho. vm_compute in Hrun. by injection Hrun as <- _.
  - vm_compute in Hrun. discriminate.
Qed.

(** C15: closing a connection always succeeds: its identifier leaves the table,
    its subscriptions and mappings are gone and nobody else's are, and the main
    backend as well as every output that it was mapped to gets exactly one
    "disconnect", unless the queue there is full or memory for it is refused. *)
Theorem hybi_stop_correct `{LogLevel, Malloc, Env} (act : gset nat) (r : root) (h : addr) (hy : hybi)
    (Hzmq : zmq_laws) (Hok : server_ok act r) (Hact : h ∈ act) (Hh : hybis r !! h = Some hy) :
  ∃ r', hybi_stop h r = Ok tt r' ∧ server_ok (act ∖ {[h]}) r' ∧ closed r r' h hy.
Proof.
  destruct (proj1 (wp_Ok _ _ _) (wp_hybi_stop Hzmq act r h hy Hok Hact Hh)) as ([] & r' & Hrun & ?). eauto.
Qed.

Lemma hybi_stop_correct_witness :
  let LL : LogLevel := 0%Z in let MM : Malloc := λ _ _, true in
  ∃ r', @hybi_stop LL example_env 0 example_open = Ok tt r' ∧ server_ok ∅ r' ∧
    stream r' (Forward 0) =
      [[uid_of (replicate 16 "A"%char) 0 0 (replicate 8 NUL); str "connect"];
       [uid_of (replicate 16 "A"%char) 0 0 (replicate 8 NUL); str "disconnect"]].
Proof.
  intros LL MM. pose proof example_open_ok as Hok.
  destruct (hybis example_open !! 0) as [hy|] eqn:Hh; [|vm_compute in Hh; discriminate].
  destruct (@hybi_stop_correct LL MM example_env {[0]} example_open 0 hy example_laws Hok)
    as (r' & Hrun & Hok' & _); [set_solver|done|].
  vm_compute in Hrun. injection Hrun as <-. eexists. split; [vm_compute; reflexivity|].
  split; [|vm_compute; reflexivity]. by rewrite difference_diag_L in Hok'.
Defined.

(** A backend's identifier finds the open connection that has it and nothing
    else: not a closed one, not one whose cell was reused, and it changes
    nothing.  (The cell number one past the table is the exception of
    [sieve_get].) *)
Theorem hybi_find_correct `{LogLevel, Malloc, Env} (act : gset nat) (r : root) (data : bytes)
    (Hok : server_ok act r) (Hlen : length data = UID_LEN)
    (Hcell : le_value (take 8 (drop IID_LEN data)) ≠ Z.of_nat (max (hsieve r))) :
  ∃ o, hybi_find data r = Ok o r ∧ ∀ h, o = Some h ↔ h ∈ act ∧ h_uid <$> hybis r !! h = Some data.
Proof.
  destruct (proj1 (wp_Ok _ _ _) (wp_hybi_find act r data Hok Hlen Hcell)) as (o & r' & Hrun & -> & Ho). eauto.
Qed.

Lemma hybi_find_correct_witness :
  let uid := uid_of (replicate 16 "A"%char) 0 0 (replicate 8 NUL) in
  hybi_find uid example_open = Ok (Some 0) example_open ∧
  hybi_find (<[39 := "x"%char]> uid) example_open = Ok None example_open.
Proof.
  intros uid. pose (LL := 0%Z : LogLevel). pose (MM := (λ _ _, true) : Malloc). pose (EE := example_env).
  split.
  - destruct (hybi_find_correct {[0]} example_open uid example_open_ok eq_refl) as (o & Hrun & Ho).
    { vm_compute. discriminate. }
    rewrite Hrun. f_equal. apply Ho. split; [set_solver|]. vm_compute. reflexivity.
  - destruct (hybi_find_correct {[0]} example_open (<[39 := "x"%char]> uid) example_open_ok)
      as (o & Hrun & _); [by vm_compute|vm_compute; discriminate|].
    rewrite Hrun. f_equal. vm_compute in Hrun. by injection Hrun as <-.
Defined.
