(* ===== verification/CometArgs.v ===== *)
(** * Arguments of polling requests (polling.c)

    A browser without websockets names its connection, and what it has already
    received, in the query string of a polling request.  The identifier is sent
    to the browser masked with a digest of its random part and a secret, in
    upper-case hexadecimal, and unmasked when it comes back. *)

From S2P Require Import Prelude Uidgen State.

(** [MD5] is OpenSSL's; [random_data] is [root.random_data], filled once when
    the server starts. *)
Class Digest := {
  MD5 : bytes → bytes;
  random_data : bytes;
}.

Definition MD5_DIGEST_LENGTH : nat := 16.

Definition digest_laws `{Digest} : Prop := ∀ b, length (MD5 b) = MD5_DIGEST_LENGTH.

(** ** Data *)

(** src/src/polling.c:18-25 [action_enum] *)
Inductive action_enum := ACT_UNKNOWN | ACT_CONNECT | ACT_GET | ACT_POST | ACT_BIDI | ACT_CLOSE.
#[export] Instance action_enum_eq_dec : EqDecision action_enum.
Proof. solve_decision. Defined.

(** The text of a timeout stands for the number that [strtof] reads off it;
    [None] is the initial -1.  src/src/polling.c:27-35 [comet_args_s] *)
Record comet_args := mk_args {
  a_action : action_enum;
  a_uid : bytes;
  a_last_message : Z;   (* size_t *)
  a_timeout : option bytes;
  a_in_format : format_enum;
  a_out_format : format_enum;
  a_limit : Z;          (* int *)
}.
#[export] Instance rebuild_args : Rebuild comet_args := λ r,
  mk_args (a_action r) (a_uid r) (a_last_message r) (a_timeout r) (a_in_format r)
    (a_out_format r) (a_limit r).

(** ** Numbers of the C library *)

Definition is_digit (c : ascii) : bool := (48 <=? uchar c)%Z && (uchar c <=? 57)%Z.
Definition is_space (c : ascii) : bool := (uchar c =? 32)%Z || ((9 <=? uchar c)%Z && (uchar c <=? 13)%Z).

(** The digits at the front of [s]: their value, after [acc], and their number. *)
Fixpoint digits (acc : Z) (n : nat) (s : bytes) : Z * nat :=
  match s with
  | c :: s => if is_digit c then digits (10 * acc + (uchar c - 48)) (S n) s else (acc, n)
  | [] => (acc, n)
  end.

Definition LONG_MAX : Z := 2 ^ 63 - 1.
Definition LONG_MIN : Z := - 2 ^ 63.
Definition clamp (z : Z) : Z := Z.max LONG_MIN (Z.min LONG_MAX z).

(** [strtol(s, &end, 10)]: the value and [end - s]. *)
Fixpoint skip_space (n : nat) (s : bytes) : nat * bytes :=
  match s with
  | c :: s' => if is_space c then skip_space (S n) s' else (n, s)
  | [] => (n, [])
  end.

Definition strtol (s : bytes) : Z * nat :=
  let '(n, s) := skip_space 0 s in
  let '(neg, m, s) :=
    match s with
    | "-"%char :: s => (true, S n, s)
    | "+"%char :: s => (false, S n, s)
    | _ => (false, n, s)
    end in
  match digits 0 0 s with
  | (_, O) => (0%Z, 0)
  | (v, k) => (clamp (if neg : bool then - v else v)%Z, m + k)
  end.

(** ** Operations *)
Section operations.
Context `{Digest}.

(** src/src/polling.c:37-37 [hexdigits] *)
Definition hexdigits : bytes := str "0123456789ABCDEF".

(** src/src/polling.c:39-55 [parse_format] *)
Definition parse_format (name : bytes) : format_enum :=
  match name with
  | [] => FMT_SINGLE
  | c :: _ =>
      if decide (c = "s"%char) then
        if decide (name = str "single") then FMT_SINGLE else FMT_SINGLE
      else if decide (c = "j"%char) then
        if decide (name = str "jsonlist") then FMT_JSONLIST else FMT_SINGLE
      else FMT_SINGLE
  end.

(** src/src/polling.c:70-78 [add_line] *)
Definition unhex_digit (c : ascii) : option Z :=
  let c := uchar c in
  if ((48 <=? c) && (c <=? 57))%Z then Some (c - 48)%Z
  else if ((65 <=? c) && (c <=? 70))%Z then Some (c - 55)%Z
  else None.

(** src/src/polling.c:69-90 [add_line] *)
Fixpoint unhex (value : bytes) : option bytes :=
  match value with
  | c :: d :: value =>
      c ← unhex_digit c;
      d ← unhex_digit d;
      rest ← unhex value;
      Some (char_of (Z.lor (Z.shiftl c 4) d) :: rest)
  | _ => Some []
  end.

Definition xor_char (a b : ascii) : ascii := char_of (Z.lxor (uchar a) (uchar b)).

(** The digest of the random part of an identifier.  The same lines make the
    mask when an identifier is sent; src/src/polling.c:91-96 [add_line] *)
Definition uid_mask (uid : bytes) : bytes :=
  MD5 (take UID_NRANDOM (drop (UID_LEN - UID_NRANDOM) uid) ++ random_data).

(** src/src/polling.c:97-99 [add_line] *)
Definition mask_uid (mask uid : bytes) : bytes :=
  imap (λ i c, if decide (i < UID_LEN - UID_NRANDOM)
               then xor_char c (nth (i mod MD5_DIGEST_LENGTH) mask NUL) else c) uid.

(** src/src/polling.c:473-476 [comet_connect] *)
Definition hex_char (c : ascii) : bytes :=
  [nth (Z.to_nat (Z.land (Z.shiftr (schar c) 4) 15)) hexdigits NUL;
   nth (Z.to_nat (Z.land (schar c) 15)) hexdigits NUL].

(** The identifier as the browser gets it; src/src/polling.c:465-482 [comet_connect] *)
Definition uid_text (uid : bytes) : bytes := mask_uid (uid_mask uid) uid ≫= hex_char.

(** One parameter; [None] is the error return.
    src/src/polling.c:62-153 [add_line] *)
Definition add_line (args : comet_args) (name value : bytes) : option comet_args :=
  args ← (if decide (name = str "id") then
            if decide (length value ≠ UID_LEN * 2) then None
            else uid ← unhex value; Some (args <| a_uid := mask_uid (uid_mask uid) uid |>)
          else Some args);
  args ← (if decide (name = str "action") then
            if decide (value = str "CONNECT") then Some (args <| a_action := ACT_CONNECT |>)
            else if decide (value = str "CLOSE") then Some (args <| a_action := ACT_CLOSE |>)
            else None
          else Some args);
  args ← (if decide (name = str "ack") then
            let '(v, n) := strtol value in
            if decide (n ≠ length value) then None
            else Some (args <| a_last_message := u64 v |>)
          else Some args);
  args ← (if decide (name = str "timeout") then Some (args <| a_timeout := Some value |>)
          else Some args);
  args ← (if decide (name = str "limit") then Some (args <| a_limit := i32 (strtol value).1 |>)
          else Some args);
  args ← (if decide (name = str "infmt") then Some (args <| a_in_format := parse_format value |>)
          else Some args);
  args ← (if decide (name = str "outfmt") then Some (args <| a_out_format := parse_format value |>)
          else Some args);
  Some args.

(** [for(;*c && *c != d; ++c)]: what was passed, and where [c] stands then. *)
Fixpoint upto (d : ascii) (c : bytes) : bytes * bytes :=
  match c with
  | [] => ([], [])
  | x :: c' =>
      if decide (x = d) then ([], c)
      else let '(a, b) := upto d c' in (x :: a, b)
  end.

(** The loop over the parameters; [c] starts at the separator before the next
    one.  src/src/polling.c:161-173 [parse_uri] *)
Fixpoint parse_params {S} (n : nat) (c : bytes) (args : comet_args) : M S (option comet_args) :=
  match n, c with
  | _, [] => mret (Some args)
  | O, _ :: _ => out_of_fuel
  | S n, _ :: c =>
      let '(name, c) := upto "="%char c in
      match c with
      | [] => mret (add_line args name [])
      | _ :: c =>
          let '(value, c) := upto "&"%char c in
          match add_line args name value with
          | None => mret None
          | Some args => parse_params n c args
          end
      end
  end.

(** src/src/polling.c:156-158 [parse_uri] *)
Definition zero_args : comet_args :=
  mk_args ACT_UNKNOWN (replicate UID_LEN NUL) 0 None FMT_SINGLE FMT_SINGLE (-1).

(** src/src/polling.c:155-175 [parse_uri] *)
Definition parse_uri {S} (uri : bytes) : M S (option comet_args) :=
  let c := (upto "?"%char uri).2 in
  parse_params (length uri) c zero_args.
End operations.

(** ** Specification *)

(** [sprintf("%i")] of a number below [10 ^ n]. *)
Fixpoint show_int (n : nat) (z : Z) : bytes :=
  match n with
  | O => []
  | S n => (if decide (z < 10)%Z then [] else show_int n (z / 10)) ++ [char_of (48 + z mod 10)]
  end.

(** A query string as a browser writes it. *)
Fixpoint query (sep : ascii) (ps : list (bytes * bytes)) : bytes :=
  match ps with
  | [] => []
  | (name, value) :: ps => sep :: name ++ "="%char :: value ++ query "&"%char ps
  end.

Definition add_lines `{Digest} (ps : list (bytes * bytes)) (args : comet_args) : option comet_args :=
  foldl (λ o p, o ≫= λ args, add_line args p.1 p.2) (Some args) ps.

(** ** Lemmas *)
Section lemmas.
Context `{Digest}.

Lemma unhex_hex c rest :
  unhex (hex_char c ++ rest) = (λ l, c :: l) <$> unhex rest.
Proof.
  assert (Hc : ∃ a b x y, hex_char c = [a; b] ∧ unhex_digit a = Some x ∧ unhex_digit b = Some y ∧
    char_of (Z.lor (Z.shiftl x 4) y) = c).
  { destruct c as [[] [] [] [] [] [] [] []]; do 4 eexists; repeat split; reflexivity. }
  destruct Hc as (a & b & x & y & -> & Ha & Hb & Hxy). simpl. rewrite Ha. simpl. rewrite Hb. simpl.
  by destruct (unhex rest); simpl; rewrite ?Hxy.
Qed.

Lemma unhex_bind (l : bytes) : unhex (l ≫= hex_char) = Some l.
Proof.
  induction l as [|c l IH]; [done|]. rewrite bind_cons, unhex_hex, IH. done.
Qed.

Lemma length_uid_text uid : length uid = UID_LEN → length (uid_text uid) = UID_LEN * 2.
Proof.
  intros Hl. unfold uid_text.
  assert (Hm : length (mask_uid (uid_mask uid) uid) = UID_LEN) by (unfold mask_uid; by rewrite length_imap).
  revert Hm. generalize (mask_uid (uid_mask uid) uid) UID_LEN. intros l n <-.
  induction l as [|c l IH]; [done|]. rewrite bind_cons, length_app, IH. simpl. lia.
Qed.

Lemma xor_char_twice a b : xor_char (xor_char a b) b = a.
Proof.
  unfold xor_char. rewrite uchar_char_of, Z.mod_small.
  - rewrite Z.lxor_assoc, Z.lxor_nilpotent, Z.lxor_0_r. apply char_of_uchar.
  - apply (lxor_range 8); [lia|apply uchar_range..].
Qed.

Lemma mask_twice mask uid : mask_uid mask (mask_uid mask uid) = uid.
Proof.
  unfold mask_uid. apply list_eq. intros i. rewrite !list_lookup_imap.
  destruct (uid !! i) as [c|]; simpl; [|done]. f_equal. case_decide; [apply xor_char_twice|done].
Qed.

Lemma uid_mask_masked mask uid : uid_mask (mask_uid mask uid) = uid_mask uid.
Proof.
  unfold uid_mask. do 3 f_equal. unfold mask_uid. apply list_eq. intros i.
  rewrite !lookup_drop, list_lookup_imap. destruct (uid !! _) as [c|]; [|done].
  cbn [fmap option_fmap option_map]. by rewrite decide_False by lia.
Qed.

Lemma upto_in d a b : d ∉ a → upto d (a ++ d :: b) = (a, d :: b).
Proof.
  induction a as [|x a IH]; intros Hd; simpl; [by rewrite decide_True|].
  rewrite decide_False by set_solver. rewrite IH by set_solver. done.
Qed.

Lemma upto_out d a : d ∉ a → upto d a = (a, []).
Proof.
  induction a as [|x a IH]; intros Hd; simpl; [done|].
  rewrite decide_False by set_solver. rewrite IH by set_solver. done.
Qed.

Lemma upto_length d c : length (upto d c).2 ≤ length c.
Proof.
  induction c as [|x c IH]; simpl; [done|]. case_decide; simpl; [lia|].
  destruct (upto d c); simpl in *. lia.
Qed.

Lemma parse_params_total {S} n c args (s : S) :
  length c ≤ n → ∃ o, parse_params n c args s = Ok o s.
Proof.
  revert c args. induction n as [|n IH]; intros [|x c] args Hl; simpl in *; try (by eexists); [lia|].
  pose proof (upto_length "="%char c). destruct (upto "="%char c) as [name c1]. simpl in *.
  destruct c1 as [|y c1]; [by eexists|].
  pose proof (upto_length "&"%char c1). destruct (upto "&"%char c1) as [value c2]. simpl in *.
  destruct (add_line args name value); [|by eexists]. apply IH. lia.
Qed.

Lemma parse_uri_ok {S} uri (s : S) : ∃ o, parse_uri uri s = Ok o s.
Proof.
  unfold parse_uri. apply parse_params_total.
  induction uri as [|x uri IH]; simpl; [done|]. case_decide; simpl; [done|].
  destruct (upto _ uri); simpl in *. lia.
Qed.

(** What every list of arguments has in common. *)
Definition args_ok (args : comet_args) : Prop :=
  length (a_uid args) = UID_LEN ∧ (0 ≤ a_last_message args < 2 ^ 64)%Z.

Lemma length_unhex n : ∀ value uid,
  length value = n * 2 → unhex value = Some uid → length uid = n.
Proof.
  induction n as [|n IH]; intros value uid Hl Hu; destruct value as [|c [|d value]]; simpl in *; try lia.
  - by injection Hu as <-.
  - destruct (unhex_digit c) as [x|]; [|done]. simpl in Hu. destruct (unhex_digit d) as [y|]; [|done]. simpl in Hu.
    destruct (unhex value) as [rest|] eqn:E; [|done]. injection Hu as <-. simpl. f_equal. apply (IH value); [lia|done].
Qed.

(** Whatever comes out is in order. *)
Definition good (o : option comet_args) : Prop := ∀ args, o = Some args → args_ok args.

Lemma good_Some args : args_ok args → good (Some args).
Proof. by intros ? ? [= <-]. Qed.
Lemma good_bind o k : good o → (∀ args, args_ok args → good (k args)) → good (o ≫= k).
Proof. destruct o as [args|]; intros Ho Hk; [by apply Hk, Ho|done]. Qed.

Lemma add_line_ok args name value : args_ok args → good (add_line args name value).
Proof.
  intros Hok. unfold add_line. apply good_bind; [|clear args Hok; intros args Hok].
  { case_decide; [|by apply good_Some]. case_decide as Hl; [done|].
    destruct (unhex value) as [uid|] eqn:Hu; [|done]. apply good_Some. split; [|apply Hok]. simpl.
    unfold mask_uid. rewrite length_imap. by apply (length_unhex _ value). }
  repeat (apply good_bind; [|clear args Hok; intros args Hok]); repeat case_decide;
    try (apply good_Some; destruct Hok; by split); try done.
  destruct (strtol value) as [v n]. case_decide; [done|]. apply good_Some. split; [apply Hok|apply u64_range].
Qed.

Lemma parse_params_ok {S} n : ∀ c args o (s s' : S),
  args_ok args → parse_params n c args s = Ok o s' → good o.
Proof.
  induction n as [|n IH]; intros [|x c] args o s s' Hok Hrun; simpl in Hrun; try done.
  1,2: injection Hrun as <- <-; by apply good_Some.
  destruct (upto "="%char c) as [name [|y c1]].
  { injection Hrun as <- <-. by apply add_line_ok. }
  destruct (upto "&"%char c1) as [value c2]. pose proof (add_line_ok args name value Hok) as Hl.
  destruct (add_line args name value) as [args'|]; [|by injection Hrun as <- <-].
  by apply (IH c2 args' o s s'); [apply Hl|].
Qed.

Lemma wp_parse_uri_at {S} uri (s : S) o (Q : option comet_args → S → Prop) :
  parse_uri uri s = Ok o s → (good o → Q o s) → wp (parse_uri uri) Q s.
Proof. intros Ho HQ. unfold wp. rewrite Ho. apply HQ. eapply parse_params_ok; [|exact Ho]. by split. Qed.

Lemma length_query sep ps : length (query sep ps) = length (query "&"%char ps).
Proof. by destruct ps as [|[] ?]. Qed.

Lemma parse_params_query {S} n sep ps args (s : S) :
  length (query sep ps) ≤ n →
  Forall (λ p : bytes * bytes, ("="%char ∉ p.1) ∧ "&"%char ∉ p.2) ps →
  parse_params n (query sep ps) args s = Ok (add_lines ps args) s.
Proof.
  intros Hl Hps. revert n sep args Hl. induction Hps as [|[name value] ps [Hn Hv] Hps IH]; intros n sep args Hl.
  { by destruct n. }
  simpl in *. destruct n as [|n]; [lia|]. rewrite length_app in Hl. simpl in Hl. rewrite length_app in Hl.
  cbn [parse_params]. rewrite upto_in by done. unfold add_lines. cbn [foldl].
  assert (Hu : upto "&"%char (value ++ query "&"%char ps) = (value, query "&"%char ps)).
  { destruct ps as [|[name' value'] ps]; simpl; [rewrite app_nil_r; by apply upto_out|by apply upto_in]. }
  rewrite Hu. simpl. destruct (add_line args name value) as [args'|]; [apply IH; lia|].
  clear. by induction ps.
Qed.

Lemma digits_show n z acc k s :
  (0 ≤ z < 10 ^ Z.of_nat n)%Z → 0 < n →
  digits acc k (show_int n z ++ s) =
    digits (acc * 10 ^ Z.of_nat (length (show_int n z)) + z) (k + length (show_int n z)) s.
Proof.
  revert z acc k s. induction n as [|n IH]; intros z acc k s Hz Hn; [lia|].
  pose proof (Z.mod_pos_bound z 10). pose proof (Z.div_mod z 10).
  assert (Hd : ∀ acc k, digits acc k (char_of (48 + z mod 10) :: s) = digits (10 * acc + z mod 10) (S k) s).
  { intros acc' k'. simpl. unfold is_digit. rewrite uchar_char_of, Z.mod_small by lia.
    rewrite !(proj2 (Z.leb_le _ _)) by lia. simpl. f_equal. lia. }
  cbn [show_int]. rewrite Nat2Z.inj_succ, Z.pow_succ_r in Hz by lia. case_decide as Hlt; cbn [app].
  - rewrite Hd. simpl length. rewrite Z.pow_1_r. rewrite Z.mod_small by lia. f_equal; lia.
  - rewrite <- app_assoc. cbn [app].
    assert (n ≠ 0) by (intros ->; simpl in Hz; lia).
    rewrite IH, Hd, length_app, Nat.add_1_r, Nat2Z.inj_succ, Z.pow_succ_r by (lia || (split; [lia|]; apply Z.div_lt_upper_bound; lia)).
    f_equal; [|lia]. nia.
Qed.

Lemma show_int_head n z :
  (0 ≤ z)%Z → 0 < n → ∃ c l, show_int n z = c :: l ∧ is_digit c = true.
Proof.
  revert z. induction n as [|n IH]; intros z Hz Hn; [lia|]. cbn [show_int].
  assert (Hc : is_digit (char_of (48 + z mod 10)) = true).
  { pose proof (Z.mod_pos_bound z 10). unfold is_digit. rewrite uchar_char_of, Z.mod_small by lia.
    by rewrite !(proj2 (Z.leb_le _ _)) by lia. }
  case_decide; [by do 2 eexists|]. destruct n as [|n]; [by do 2 eexists|].
  destruct (IH (z / 10)%Z) as (c & l & -> & ?); [apply Z.div_pos; lia|lia|]. by do 2 eexists.
Qed.

Lemma strtol_show n z :
  (0 ≤ z < 2 ^ 63)%Z → (z < 10 ^ Z.of_nat n)%Z → 0 < n →
  strtol (show_int n z) = (z, length (show_int n z)).
Proof.
  intros Hz Hzn Hn. destruct (show_int_head n z) as (c & l & E & Hc); [lia|done|].
  pose proof (digits_show n z 0 0 [] ltac:(lia) Hn) as Hd. rewrite app_nil_r in Hd.
  unfold strtol. rewrite E in *. cbn [skip_space].
  assert (is_space c = false) as ->.
  { unfold is_digit, is_space in *. apply andb_prop in Hc as [Hc%Z.leb_le _].
    rewrite (proj2 (Z.eqb_neq _ _)), (proj2 (Z.leb_gt (uchar c) 13)) by lia. by rewrite andb_false_r. }
  assert (Hsg : c ≠ "-"%char ∧ c ≠ "+"%char) by (split; intros ->; done).
  assert (Hm : match c :: l with
               | "-"%char :: s => (true, 1, s) | "+"%char :: s => (false, 1, s) | _ => (false, 0, c :: l)
               end = (false, 0, c :: l)).
  { destruct Hsg. destruct c as [[] [] [] [] [] [] [] []]; done. }
  rewrite Hm, Hd. simpl. f_equal. unfold clamp, LONG_MAX, LONG_MIN. lia.
Qed.
End lemmas.

(** ** Properties *)

(** C39: the identifier that a browser is given, sent back in [id], is read as the
    identifier of the connection, whatever the secret is; nothing else of the
    arguments changes. *)
Theorem uid_text_roundtrip `{Digest} (args : comet_args) (uid : bytes) (Hlaws : digest_laws)
    (Hlen : length uid = UID_LEN) :
  add_line args (str "id") (uid_text uid) = Some (args <| a_uid := uid |>).
Proof.
  unfold add_line. cbn [mbind option_bind].
  rewrite (decide_True (P := str "id" = str "id")) by done.
  rewrite decide_False by (rewrite length_uid_text by done; lia).
  assert (unhex (uid_text uid) = Some (mask_uid (uid_mask uid) uid)) as -> by apply unhex_bind.
  cbn [mbind option_bind].
  rewrite uid_mask_masked, mask_twice. reflexivity.
Qed.

#[export] Instance example_digest : Digest := {|
  MD5 := λ b, replicate 15 "k"%char ++ [default NUL (head b)];
  random_data := replicate 16 "s"%char;
|}.

Lemma uid_text_roundtrip_witness :
  let uid := uid_of (replicate 16 "A"%char) 3 7 (replicate 8 "r"%char) in
  digest_laws ∧ add_line zero_args (str "id") (uid_text uid) = Some (zero_args <| a_uid := uid |>) ∧
  (uid_text uid ≠ uid ≫= hex_char).
Proof.
  intros uid. assert (Hlaws : digest_laws) by (intros b; reflexivity).
  split; [done|]. split; [|vm_compute; discriminate].
  apply (uid_text_roundtrip zero_args uid Hlaws). vm_compute. reflexivity.
Defined.

(** C40: the parameters of a query string are read one by one, in order, and the
    first bad one fails the whole request: on a query as a browser writes it the
    pointer scan does what a fold of [add_line] over the parameters does. *)
Theorem parse_uri_query `{Digest} {S} (path : bytes) (ps : list (bytes * bytes)) (s : S)
    (Hpath : "?"%char ∉ path)
    (Hps : Forall (λ p : bytes * bytes, ("="%char ∉ p.1) ∧ "&"%char ∉ p.2) ps) :
  parse_uri (path ++ query "?"%char ps) s = Ok (add_lines ps zero_args) s.
Proof.
  unfold parse_uri. assert (Hu : upto "?"%char (path ++ query "?"%char ps) = (path, query "?"%char ps)).
  { destruct ps as [|[name value] ps]; simpl; [rewrite app_nil_r; by apply upto_out|by apply upto_in]. }
  rewrite Hu. apply parse_params_query; [|done]. rewrite length_app. simpl. lia.
Qed.

Lemma parse_uri_query_witness :
  ∃ a, parse_uri (str "/chat?action=CONNECT&limit=3&outfmt=jsonlist&x=") tt = Ok (Some a) tt ∧
    a_action a = ACT_CONNECT ∧ a_limit a = 3%Z ∧ a_out_format a = FMT_JSONLIST.
Proof.
  pose proof (parse_uri_query (str "/chat")
    [(str "action", str "CONNECT"); (str "limit", str "3"); (str "outfmt", str "jsonlist"); (str "x", [])] tt)
    as Hq. unfold str in *. simpl in Hq. eexists. split; [unfold str; simpl; rewrite Hq|].
  - vm_compute. reflexivity.
  - apply (bool_decide_unpack _). vm_compute. exact I.
  - apply (bool_decide_unpack _). vm_compute. exact I.
  - vm_compute. done.
Defined.

(** the scan of a query string always ends, without reading past the end, on
    every string at all, and has no effect but its result. *)
Theorem parse_uri_total `{Digest} {S} (uri : bytes) (s : S) : ∃ o, parse_uri uri s = Ok o s.
Proof. apply parse_uri_ok. Qed.

(** A message number that the server prints comes back unchanged as an
    acknowledgement, and a text with anything after the number is an error. *)
Theorem ack_roundtrip `{Digest} (args : comet_args) (n : nat) (z : Z) (c : ascii)
    (Hz : (0 ≤ z < 2 ^ 63)%Z) (Hn : (z < 10 ^ Z.of_nat n)%Z) (Hpos : 0 < n) (Hc : is_digit c = false) :
  add_line args (str "ack") (show_int n z) = Some (args <| a_last_message := z |>) ∧
  add_line args (str "ack") (show_int n z ++ [c]) = None.
Proof.
  assert (Hs := strtol_show n z Hz Hn Hpos).
  assert (Hs' : strtol (show_int n z ++ [c]) = (z, length (show_int n z))).
  { rewrite <- Hs. destruct (show_int_head n z) as (d & l & E & Hd); [lia|done|].
    pose proof (digits_show n z 0 0 [c] ltac:(lia) Hpos) as H1.
    pose proof (digits_show n z 0 0 [] ltac:(lia) Hpos) as H2. rewrite app_nil_r in H2.
    rewrite E in *. cbn [app] in *. unfold strtol. cbn [skip_space].
    assert (Hsp : is_space d = false).
    { unfold is_digit, is_space in *. apply andb_prop in Hd as [Hd%Z.leb_le _].
      rewrite (proj2 (Z.eqb_neq _ _)), (proj2 (Z.leb_gt (uchar d) 13)) by lia. by rewrite andb_false_r. }
    rewrite Hsp. simpl (digits _ _ [c]) in H1. rewrite Hc in H1. simpl (digits _ _ []) in H2.
    assert (Hsg : d ≠ "-"%char ∧ d ≠ "+"%char) by (split; intros ->; done). destruct Hsg.
    destruct d as [[] [] [] [] [] [] [] []]; try done; by rewrite H1, H2. }
  unfold add_line. split; do 2 (rewrite decide_False by done; cbn [mbind option_bind]);
    rewrite (decide_True (P := str "ack" = str "ack")) by done.
  - rewrite Hs. cbn [mbind option_bind]. rewrite decide_False by lia. rewrite u64_small by lia. reflexivity.
  - rewrite Hs', decide_True; [done|]. rewrite length_app. simpl. lia.
Qed.

Lemma ack_roundtrip_witness :
  add_line zero_args (str "ack") (str "120") = Some (zero_args <| a_last_message := 120%Z |>) ∧
  add_line zero_args (str "ack") (str "120x") = None.
Proof.
  destruct (ack_roundtrip zero_args 5 120 "x"%char) as [E1 E2]; [lia|lia|lia|reflexivity|].
  split; [exact E1|exact E2].
Defined.
