(* ===== verification/Request.v ===== *)
(** * Requests (request.h, request.c, and the replies of http.c and polling.c)

    A request is allocated by the http library.  Whoever keeps a pointer to it
    counts itself in [refcnt]; the last one to let go releases it. *)

From S2P Require Import Prelude Sieve Pool MsgQueue Uidgen State.

(** ** Operations *)
Section operations.
Context `{LogLevel, Env}.

(** src/src/request.c:5-14 [request_init] *)
Definition request_init (req : addr) : MR unit :=
  set_request req (λ q, q <| rq_refcnt := 1%Z |> <| rq_flags := 0%Z |> <| rq_route := None |>
                         <| rq_timeout_active := false |> <| rq_retries := 0%Z |>
                         <| rq_uid ::= λ u, <[0 := NUL]> u |> <| rq_hybi := None |>
                         <| rq_ip := None |>).

(** Stopping a timer that is not active would change nothing, so it is stopped
    without a test; src/src/request.c:16-24 [request_finish] *)
Definition request_finish (req : addr) : MR unit :=
  q ← get_request req;
  whenb (negb (Z.land (rq_flags q) REQ_IN_SIEVE =? 0)%Z)
    (hole ← UID_HOLE (rq_uid q);
     on_rsieve (sieve_empty hole);;
     set_request req (λ q, q <| rq_flags ::= λ f, Z.land f (Z.lnot REQ_IN_SIEVE) |>));;
  set_request req (λ q, q <| rq_timeout_active := false |>).

(** Closing the response message only releases memory of the library.
    src/src/request.c:26-35 [request_free] *)
Definition request_free (req : addr) : MR unit :=
  request_finish req;;
  q ← get_request req;
  whenb (negb (rq_websocket q)) (count (λ st, st <| st_http_replies ::= plus 1 |>));;
  emit (ReqFree req);;
  modify (λ r, r <| requests ::= delete req |>).

(** src/src/request.h:16-16 [REQ_DECREF] *)
Definition REQ_DECREF (req : addr) : MR unit :=
  set_request req (λ q, q <| rq_refcnt ::= λ n, i32 (n - 1) |>);;
  q ← get_request req;
  whenb (rq_refcnt q =? 0)%Z (request_free req).

(** src/src/request.h:17-17 [REQ_INCREF] *)
Definition REQ_INCREF (req : addr) : MR unit :=
  set_request req (λ q, q <| rq_refcnt ::= λ n, i32 (n + 1) |>).

(** What zeromq calls when it is done with a part that has memory of a request;
    src/src/http.c:38-40 [request_decref] *)
Definition request_decref (req : addr) : MR unit :=
  set_request req (λ q, q <| rq_lent ::= pred |>);;
  REQ_DECREF req.

(** A part with memory of the request is handed to zeromq, which refers to the
    request until it gives the part back. *)
Definition lend (req : addr) : MR unit :=
  REQ_INCREF req;;
  set_request req (λ q, q <| rq_lent ::= S |>).

(** What the library calls when the reply was sent.
    src/src/http.c:42-46 [http_request_finish] *)
Definition http_request_finish (req : addr) : MR unit :=
  q ← get_request req;
  ANIMPL (bool_decide (rq_hybi q = None));;
  REQ_DECREF req.

(** The functions of the library that build a reply; they fail only when the
    reply was already sent. *)
Definition ws_statusline (req : addr) (line : string) : MR unit := emit (ReqStatus req (str line)).
Definition ws_add_header (req : addr) (name : string) (value : bytes) : MR unit :=
  emit (ReqHeader req (str name) value).
Definition ws_reply_data (req : addr) (data : bytes) : MR unit := emit (ReqReply req data).

(** src/src/http.c:11-24 [http_common_headers] *)
Definition http_common_headers (req : addr) : MR bool :=
  match http_date req with
  | None => mret false
  | Some date => ws_add_header req "Date" date;; mret true
  end.

(** src/src/polling.c:177-212 [set_headers] *)
Definition set_headers (req : addr) : MR unit :=
  ok ← http_common_headers req;
  SNIMPL (negb ok);;
  ws_add_header req "Cache-Control"
    (str "no-cache, no-store, must-revalidate, max-age=0, pre-check=0, post-check=0");;
  ws_add_header req "Pragma" (str "no-cache");;
  ws_add_header req "Expires" (str "Sat, 01 Dec 2001 00:00:00 GMT");;
  q ← get_request req;
  rid ← deref NullDeref (rq_route q);
  rt ← get_route rid;
  mfor (rt_headers rt) (λ line, emit (ReqHeader req line.1 line.2));;
  (match rt_allow_origins rt, rq_origin q with
   | _ :: _, Some origin =>
       ws_add_header req "Access-Control-Allow-Origin" origin;;
       ws_add_header req "Access-Control-Allow-Methods" (str "GET, POST, OPTIONS");;
       ws_add_header req "Access-Control-Allow-Headers" (str "Origin, Content-Type");;
       ws_add_header req "Access-Control-Expose-Headers"
         (str "X-Messages, X-Timestamp, X-Wait-Time, X-Connection, X-Format, X-Message-ID, X-Last-ID");;
       ws_add_header req "Access-Control-Max-Age" (rt_max_age rt)
   | _, _ => mret tt
   end);;
  if rt_timestamps rt then
    r ← get;
    ws_add_header req "X-Timestamp" (time_text (trace r) (str "%f"));;
    r ← get;
    ws_add_header req "X-Wait-Time" (wait_text (trace r) req)
  else mret tt.
End operations.
