(* ===== verification/Comet.v ===== *)
(** * Polling connections (polling.c)

    A connection of a browser without websockets: messages for it wait in a
    queue, numbered from [first_index]; a request of the browser collects them
    and a later one acknowledges them, which is when they are dropped. *)

From S2P Require Import Prelude Sieve Pool MsgQueue Uidgen Links State Topics Backend Outputs Hybi.
From S2P Require Import CometArgs Request.

(** ** Access to the polling part *)
Section access.

(** [hybi->comet], which only polling connections are allocated with. *)
Definition get_comet (h : addr) : MR comet :=
  hy ← get_hybi h; deref OutOfBounds (h_comet hy).

Definition set_comet (h : addr) (f : comet → comet) : MR unit :=
  hy ← get_hybi h;
  c ← deref OutOfBounds (h_comet hy);
  modify (λ r, r <| hybis ::= <[h := hy <| h_comet := Some (f c) |>]> |>).

Definition on_comet_queue {A} (h : addr) (m : M pooled_queue A) : MR A := λ r,
  match hybis r !! h with
  | None => Faulted UseAfterFree
  | Some hy =>
      match h_comet hy with
      | None => Faulted OutOfBounds
      | Some c =>
          match m (mk_pq (frontend_arena r) (c_queue c)) with
          | Ok a p => Ok a (r <| frontend_arena := pq_arena p |>
              <| hybis := <[h := hy <| h_comet := Some (c <| c_queue := pq_queue p |>) |>]> (hybis r) |>)
          | Aborted => Aborted
          | Faulted f => Faulted f
          | NoFuel => NoFuel
          end
      end
  end.

(** [zmq_msg_close] of a queued message, and its contents. *)
Definition close_fmsg (m : addr) : MR unit := modify (λ r, r <| fmsgs ::= delete m |>).
Definition get_fmsg (m : addr) : MR bytes := r ← get; deref UseAfterFree (fmsgs r !! m).
End access.

(** [sprintf("%i")] of an [int]. *)
Definition print_int (z : Z) : bytes :=
  if decide (z < 0)%Z then "-"%char :: show_int 10 (- z) else show_int 10 z.

(** ** Operations *)
Section operations.
Context `{LogLevel, Malloc, Env}.

(** src/src/polling.c:214-228 [empty_reply] *)
Definition empty_reply (h : addr) : MR unit :=
  count (λ st, st <| st_comet_empty_replies ::= plus 1 |>);;
  c ← get_comet h;
  mreq ← deref NullDeref (cur_request c);
  set_request mreq (λ q, q <| rq_timeout_active := false |>);;
  ws_statusline mreq "200 OK";;
  ws_add_header mreq "X-Messages" (str "0");;
  set_headers mreq;;
  ws_reply_data mreq [];;
  set_request mreq (λ q, q <| rq_hybi := None |>);;
  REQ_DECREF mreq;;
  set_comet h (λ c, c <| cur_request := None |>).

(** src/src/polling.c:230-244 [free_comet] *)
Definition free_comet (h : addr) : MR unit :=
  count (λ st, st <| st_comet_disconnects ::= plus 1 |>);;
  c ← get_comet h;
  ANIMPL (bool_decide (cur_request c = None));;
  set_comet h (λ c, c <| sendlater_active := false |> <| inactivity_active := false |>);;
  mfor (q_items (c_queue c)) close_fmsg;;
  hybi_stop h.

(** src/src/polling.c:246-260 [close_reply] *)
Definition close_reply (h : addr) : MR unit :=
  c ← get_comet h;
  mreq ← deref NullDeref (cur_request c);
  set_request mreq (λ q, q <| rq_timeout_active := false |>);;
  ws_statusline mreq "200 OK";;
  ws_add_header mreq "X-Messages" (str "0");;
  ws_add_header mreq "X-Connection" (str "close");;
  set_headers mreq;;
  ws_reply_data mreq [];;
  set_request mreq (λ q, q <| rq_hybi := None |>);;
  REQ_DECREF mreq;;
  set_comet h (λ c, c <| cur_request := None |>).

(** src/src/polling.c:262-267 [comet_close] *)
Definition comet_close (h : addr) : MR unit :=
  c ← get_comet h;
  (match cur_request c with Some _ => close_reply h | None => mret tt end);;
  free_comet h.

(** src/src/polling.c:289-300 [comet_request_aborted] *)
Definition comet_request_aborted (req : addr) : MR unit :=
  q ← get_request req;
  h ← deref NullDeref (rq_hybi q);
  c ← get_comet h;
  count (λ st, st <| st_comet_aborted_replies ::= plus 1 |>);;
  ANIMPL (bool_decide (cur_request c = Some req));;
  set_request req (λ q, q <| rq_timeout_active := false |>);;
  set_comet h (λ c, c <| cur_request := None |>);;
  REQ_DECREF req;;
  set_comet h (λ c, c <| inactivity_active := true |>).

(** src/src/polling.c:302-311 [polling_timeout] *)
Definition polling_timeout (req : addr) : MR unit :=
  q ← get_request req;
  h ← deref NullDeref (rq_hybi q);
  c ← get_comet h;
  ANIMPL (bool_decide (cur_request c = Some req));;
  empty_reply h;;
  set_comet h (λ c, c <| inactivity_active := true |>).

(** src/src/polling.c:313-321 [inactivity_timeout] *)
Definition inactivity_timeout (h : addr) : MR unit :=
  set_comet h (λ c, c <| inactivity_active := false |>);;
  free_comet h.

(** src/src/polling.c:335-341 [move_queue] *)
Fixpoint ack_loop (h : addr) (n : nat) (cur : option addr) : MR unit :=
  match n with
  | O => mret tt
  | S n =>
      ANIMPL (bool_decide (cur ≠ None));;
      cur ← deref NullDeref cur;
      c ← get_comet h;
      let nxt := next_of cur (q_items (c_queue c)) in
      close_fmsg cur;;
      on_comet_queue h (queue_remove cur);;
      ack_loop h n nxt
  end.

(** [msgid] and [amount] are [size_t]; [false] is the error return.
    src/src/polling.c:323-345 [move_queue] *)
Definition move_queue (h : addr) (msgid : Z) : MR bool :=
  c ← get_comet h;
  if decide (msgid = 0 ∨ msgid < u64 (first_index c))%Z then mret true
  else
    let amount := u64 (msgid - first_index c + 1) in
    if decide (u64 (size (c_queue c)) < amount)%Z then mret false
    else
      whenb (negb (amount =? 0)%Z)
        (count (λ st, st <| st_comet_acks ::= plus amount |>);;
         ack_loop h (Z.to_nat amount) (head (q_items (c_queue c)));;
         set_comet h (λ c, c <| first_index ::= λ n, i32 (n + amount) |>));;
      mret true
  .

(** src/src/polling.c:347-358 [comet_request_sent] *)
Definition comet_request_sent (req : addr) : MR unit :=
  q ← get_request req;
  match rq_hybi q with
  | Some _ => comet_request_aborted req
  | None => REQ_DECREF req
  end.

(** [data] as an element of the list; src/src/polling.c:415-425 [send_later] *)
Definition json_item (data : bytes) : bytes :=
  if decide (7 < length data ∧ take 7 data = str "ZEROGW:")
  then "034"%char :: data ++ ["034"%char]
  else data.

(** src/src/polling.c:411-430 [send_later] *)
Fixpoint json_items (h : addr) (n : nat) (msg : option addr) : MR bytes :=
  match n with
  | O => mret []
  | S i =>
      count (λ st, st <| st_comet_sent_messages ::= plus 1 |>);;
      m ← deref NullDeref msg;
      data ← get_fmsg m;
      c ← get_comet h;
      rest ← json_items h i (next_of m (q_items (c_queue c)));
      mret (json_item data ++ (if decide (0 < i) then ","%char :: rest else rest))
  end.

(** The reply in the format [single]; src/src/polling.c:378-393 [send_later] *)
Definition reply_single (h mreq : addr) : MR unit :=
  c ← get_comet h;
  count (λ st, st <| st_comet_sent_messages ::= plus 1 |>);;
  ws_statusline mreq "200 OK";;
  ws_add_header mreq "X-Messages" (str "1");;
  ws_add_header mreq "X-Format" (str "single");;
  ws_add_header mreq "X-Message-ID" (print_int (first_index c));;
  set_headers mreq;;
  set_request mreq (λ q, q <| rq_flags ::= λ f, Z.lor f REQ_HAS_MESSAGE |>);;
  m ← deref NullDeref (head (q_items (c_queue c)));
  data ← get_fmsg m;
  ws_reply_data mreq data.

(** The reply in the format [jsonlist]; src/src/polling.c:394-433 [send_later] *)
Definition reply_jsonlist (h mreq : addr) : MR unit :=
  c ← get_comet h;
  let num := if decide (cur_limit c < size (c_queue c))%Z then cur_limit c else size (c_queue c) in
  ws_statusline mreq "200 OK";;
  ws_add_header mreq "X-Messages" (print_int num);;
  ws_add_header mreq "X-Last-ID" (print_int (i32 (first_index c + size (c_queue c) - 1)));;
  ws_add_header mreq "X-Format" (str "jsonlist");;
  ws_add_header mreq "Content-Type" (str "application/json");;
  set_headers mreq;;
  body ← json_items h (Z.to_nat num) (head (q_items (c_queue c)));
  ws_reply_data mreq ("["%char :: body ++ ["]"%char]).

(** src/src/polling.c:360-442 [send_later] *)
Definition send_later (h : addr) : MR unit :=
  c ← get_comet h;
  ANIMPL (negb (overflow c));;
  match cur_request c with
  | None => set_comet h (λ c, c <| sendlater_active := false |>)
  | Some mreq =>
      whenb (negb (size (c_queue c) =? 0)%Z)
        (set_request mreq (λ q, q <| rq_timeout_active := false |>);;
         set_comet h (λ c, c <| cur_request := None |>);;
         count (λ st, st <| st_comet_sent_batches ::= plus 1 |>);;
         (match cur_format c with
          | FMT_SINGLE => reply_single h mreq
          | FMT_JSONLIST => reply_jsonlist h mreq
          end);;
         set_request mreq (λ q, q <| rq_hybi := None |>);;
         REQ_DECREF mreq);;
      set_comet h (λ c, c <| sendlater_active := false |>);;
      set_comet h (λ c, c <| inactivity_active := true |>)
  end.

(** [cur_limit] is not set before a request is accepted.
    src/src/polling.c:444-485 [comet_connect] *)
Definition comet_connect `{Digest} (req : addr) (urandom : random_device) : MR bool :=
  q ← get_request req;
  rid ← deref NullDeref (rq_route q);
  h ← hybi_start rid HYBI_COMET urandom;
  match h with
  | None => mret false
  | Some h =>
      count (λ st, st <| st_comet_connects ::= plus 1 |>);;
      rt ← get_route rid;
      set_hybi h (λ hy, hy <| h_comet := Some (mk_comet None false FMT_SINGLE 0 1 false true
                                                 (init_queue (i32 (rt_queue_limit rt)))) |>);;
      ws_statusline req "200 OK";;
      set_headers req;;
      hy ← get_hybi h;
      ws_reply_data req (uid_text (h_uid hy));;
      mret true
  end.

(** src/src/polling.c:609-625 [comet_send] *)
Definition comet_send (h : addr) (msg : bytes) : MR bool :=
  qitem ← on_comet_queue h queue_push;
  match qitem with
  | None => comet_close h;; mret false
  | Some q =>
      modify (λ r, r <| fmsgs ::= <[q := msg]> |>);;
      c ← get_comet h;
      (match cur_request c with
       | Some _ => set_comet h (λ c, c <| sendlater_active := true |>)
       | None => mret tt
       end);;
      mret true
  end.
End operations.

(** ** Invariant *)

Definition comet_of r (h : addr) : option comet := hy ← hybis r !! h; h_comet hy.
Definition comet_items (hy : hybi) : list addr :=
  match h_comet hy with Some c => q_items (c_queue c) | None => [] end.

(** How many queued messages refer to a request. *)
Definition preqs (ms : gmap nat backend_msg) (q : addr) : nat :=
  base.size (filter (λ p : nat * backend_msg, b_msg p.2 = PRequest q) (posted ms)).

(** One reference if there is a holder. *)
Definition holds (o : option addr) : nat := from_option (λ _, 1) 0 o.

(** One session: what is queued is counted, in an [int], and the next message to be
    acknowledged has a positive number. *)
Record comet_ok (c : comet) : Prop := {
  co_size : size (c_queue c) = Z.of_nat (length (q_items (c_queue c)));
  co_first : (1 ≤ first_index c)%Z;
  co_overflow : overflow c = false;
  co_capacity : (capacity (c_queue c) < 2 ^ 31)%Z;
  co_fits : (size (c_queue c) < 2 ^ 31)%Z;
}.

(** A request that a connection holds: it can be replied to, and it is not one
    that was forwarded. *)
Record waiting_ok r (h : addr) (q : request) : Prop := {
  wt_hybi : rq_hybi q = Some h;
  wt_route : ∃ rid, rq_route q = Some rid ∧ rid ∈ dom (routes r);
  wt_flags : Z.land (rq_flags q) REQ_IN_SIEVE = 0%Z;
}.

(** Every message of the frontend pool is on the queue of one open connection;
    a request is waited for by the connection that holds it and by no other, and
    is referenced by it and by each queued message that carries its body. *)
Record comets_ok (act : gset nat) (r : root) : Prop := {
  cm_kind : ∀ h hy, h ∈ act → hybis r !! h = Some hy →
    match h_type hy with
    | HYBI_COMET => is_Some (h_comet hy)
    | HYBI_WEBSOCKET => h_comet hy = None ∧ is_Some (h_conn hy)
    end;
  cm_queues : ∃ E, dom E = dom (fmsgs r) ∧
    side_ok E (comet_items <$> filter (λ p : nat * hybi, p.1 ∈ act) (hybis r));
  cm_comet : ∀ h c, h ∈ act → comet_of r h = Some c → comet_ok c;
  cm_pool : ∃ own, dom (fmsgs r) ⊆ own ∧ pool_ok own (frontend_arena r);
  cm_wait : ∀ h c q, h ∈ act → comet_of r h = Some c → cur_request c = Some q →
    ∃ rq, requests r !! q = Some rq ∧ waiting_ok r h rq;
  cm_held : ∀ q rq h, requests r !! q = Some rq → rq_hybi rq = Some h →
    h ∈ act ∧ ∃ c, comet_of r h = Some c ∧ cur_request c = Some q;
  cm_refs : ∀ q rq, requests r !! q = Some rq →
    (Z.of_nat (preqs (bmsgs r) q + holds (rq_hybi rq)) ≤ rq_refcnt rq)%Z ∧
    (0 < rq_refcnt rq < 2 ^ 31)%Z;
  cm_posted : ∀ b m q, bmsgs r !! b = Some m → b_msg m = PRequest q → is_Some (requests r !! q);
}.

(** The whole server. *)
Record full_ok (act : gset nat) (r : root) : Prop := {
  fo_server : server_ok act r;
  fo_comets : comets_ok act r;
}.

(** ** Lemmas: frames *)
Section comet_frames.
Implicit Types (r : root).

(** What the layers below polling look at. *)
Definition server_side r :=
  (instance_id r, hsieve r, hybi_heap r, topic_heap r, topics r, sub_arena r, subs r,
   output_heap r, outputs r, backend_arena r, bmsgs r, routes r, socks r).

(** A connection apart from how it talks to its browser. *)
Definition plain (hy : hybi) : hybi := hy <| h_conn := None |> <| h_comet := None |>.

Record beside r r' : Prop := {
  bs_server : server_side r' = server_side r;
  bs_hybis : plain <$> hybis r' = plain <$> hybis r;
  bs_bodies : same_bodies r r';
  bs_wire : ∀ s, wire s (trace r') = wire s (trace r);
}.

Lemma server_ok_beside act r r' :
  server_ok act r → beside r r' → server_ok act r' ∧ ∀ s, stream r' s = stream r s.
Proof.
  intros [Hsv Hbk Hbt Htp Hou Hsub Hout Hknd Hrt] [Hs Hh Hb Hw].
  unfold server_side in Hs. injection Hs as E1 E2 E3 E4 E5 E6 E7 E8 E9 E10 E11 E12 E13.
  assert (Hcore : core <$> hybis r' = core <$> hybis r).
  { eapply fmap_via; [|exact Hh]. intros a a' E. destruct a, a'. injection E as. unfold core. simpl. by subst. }
  assert (Hvia : ∀ {C} (f : hybi → C), (∀ a a', plain a = plain a' → f a = f a') →
    f <$> hybis r' = f <$> hybis r) by (intros C f Hf; by eapply fmap_via).
  destruct (backend_ok_frame act r r' Hbk) as [Hbk' Hp]; try done; [by rewrite E13|].
  split; [|intros s; unfold stream, delivered; by rewrite Hp, Hw].
  split; rewrite ?E7, ?E9; try done.
  - apply (sieve_ok_frame act r); try done. intros h _. rewrite <- !lookup_fmap. f_equal.
    apply Hvia. intros a a' E. by apply (f_equal h_uid) in E.
  - intros s. rewrite Hw. apply Hbt.
  - apply (topics_ok_frame r); try done. apply Hvia. intros a a' E. by apply (f_equal h_subscribers) in E.
  - apply (outputs_ok_frame r); try done; [|by rewrite E13].
    apply Hvia. intros a a' E. by apply (f_equal h_outputs) in E.
  - intros h hy' Hh'. rewrite E13. apply (lookup_fmap_Some' plain) in Hh'.
    rewrite Hh, lookup_fmap, fmap_Some in Hh'. destruct Hh' as (hy & Hhy & Ep).
    apply (f_equal h_route) in Ep. simpl in Ep. rewrite Ep. by eapply Hrt.
Qed.

(** [comets_ok] looks at what is aside and at the open connections. *)
Definition talk (hy : hybi) := (h_type hy, h_conn hy, h_comet hy).

Lemma comets_ok_talk act r r' :
  comets_ok act r → aside r' = aside r →
  (∀ h, h ∈ act → talk <$> hybis r' !! h = talk <$> hybis r !! h) → comets_ok act r'.
Proof.
  intros [H1 H2 H3 H4 H5 H6 H7 H8] Ea Eb. unfold aside in Ea. injection Ea as E1 E2 E3 E4 E5 E6.
  assert (Hlk : ∀ h hy', h ∈ act → hybis r' !! h = Some hy' →
    ∃ hy, hybis r !! h = Some hy ∧ talk hy' = talk hy).
  { intros h hy' Hh Hhy. specialize (Eb h Hh). rewrite Hhy in Eb. simpl in Eb.
    symmetry in Eb. apply fmap_Some in Eb as (hy & ? & ?). eauto. }
  assert (Hc : ∀ h, h ∈ act → comet_of r' h = comet_of r h).
  { intros h Hh. specialize (Eb h Hh). unfold comet_of.
    destruct (hybis r' !! h), (hybis r !! h); try done. apply (inj Some) in Eb. by injection Eb. }
  assert (Hrt : dom (routes r') = dom (routes r)).
  { by rewrite <- (dom_fmap_L static_route), E5, dom_fmap_L. }
  split; rewrite ?E1, ?E2, ?E3; try done.
  - intros h hy' Hh Hhy. destruct (Hlk h hy' Hh Hhy) as (hy & Hhy0 & E).
    specialize (H1 h hy Hh Hhy0). by injection E as -> -> ->.
  - destruct H2 as (E & Hd & Hs). exists E. split; [done|].
    replace (comet_items <$> filter (λ p : nat * hybi, p.1 ∈ act) (hybis r'))
      with (comet_items <$> filter (λ p : nat * hybi, p.1 ∈ act) (hybis r)); [done|].
    apply map_eq. intros h. rewrite !lookup_fmap, !map_lookup_filter. specialize (Eb h).
    destruct (decide (h ∈ act)) as [Hh|Hh].
    + specialize (Eb Hh). destruct (hybis r' !! h) as [a|], (hybis r !! h) as [b|]; try done; simpl.
      rewrite !option_guard_True by done. simpl. apply (inj Some) in Eb. injection Eb as _ _ Eb.
      unfold comet_items. by rewrite Eb.
    + destruct (hybis r' !! h), (hybis r !! h); simpl; rewrite ?option_guard_False by done; done.
  - intros h c Hh. rewrite (Hc h Hh). by apply H3.
  - intros h c q Hh. rewrite (Hc h Hh). intros Hc' Hq.
    destruct (H5 h c q Hh Hc' Hq) as (rq & Hrq & [W1 W2 W3]). exists rq. split; [done|].
    split; [done| |done]. by rewrite Hrt.
  - intros q rq h Hq Hh. destruct (H6 q rq h Hq Hh) as [Ha (c & Hc' & ?)]. split; [done|].
    exists c. by rewrite (Hc h Ha).
  - intros q rq Hq. unfold preqs. rewrite E6. by apply (H7 q rq).
  - intros b m q Hb Hm. assert (Hp : posted (bmsgs r') !! b = Some m).
    { unfold posted. apply map_lookup_filter_Some. split; [done|]. simpl. by rewrite Hm. }
    rewrite E6 in Hp. unfold posted in Hp. apply map_lookup_filter_Some in Hp as [Hp _]. by eapply H8.
Qed.

Lemma comets_ok_frame act r r' :
  comets_ok act r → aside r' = aside r →
  (∀ h, h ∈ act → bare <$> hybis r' !! h = bare <$> hybis r !! h) → comets_ok act r'.
Proof.
  intros Hok Ha Hb. apply (comets_ok_talk act r); [done|done|]. intros h Hh. specialize (Hb h Hh).
  destruct (hybis r' !! h) as [a|], (hybis r !! h) as [b|]; try done. apply (inj Some) in Hb. simpl.
  destruct a, b. injection Hb as. unfold talk. simpl in *. by subst.
Qed.
End comet_frames.

(** ** Lemmas: replies *)
Definition off_wire (e : event) : Prop := match e with ZmqSend _ _ _ _ => False | _ => True end.

Lemma wire_off s tr l : Forall off_wire l → wire s (tr ++ l) = wire s tr.
Proof.
  intros Hl. rewrite wire_app. generalize (wire s tr). induction Hl as [|e l He Hl IH]; intros w; [done|].
  simpl. rewrite IH. by destruct e.
Qed.

Section replies.
Context `{LogLevel, Malloc, Env}.
Hypothesis Hdate : ∀ req, is_Some (http_date req).
Implicit Types (r : root).

(** [r] after the events [l]. *)
Definition noted r (l : list event) : root := r <| trace := trace r ++ l |>.

Lemma noted_nil r : noted r [] = r.
Proof. unfold noted. rewrite app_nil_r. by destruct r. Qed.

Lemma noted_noted r l l' : noted (noted r l) l' = noted r (l ++ l').
Proof. unfold noted. simpl. by rewrite app_assoc. Qed.

(** Operations that only add events, of the kind [P]. *)
Definition notes (P : event → Prop) {A} (m : MR A) r (a : A) : Prop :=
  ∃ l, Forall P l ∧ m r = Ok a (noted r l).

Definition header_of (req : addr) (e : event) : Prop := ∃ name value, e = ReqHeader req name value.

Lemma header_off_wire req e : header_of req e → off_wire e.
Proof. by intros (? & ? & ->). Qed.

Lemma wp_notes P {A} (m : MR A) r a (Q : A → root → Prop) :
  notes P m r a → (∀ l, Forall P l → Q a (noted r l)) → wp m Q r.
Proof. intros (l & Hl & E) HQ. unfold wp. rewrite E. by apply HQ. Qed.

Section notes.
Context (P : event → Prop).

Lemma notes_pure {A} (m : MR A) r a : m r = Ok a r → notes P m r a.
Proof. intros E. exists []. split; [constructor|]. by rewrite noted_nil. Qed.

Lemma notes_emit e r : P e → notes P (emit e) r tt.
Proof. intros He. exists [e]. split; [by constructor|done]. Qed.

Lemma notes_bind {A B} (m : MR A) (k : A → MR B) r a b :
  notes P m r a → (∀ l, Forall P l → notes P (k a) (noted r l) b) → notes P (m ≫= k) r b.
Proof.
  intros (l & Hl & E) Hk. destruct (Hk l Hl) as (l' & Hl' & E').
  exists (l ++ l'). split; [by apply Forall_app|]. unfold mbind, M_bind. by rewrite E, E', noted_noted.
Qed.

Lemma notes_mfor {A} (l : list A) (f : A → MR unit) r :
  (∀ a r, notes P (f a) r tt) → notes P (mfor l f) r tt.
Proof.
  intros Hf. revert r. induction l as [|a l IH]; intros r; simpl; [by apply notes_pure|].
  eapply notes_bind; [apply Hf|]. intros; apply IH.
Qed.

Lemma notes_request r req q : requests r !! req = Some q → notes P (get_request req) r q.
Proof. intros Hq. apply notes_pure. unfold get_request, mbind, M_bind. simpl. by rewrite Hq. Qed.
Lemma notes_route r rid rt : routes r !! rid = Some rt → notes P (get_route rid) r rt.
Proof. intros Hq. apply notes_pure. unfold get_route, mbind, M_bind. simpl. by rewrite Hq. Qed.

Lemma notes_SNIMPL r : notes P (SNIMPL false) r tt.
Proof. by apply notes_pure. Qed.
End notes.

Ltac notes_step :=
  lazymatch goal with
  | |- notes _ (ws_add_header _ _ _) _ _ => apply notes_emit; first [done|by do 2 eexists]
  | |- notes _ (ws_statusline _ _) _ _ => by apply notes_emit
  | |- notes _ (ws_reply_data _ _) _ _ => by apply notes_emit
  | |- notes _ (get_request _) _ _ => apply notes_request; eassumption
  | |- notes _ (get_route _) _ _ => apply notes_route; eassumption
  | |- notes _ (mret _) _ _ => by apply notes_pure
  | |- notes _ get _ _ => by apply notes_pure
  | |- notes _ (mbind _ _) _ _ => eapply notes_bind; [|intros ? ?]
  end; cbn beta.

Lemma notes_set_headers r req q rid :
  requests r !! req = Some q → rq_route q = Some rid → rid ∈ dom (routes r) →
  notes (header_of req) (set_headers req) r tt.
Proof.
  intros Hq Hr [rt Hrt]%elem_of_dom. unfold set_headers, http_common_headers.
  destruct (Hdate req) as [date Hd]. rewrite Hd.
  eapply notes_bind; [repeat notes_step|]. intros l Hl. cbn beta.
  eapply notes_bind; [apply notes_SNIMPL|]. intros l1 Hl1. cbn beta.
  repeat notes_step; rewrite ?Hr; [by apply notes_pure|..].
  { apply notes_mfor; intros; apply notes_emit; by do 2 eexists. }
  - destruct (rt_allow_origins rt), (rq_origin q); repeat notes_step.
  - destruct (rt_timestamps rt); repeat notes_step.
Qed.

Lemma notes_mono (P P' : event → Prop) {A} (m : MR A) r a :
  (∀ e, P e → P' e) → notes P m r a → notes P' m r a.
Proof. intros HP (l & Hl & E). exists l. split; [|done]. by eapply Forall_impl. Qed.

(** Releasing a request that is not in the table of forwarded ones. *)
Lemma wp_request_free r req q (Q : unit → root → Prop) :
  requests r !! req = Some q → Z.land (rq_flags q) REQ_IN_SIEVE = 0%Z →
  (∀ st, Q tt (noted (r <| stat := st |> <| requests := delete req (requests r) |>) [ReqFree req])) →
  wp (request_free req) Q r.
Proof.
  intros Hq Hf HQ. unfold request_free, request_finish. root_steps; rewrite Hf in *; [done|].
  eapply wp_get_request; [apply lookup_insert_eq|].
  root_steps; simpl; rewrite delete_insert_eq; apply HQ.
Qed.

(** One reference of it. *)
Lemma wp_REQ_DECREF r req q (Q : unit → root → Prop) :
  requests r !! req = Some q → (0 < rq_refcnt q < 2 ^ 31)%Z → Z.land (rq_flags q) REQ_IN_SIEVE = 0%Z →
  ((1 < rq_refcnt q)%Z →
     Q tt (r <| requests := <[req := q <| rq_refcnt := (rq_refcnt q - 1)%Z |>]> (requests r) |>)) →
  (rq_refcnt q = 1%Z → ∀ st,
     Q tt (noted (r <| stat := st |> <| requests := delete req (requests r) |>) [ReqFree req])) →
  wp (REQ_DECREF req) Q r.
Proof.
  intros Hq Hc Hf Hk Hl. unfold REQ_DECREF. apply wp_bind. eapply wp_set_request; [done|]. cbn beta.
  assert (q <| rq_refcnt ::= λ n, i32 (n - 1) |> = q <| rq_refcnt := (rq_refcnt q - 1)%Z |>) as ->.
  { simpl. by rewrite i32_small by lia. }
  apply wp_bind.
  eapply wp_get_request; [apply lookup_insert_eq|]. unfold whenb.
  lazymatch goal with |- wp (if ?b then _ else _) _ _ => change b with (rq_refcnt q - 1 =? 0)%Z end.
  destruct (Z.eqb_spec (rq_refcnt q - 1) 0) as [E|E].
  - eapply wp_request_free; [apply lookup_insert_eq|exact Hf|]. intros st. simpl.
    rewrite delete_insert_eq. apply Hl. lia.
  - apply wp_ret, Hk. lia.
Qed.

Lemma preqs_pos ms b m q : ms !! b = Some m → b_msg m = PRequest q → 0 < preqs ms q.
Proof.
  intros Hb Hm. unfold preqs. destruct (base.size _) eqn:E; [|lia]. exfalso.
  apply map_size_empty_inv in E. eapply map_filter_empty_not_lookup with (x := m) in E; [|exact Hm].
  apply E. unfold posted. apply map_lookup_filter_Some. split; [exact Hb|]. simpl. by rewrite Hm.
Qed.

(** Letting go of the request that [h] holds. *)
Lemma comets_ok_release act r r' h hy c req q :
  comets_ok act r → h ∈ act → hybis r !! h = Some hy → h_comet hy = Some c →
  cur_request c = Some req → requests r !! req = Some q →
  (∃ hs, hybis r' = <[h := hy <| h_comet := Some hs |>]> (hybis r) ∧
     c_queue hs = c_queue c ∧ first_index hs = first_index c ∧ overflow hs = overflow c ∧ cur_request hs = None) →
  (requests r' = delete req (requests r) ∧ rq_refcnt q = 1%Z ∨
   ∃ q', requests r' = <[req := q']> (requests r) ∧ rq_hybi q' = None ∧
     rq_refcnt q' = (rq_refcnt q - 1)%Z ∧ (1 < rq_refcnt q)%Z ∧ rq_body q' = rq_body q) →
  fmsgs r' = fmsgs r → frontend_arena r' = frontend_arena r → bmsgs r' = bmsgs r →
  dom (routes r') = dom (routes r) →
  comets_ok act r' ∧ same_bodies r r'.
Proof.
  intros [H1' H2' H3 H4 H5 H6 H7 H8] Hact Hh Hhc Hcur Hreq (hs & Ehs & Eq & Ef & Eo & Ecur) Hrel E1 E2 E3 E4.
  assert (Hco : comet_of r h = Some c) by (unfold comet_of; rewrite Hh; done).
  assert (Hcof : ∀ h', comet_of r' h' = if decide (h' = h) then Some hs else comet_of r h').
  { intros h'. unfold comet_of. rewrite Ehs. case_decide as E; [subst|by rewrite lookup_insert_ne].
    by rewrite lookup_insert_eq. }
  destruct (H5 h c req Hact Hco Hcur) as (q0 & Hq0 & Hw). rewrite Hreq in Hq0. injection Hq0 as <-.
  destruct (H7 req q Hreq) as [Hrc _]. rewrite (wt_hybi _ _ _ Hw) in Hrc. simpl in Hrc.
  assert (Hlk : ∀ q1 rq, q1 ≠ req → requests r' !! q1 = Some rq ↔ requests r !! q1 = Some rq).
  { intros q1 rq Hne. destruct Hrel as [[-> _]|(q' & -> & _)];
      [by rewrite lookup_delete_ne|by rewrite lookup_insert_ne]. }
  assert (Hgone : ∀ b m, bmsgs r !! b = Some m → b_msg m = PRequest req → rq_refcnt q ≠ 1%Z).
  { intros b m Hb Hm. pose proof (preqs_pos _ _ _ _ Hb Hm). lia. }
  split; [split|]; rewrite ?E1, ?E2, ?E3; try done.
  - intros h' hy' Ha'. rewrite Ehs, lookup_insert_Some. intros [[<- <-]|[_ Hh']]; [|by eapply H1'].
    specialize (H1' h hy Ha' Hh). simpl. destruct (h_type hy); [|by eexists].
    rewrite Hhc in H1'. by destruct H1'.
  - destruct H2' as (E & Hd & Hs). exists E. split; [done|].
    replace (comet_items <$> filter (λ p : nat * hybi, p.1 ∈ act) (hybis r'))
      with (comet_items <$> filter (λ p : nat * hybi, p.1 ∈ act) (hybis r)); [done|].
    rewrite Ehs, map_filter_insert_True by done. symmetry. apply fmap_insert_same with hy.
    + by apply map_lookup_filter_Some.
    + unfold comet_items. simpl. by rewrite Hhc, Eq.
  - intros h' c' Ha'. rewrite Hcof. case_decide as E; [|by apply H3]. intros [= <-]. subst h'.
    destruct (H3 h c Hact Hco) as [C1 C2 C3]. split; rewrite ?Eq, ?Ef, ?Eo; done.
  - intros h' c' q' Ha'. rewrite Hcof. case_decide as E; [intros [= <-]; by rewrite Ecur|].
    intros Hc' Hcq. destruct (H5 h' c' q' Ha' Hc' Hcq) as (rq & Hrq & [W1 W2 W3]).
    exists rq. split; [|split; [done|by rewrite E4|done]]. apply Hlk; [|done].
    intros ->. destruct Hw as [W _ _]. rewrite Hreq in Hrq. simplify_eq.
  - intros q1 rq h1 Hq1 Hh1. destruct (decide (q1 = req)) as [->|Hne].
    { destruct Hrel as [[Er _]|(q' & Er & Hn & _)]; rewrite Er in Hq1.
      - by rewrite lookup_delete_eq in Hq1.
      - rewrite lookup_insert_eq in Hq1. injection Hq1 as <-. congruence. }
    apply Hlk in Hq1; [|done]. destruct (H6 q1 rq h1 Hq1 Hh1) as [Ha1 (c1 & Hc1 & Hcq1)].
    split; [done|]. exists c1. rewrite Hcof. rewrite decide_False by (intros ->; congruence). done.
  - intros q1 rq Hq1. destruct (decide (q1 = req)) as [->|Hne]; [|apply H7; by apply Hlk].
    destruct Hrel as [[Er _]|(q' & Er & Hn & Hc' & Hgt & _)]; rewrite Er in Hq1.
    { by rewrite lookup_delete_eq in Hq1. }
    rewrite lookup_insert_eq in Hq1. injection Hq1 as <-. rewrite Hn, Hc'. simpl.
    destruct (H7 req q Hreq) as [_ ?]. lia.
  - intros b m q1 Hb Hm. destruct (decide (q1 = req)) as [->|Hne].
    + destruct Hrel as [[_ He]|(q' & Er & _)]; [by destruct (Hgone b m Hb Hm)|].
      rewrite Er, lookup_insert_eq. eauto.
    + destruct (H8 b m q1 Hb Hm) as [rq Hrq]. exists rq. by apply Hlk.
  - intros b m q1 Hb Hm. destruct (decide (q1 = req)) as [->|Hne].
    + destruct Hrel as [[_ He]|(q' & Er & _ & _ & _ & Hbd)]; [by destruct (Hgone b m Hb Hm)|].
      rewrite Er, lookup_insert_eq, Hreq. simpl. by rewrite Hbd.
    + destruct Hrel as [[-> _]|(q' & -> & _)]; [by rewrite lookup_delete_ne|by rewrite lookup_insert_ne].
Qed.

(** A holder of [req], which is [q], lets go of it. *)
Definition let_go (req : addr) (q : request) (rqs rqs' : gmap nat request) (l : list event) : Prop :=
  rq_refcnt q = 1%Z ∧ rqs' = delete req rqs ∧ l = [ReqFree req] ∨
  (1 < rq_refcnt q)%Z ∧ l = [] ∧
  rqs' = <[req := q <| rq_hybi := None |> <| rq_refcnt := (rq_refcnt q - 1)%Z |>]> rqs.

Lemma let_go_off_wire req q rqs rqs' l : let_go req q rqs rqs' l → Forall off_wire l.
Proof. intros [(_ & _ & ->)|(_ & -> & _)]; by repeat constructor. Qed.

Lemma wp_drop_request r req q (Q : unit → root → Prop) :
  requests r !! req = Some q → (0 < rq_refcnt q < 2 ^ 31)%Z → Z.land (rq_flags q) REQ_IN_SIEVE = 0%Z →
  (∀ st l rqs, let_go req q (requests r) rqs l →
     Q tt (noted (r <| stat := st |> <| requests := rqs |>) l)) →
  wp (set_request req (λ q, q <| rq_hybi := None |>);; REQ_DECREF req) Q r.
Proof.
  intros Hq Hc Hf HQ. root_steps. eapply wp_REQ_DECREF; [apply lookup_insert_eq|done|done|..].
  - intros Hgt. specialize (HQ (stat r) [] _ (or_intror (conj Hgt (conj eq_refl eq_refl)))).
    rewrite noted_nil in HQ. simpl. rewrite insert_insert_eq. by destruct r.
  - intros He st. simpl. rewrite delete_insert_eq. apply HQ. by left.
Qed.

(** [req] was let go of by its connection; [tl] says whether that was the end of it. *)
Record released r r' (req : addr) (tl : list event) : Prop := {
  rl_others : ∀ q', q' ≠ req → requests r' !! q' = requests r !! q';
  rl_self : ∃ q, requests r !! req = Some q ∧
    (rq_refcnt q = 1%Z ∧ requests r' !! req = None ∧ tl = [ReqFree req] ∨
     (1 < rq_refcnt q)%Z ∧ tl = [] ∧ ∃ q', requests r' !! req = Some q' ∧ rq_hybi q' = None ∧
       rq_refcnt q' = (rq_refcnt q - 1)%Z);
}.

Lemma let_go_released r r' req q q1 l :
  requests r !! req = Some q → rq_refcnt q1 = rq_refcnt q →
  let_go req q1 (<[req := q1]> (requests r)) (requests r') l → released r r' req l.
Proof.
  intros Hq Hc [(E & Er & ->)|(E & -> & Er)].
  - rewrite delete_insert_eq in Er.
    split; [intros q' Hne; by rewrite Er, lookup_delete_ne|].
    exists q. split; [done|]. left. rewrite Er, lookup_delete_eq. split_and!; congruence.
  - split; [intros q' Hne; rewrite Er, insert_insert_eq; by apply lookup_insert_ne|].
    exists q. split; [done|]. right. rewrite Er, insert_insert_eq, lookup_insert_eq.
    split; [lia|]. split; [done|]. eexists. split; [done|]. simpl. split; [done|lia].
Qed.

(** What ending the request [req] of [h] changes. *)
Record replied r r' (req : addr) (h : addr) (hy : hybi) (c : comet) : Prop := {
  rp_beside : beside r r';
  rp_hybis : hybis r' = <[h := hy <| h_comet := Some c |>]> (hybis r);
  rp_queue : fmsgs r' = fmsgs r ∧ frontend_arena r' = frontend_arena r;
  rp_request : ∃ tl, released r r' req tl;
}.

Lemma beside_intro r r' h hy c l :
  server_side r' = server_side r → hybis r !! h = Some hy →
  hybis r' = <[h := hy <| h_comet := Some c |>]> (hybis r) → same_bodies r r' →
  trace r' = trace r ++ l → Forall off_wire l → beside r r'.
Proof.
  intros E1 Hh E2 E3 E4 Hl. split; [done| |done|intros s; rewrite E4; by apply wire_off].
  rewrite E2. by apply fmap_insert_same with hy.
Qed.

(** The end of every reply: [c1] is the session without the request. *)
Lemma wp_end_request act r r1 h hy c c1 req q q1 l (Q : unit → root → Prop) :
  full_ok act r → h ∈ act → hybis r !! h = Some hy → h_comet hy = Some c →
  cur_request c = Some req → requests r !! req = Some q →
  server_side r1 = server_side r → hybis r1 = <[h := hy <| h_comet := Some c1 |>]> (hybis r) →
  fmsgs r1 = fmsgs r → frontend_arena r1 = frontend_arena r →
  requests r1 = <[req := q1]> (requests r) → trace r1 = trace r ++ l → Forall off_wire l →
  c_queue c1 = c_queue c → first_index c1 = first_index c → overflow c1 = overflow c →
  rq_refcnt q1 = rq_refcnt q → rq_body q1 = rq_body q → Z.land (rq_flags q1) REQ_IN_SIEVE = 0%Z →
  (∀ r2 tl, hybis r2 = hybis r1 → trace r2 = trace r1 ++ tl → let_go req q1 (requests r1) (requests r2) tl →
     (∀ r', (∃ c2, hybis r' = <[h := hy <| h_comet := Some c2 |>]> (hybis r) ∧
               c_queue c2 = c_queue c ∧ first_index c2 = first_index c ∧ overflow c2 = overflow c ∧
               cur_request c2 = None) →
        r' = r2 <| hybis := hybis r' |> →
        full_ok act r' ∧ ∀ hs, h_comet <$> hybis r' !! h = Some (Some hs) → replied r r' req h hy hs) →
     Q tt r2) →
  wp (set_request req (λ q, q <| rq_hybi := None |>);; REQ_DECREF req) Q r1.
Proof.
  intros [Hsv Hcm] Hact Hh Hhc Hcur Hreq Es Eh Ef Ea Er Et Hl Eq Efi Eov Erc Ebd Hfl HQ.
  assert (Hrc := cm_refs _ _ Hcm _ _ Hreq).
  eapply wp_drop_request; [by rewrite Er, lookup_insert_eq|rewrite Erc; apply Hrc|done|].
  intros st l' rqs Hrqs. pose proof (let_go_off_wire _ _ _ _ _ Hrqs) as Hl'.
  apply (HQ _ l'); [done|done|done|]. intros r' (c2 & Eh2 & C1 & C2 & C3 & C4) Er'.
  assert (Hside : server_side r' = server_side r1) by by rewrite Er'.
  assert (Hrel : requests r' = delete req (requests r) ∧ rq_refcnt q = 1%Z ∨
    ∃ q', requests r' = <[req := q']> (requests r) ∧ rq_hybi q' = None ∧
      rq_refcnt q' = (rq_refcnt q - 1)%Z ∧ (1 < rq_refcnt q)%Z ∧ rq_body q' = rq_body q).
  { rewrite Er'. simpl. rewrite Er in Hrqs. destruct Hrqs as [(? & -> & _)|(? & _ & ->)]; [left|right].
    - rewrite delete_insert_eq. split; [done|congruence].
    - rewrite insert_insert_eq. eexists. split; [done|]. simpl. split_and!; [done|congruence..]. }
  assert (Hcm' : comets_ok act r' ∧ same_bodies r r').
  { eapply comets_ok_release; try done; [by exists c2|by rewrite Er'|by rewrite Er'|rewrite Er'; simpl|].
    - unfold server_side in Es. by injection Es.
    - rewrite Er'. simpl. unfold server_side in Es. injection Es as _ _ _ _ _ _ _ _ _ _ _ -> _. done. }
  destruct Hcm' as [Hcm' Hsb].
  assert (Hbs : beside r r').
  { apply (beside_intro r r' h hy c2 (l ++ l')); try done.
    - by rewrite Hside.
    - rewrite Er'. simpl. by rewrite Et, app_assoc.
    - by apply Forall_app. }
  split; [split; [by apply (server_ok_beside act r r')|done]|].
  intros hs Hhs. rewrite Eh2, lookup_insert_eq in Hhs. simpl in Hhs. injection Hhs as <-.
  split; [done|done|by rewrite Er'|]. exists l'.
  apply (let_go_released r r' req q q1 l'); [done|done|]. rewrite Er'. simpl. by rewrite <- Er.
Qed.

Lemma wp_get_comet r h hy c (Q : comet → root → Prop) :
  hybis r !! h = Some hy → h_comet hy = Some c → Q c r → wp (get_comet h) Q r.
Proof. intros Hh Hc HQ. unfold get_comet. root_steps. done. Qed.

Lemma wp_set_comet r h hy c f (Q : unit → root → Prop) :
  hybis r !! h = Some hy → h_comet hy = Some c →
  Q tt (r <| hybis := <[h := hy <| h_comet := Some (f c) |>]> (hybis r) |>) → wp (set_comet h f) Q r.
Proof. intros Hh Hc HQ. unfold set_comet. root_steps. done. Qed.

Lemma flags_keep_sieve act r h c req q :
  comets_ok act r → h ∈ act → comet_of r h = Some c → cur_request c = Some req →
  requests r !! req = Some q → waiting_ok r h q.
Proof.
  intros Hcm Hact Hc Hcur Hq. destruct (cm_wait _ _ Hcm _ _ _ Hact Hc Hcur) as (q' & Hq' & ?).
  congruence.
Qed.

Lemma comet_of_hybi r h hy c : hybis r !! h = Some hy → comet_of r h = Some c → h_comet hy = Some c.
Proof. intros Hh. unfold comet_of. by rewrite Hh. Qed.

Lemma wp_seq2 {A B C} (a : MR A) (b : MR B) (k : MR C) Q r :
  wp (a;; b) (λ _, wp k Q) r → wp (a;; b;; k) Q r.
Proof.
  unfold wp, mbind, M_bind. destruct (a r) as [? r1| | |]; [|done..]. by destruct (b r1).
Qed.

(** [q1] is what the request looks like by now. *)
Definition alike (q q1 : request) : Prop :=
  rq_refcnt q1 = rq_refcnt q ∧ rq_body q1 = rq_body q ∧ rq_flags q1 = rq_flags q ∧ rq_route q1 = rq_route q.

(** The end of a reply that was written in the state [r] with other counters. *)
Lemma wp_finish_reply act r st h hy c req q q1 l (Q : unit → root → Prop) :
  full_ok act r → h ∈ act → hybis r !! h = Some hy → h_comet hy = Some c →
  cur_request c = Some req → requests r !! req = Some q → alike q q1 → Forall off_wire l →
  (∀ r', full_ok act r' → replied r r' req h hy (c <| cur_request := None |>) → Q tt r') →
  wp (set_request req (λ q, q <| rq_hybi := None |>);;
      REQ_DECREF req;;
      set_comet h (λ c, c <| cur_request := None |>)) Q
     (noted (r <| stat := st |> <| requests := <[req := q1]> (requests r) |>) l).
Proof.
  intros Hok Hact Hh Hhc Hcur Hreq (A1 & A2 & A3 & A4) Hl HQ. pose proof Hok as [_ Hcm].
  assert (Hco : comet_of r h = Some c) by (unfold comet_of; by rewrite Hh).
  pose proof (flags_keep_sieve act r h c req q Hcm Hact Hco Hcur Hreq) as [W1 W2 W3].
  apply wp_seq2. eapply (wp_end_request act r _ h hy c c req q q1 l); try done.
  { simpl. rewrite insert_id; [done|]. rewrite Hh. destruct hy; simpl in *; by subst. }
  { by rewrite A3. }
  intros r2 tl E2 _ _ Hfin. simpl in E2. eapply wp_set_comet; [by rewrite E2|done|].
  set (r' := r2 <| hybis := _ |>).
  destruct (Hfin r') as [Hok' Hrep].
  { exists (c <| cur_request := None |>). split; [|done]. unfold r'. simpl. by rewrite E2. }
  { done. }
  apply HQ; [done|]. apply Hrep. unfold r'. simpl. by rewrite lookup_insert_eq.
Qed.

Ltac note_step :=
  apply wp_bind; eapply (wp_notes off_wire); [notes_step|]; intros ? ?; cbn beta; rewrite ?noted_noted.

Lemma wp_empty_reply act r h hy c req :
  full_ok act r → h ∈ act → hybis r !! h = Some hy → h_comet hy = Some c → cur_request c = Some req →
  wp (empty_reply h) (λ _ r', full_ok act r' ∧ replied r r' req h hy (c <| cur_request := None |>)) r.
Proof.
  intros Hok Hact Hh Hhc Hcur. pose proof Hok as [_ Hcm].
  assert (Hco : comet_of r h = Some c) by (unfold comet_of; by rewrite Hh).
  destruct (cm_wait _ _ Hcm _ _ _ Hact Hco Hcur) as (q & Hq & [_ (rid & Hr & Hrt) _]).
  unfold empty_reply. apply wp_bind, wp_count. cbn beta. apply wp_bind.
  eapply wp_get_comet; [done..|]. apply wp_bind. rewrite Hcur. apply wp_ret.
  apply wp_bind. eapply wp_set_request; [done|]. cbn beta. do 2 note_step.
  apply wp_bind. eapply (wp_notes off_wire);
    [eapply notes_mono; [apply header_off_wire|eapply notes_set_headers; [apply lookup_insert_eq|done|done]]|].
  intros ? ?. cbn beta. rewrite ?noted_noted. note_step.
  eapply (wp_finish_reply act r _ h hy c req q); try done. by repeat (apply Forall_app; split).
Qed.

(** The request may be one that does not know its connection yet. *)
Lemma wp_close_reply act r h hy c req q q1 :
  full_ok act r → h ∈ act → hybis r !! h = Some hy → h_comet hy = Some c → cur_request c = Some req →
  requests r !! req = Some q → alike q q1 →
  wp (close_reply h) (λ _ r', full_ok act r' ∧ replied r r' req h hy (c <| cur_request := None |>))
     (r <| requests := <[req := q1]> (requests r) |>).
Proof.
  intros Hok Hact Hh Hhc Hcur Hq Hal. pose proof Hok as [_ Hcm].
  assert (Hco : comet_of r h = Some c) by (unfold comet_of; by rewrite Hh).
  destruct (flags_keep_sieve act r h c req q Hcm Hact Hco Hcur Hq) as [_ (rid & Hr & Hrt) _].
  destruct Hal as (A1 & A2 & A3 & A4). unfold close_reply. apply wp_bind.
  eapply wp_get_comet; [done..|]. apply wp_bind. rewrite Hcur. apply wp_ret.
  apply wp_bind. eapply wp_set_request; [apply lookup_insert_eq|]. cbn beta. do 3 note_step.
  apply wp_bind. eapply (wp_notes off_wire);
    [eapply notes_mono; [apply header_off_wire|
      eapply notes_set_headers; [apply lookup_insert_eq|simpl; by rewrite A4|done]]|].
  intros ? ?. cbn beta. rewrite ?noted_noted. note_step.
  set (q2 := q1 <| rq_timeout_active := false |>).
  replace (_ <| requests ::= _ |>)
    with (r <| stat := stat r |> <| requests := <[req := q2]> (requests r) |>)
    by (destruct r; simpl; by rewrite insert_insert_eq).
  eapply (wp_finish_reply act r _ h hy c req q q2); try done. by repeat (apply Forall_app; split).
Qed.

(** *** Closing *)

Lemma close_fmsgs l r : mfor l close_fmsg r = Ok tt (r <| fmsgs := without l (fmsgs r) |>).
Proof.
  revert r. induction l as [|m l IH]; intros r; cbn [mfor].
  - rewrite without_nil. by destruct r.
  - unfold mbind, M_bind, close_fmsg at 1, modify. rewrite IH. simpl. by rewrite without_cons.
Qed.

Lemma dom_without {A} l (m : gmap nat A) : dom (without l m) = dom m ∖ list_to_set l.
Proof.
  apply set_eq. intros i. rewrite elem_of_difference, elem_of_list_to_set, !elem_of_dom.
  unfold is_Some. setoid_rewrite lookup_without. naive_solver.
Qed.

(** A connection without a request is forgotten together with its messages. *)
Lemma comets_ok_forget act r r' h hy c c' :
  comets_ok act r → h ∈ act → hybis r !! h = Some hy → h_comet hy = Some c → cur_request c = None →
  hybis r' = <[h := hy <| h_comet := Some c' |>]> (hybis r) →
  fmsgs r' = without (q_items (c_queue c)) (fmsgs r) → frontend_arena r' = frontend_arena r →
  requests r' = requests r → bmsgs r' = bmsgs r → routes r' = routes r →
  comets_ok (act ∖ {[h]}) r'.
Proof.
  intros [H1' H2' H3 H4 H5 H6 H7 H8] Hact Hh Hhc Hcur Ehs Ef Ea Er Eb Ert.
  assert (Hlk : ∀ h', h' ≠ h → hybis r' !! h' = hybis r !! h').
  { intros h' Hne. by rewrite Ehs, lookup_insert_ne. }
  assert (Hcof : ∀ h', h' ≠ h → comet_of r' h' = comet_of r h').
  { intros h' Hne. unfold comet_of. by rewrite Hlk. }
  assert (Hset : ∀ h', h' ∈ act ∖ {[h]} → h' ∈ act ∧ h' ≠ h) by set_solver.
  split; rewrite ?Ea, ?Er, ?Eb, ?Ert; try done.
  - intros h' hy' [Ha Hne]%Hset. rewrite Hlk by done. by apply H1'.
  - destruct H2' as (E & Hd & Hs). exists (without (q_items (c_queue c)) E).
    split; [by rewrite dom_without, Hd, Ef, dom_without|].
    replace (comet_items <$> filter (λ p : nat * hybi, p.1 ∈ act ∖ {[h]}) (hybis r'))
      with (delete h (comet_items <$> filter (λ p : nat * hybi, p.1 ∈ act) (hybis r))).
    + apply side_drop; [done|]. rewrite lookup_fmap.
      assert (filter (λ p : nat * hybi, p.1 ∈ act) (hybis r) !! h = Some hy) as ->
        by by apply map_lookup_filter_Some.
      simpl. f_equal. unfold comet_items. by rewrite Hhc.
    + apply map_eq. intros h'. destruct (decide (h' = h)) as [->|Hne].
      * rewrite lookup_delete_eq, lookup_fmap, map_lookup_filter, Ehs, lookup_insert_eq. simpl.
        rewrite option_guard_False; [done|set_solver].
      * rewrite lookup_delete_ne, !lookup_fmap, !map_lookup_filter, Hlk by done.
        destruct (hybis r !! h') as [a|]; [|done]. simpl.
        destruct (decide (h' ∈ act)).
        -- rewrite !option_guard_True; [done|set_solver..].
        -- rewrite !option_guard_False; [done|set_solver..].
  - intros h' c0 [Ha Hne]%Hset. rewrite Hcof by done. by apply H3.
  - destruct H4 as (own & Hsub & Hp). exists own. split; [|done]. rewrite Ef, dom_without. set_solver.
  - intros h' c0 q [Ha Hne]%Hset. rewrite Hcof by done. intros Hc0 Hq.
    destruct (H5 h' c0 q Ha Hc0 Hq) as (rq & ? & [W1 W2 W3]). exists rq. split; [done|].
    split; [done|by rewrite Ert|done].
  - intros q rq h' Hq Hh'. destruct (H6 q rq h' Hq Hh') as [Ha (c0 & Hc0 & Hcq)].
    assert (Hne : h' ≠ h).
    { intros ->. unfold comet_of in Hc0. rewrite Hh in Hc0. simpl in Hc0. congruence. }
    split; [set_solver|]. exists c0. by rewrite Hcof.
Qed.

Lemma beside_subs r r' : beside r r' → subs r' = subs r ∧ keys r' = keys r ∧ outputs r' = outputs r.
Proof.
  intros [Hs _ _ _]. unfold server_side in Hs. injection Hs as _ _ _ _ E1 _ E2 _ E3 _ _ _ _.
  unfold keys. by rewrite E1.
Qed.

Lemma beside_fixed r r' :
  beside r r' → dom (socks r') = dom (socks r) ∧ static_route <$> routes r' = static_route <$> routes r.
Proof. intros [Hs _ _ _]. unfold server_side in Hs. by injection Hs as _ _ _ _ _ _ _ _ _ _ _ -> ->. Qed.

Lemma gone_beside act r r1 r2 h hy hy1 :
  server_ok act r → beside r r1 → plain hy1 = plain hy →
  (∀ c, c ≠ h → bare <$> hybis r1 !! c = bare <$> hybis r !! c) →
  gone r1 r2 h hy1 → gone r r2 h hy.
Proof.
  intros Hok Hbs Hhy Hcs [G1 G2 G3 G4 G5 G6]. destruct (beside_subs _ _ Hbs) as (E1 & E2 & E3).
  destruct (server_ok_beside act r r1 Hok Hbs) as [_ Hst].
  split.
  - intros c rid name. rewrite G1. unfold subscribed, named. by rewrite E1, E2.
  - intros c p s. rewrite G2. by rewrite E3.
  - intros s. destruct (G3 s) as [T1 T2]. rewrite E3 in *.
    assert (Eh : h_route hy1 = h_route hy) by by apply (f_equal h_route) in Hhy.
    rewrite Eh in *. assert (Esock : socks r1 = socks r).
    { pose proof (bs_server _ _ Hbs) as Hs. unfold server_side in Hs. by injection Hs. }
    replace (frames hy1 MSG_DISCONNECT []) with (frames hy MSG_DISCONNECT []) in T1.
    2:{ destruct hy, hy1. injection Hhy as. simpl in *. subst. done. }
    unfold told, full in *. rewrite Hst, Esock in *. done.
  - intros c Hc. rewrite G4 by done. by apply Hcs.
  - intros e s. by rewrite G5, E1.
  - destruct (beside_fixed _ _ Hbs) as [<- <-]. done.
Qed.

Hypothesis Hzmq : zmq_laws.

Lemma wp_free_comet act r h hy c :
  full_ok act r → h ∈ act → hybis r !! h = Some hy → h_comet hy = Some c → cur_request c = None →
  wp (free_comet h) (λ _ r', full_ok (act ∖ {[h]}) r' ∧ gone r r' h hy ∧
    fmsgs r' = without (q_items (c_queue c)) (fmsgs r) ∧ requests r' = requests r) r.
Proof.
  intros [Hsv Hcm] Hact Hh Hhc Hcur. unfold free_comet. apply wp_bind, wp_count. cbn beta.
  apply wp_bind. eapply wp_get_comet; [done..|]. apply wp_bind. rewrite Hcur.
  apply wp_ANIMPL; [done|]. apply wp_bind. eapply wp_set_comet; [done..|]. apply wp_bind.
  unfold wp at 1. rewrite close_fmsgs.
  match goal with |- wp _ _ ?r' => set (r1 := r') end.
  set (c' := c <| sendlater_active := false |> <| inactivity_active := false |>).
  set (hy' := hy <| h_comet := Some c' |>).
  assert (Hh1 : hybis r1 !! h = Some hy') by apply lookup_insert_eq.
  assert (Hbs : beside r r1).
  { apply (beside_intro r r1 h hy c' []); try done. by rewrite app_nil_r. }
  destruct (server_ok_beside act r r1 Hsv Hbs) as [Hsv1 _].
  assert (Hcm1 : comets_ok (act ∖ {[h]}) r1) by by apply (comets_ok_forget act r r1 h hy c c').
  eapply wp_mono; [by apply (wp_hybi_stop Hzmq act r1 h hy')|].
  intros _ r2 (Hsv2 & [Hg (Ha & _)]). split_and!; [split; [done|]| |exact (f_equal (λ a, a.1.1.1.1.1) Ha)|exact (f_equal (λ a, a.1.1.1.2) Ha)].
  - apply (comets_ok_frame (act ∖ {[h]}) r1); [done|done|].
    intros c0 Hc0. apply (cl_conns _ _ _ _ Hg). set_solver.
  - eapply (gone_beside act r r1 r2 h hy hy'); try done.
    intros c0 Hc0. simpl. by rewrite lookup_insert_ne.
Qed.
End replies.
