(* ===== verification/Session.v ===== *)
(** * Polling sessions (polling.c)

    What a polling connection promises: the messages accepted for it are kept in
    order until they are acknowledged, a reply carries the oldest of them, and
    a connection whose queue overflows is closed. *)

From S2P Require Import Prelude Sieve Pool MsgQueue Uidgen Links State Topics Backend Outputs Hybi.
From S2P Require Import CometArgs Request Comet.

(** The contents of the queue, oldest first. *)
Definition backlog (r : root) (c : comet) : list bytes :=
  omap (λ m, fmsgs r !! m) (q_items (c_queue c)).

(** What a session is to its browser. *)
Definition session_of (r : root) (h : addr) : option (Z * list bytes) :=
  c ← comet_of r h; Some (first_index c, backlog r c).

Definition item_lists (act : gset nat) (r : root) : gmap nat (list nat) :=
  comet_items <$> filter (λ p : nat * hybi, p.1 ∈ act) (hybis r).

(** ** Lemmas: changes to one session *)
Section changes.
Context `{LogLevel, Malloc, Env}.
Implicit Types (r : root).

Lemma item_lists_lookup act r h hy c :
  h ∈ act → hybis r !! h = Some hy → h_comet hy = Some c →
  item_lists act r !! h = Some (q_items (c_queue c)).
Proof.
  intros Ha Hh Hc. unfold item_lists. rewrite lookup_fmap.
  rewrite (proj2 (map_lookup_filter_Some _ _ h hy) (conj Hh Ha)). simpl. f_equal.
  unfold comet_items. by rewrite Hc.
Qed.

Lemma item_lists_insert act r r' h hy c' :
  h ∈ act → hybis r' = <[h := hy <| h_comet := Some c' |>]> (hybis r) →
  item_lists act r' = <[h := q_items (c_queue c')]> (item_lists act r).
Proof.
  intros Ha E. unfold item_lists. rewrite E, map_filter_insert_True by done.
  by rewrite fmap_insert.
Qed.

(** A session that keeps its request. *)
Lemma comets_ok_session act r r' h hy c c' :
  comets_ok act r → h ∈ act → hybis r !! h = Some hy → h_comet hy = Some c →
  hybis r' = <[h := hy <| h_comet := Some c' |>]> (hybis r) →
  cur_request c' = cur_request c → comet_ok c' →
  (∃ E, dom E = dom (fmsgs r') ∧ side_ok E (<[h := q_items (c_queue c')]> (item_lists act r))) →
  (∃ own, dom (fmsgs r') ⊆ own ∧ pool_ok own (frontend_arena r')) →
  requests r' = requests r → bmsgs r' = bmsgs r → routes r' = routes r →
  comets_ok act r'.
Proof.
  intros [H1' H2' H3 H4 H5 H6 H7 H8] Hact Hh Hhc Ehs Ecur Hc' HE Hown E1 E2 E3.
  assert (Hco : comet_of r h = Some c) by (unfold comet_of; rewrite Hh; done).
  assert (Hcof : ∀ h', comet_of r' h' = if decide (h' = h) then Some c' else comet_of r h').
  { intros h'. unfold comet_of. rewrite Ehs. case_decide as E; [subst|by rewrite lookup_insert_ne].
    by rewrite lookup_insert_eq. }
  split; rewrite ?E1, ?E2, ?E3; try done.
  - intros h' hy' Ha'. rewrite Ehs, lookup_insert_Some. intros [[<- <-]|[_ Hh']]; [|by eapply H1'].
    specialize (H1' h hy Ha' Hh). simpl. destruct (h_type hy); [|by eexists].
    rewrite Hhc in H1'. by destruct H1'.
  - fold (item_lists act r'). by rewrite (item_lists_insert act r r' h hy c').
  - intros h' c0 Ha'. rewrite Hcof. case_decide; [by intros [= <-]|by apply H3].
  - intros h' c0 q Ha'. rewrite Hcof. intros Hc0 Hq.
    assert (∃ c1, comet_of r h' = Some c1 ∧ cur_request c1 = Some q) as (c1 & Hc1 & Hq1).
    { case_decide; [|eauto]. subst. injection Hc0 as <-. exists c. by rewrite <- Ecur. }
    destruct (H5 h' c1 q Ha' Hc1 Hq1) as (rq & Hrq & [W1 W2 W3]). exists rq. split; [done|].
    split; [done|by rewrite E3|done].
  - intros q rq h' Hq Hh'. destruct (H6 q rq h' Hq Hh') as [Ha (c0 & Hc0 & Hcq)].
    split; [done|]. rewrite Hcof. case_decide; [|eauto]. subst. exists c'. split; [done|].
    rewrite Ecur. congruence.
Qed.

(** Only the timers of the session change. *)
Lemma comets_ok_timers act r r' h hy c c' :
  comets_ok act r → h ∈ act → hybis r !! h = Some hy → h_comet hy = Some c →
  hybis r' = <[h := hy <| h_comet := Some c' |>]> (hybis r) →
  cur_request c' = cur_request c → first_index c' = first_index c → overflow c' = overflow c →
  c_queue c' = c_queue c → fmsgs r' = fmsgs r →
  (∃ own, dom (fmsgs r) ⊆ own ∧ pool_ok own (frontend_arena r')) →
  requests r' = requests r → bmsgs r' = bmsgs r → routes r' = routes r →
  comets_ok act r'.
Proof.
  intros Hok Hact Hh Hhc Ehs Ecur Efi Eov Eq Ef Hown E1 E2 E3.
  assert (Hco : comet_of r h = Some c) by (unfold comet_of; rewrite Hh; done).
  destruct (cm_comet _ _ Hok _ _ Hact Hco) as [C1 C2 C3].
  apply (comets_ok_session act r r' h hy c c'); rewrite ?Ef; try done.
  - split; rewrite ?Eq, ?Efi, ?Eov; done.
  - destruct (cm_queues _ _ Hok) as (E & Hd & Hs). exists E. split; [done|].
    rewrite Eq, insert_id; [done|]. by apply (item_lists_lookup act r h hy).
Qed.

Lemma session_other r r' h hy c' h' :
  h' ≠ h → hybis r' = <[h := hy <| h_comet := Some c' |>]> (hybis r) → comet_of r' h' = comet_of r h'.
Proof. intros Hne E. unfold comet_of. by rewrite E, lookup_insert_ne. Qed.

Lemma session_self r r' h hy c' :
  hybis r' = <[h := hy <| h_comet := Some c' |>]> (hybis r) → comet_of r' h = Some c'.
Proof. intros E. unfold comet_of. by rewrite E, lookup_insert_eq. Qed.

(** The items of a session are messages of the pool, and of no other session. *)
Lemma item_live act r h c m :
  comets_ok act r → h ∈ act → comet_of r h = Some c → m ∈ q_items (c_queue c) → m ∈ dom (fmsgs r).
Proof.
  intros Hok Ha Hc Hm. destruct (cm_queues _ _ Hok) as (E & <- & Hs). unfold comet_of in Hc.
  destruct (hybis r !! h) as [hy|] eqn:Hh; [|done]. simpl in Hc.
  pose proof (item_lists_lookup act r h hy c Ha Hh Hc) as Hl. apply elem_of_dom. exists h.
  by eapply side_elem.
Qed.

Lemma item_apart act r h h' c c' m :
  comets_ok act r → h ∈ act → h' ∈ act → h' ≠ h → comet_of r h = Some c → comet_of r h' = Some c' →
  m ∈ q_items (c_queue c) → m ∉ q_items (c_queue c').
Proof.
  intros Hok Ha Ha' Hne Hc Hc' Hm Hm'. destruct (cm_queues _ _ Hok) as (E & _ & Hs). unfold comet_of in *.
  destruct (hybis r !! h) as [hy|] eqn:Hh; [|done]. simpl in Hc.
  destruct (hybis r !! h') as [hy'|] eqn:Hh'; [|done]. simpl in Hc'.
  apply (side_elem _ _ _ _ _ Hs (item_lists_lookup act r h hy c Ha Hh Hc)) in Hm.
  apply (side_elem _ _ _ _ _ Hs (item_lists_lookup act r h' hy' c' Ha' Hh' Hc')) in Hm'. congruence.
Qed.

Lemma items_nodup act r h c :
  comets_ok act r → h ∈ act → comet_of r h = Some c → NoDup (q_items (c_queue c)).
Proof.
  intros Hok Ha Hc. destruct (cm_queues _ _ Hok) as (E & _ & Hs). unfold comet_of in Hc.
  destruct (hybis r !! h) as [hy|] eqn:Hh; [|done]. simpl in Hc.
  eapply side_NoDup; [done|by eapply item_lists_lookup].
Qed.

Lemma omap_same {A B} (f g : A → option B) (l : list A) : (∀ a, a ∈ l → f a = g a) → omap f l = omap g l.
Proof.
  induction l as [|a l IH]; [done|]. intros Hf. csimpl. rewrite (Hf a) by by left.
  by rewrite IH by (intros; apply Hf; by right).
Qed.

Lemma omap_total {A B} (f : A → option B) (l : list A) : (∀ a, a ∈ l → is_Some (f a)) →
  length (omap f l) = length l ∧ ∀ n, omap f (drop n l) = drop n (omap f l).
Proof.
  induction l as [|a l IH]; intros Hf; [split; [done|by intros []]|].
  destruct (Hf a) as [b Hb]; [by left|]. destruct IH as [IH1 IH2]; [intros; apply Hf; by right|].
  csimpl. rewrite Hb. split; [simpl; by rewrite IH1|]. intros [|n]; [csimpl; by rewrite Hb|apply IH2].
Qed.

Lemma backlog_items act r h c :
  comets_ok act r → h ∈ act → comet_of r h = Some c →
  length (backlog r c) = length (q_items (c_queue c)) ∧
  ∀ n, omap (λ m, fmsgs r !! m) (drop n (q_items (c_queue c))) = drop n (backlog r c).
Proof.
  intros Hok Ha Hc. apply omap_total. intros m Hm. apply elem_of_dom. by eapply item_live.
Qed.

Lemma wp_on_comet_queue {A} r h hy c (m : M pooled_queue A) (Q : A → root → Prop) :
  hybis r !! h = Some hy → h_comet hy = Some c →
  wp m (λ a p, Q a (r <| frontend_arena := pq_arena p |>
    <| hybis := <[h := hy <| h_comet := Some (c <| c_queue := pq_queue p |>) |>]> (hybis r) |>))
    (mk_pq (frontend_arena r) (c_queue c)) →
  wp (on_comet_queue h m) Q r.
Proof. intros Hh Hc. unfold wp, on_comet_queue. rewrite Hh, Hc. by destruct (m _). Qed.

(** *** Queueing a message *)

(** What accepting [msg] changes; the other sessions are as they were. *)
Record accepted (act : gset nat) r r' (h : addr) (hy : hybi) (c : comet) (msg : bytes) : Prop := {
  ac_beside : beside r r';
  ac_comet : ∃ c', hybis r' = <[h := hy <| h_comet := Some c' |>]> (hybis r) ∧
    cur_request c' = cur_request c ∧ cur_format c' = cur_format c ∧ cur_limit c' = cur_limit c ∧
    first_index c' = first_index c ∧ backlog r' c' = backlog r c ++ [msg] ∧
    capacity (c_queue c') = capacity (c_queue c) ∧ size (c_queue c') = (size (c_queue c) + 1)%Z ∧
    sendlater_active c' = sendlater_active c || bool_decide (is_Some (cur_request c));
  ac_others : ∀ h', h' ∈ act → h' ≠ h → session_of r' h' = session_of r h';
  ac_requests : requests r' = requests r ∧ trace r' = trace r;
}.

Lemma comets_ok_push act r r' h hy c c' b msg own :
  comets_ok act r → h ∈ act → hybis r !! h = Some hy → h_comet hy = Some c →
  dom (fmsgs r) ⊆ own → b ∉ own → pool_ok ({[b]} ∪ own) (frontend_arena r') →
  hybis r' = <[h := hy <| h_comet := Some c' |>]> (hybis r) → fmsgs r' = <[b := msg]> (fmsgs r) →
  cur_request c' = cur_request c → first_index c' = first_index c → overflow c' = overflow c →
  q_items (c_queue c') = q_items (c_queue c) ++ [b] →
  size (c_queue c') = (size (c_queue c) + 1)%Z →
  capacity (c_queue c') = capacity (c_queue c) → (size (c_queue c) < capacity (c_queue c))%Z →
  requests r' = requests r → bmsgs r' = bmsgs r → routes r' = routes r →
  comets_ok act r' ∧ backlog r' c' = backlog r c ++ [msg] ∧
  ∀ h', h' ∈ act → h' ≠ h → session_of r' h' = session_of r h'.
Proof.
  intros Hok Hact Hh Hhc Hsub Hb Hpool Ehs Ef Ecur Efi Eov Eq Esz Ecap Hroom E1 E2 E3.
  assert (Hco : comet_of r h = Some c) by (unfold comet_of; rewrite Hh; done).
  destruct (cm_comet _ _ Hok _ _ Hact Hco) as [C1 C2 C3 C4 C5].
  assert (Hbl : ∀ h0 c0 r0 c1, h0 ∈ act → comet_of r h0 = Some c0 → fmsgs r0 = <[b := msg]> (fmsgs r) →
    q_items (c_queue c1) = q_items (c_queue c0) → backlog r0 c1 = backlog r c0).
  { intros h0 c0 r0 c1 Ha0 Hc0 E0 Ei. unfold backlog. rewrite Ei. apply omap_same. intros m Hm.
    rewrite E0, lookup_insert_ne; [done|]. intros <-. apply Hb, Hsub. by eapply item_live. }
  split_and!.
  - apply (comets_ok_session act r r' h hy c c'); try done.
    + split; rewrite ?Efi, ?Eov, ?Esz, ?Ecap, ?Eq, ?length_app; simpl; done || lia.
    + destruct (cm_queues _ _ Hok) as (E & Hd & Hs). exists (<[b := h]> E).
      rewrite Ef, !dom_insert_L, Hd. split; [done|].
      eapply (side_insert E (item_lists act r) b h (q_items (c_queue c))); [done| |by eapply item_lists_lookup|].
      * apply not_elem_of_dom. rewrite Hd. set_solver.
      * rewrite Eq. symmetry. apply Permutation_cons_append.
    + exists ({[b]} ∪ own). split; [rewrite Ef, dom_insert_L; set_solver|done].
  - unfold backlog at 1. rewrite Eq, omap_app. f_equal; [apply (Hbl h c r' c Hact Hco Ef eq_refl)|].
    simpl. by rewrite Ef, lookup_insert_eq.
  - intros h' Ha' Hne. unfold session_of. rewrite (session_other r r' h hy c') by done.
    destruct (comet_of r h') as [c0|] eqn:Hc0; [|done]. simpl. do 2 f_equal. by eapply Hbl.
Qed.

Hypothesis Hdate : ∀ req, is_Some (http_date req).
Hypothesis Hzmq : zmq_laws.

(** The state in which [comet_close] runs: [q1] may not know its connection. *)
Definition with_request r (o : option (addr * request)) : root :=
  match o with Some (req, q1) => r <| requests := <[req := q1]> (requests r) |> | None => r end.

Lemma wp_comet_close_with act r h hy c (o : option (addr * request)) :
  full_ok act r → h ∈ act → hybis r !! h = Some hy → h_comet hy = Some c →
  (∀ req q1, o = Some (req, q1) → cur_request c = Some req ∧ ∃ q, requests r !! req = Some q ∧ alike q q1) →
  wp (comet_close h) (λ _ r', full_ok (act ∖ {[h]}) r' ∧ gone r r' h hy ∧
    fmsgs r' = without (q_items (c_queue c)) (fmsgs r) ∧
    match cur_request c with
    | Some req => ∃ tl, released r r' req tl
    | None => requests r' = requests r
    end) (with_request r o).
Proof.
  intros Hok Hact Hh Hhc Ho. unfold comet_close. apply wp_bind.
  eapply wp_get_comet; [by destruct o as [[]|]|done|].
  destruct (cur_request c) as [req|] eqn:Hcur.
  2:{ destruct o as [[req q1]|]; [by destruct (Ho req q1)|]. apply wp_bind, wp_ret.
      by eapply (wp_free_comet Hdate Hzmq act). }
  assert (Hco : comet_of r h = Some c) by (unfold comet_of; by rewrite Hh).
  destruct (cm_wait _ _ (fo_comets _ _ Hok) _ _ _ Hact Hco Hcur) as (q & Hq & _).
  assert (∃ q1, alike q q1 ∧ with_request r o = r <| requests := <[req := q1]> (requests r) |>) as (q1 & Hal & ->).
  { destruct o as [[req' q1]|].
    - destruct (Ho req' q1 eq_refl) as ([= <-] & q' & Hq' & ?). exists q1. split; [|done]. by simplify_eq.
    - exists q. split; [done|]. simpl. rewrite insert_id by done. by destruct r. }
  apply wp_bind. eapply wp_mono; [by eapply (wp_close_reply Hdate act)|].
  intros _ r1 [Hok1 [Hb Ehs [Hfm _] [tl Hrel]]].
  eapply wp_mono; [eapply (wp_free_comet Hdate Hzmq act r1 h); [done..| | |]|].
  { rewrite Ehs. apply lookup_insert_eq. } { done. } { done. }
  intros _ r2 (Hok2 & Hg & Hf2 & Hrq2). split; [done|]. split_and!; [|by rewrite Hf2, Hfm|].
  - eapply gone_beside; [apply Hok|done| | |exact Hg]; [done|].
    intros c0 Hc0. by rewrite Ehs, lookup_insert_ne.
  - exists tl. destruct Hrel as [R1 R2]. split; rewrite Hrq2; done.
Qed.

Lemma wp_comet_close act r h hy c :
  full_ok act r → h ∈ act → hybis r !! h = Some hy → h_comet hy = Some c →
  wp (comet_close h) (λ _ r', full_ok (act ∖ {[h]}) r' ∧ gone r r' h hy ∧
    fmsgs r' = without (q_items (c_queue c)) (fmsgs r)) r.
Proof.
  intros Hok Hact Hh Hhc. eapply wp_mono; [by apply (wp_comet_close_with act r h hy c None)|]. by intros _ r' (? & ? & ? & _).
Qed.

(** The messages of the other sessions are still there. *)
Lemma session_closed act r r' h hy c h' :
  comets_ok act r → h ∈ act → h' ∈ act → h' ≠ h → hybis r !! h = Some hy → h_comet hy = Some c →
  gone r r' h hy → fmsgs r' = without (q_items (c_queue c)) (fmsgs r) →
  session_of r' h' = session_of r h'.
Proof.
  intros Hcm Ha Ha' Hne Hh Hc Hg Hf. pose proof (cl_conns _ _ _ _ Hg h' Hne) as Eb.
  assert (Hco : comet_of r h = Some c) by (unfold comet_of; by rewrite Hh).
  assert (comet_of r' h' = comet_of r h') as E.
  { unfold comet_of. destruct (hybis r' !! h'), (hybis r !! h'); try done.
    apply (inj Some) in Eb. by apply (f_equal h_comet) in Eb. }
  unfold session_of. rewrite E. destruct (comet_of r h') as [c0|] eqn:Hc0; [|done]. simpl. do 2 f_equal.
  apply omap_same. intros m Hm. rewrite Hf. apply option_eq. intros x. rewrite lookup_without.
  split; [tauto|]. intros ?. split; [done|]. eapply (item_apart act r h' h c0 c); done.
Qed.

(** Only the memory pool of the queues may differ. *)
Lemma full_ok_pool act r h hy c a own :
  full_ok act r → h ∈ act → hybis r !! h = Some hy → h_comet hy = Some c →
  dom (fmsgs r) ⊆ own → pool_ok own a →
  let r' := r <| frontend_arena := a |> <| hybis := <[h := hy <| h_comet := Some c |>]> (hybis r) |> in
  full_ok act r' ∧ beside r r'.
Proof.
  intros [Hsv Hcm] Hact Hh Hhc Hsub Hp r'.
  assert (Hbs : beside r r') by by apply (beside_intro r r' h hy c []); try done; rewrite app_nil_r.
  split; [|done]. split; [by apply (server_ok_beside act r r')|].
  apply (comets_ok_timers act r r' h hy c c); try done. by exists own.
Qed.

Lemma wp_comet_send act r h hy c msg :
  full_ok act r → h ∈ act → hybis r !! h = Some hy → h_comet hy = Some c →
  wp (comet_send h msg) (λ ok r',
    if ok then full_ok act r' ∧ accepted act r r' h hy c msg ∧ (size (c_queue c) < capacity (c_queue c))%Z
    else full_ok (act ∖ {[h]}) r' ∧ gone r r' h hy ∧
         ((capacity (c_queue c) ≤ size (c_queue c))%Z ∨ out_of_memory) ∧
         ∀ h', h' ∈ act → h' ≠ h → session_of r' h' = session_of r h') r.
Proof.
  intros Hok Hact Hh Hhc. pose proof Hok as [Hsv Hcm].
  destruct (cm_pool _ _ Hcm) as (own & Hsub & Hp). unfold comet_send.
  apply wp_bind. eapply wp_on_comet_queue; [done..|]. eapply wp_queue_push; [exact Hp|..]; cbn [pq_queue pq_arena].
  2:{ intros a Ha Hfull. destruct (full_ok_pool act r h hy c a own) as [Hok1 Hbs]; [done..|].
      replace (c <| c_queue := c_queue c |>) with c by by destruct c.
      apply wp_bind. eapply wp_mono; [eapply (wp_comet_close act); [done|done|apply lookup_insert_eq|done]|].
      intros _ r2 (Hok2 & Hg & Hf2). apply wp_ret.
      assert (Hg' : gone r r2 h hy).
      { eapply gone_beside; [exact Hsv|exact Hbs| | |exact Hg]; [done|].
        intros c0 Hc0. simpl. by rewrite lookup_insert_ne. }
      split_and!; [done|done|done|]. intros h' Ha' Hne. by apply (session_closed act r r2 h hy c). }
  intros b a Hlt Hb Ha.
  assert (Hsize : i32 (size (c_queue c) + 1) = (size (c_queue c) + 1)%Z).
  { assert (Hco : comet_of r h = Some c) by (unfold comet_of; by rewrite Hh).
    destruct (cm_comet _ _ Hcm _ _ Hact Hco). apply i32_small. lia. }
  rewrite Hsize. apply wp_bind, wp_modify. apply wp_bind.
  eapply wp_get_comet; [apply lookup_insert_eq|done|].
  set (c1 := c <| c_queue := _ |>). set (r1 := _ <| fmsgs ::= _ |>).
  assert (Hgen : ∀ sl, let c' := c1 <| sendlater_active := sl |> in
    let r' := r1 <| hybis := <[h := hy <| h_comet := Some c' |>]> (hybis r) |> in
    sl = sendlater_active c || bool_decide (is_Some (cur_request c)) →
    full_ok act r' ∧ accepted act r r' h hy c msg).
  { intros sl c' r' Hsl.
    destruct (comets_ok_push act r r' h hy c c' b msg own) as (Hcm' & Hbl & Hot); try done.
    assert (Hbs : beside r r') by by apply (beside_intro r r' h hy c' []); try done; rewrite app_nil_r.
    split; [split; [by apply (server_ok_beside act r r')|done]|].
    split; try done. exists c'. by rewrite Hbl. }
  destruct (cur_request c) as [req|] eqn:Hcur; change (cur_request c1) with (cur_request c); rewrite Hcur.
  - apply wp_bind. eapply wp_set_comet; [apply lookup_insert_eq|done|]. apply wp_ret.
    simpl. rewrite insert_insert_eq. destruct (Hgen true) as [Hok' Hac]; [by destruct (sendlater_active c)|].
    done.
  - apply wp_bind, wp_ret, wp_ret. destruct (Hgen (sendlater_active c)) as [Hok' Hac]; [by rewrite orb_false_r|].
    replace (c1 <| sendlater_active := sendlater_active c |>) with c1 in * by by destruct c.
    done.
Qed.

(** *** Acknowledging *)

(** [n] messages from the front of the queue are dropped. *)
Definition dropped (c : comet) (n : nat) : comet :=
  c <| c_queue := mk_queue (size (c_queue c) - Z.of_nat n) (capacity (c_queue c)) (drop n (q_items (c_queue c))) |>.

Lemma dropped_0 c : dropped c 0 = c.
Proof. destruct c as [? ? ? ? ? ? ? []]. unfold dropped. cbn. by rewrite Z.sub_0_r. Qed.

Lemma dropped_dropped c n k : dropped (dropped c n) k = dropped c (n + k).
Proof.
  destruct c as [? ? ? ? ? ? ? []]. unfold dropped. cbn. rewrite drop_drop. do 2 f_equal. lia.
Qed.

Lemma wp_ack_loop act n : ∀ r h hy c (Q : unit → root → Prop),
  comets_ok act r → h ∈ act → hybis r !! h = Some hy → h_comet hy = Some c →
  n ≤ length (q_items (c_queue c)) →
  (∀ r', hybis r' = <[h := hy <| h_comet := Some (dropped c n) |>]> (hybis r) →
     fmsgs r' = without (take n (q_items (c_queue c))) (fmsgs r) →
     r' = r <| fmsgs := fmsgs r' |> <| frontend_arena := frontend_arena r' |> <| hybis := hybis r' |> →
     comets_ok act r' → Q tt r') →
  wp (ack_loop h n (head (q_items (c_queue c)))) Q r.
Proof.
  induction n as [|n IH]; intros r h hy c Q Hcm Hact Hh Hhc Hn HQ; simpl.
  { apply wp_ret, HQ; [| |by destruct r|done].
    - rewrite dropped_0, insert_id; [done|]. rewrite Hh. destruct hy; simpl in *. by subst.
    - simpl. by rewrite without_nil. }
  destruct (q_items (c_queue c)) as [|m l] eqn:Hq; [simpl in Hn; lia|]. simpl in Hn |- *.
  assert (Hco : comet_of r h = Some c) by (unfold comet_of; by rewrite Hh).
  pose proof (items_nodup act r h c Hcm Hact Hco) as Hnd. rewrite Hq in Hnd.
  apply NoDup_cons in Hnd as [Hml Hnd].
  assert (Hm : m ∈ dom (fmsgs r)) by (eapply item_live; [done..|rewrite Hq; by left]).
  destruct (cm_pool _ _ Hcm) as (own & Hsub & Hp). destruct (cm_comet _ _ Hcm _ _ Hact Hco) as [C1 C2 C3 C4 C5].
  apply wp_bind, wp_ANIMPL; [done|]. apply wp_bind, wp_ret. apply wp_bind.
  eapply wp_get_comet; [done..|]. rewrite Hq. simpl. rewrite decide_True by done.
  apply wp_bind, wp_modify. apply wp_bind. eapply wp_on_comet_queue; [done..|].
  eapply wp_queue_remove; [exact Hp|by apply Hsub|]. intros a Ha. cbn [pq_queue pq_arena].
  rewrite Hq, unlink_cons_eq, i32_small by (done || (rewrite C1, Hq in *; simpl in *; lia)).
  set (c1 := c <| c_queue := _ |>). set (r1 := _ <| hybis := _ |>).
  assert (Hc1 : c1 = dropped c 1). { unfold c1, dropped. by rewrite Hq. }
  assert (Hcm1 : comets_ok act r1).
  { apply (comets_ok_session act r r1 h hy c c1); try done.
    - split; simpl; [rewrite C1, Hq; simpl; lia|done..|lia].
    - destruct (cm_queues _ _ Hcm) as (E & Hd & Hs). exists (delete m E).
      simpl. rewrite !dom_delete_L, Hd. split; [done|].
      pose proof (item_lists_lookup act r h hy c Hact Hh Hhc) as Hl. rewrite Hq in Hl.
      rewrite <- (unlink_cons_eq m l) by done. apply side_delete; [done| |done].
      eapply side_elem; [done..|by left].
    - exists (own ∖ {[m]}). split; [|done]. simpl. rewrite dom_delete_L. clear Hzmq. set_solver. }
  eapply (IH r1 h (hy <| h_comet := Some c1 |>) c1); [done|done|apply lookup_insert_eq|done|simpl; lia|].
  intros r' Eh Ef Er Hcm'. apply HQ; [| | |done].
  - rewrite Eh. simpl. rewrite insert_insert_eq.
    by rewrite Hc1, dropped_dropped.
  - rewrite Ef. simpl. by rewrite without_cons.
  - rewrite Er. done.
Qed.

Lemma lookup_without_notin {A} (l : list nat) (m : gmap nat A) i : i ∉ l → without l m !! i = m !! i.
Proof. intros Hi. apply option_eq. intros x. rewrite lookup_without. tauto. Qed.

(** What acknowledging the first [n] messages changes. *)
Record acked (act : gset nat) r r' (h : addr) (hy : hybi) (c : comet) (n : nat) : Prop := {
  ak_beside : beside r r';
  ak_comet : ∃ c', hybis r' = <[h := hy <| h_comet := Some c' |>]> (hybis r) ∧
    cur_request c' = cur_request c ∧ first_index c' = (first_index c + Z.of_nat n)%Z ∧
    backlog r' c' = drop n (backlog r c) ∧ capacity (c_queue c') = capacity (c_queue c) ∧
    size (c_queue c') = (size (c_queue c) - Z.of_nat n)%Z;
  ak_others : ∀ h', h' ∈ act → h' ≠ h → session_of r' h' = session_of r h';
  ak_requests : requests r' = requests r ∧ trace r' = trace r;
}.

Lemma wp_move_queue act r h hy c msgid :
  full_ok act r → h ∈ act → hybis r !! h = Some hy → h_comet hy = Some c →
  (0 ≤ msgid < 2 ^ 64)%Z → (first_index c + size (c_queue c) < 2 ^ 31)%Z →
  wp (move_queue h msgid) (λ ok r',
    if decide (msgid < first_index c)%Z then ok = true ∧ r' = r
    else if decide (msgid < first_index c + size (c_queue c))%Z
    then ok = true ∧ full_ok act r' ∧ acked act r r' h hy c (Z.to_nat (msgid - first_index c + 1))
    else ok = false ∧ r' = r) r.
Proof.
  intros [Hsv Hcm] Hact Hh Hhc Hid Hmax. unfold move_queue. apply wp_bind. eapply wp_get_comet; [done..|].
  assert (Hco : comet_of r h = Some c) by (unfold comet_of; by rewrite Hh).
  destruct (cm_comet _ _ Hcm _ _ Hact Hco) as [C1 C2 C3 C4 C5].
  rewrite (u64_small (first_index c)) by lia.
  destruct (decide (msgid < first_index c)%Z) as [Hs|Hs].
  { rewrite decide_True by by right. by apply wp_ret. }
  rewrite decide_False by lia. rewrite (u64_small (size _)), u64_small by lia.
  destruct (decide (msgid < _)%Z) as [Hl|Hl].
  2:{ rewrite decide_True by lia. by apply wp_ret. }
  rewrite decide_False by lia. set (n := Z.to_nat (msgid - first_index c + 1)).
  assert (Hn : (msgid - first_index c + 1 = Z.of_nat n)%Z) by lia. rewrite Hn.
  destruct (Z.eqb_spec (Z.of_nat n) 0) as [|_]; [lia|]. cbn [negb whenb].
  apply wp_bind, wp_bind, wp_count. cbn beta. apply wp_bind.
  set (r0 := r <| stat := _ |>).
  assert (Hcm0 : comets_ok act r0) by by apply (comets_ok_frame act r).
  eapply (wp_ack_loop act n r0 h hy c); [done..|lia|]. intros r1 E1 E2 Er Hcm1.
  eapply wp_set_comet; [by rewrite E1, lookup_insert_eq|done|]. apply wp_ret.
  set (c' := (dropped c n) <| first_index ::= _ |>). set (r' := r1 <| hybis := _ |>).
  assert (Efi : first_index c' = (first_index c + Z.of_nat n)%Z) by (simpl; apply i32_small; lia).
  assert (Ehs : hybis r' = <[h := hy <| h_comet := Some c' |>]> (hybis r)).
  { unfold r'. simpl. rewrite E1. simpl. by rewrite insert_insert_eq. }
  assert (Hcm' : comets_ok act r').
  { assert (Hh1 : hybis r1 !! h = Some (hy <| h_comet := Some (dropped c n) |>)) by by rewrite E1, lookup_insert_eq.
    apply (comets_ok_session act r1 r' h (hy <| h_comet := Some (dropped c n) |>) (dropped c n) c'); try done.
    - split; [simpl; rewrite length_drop, C1; lia|rewrite Efi; lia|done|done|simpl; lia].
    - destruct (cm_queues _ _ Hcm1) as (E & Hd & Hsd). exists E. split; [done|].
      rewrite insert_id; [done|]. by apply (item_lists_lookup act r1 h _ (dropped c n)) in Hh1.
    - apply Hcm1. }
  assert (Hbs : beside r r').
  { apply (beside_intro r r' h hy c' []); try done.
    - unfold r'. by rewrite Er.
    - apply same_bodies_eq. unfold r'. by rewrite Er.
    - rewrite app_nil_r. unfold r'. by rewrite Er. }
  split; [done|]. split; [split; [by apply (server_ok_beside act r r')|done]|].
  assert (Hf : fmsgs r' = without (take n (q_items (c_queue c))) (fmsgs r)) by exact E2.
  assert (Hkeep : ∀ l : list nat, (∀ m, m ∈ l → m ∉ take n (q_items (c_queue c))) →
    omap (λ m, fmsgs r' !! m) l = omap (λ m, fmsgs r !! m) l).
  { intros l Hl'. apply omap_same. intros m Hm. rewrite Hf. by apply lookup_without_notin, Hl'. }
  pose proof (items_nodup act r h c Hcm Hact Hco) as Hnd.
  split; [done| | |by unfold r'; rewrite Er].
  - exists c'. split_and!; try done. destruct (backlog_items act r h c Hcm Hact Hco) as [_ <-].
    apply Hkeep. simpl. intros m Hm Hm'. rewrite <- (take_drop n (q_items (c_queue c))) in Hnd.
    apply NoDup_app in Hnd as (_ & Hx & _). by eapply Hx.
  - intros h' Ha' Hne. unfold session_of. rewrite (session_other r r' h hy c') by done.
    destruct (comet_of r h') as [c0|] eqn:Hc0; [|done]. simpl. do 2 f_equal.
    apply Hkeep. intros m Hm Hm'. eapply (item_apart act r h' h c0 c m); try done.
    rewrite <- (take_drop n (q_items (c_queue c))). apply elem_of_app. by left.
Qed.
End changes.

(** ** Lemmas: collecting messages *)

(** The elements of a list with commas between them. *)
Fixpoint commas (l : list bytes) : bytes :=
  match l with
  | [] => []
  | [x] => x
  | x :: l => x ++ ","%char :: commas l
  end.

Lemma commas_cons x l :
  commas (x :: l) = x ++ match l with [] => [] | _ => ","%char :: commas l end.
Proof. destruct l; [|done]. simpl. by rewrite app_nil_r. Qed.

(** How many messages a reply carries. *)
Definition batch (c : comet) : Z :=
  if decide (cur_limit c < size (c_queue c))%Z then cur_limit c else size (c_queue c).

(** The headers that describe the reply, and its body. *)
Definition reply_head (c : comet) : list (string * bytes) :=
  match cur_format c with
  | FMT_SINGLE => [("X-Messages", str "1"); ("X-Format", str "single");
                   ("X-Message-ID", print_int (first_index c))]
  | FMT_JSONLIST => [("X-Messages", print_int (batch c));
                     ("X-Last-ID", print_int (i32 (first_index c + size (c_queue c) - 1)));
                     ("X-Format", str "jsonlist"); ("Content-Type", str "application/json")]
  end%string.

Definition reply_body (msgs : list bytes) (c : comet) : bytes :=
  match cur_format c with
  | FMT_SINGLE => default [] (head msgs)
  | FMT_JSONLIST => "["%char :: commas (json_item <$> take (Z.to_nat (batch c)) msgs) ++ ["]"%char]
  end.

(** All that is written to answer [req]; [hs] are the headers that every reply has. *)
Definition answer (req : addr) (c : comet) (msgs : list bytes) (hs : list event) : list event :=
  ReqStatus req (str "200 OK") :: ((λ p : string * bytes, ReqHeader req (str p.1) p.2) <$> reply_head c) ++
  hs ++ [ReqReply req (reply_body msgs c)].

Section collecting.
Context `{LogLevel, Malloc, Env}.
Hypothesis Hdate : ∀ req, is_Some (http_date req).
Implicit Types (r : root).

Lemma wp_write e r (Q : unit → root → Prop) : Q tt (noted r [e]) → wp (emit e) Q r.
Proof. done. Qed.

Lemma noted_stat r l st : (noted r l) <| stat := st |> = noted (r <| stat := st |>) l.
Proof. done. Qed.

Lemma wp_json_items h hy c n : ∀ r l1 l2 (Q : bytes → root → Prop),
  hybis r !! h = Some hy → h_comet hy = Some c → q_items (c_queue c) = l1 ++ l2 → NoDup (l1 ++ l2) →
  (∀ m, m ∈ l2 → is_Some (fmsgs r !! m)) → n ≤ length l2 →
  (∀ st, Q (commas (json_item <$> take n (omap (λ m, fmsgs r !! m) l2))) (r <| stat := st |>)) →
  wp (json_items h n (head l2)) Q r.
Proof.
  induction n as [|n IH]; intros r l1 l2 Q Hh Hc Hq Hnd Hm Hn HQ; simpl.
  { apply wp_ret. specialize (HQ (stat r)). by destruct r. }
  destruct l2 as [|m l2]; [simpl in Hn; lia|]. destruct (Hm m) as [data Hd]; [by left|].
  assert (Hnx : next_of m (q_items (c_queue c)) = head l2).
  { rewrite Hq. by apply next_of_mid. }
  apply wp_bind, wp_count. cbn beta. apply wp_bind, wp_ret. apply wp_bind.
  unfold get_fmsg. apply wp_bind, wp_get. eapply wp_deref; [exact Hd|]. apply wp_bind.
  eapply wp_get_comet; [done..|]. rewrite Hnx. apply wp_bind.
  eapply (IH _ (l1 ++ [m]) l2); [done|done|by rewrite <- app_assoc|by rewrite <- app_assoc| |simpl in Hn; lia|].
  { intros m' Hm'. apply Hm. by right. }
  intros st. apply wp_ret.
  lazymatch goal with |- context [fmsgs ?x] => change (fmsgs x) with (fmsgs r) end.
  specialize (HQ st). csimpl in HQ. rewrite Hd in HQ.
  rewrite firstn_cons, fmap_cons, commas_cons in HQ.
  assert (Hlen : length (json_item <$> take n (omap (λ m, fmsgs r !! m) l2)) = n).
  { rewrite length_fmap, length_take. destruct (omap_total (λ m, fmsgs r !! m) l2) as [-> _].
    { intros m' Hm'. apply Hm. by right. } simpl in Hn. lia. }
  destruct (json_item <$> take n (omap (λ m, fmsgs r !! m) l2)) as [|x xs].
  - simpl in Hlen. subst n. rewrite decide_False by lia. exact HQ.
  - simpl in Hlen. rewrite decide_True by lia. exact HQ.
Qed.

(** Writing the reply, from a state in which the session no longer waits. *)
Lemma wp_reply act r r0 h hy c req q rid :
  comets_ok act r0 → h ∈ act → comet_of r0 h = Some c → fmsgs r = fmsgs r0 →
  hybis r !! h = Some (hy <| h_comet := Some (c <| cur_request := None |>) |>) →
  requests r !! req = Some q → rq_route q = Some rid → rid ∈ dom (routes r) →
  Z.land (rq_flags q) REQ_IN_SIEVE = 0%Z → size (c_queue c) ≠ 0%Z →
  wp (match cur_format c with FMT_SINGLE => reply_single h req | FMT_JSONLIST => reply_jsonlist h req end)
     (λ _ r', ∃ st q' hs, Forall (header_of req) hs ∧
       r' = noted (r <| stat := st |> <| requests := <[req := q']> (requests r) |>)
                  (answer req c (backlog r0 c) hs) ∧
       rq_refcnt q' = rq_refcnt q ∧ rq_body q' = rq_body q ∧ Z.land (rq_flags q') REQ_IN_SIEVE = 0%Z) r.
Proof.
  intros Hcm Hact Hco Hfm Hh Hq Hr Hrt Hfl Hne.
  destruct (cm_comet _ _ Hcm _ _ Hact Hco) as [C1 C2 C3].
  assert (Hlive : ∀ m, m ∈ q_items (c_queue c) → is_Some (fmsgs r !! m)).
  { intros m Hm. rewrite Hfm. apply elem_of_dom. by eapply item_live. }
  destruct (cur_format c) eqn:Hfmt.
  - unfold reply_single. apply wp_bind. eapply wp_get_comet; [done..|]. apply wp_bind, wp_count. cbn beta.
    do 4 (apply wp_bind, wp_write; rewrite ?noted_noted).
    apply wp_bind. eapply (wp_notes (header_of req)); [by apply (notes_set_headers Hdate _ _ q rid)|].
    intros hs Hhs. rewrite noted_noted. apply wp_bind. eapply wp_set_request; [done|]. cbn beta.
    destruct (q_items (c_queue c)) as [|m l] eqn:Hi; [simpl in C1; lia|].
    destruct (Hlive m) as [data Hd]; [by left|].
    simpl. rewrite Hi. simpl. apply wp_bind, wp_ret. apply wp_bind. unfold get_fmsg.
    apply wp_bind, wp_get. eapply wp_deref; [exact Hd|]. apply wp_write.
    eexists _, (q <| rq_flags ::= λ f, Z.lor f REQ_HAS_MESSAGE |>), hs. split; [done|]. split; [|split_and!; try done].
    + unfold answer, reply_head, reply_body, backlog. rewrite Hfmt, Hi. csimpl. rewrite <- Hfm, Hd.
      unfold noted. simpl. by rewrite <- !app_assoc.
    + simpl. by rewrite Z.land_lor_distr_l, Hfl.
  - unfold reply_jsonlist. apply wp_bind. eapply wp_get_comet; [done..|].
    do 5 (apply wp_bind, wp_write; rewrite ?noted_noted).
    apply wp_bind. eapply (wp_notes (header_of req)); [by apply (notes_set_headers Hdate _ _ q rid)|].
    intros hs Hhs. rewrite noted_noted. apply wp_bind.
    eapply (wp_json_items h _ _ _ _ []); [exact Hh|done|done| |done| |].
    { exact (items_nodup act r0 h c Hcm Hact Hco). }
    { simpl. case_decide; lia. }
    intros st. apply wp_write. exists st, q, hs. split; [done|]. split; [|done].
    simpl. rewrite insert_id by done. unfold answer, reply_head, reply_body, backlog, batch. rewrite Hfmt. csimpl.
    rewrite Hfm. unfold noted. simpl. by rewrite <- !app_assoc.
Qed.

(** What [send_later] does to the session [c] of [h]. *)
Record collected r r' (h : addr) (hy : hybi) (c : comet) : Prop := {
  co_beside : beside r r';
  co_comet : ∃ c', hybis r' = <[h := hy <| h_comet := Some c' |>]> (hybis r) ∧
    c_queue c' = c_queue c ∧ first_index c' = first_index c ∧ sendlater_active c' = false ∧
    cur_request c' = if decide (size (c_queue c) = 0%Z) then cur_request c else None;
  co_msgs : fmsgs r' = fmsgs r;
  co_trace : match cur_request c with
    | Some req =>
        if decide (size (c_queue c) = 0%Z) then trace r' = trace r ∧ requests r' = requests r
        else ∃ hs tl, Forall (header_of req) hs ∧ released r r' req tl ∧
               trace r' = trace r ++ answer req c (backlog r c) hs ++ tl
    | None => trace r' = trace r ∧ requests r' = requests r
    end;
}.

(** Nothing is sent. *)
Lemma collected_nothing act r h hy c c' :
  full_ok act r → h ∈ act → hybis r !! h = Some hy → h_comet hy = Some c →
  cur_request c' = cur_request c → c_queue c' = c_queue c → first_index c' = first_index c →
  overflow c' = overflow c → sendlater_active c' = false →
  cur_request c = None ∨ size (c_queue c) = 0%Z →
  let r' := r <| hybis := <[h := hy <| h_comet := Some c' |>]> (hybis r) |> in
  full_ok act r' ∧ collected r r' h hy c.
Proof.
  intros [Hsv Hcm] Hact Hh Hhc E1 E2 E3 E4 E5 Hno r'.
  assert (Hbs : beside r r') by by apply (beside_intro r r' h hy c' []); try done; rewrite app_nil_r.
  split.
  - split; [by apply (server_ok_beside act r r')|].
    apply (comets_ok_timers act r r' h hy c c'); try done. apply Hcm.
  - split; try done.
    + exists c'. split_and!; try done. rewrite E1. case_decide; [done|]. by destruct Hno.
    + destruct Hno as [E|E]; rewrite E; [done|]. destruct (cur_request c); [|done]. by rewrite decide_True.
Qed.

Lemma hybis_twice r h hy c1 c2 :
  let r1 := r <| hybis := <[h := hy <| h_comet := Some c1 |>]> (hybis r) |> in
  r1 <| hybis := <[h := hy <| h_comet := Some c1 |> <| h_comet := Some c2 |>]> (hybis r1) |> =
  r <| hybis := <[h := hy <| h_comet := Some c2 |>]> (hybis r) |>.
Proof. simpl. by rewrite insert_insert_eq. Qed.

Lemma wp_send_later act r h hy c :
  full_ok act r → h ∈ act → hybis r !! h = Some hy → h_comet hy = Some c →
  wp (send_later h) (λ _ r', full_ok act r' ∧ collected r r' h hy c) r.
Proof.
  intros Hok Hact Hh Hhc. pose proof Hok as [Hsv Hcm].
  assert (Hco : comet_of r h = Some c) by (unfold comet_of; by rewrite Hh).
  destruct (cm_comet _ _ Hcm _ _ Hact Hco) as [C1 C2 C3].
  unfold send_later. apply wp_bind. eapply wp_get_comet; [done..|]. apply wp_bind, wp_ANIMPL; [by rewrite C3|].
  destruct (cur_request c) as [req|] eqn:Hcur.
  2:{ eapply wp_set_comet; [done..|]. eapply collected_nothing; try done. by left. }
  destruct (Z.eqb_spec (size (c_queue c)) 0) as [Hz|Hz]; cbn [negb whenb].
  { apply wp_bind, wp_ret, wp_bind. eapply wp_set_comet; [done..|].
    eapply wp_set_comet; [apply lookup_insert_eq|done|]. rewrite hybis_twice.
    eapply (collected_nothing act r h hy c (c <| sendlater_active := false |> <| inactivity_active := true |>));
      try done. by right. }
  destruct (cm_wait _ _ Hcm _ _ _ Hact Hco Hcur) as (q & Hq & [W1 (rid & Hr & Hrt) W3]).
  apply wp_bind, wp_bind. eapply wp_set_request; [done|]. cbn beta. apply wp_bind.
  eapply wp_set_comet; [done..|]. apply wp_bind, wp_count. cbn beta.
  set (q0 := q <| rq_timeout_active := false |>).
  apply wp_bind. eapply wp_mono; [eapply (wp_reply act _ r h hy c req q0 rid); try done|].
  { apply lookup_insert_eq. } { apply lookup_insert_eq. }
  intros _ r1 (st & q1 & hs & Hhs & -> & F1 & F2 & F3).
  set (r1 := noted _ _).
  eapply (wp_end_request act r r1 h hy c (c <| cur_request := None |>) req q q1); try done.
  { simpl. by rewrite insert_insert_eq. }
  { constructor; [done|]. apply Forall_app. split; [|apply Forall_app; split; [|by constructor]].
    - apply Forall_fmap, Forall_forall. done.
    - eapply Forall_impl; [exact Hhs|apply header_off_wire]. }
  intros r2 tl E2 Et Hgo Hfin. simpl in E2.
  apply wp_bind. eapply wp_set_comet; [by rewrite E2, lookup_insert_eq|done|].
  eapply wp_set_comet; [apply lookup_insert_eq|done|]. simpl. rewrite E2, !insert_insert_eq.
  match goal with |- full_ok act ?x ∧ _ => set (r' := x) end.
  set (c2 := c <| cur_request := None |> <| sendlater_active := false |> <| inactivity_active := true |>).
  destruct (Hfin r') as [Hok' Hrep]; [by exists c2|by destruct r2|].
  split; [done|]. destruct (Hrep c2) as [B1 B2 [B3 B4] _]; [simpl; by rewrite lookup_insert_eq|].
  split; [done| |done|].
  - exists c2. rewrite decide_False by done. done.
  - rewrite Hcur, decide_False by done. exists hs, tl. split; [done|]. split.
    + eapply (let_go_released r r' req q q1); [done|done|].
      simpl in Hgo. rewrite insert_insert_eq in Hgo. exact Hgo.
    + simpl. rewrite Et. simpl. by rewrite <- app_assoc.
Qed.
End collecting.

(** ** Lemmas: connecting *)
Section connecting.
Context `{LogLevel, Malloc, Env, Digest}.
Hypothesis Hdate : ∀ req, is_Some (http_date req).
Hypothesis Hzmq : zmq_laws.
Implicit Types (r : root).

(** The session of a connection that was just opened. *)
Definition new_session (rt : route) : comet :=
  mk_comet None false FMT_SINGLE 0 1 false true (init_queue (i32 (rt_queue_limit rt))).

Record connected (act : gset nat) r r' (h : addr) (rid : route_id) (rt : route) (req : addr) : Prop := {
  cn_new : h ∉ dom (hybis r);
  cn_session : comet_of r' h = Some (new_session rt);
  cn_others : ∀ h', h' ∈ act → session_of r' h' = session_of r h';
  cn_requests : requests r' = requests r;
  cn_reply : ∃ uid tr hs, h_uid <$> hybis r' !! h = Some uid ∧ Forall (header_of req) hs ∧
    trace r' = tr ++ ReqStatus req (str "200 OK") :: hs ++ [ReqReply req (uid_text uid)] ∧
    ∀ s, stream r' s = stream r s ++ (if decide (s = Forward rid) then [[uid; str "connect"]] else []);
}.

Definition off_start r :=
  (fmsgs r, frontend_arena r, requests r, request_sieve r, static_route <$> routes r, dom (socks r)).

Lemma keeps_hybi_start rid ty urandom : keeps off_start (hybi_start rid ty urandom).
Proof.
  assert (∀ h msg force s, keeps off_start (backend_send s h msg force)) as J1
    by (intros; apply keeps_backend_send; try done; intros; unfold off_start; simpl; by rewrite dom_insert_lookup_L).
  assert (∀ u, keeps off_start (UID_HOLE u)) as J2 by (intros; unfold UID_HOLE; solve_keeps).
  unfold hybi_start. repeat (first [apply J1|apply J2|keeps_step]).
Qed.

(** The connection [h] becomes one of the open ones, with nothing queued. *)
Lemma comets_ok_open act r r' h hy :
  comets_ok act r → h ∉ act → hybis r' = <[h := hy]> (hybis r) →
  match h_type hy with
  | HYBI_COMET => ∃ rt, h_comet hy = Some (new_session rt)
  | HYBI_WEBSOCKET => h_comet hy = None ∧ is_Some (h_conn hy)
  end →
  fmsgs r' = fmsgs r → frontend_arena r' = frontend_arena r → requests r' = requests r →
  bmsgs r' = bmsgs r → routes r' = routes r →
  comets_ok ({[h]} ∪ act) r'.
Proof.
  clear Hdate Hzmq. intros [H1' H2' H3 H4 H5 H6 H7 H8] Hact Ehs Hty E1 E2 E3 E4 E5.
  assert (Hnew : ∀ c, h_comet hy = Some c → ∃ rt, c = new_session rt).
  { intros c Hc. destruct (h_type hy); [destruct Hty; congruence|].
    destruct Hty as [rt E]. exists rt. congruence. }
  assert (Hcof : ∀ h', comet_of r' h' = if decide (h' = h) then h_comet hy else comet_of r h').
  { intros h'. unfold comet_of. rewrite Ehs. case_decide as E; [subst|by rewrite lookup_insert_ne].
    by rewrite lookup_insert_eq. }
  assert (Hset : ∀ h', h' ∈ {[h]} ∪ act → h' ≠ h → h' ∈ act) by set_solver.
  split; rewrite ?E1, ?E2, ?E3, ?E4, ?E5; try done.
  - intros h' hy' Ha'. rewrite Ehs, lookup_insert_Some. intros [[<- <-]|[Hne Hh']]; [|eapply H1'; [by apply Hset|done]].
    destruct (h_type hy); [done|]. destruct Hty as [rt ->]. by eexists.
  - destruct H2' as (E & Hd & Hs). exists E. split; [done|].
    replace (comet_items <$> filter (λ p : nat * hybi, p.1 ∈ {[h]} ∪ act) (hybis r'))
      with (<[h := []]> (item_lists act r)).
    + apply side_new; [done|]. unfold item_lists. rewrite lookup_fmap, map_lookup_filter.
      destruct (hybis r !! h); [|done]. simpl. by rewrite option_guard_False.
    + apply map_eq. intros h'. rewrite lookup_fmap, map_lookup_filter, Ehs.
      destruct (decide (h' = h)) as [->|Hne].
      * rewrite !lookup_insert_eq. simpl. rewrite option_guard_True by set_solver. simpl. f_equal.
        unfold comet_items. destruct (h_comet hy) as [c|] eqn:Hc; [|done].
        by destruct (Hnew c eq_refl) as [rt ->].
      * rewrite !lookup_insert_ne by done. unfold item_lists. rewrite lookup_fmap, map_lookup_filter.
        destruct (hybis r !! h'); [|done]. simpl. destruct (decide (h' ∈ act)).
        -- rewrite !option_guard_True by set_solver. done.
        -- rewrite !option_guard_False by set_solver. done.
  - intros h' c0 Ha'. rewrite Hcof. case_decide; [|by apply H3, Hset].
    intros [rt ->]%Hnew. split; try done. apply i32_lt.
  - intros h' c0 q Ha'. rewrite Hcof. case_decide; [by intros [rt ->]%Hnew|]. intros Hc0 Hq.
    destruct (H5 h' c0 q (Hset _ Ha' ltac:(done)) Hc0 Hq) as (rq & Hrq & [W1 W2 W3]). exists rq. split; [done|].
    split; [done|by rewrite E5|done].
  - intros q rq h' Hq Hh'. destruct (H6 q rq h' Hq Hh') as [Ha (c0 & Hc0 & Hcq)].
    split; [set_solver|]. exists c0. rewrite Hcof, decide_False; [done|by intros ->].
Qed.

(** [hybi_start] up to the point where the new connection is completed. *)
Lemma wp_open act r rid ty urandom :
  full_ok act r → Forward rid ∈ dom (socks r) → (ty = HYBI_COMET → random_ok urandom) →
  wp (hybi_start rid ty urandom) (λ o r1, off_start r1 = off_start r ∧
    match o with
    | None => full_ok act r1 ∧ refused r r1 ∧ (sieve_full (hsieve r) = true ∨ out_of_memory ∨ no_memory r1)
    | Some h => (h ∉ act) ∧ server_ok ({[h]} ∪ act) r1 ∧ comets_ok act r1 ∧
        (∀ h', h' ∈ act → bare <$> hybis r1 !! h' = bare <$> hybis r !! h') ∧
        ∃ uid hy, opened act r r1 h ty rid uid ∧ hybis r1 !! h = Some hy ∧ ident hy = ident (new_hybi ty uid rid)
    end) r.
Proof.
  intros [Hsv Hcm] Hsk Hur.
  eapply wp_mono; [apply (wp_keeps off_start); [apply keeps_hybi_start|]; by apply (wp_hybi_start Hzmq act)|].
  intros o r1 [Ho Hoff]. split; [done|]. unfold off_start in Hoff. injection Hoff as E1 E2 E3 E4 E5 E6.
  assert (Haside : posted (bmsgs r1) = posted (bmsgs r) → aside r1 = aside r).
  { intros Hp. unfold aside. by rewrite E1, E2, E3, E4, E5, Hp. }
  destruct o as [h|].
  2:{ destruct Ho as (Hsv1 & Hrf & Hw). split; [|done]. split; [done|].
      apply (comets_ok_frame act r); [done|by apply Haside, Hrf|]. intros h _. by rewrite (rf_hybis _ _ Hrf). }
  destruct Ho as (Hsv1 & uid & Hop). pose proof Hop as [P1 P2 P3 P4 P5 P6 P7].
  assert (Hact : h ∉ act).
  { intros Ha. apply P1. by apply (bo_act _ _ (sr_backend _ _ Hsv)). }
  assert (Hident : ∀ h', h' ≠ h → ident <$> hybis r1 !! h' = ident <$> hybis r !! h').
  { intros h' Hne. unfold conns in P2. by rewrite <- !lookup_fmap, P2, lookup_insert_ne. }
  assert (Hbare : ∀ h', h' ∈ act → bare <$> hybis r1 !! h' = bare <$> hybis r !! h').
  { intros h' Ha. assert (Hne : h' ≠ h) by congruence. specialize (Hident h' Hne).
    destruct (hybis r1 !! h'), (hybis r !! h'); try done. apply (inj Some) in Hident. simpl. f_equal.
    by apply (f_equal (λ y, y <| h_outputs := [] |> <| h_subscribers := [] |>)) in Hident. }
  split_and!; [done|done|by apply (comets_ok_frame act r); [|apply Haside|]|done|].
  assert (Hl : conns r1 !! h = Some (ident (new_hybi ty uid rid))) by by rewrite P2, lookup_insert_eq.
  unfold conns in Hl. rewrite lookup_fmap in Hl. apply fmap_Some in Hl as (hy & ? & ?). by exists uid, hy.
Qed.

Lemma full_ok_noted act r l : full_ok act r → Forall off_wire l →
  full_ok act (noted r l) ∧ ∀ s, stream (noted r l) s = stream r s.
Proof.
  intros [Hsv Hcm] Hl. destruct (server_ok_beside act r (noted r l)) as [Hsv' Hst]; [done| |].
  { split; try done. intros s. by apply wire_off. }
  split; [|done]. split; [done|]. by apply (comets_ok_frame act r).
Qed.

Lemma wp_comet_connect act r req q rid rt urandom :
  full_ok act r → requests r !! req = Some q → rq_route q = Some rid → routes r !! rid = Some rt →
  Forward rid ∈ dom (socks r) → random_ok urandom →
  wp (comet_connect req urandom) (λ ok r',
    if ok then ∃ h rt', full_ok ({[h]} ∪ act) r' ∧ connected act r r' h rid rt' req ∧
                        rt_queue_limit rt' = rt_queue_limit rt
    else full_ok act r' ∧ refused r r' ∧ requests r' = requests r ∧
         (sieve_full (hsieve r) = true ∨ out_of_memory ∨ no_memory r')) r.
Proof.
  intros Hok Hq Hr Hrt Hsk Hur. unfold comet_connect. apply wp_bind. eapply wp_get_request; [done|].
  rewrite Hr. apply wp_bind, wp_ret, wp_bind. eapply wp_mono; [by apply (wp_open act)|].
  intros [h|] r1 [Hoff Ho]; [|by apply wp_ret; injection Hoff; tauto].
  destruct Ho as (Hact & Hsv1 & Hcm1 & Hbare & uid & hy & Hop & Hh & Hi). destruct Hop as [P1 P2 P3 P4 P5 P6 P7].
  unfold off_start in Hoff. injection Hoff as E1 E2 E3 E4 E5 E6.
  assert (Hrt1 : ∃ rt1, routes r1 !! rid = Some rt1 ∧ static_route rt1 = static_route rt).
  { assert (Hl : (static_route <$> routes r1) !! rid = Some (static_route rt)) by by rewrite E5, lookup_fmap, Hrt.
    rewrite lookup_fmap in Hl. apply fmap_Some in Hl as (rt1 & ? & ?). by exists rt1. }
  destruct Hrt1 as (rt1 & Hrt1 & Ert).
  apply wp_bind, wp_count. cbn beta. apply wp_bind. eapply wp_get_route; [done|].
  apply wp_bind. eapply wp_set_hybi; [done|]. cbn beta. change (mk_comet _ _ _ _ _ _ _ _) with (new_session rt1).
  set (r2 := _ <| hybis := _ |>).
  assert (Hok2 : full_ok ({[h]} ∪ act) r2 ∧ ∀ s, stream r2 s = stream r1 s).
  { assert (Hcm2 : comets_ok ({[h]} ∪ act) r2).
    { apply (comets_ok_open act r1 r2 h (hy <| h_comet := Some (new_session rt1) |>)); try done. simpl.
      apply (f_equal h_type) in Hi. simpl in Hi. rewrite Hi. by exists rt1. }
    destruct (server_ok_beside ({[h]} ∪ act) r1 r2) as [? ?]; [done| |by split].
    apply (beside_intro r1 r2 h hy (new_session rt1) []);
      [reflexivity|exact Hh|reflexivity|by apply same_bodies_eq|by rewrite app_nil_r|constructor]. }
  destruct Hok2 as [Hok2 Hst2].
  apply wp_bind, wp_write, wp_bind.
  eapply (wp_notes (header_of req)).
  { apply (notes_set_headers Hdate _ _ q rid); [simpl; by rewrite E3|done|].
    simpl. apply elem_of_dom. by exists rt1. }
  intros hs Hhs. rewrite noted_noted. apply wp_bind. eapply wp_get_hybi; [apply lookup_insert_eq|].
  apply wp_bind, wp_write. rewrite noted_noted. apply wp_ret.
  assert (Eu : h_uid hy = uid) by by apply (f_equal h_uid) in Hi.
  assert (Hl : ∀ u, Forall off_wire (([ReqStatus req (str "200 OK")] ++ hs) ++ [ReqReply req u])).
  { intros u. apply Forall_app. split; [|by constructor]. constructor; [done|].
    eapply Forall_impl; [exact Hhs|apply header_off_wire]. }
  destruct (full_ok_noted _ _ _ Hok2 (Hl (uid_text (h_uid hy)))) as [Hok3 Hst3].
  exists h, rt1. split; [exact Hok3|]. split.
  2:{ by apply (f_equal rt_queue_limit) in Ert. }
  split; [done| | |done|].
  - unfold comet_of. simpl. by rewrite lookup_insert_eq.
  - intros h' Ha. assert (Hne : h' ≠ h) by congruence. unfold session_of, comet_of. simpl.
    rewrite lookup_insert_ne by done. specialize (Hbare h' Ha). unfold backlog. simpl. rewrite E1.
    destruct (hybis r1 !! h') as [a|], (hybis r !! h') as [b|]; try done. apply (inj Some) in Hbare.
    apply (f_equal h_comet) in Hbare. simpl in Hbare. simpl. by rewrite Hbare.
  - exists uid, (trace r1), hs. split_and!.
    + simpl. rewrite lookup_insert_eq. simpl. by rewrite Eu.
    + done.
    + simpl. by rewrite Eu.
    + intros s. rewrite <- P6, <- Hst2. etransitivity; [apply Hst3|done].
Qed.
End connecting.

(** ** Properties *)

(** The example server, with two requests of a browser. *)
Definition example_visit : root :=
  example_server <| requests := {[0 := plain_request "GET" "/?action=CONNECT" "" 0;
                                  1 := plain_request "GET" "/?limit=1" "" 0]} |>.

Lemma example_visit_ok : full_ok ∅ example_visit.
Proof.
  assert (Hrq : ∀ q rq, requests example_visit !! q = Some rq → rq_hybi rq = None ∧ rq_refcnt rq = 1%Z).
  { intros q rq. simpl. rewrite lookup_insert_Some, lookup_singleton_Some. by intros [[_ <-]|[_ [_ <-]]]. }
  split.
  - apply (server_ok_beside ∅ example_server); [apply example_server_ok|]. split; done.
  - split; try done.
    + exists ∅. split; [done|]. change (hybis example_visit) with (∅ : gmap nat hybi).
      rewrite map_filter_empty, fmap_empty. apply side_empty.
    + exists ∅. split; [done|]. split; simpl; [intros b; simpl; set_solver|done|lia|constructor|done|set_solver].
    + intros q rq h [-> _]%Hrq. done.
    + intros q rq [-> ->]%Hrq. done.
Qed.

(** C21: a CONNECT request either opens a session that nobody had, empty and numbered
    from one, replies with its identifier and tells the backend of the route, or
    is refused, because the table is full or memory is short, and leaves no trace;
    the other sessions keep what they have.  The identifier is drawn from
    /dev/urandom: this holds as long as the device can be opened and read, and if
    it cannot be opened the server aborts (unless its log level hides the failure). *)
Theorem comet_connect_correct `{LogLevel, Malloc, Env, Digest} (act : gset nat) (r : root) (req : addr)
    (q : request) (rid : route_id) (rt : route) (urandom : random_device)
    (Hdate : ∀ req, is_Some (http_date req)) (Hzmq : zmq_laws) (Hok : full_ok act r)
    (Hq : requests r !! req = Some q) (Hr : rq_route q = Some rid) (Hrt : routes r !! rid = Some rt)
    (Hsk : Forward rid ∈ dom (socks r)) :
  (random_ok urandom → ∃ ok r', comet_connect req urandom r = Ok ok r' ∧
    if ok then ∃ h rt', full_ok ({[h]} ∪ act) r' ∧ connected act r r' h rid rt' req ∧
                        rt_queue_limit rt' = rt_queue_limit rt
    else full_ok act r' ∧ refused r r' ∧ requests r' = requests r ∧
         (sieve_full (hsieve r) = true ∨ out_of_memory ∨ no_memory r')) ∧
  (random_refused urandom → (LOG_ALERT ≤ LOGLEVEL)%Z → sieve_full (hsieve r) = false →
   malloc_ok (hybi_heap r) (sizeof_hybi + sizeof_comet) = true →
   comet_connect req urandom r = Aborted).
Proof.
  split; [intros Hur; by apply wp_Ok, (wp_comet_connect Hdate Hzmq act r req q rid rt urandom)|].
  intros Hur Hlog Hfull Hm. unfold comet_connect, mbind at 1, M_bind at 1, get_request, mbind at 1, M_bind at 1, get.
  simpl. rewrite Hq. simpl. rewrite Hr. unfold mbind, M_bind. simpl.
  by rewrite (hybi_start_aborts act r rid urandom (fo_server _ _ Hok)).
Qed.

Lemma comet_connect_correct_witness :
  let LL : LogLevel := 6%Z in let MM : Malloc := λ _ _, true in
  let dev := random_of (replicate 8 "r"%char) in let broken := mk_random [OpenEintr; OpenFailed] [] false in
  (∃ r', @comet_connect LL MM example_env example_digest 0 dev example_visit = Ok true r' ∧
    session_of r' 0 = Some (1%Z, [])) ∧
  @comet_connect LL MM example_env example_digest 0 broken example_visit = Aborted.
Proof.
  intros LL MM dev broken. split.
  - destruct (@comet_connect_correct LL MM example_env example_digest ∅ example_visit 0
      (plain_request "GET" "/?action=CONNECT" "" 0) 0 (plain_route 4 10) dev) as [Hgo _];
      [by eexists|apply example_laws|apply example_visit_ok|done|done|done|by apply elem_of_dom|].
    destruct Hgo as (ok & r' & Hrun & _); [by apply random_of_ok|].
    exists r'. vm_compute in Hrun. injection Hrun as <- <-. split; vm_compute; reflexivity.
  - destruct (@comet_connect_correct LL MM example_env example_digest ∅ example_visit 0
      (plain_request "GET" "/?action=CONNECT" "" 0) 0 (plain_route 4 10) broken) as [_ Hab];
      [by eexists|apply example_laws|apply example_visit_ok|done|done|done|by apply elem_of_dom|].
    apply Hab; [by exists 1, []|done..].
Defined.

(** The example server with a session on it. *)
Definition example_session : root :=
  let LL : LogLevel := 0%Z in let MM : Malloc := λ _ _, true in
  match @comet_connect LL MM example_env example_digest 0 (random_of (replicate 8 "r"%char)) example_visit with
  | Ok _ r => r
  | _ => example_visit
  end.

(** The identifier of the session. *)
Definition example_uid : bytes := default [] (h_uid <$> hybis example_session !! 0).

Lemma example_session_ok : full_ok {[0]} example_session.
Proof.
  set (LL := 0%Z : LogLevel). set (MM := (λ _ _, true) : Malloc).
  destruct (proj1 (wp_Ok _ _ _) (@wp_comet_connect LL MM example_env example_digest ltac:(by eexists)
    example_laws ∅ example_visit 0 (plain_request "GET" "/?action=CONNECT" "" 0) 0 (plain_route 4 10)
    (random_of (replicate 8 "r"%char)) example_visit_ok eq_refl eq_refl eq_refl ltac:(by apply elem_of_dom)
    ltac:(by apply random_of_ok)))
    as (ok & r' & Hrun & Ho).
  unfold example_session, LL, MM in *. rewrite Hrun. destruct ok.
  - destruct Ho as (h & rt' & Ho & Hc & _). rewrite (right_id_L ∅ (∪)) in Ho.
    pose proof (cn_session _ _ _ _ _ _ _ Hc) as Hs. vm_compute in Hrun. injection Hrun as <-.
    lazymatch type of Ho with full_ok _ ?r => assert (Hd : dom (hybis r) = {[0]}) end.
    { apply (bool_decide_unpack _). vm_compute. exact I. }
    assert (Hin : h ∈ ({[0]} : gset nat)).
    { rewrite <- Hd. unfold comet_of in Hs. apply elem_of_dom. destruct (_ !! h); [by eexists|done]. }
    apply elem_of_singleton in Hin as ->. exact Ho.
  - vm_compute in Hrun. discriminate.
Qed.

(** A message for a polling connection is appended to its queue, leaving every
    other session alone, and wakes a waiting request; or the queue is full (or
    memory is out), and the connection is closed like any other: its request is
    answered, its subscriptions go and its backends are told. *)
Theorem comet_send_correct `{LogLevel, Malloc, Env} (act : gset nat) (r : root) (h : addr) (hy : hybi)
    (c : comet) (msg : bytes) (Hdate : ∀ req, is_Some (http_date req)) (Hzmq : zmq_laws)
    (Hok : full_ok act r) (Hact : h ∈ act) (Hh : hybis r !! h = Some hy) (Hc : h_comet hy = Some c) :
  ∃ ok r', comet_send h msg r = Ok ok r' ∧
    if ok then full_ok act r' ∧ accepted act r r' h hy c msg ∧ (size (c_queue c) < capacity (c_queue c))%Z
    else full_ok (act ∖ {[h]}) r' ∧ gone r r' h hy ∧
         ((capacity (c_queue c) ≤ size (c_queue c))%Z ∨ out_of_memory) ∧
         ∀ h', h' ∈ act → h' ≠ h → session_of r' h' = session_of r h'.
Proof. by apply wp_Ok, (wp_comet_send Hdate Hzmq). Qed.

Lemma comet_send_correct_witness :
  let LL : LogLevel := 0%Z in let MM : Malloc := λ _ _, true in
  ∃ r', @comet_send LL MM example_env 0 (str "hi") example_session = Ok true r' ∧
    session_of r' 0 = Some (1%Z, [str "hi"]).
Proof.
  intros LL MM. destruct (hybis example_session !! 0) as [hy|] eqn:Hh; [|vm_compute in Hh; discriminate].
  destruct (h_comet hy) as [c|] eqn:Hc; [|vm_compute in Hh; injection Hh as <-; discriminate].
  destruct (@comet_send_correct LL MM example_env {[0]} example_session 0 hy c (str "hi"))
    as (ok & r' & Hrun & _); [by eexists|apply example_laws|apply example_session_ok|set_solver|done|done|].
  exists r'. vm_compute in Hrun. injection Hrun as <- <-. split; vm_compute; reflexivity.
Defined.
