(* ===== verification/Frontend.v ===== *)
(** * Messages between browsers and backends (websocket.c)

    What a browser sends goes to the socket that its prefix is mapped to; what a
    backend sends is a command in several parts.  A message for a browser goes
    into its websocket or into the queue of its polling connection. *)

From S2P Require Import Prelude Sieve Pool MsgQueue Uidgen Links State Topics Backend Outputs Hybi.
From S2P Require Import CometArgs Request Comet.

(** ** Operations *)
Section operations.
Context `{LogLevel, Malloc, Env}.

(** A [message_t]: its memory, its part of the websocket library and, if its text
    is copied ([sized]), the memory of that, for which nothing is asserted: its
    address would not be initialised.
    The same steps are at lines 502 and 587, and sized at 310, 320 and 953.
    src/src/websocket.c:480-483 [topic_publish] *)
Definition new_message (sized : bool) : MR unit :=
  r ← get;
  ANIMPL (message_malloc (trace r));;
  (if message_malloc (trace r) then mret tt else undefined NullDeref);;
  SNIMPL (message_init_fails (trace r));;
  (if sized && negb (message_text (trace r)) then undefined Uninitialized else mret tt).

(** The library counts the references to a message, which is a value here.
    Closing a connection only starts with [ws_connection_close]: its end is
    [websock_stop]; src/src/websocket.c:281-297 [do_send] *)
Definition do_send (h : addr) (msg : bytes) : MR unit :=
  count (λ st, st <| st_websock_sent ::= plus 1 |>);;
  hy ← get_hybi h;
  match h_type hy with
  | HYBI_WEBSOCKET =>
      c ← deref NullDeref (h_conn hy);
      r ← get;
      let res := ws_send_res (trace r) c msg in
      emit (WsSend c msg res);;
      match res with
      | WsOk => mret tt
      | WsExfull => emit (WsClose c)
      | WsError => SNIMPL true
      end
  | HYBI_COMET => comet_send h msg;; mret tt
  end.

(** [!strncmp(a, b, n)], where both have a NUL after them. *)
Fixpoint strncmp_eq (n : nat) (a b : bytes) : bool :=
  match n with
  | O => true
  | S n =>
      let c := default NUL (head a) in
      let d := default NUL (head b) in
      if decide (c ≠ d) then false else if decide (c = NUL) then true else strncmp_eq n (tail a) (tail b)
  end.

(** src/src/websocket.c:337-342 [websock_resolve] *)
Fixpoint resolve_prefix (data : bytes) (l : list addr) : MR (option sock_id) :=
  match l with
  | [] => mret None
  | item :: l =>
      o ← get_output item;
      if decide (length (o_prefix o) ≤ length data ∧
                 strncmp_eq (length (o_prefix o)) data (o_prefix o) = true)
      then mret (Some (o_socket o))
      else resolve_prefix data l
  end.

(** The time is printed into a buffer of 16 bytes, and the reply is as long as
    the whole text; src/src/websocket.c:305-344 [websock_resolve] *)
Definition websock_resolve (h : addr) (data : bytes) : MR (option sock_id) :=
  hy ← get_hybi h;
  rt ← get_route (h_route hy);
  if decide (rt_frontend_commands rt = true ∧ 8 ≤ length data ∧ take 7 data = str "ZEROGW:") then
    (if decide (11 ≤ length data ∧ take 4 (drop 7 data) = str "echo") then
       new_message true;; do_send h data
     else if decide (16 ≤ length data ∧ take 9 (drop 7 data) = str "timestamp") then
       new_message true;;
       r ← get;
       let text := time_text (trace r) (str ":%14.3f") in
       if decide (length text ≤ 15) then do_send h (data ++ text) else undefined OutOfBounds
     else mret tt);;
    mret None
  else
    o ← resolve_prefix data (h_outputs hy);
    mret (Some (default (Forward (h_route hy)) o)).

(** [h] is [conn->hybi]; [false] is the error return.
    src/src/websocket.c:346-356 [websock_message] *)
Definition websock_message (h : addr) (msg : bytes) : MR bool :=
  count (λ st, st <| st_websock_received ::= plus 1 |>);;
  sock ← websock_resolve h msg;
  match sock with
  | Some s => backend_send s h (PMessage msg) false
  | None => mret true
  end.

(** The subscriber and its successor are read before the message is sent, as
    sending may take subscribers off the list.
    src/src/websocket.c:491-497 [topic_publish] *)
Fixpoint publish_loop (n : nat) (sub : option addr) (msg : bytes) : MR unit :=
  match sub with
  | None => mret tt
  | Some sub =>
      match n with
      | O => out_of_fuel
      | S n =>
          s ← get_sub sub;
          t ← get_topic (s_topic s);
          let nxt := next_of sub (t_subscribers t) in
          do_send (s_connection s) msg;;
          publish_loop n nxt msg
      end
  end.

(** src/src/websocket.c:479-499 [topic_publish] *)
Definition topic_publish (topic : addr) (msg : bytes) : MR unit :=
  new_message false;;
  count (λ st, st <| st_websock_published ::= plus 1 |>);;
  t ← get_topic topic;
  publish_loop (length (t_subscribers t)) (head (t_subscribers t)) msg.

(** The loop of [send_all] and [pause_websockets] over the cells of the table. *)
Definition each_hybi (f : addr → MR unit) : MR unit :=
  r ← get;
  mfor (seq 0 (max (hsieve r))) (λ i,
    o ← on_hsieve (read_item i);
    match o with None => mret tt | Some h => f h end).

(** src/src/websocket.c:501-518 [send_all] *)
Definition send_all (rid : route_id) (msg : bytes) : MR unit :=
  new_message false;;
  count (λ st, st <| st_websock_published ::= plus 1 |>);;
  each_hybi (λ h,
    hy ← get_hybi h;
    if decide (h_route hy ≠ rid) then mret tt else do_send h msg).

(** *** Commands of a backend *)

(** The parts after the command.  [Z_RECV_NEXT]: a part that is not the last;
    src/src/zutils.h:53-55 [Z_RECV_NEXT] *)
Definition RECV_NEXT (parts : list bytes) (k : bytes → list bytes → MR bool) : MR bool :=
  match parts with a :: ((_ :: _) as rest) => k a rest | _ => mret false end.

(** src/src/zutils.h:57-59 [Z_RECV_LAST] *)
Definition RECV_LAST (parts : list bytes) (k : bytes → MR bool) : MR bool :=
  match parts with [a] => k a | _ => mret false end.

(** [hybi_find] and the test of the route that follow each identifier. *)
Definition find_on_route (rid : route_id) (id : bytes) (k : addr → MR bool) : MR bool :=
  o ← hybi_find id;
  match o with
  | None => mret false
  | Some h => hy ← get_hybi h; if decide (h_route hy ≠ rid) then mret false else k h
  end.

(** src/src/websocket.c:570-580 [websock_process] *)
Definition publish_command (rid : route_id) (name : bytes) (rest : list bytes) : MR bool :=
  topic ← find_topic rid name false;
  match topic with
  | None => mret false
  | Some t => RECV_LAST rest (λ data, topic_publish t data;; mret true)
  end.

(** src/src/websocket.c:586-598 [websock_process] *)
Definition send_command (h : addr) (msg : bytes) : MR bool :=
  new_message false;;
  count (λ st, st <| st_websock_sent ::= plus 1 |>);;
  do_send h msg;;
  mret true.

(** src/src/websocket.c:735-745 [websock_process] *)
Definition disconnect_command (rid : route_id) (id : bytes) : MR bool :=
  o ← hybi_find id;
  match o with
  | None => mret true
  | Some h =>
      hy ← get_hybi h;
      if decide (h_route hy = rid) then
        match h_type hy with
        | HYBI_COMET => comet_close h;; mret true
        | HYBI_WEBSOCKET => c ← deref NullDeref (h_conn hy); emit (WsClose c);; mret true
        end
      else mret true
  end.

(** One message; [true] when it was understood.  The operations that the
    commands stand for are the definitions that are called here.
    src/src/websocket.c:540-753 [websock_process] *)
Definition websock_command (rid : route_id) (parts : list bytes) : MR bool :=
  match parts with
  | cmd :: ((_ :: _) as rest) =>
      if decide (cmd = str "subscribe") then
        RECV_NEXT rest (λ id rest, if decide (length id ≠ UID_LEN) then mret false else
        find_on_route rid id (λ h, RECV_LAST rest (subscribe_command h rid)))
      else if decide (cmd = str "unsubscribe") then
        RECV_NEXT rest (λ id rest, if decide (length id ≠ UID_LEN) then mret false else
        find_on_route rid id (λ h, RECV_LAST rest (unsubscribe_command h rid)))
      else if decide (cmd = str "publish") then
        RECV_NEXT rest (publish_command rid)
      else if decide (cmd = str "send") then
        RECV_NEXT rest (λ id rest, find_on_route rid id (λ h, RECV_LAST rest (send_command h)))
      else if decide (cmd = str "clone") then
        RECV_NEXT rest (λ source rest, RECV_LAST rest (clone_command rid source))
      else if decide (cmd = str "drop") then
        RECV_LAST rest (drop_command rid)
      else if decide (cmd = str "add_output") then
        RECV_NEXT rest (λ id rest, find_on_route rid id (λ h,
        RECV_NEXT rest (λ prefix rest, RECV_LAST rest (λ name,
          add_output rid h prefix name;; mret true))))
      else if decide (cmd = str "del_output") then
        RECV_NEXT rest (λ id rest, find_on_route rid id (λ h, RECV_LAST rest (λ prefix,
          del_output h prefix;; mret true)))
      else if decide (cmd = str "set_cookie") then
        RECV_NEXT rest (λ id rest, find_on_route rid id (λ h, RECV_LAST rest (λ cookie,
          set_cookie h cookie;; mret true)))
      else if decide (cmd = str "sendall") then
        RECV_LAST rest (λ msg, send_all rid msg;; mret true)
      else if decide (cmd = str "disconnect") then
        RECV_LAST rest (disconnect_command rid)
      else mret false
  | _ => mret false
  end.

(** [msgs] are the messages that wait on the subscribe socket of the route.
    src/src/websocket.c:532-539 [websock_process] *)
Definition websock_process (rid : route_id) (msgs : list (list bytes)) : MR unit :=
  mfor msgs (λ parts, websock_command rid parts;; mret tt).

(** *** Pausing *)

(** [n] bounds the depth of the tree of routes.
    src/src/websocket.c:918-931 [resume_visitor] *)
Fixpoint resume_visitor (n : nat) (rid : route_id) : MR unit :=
  match n with
  | O => out_of_fuel
  | S n =>
      rt ← get_route rid;
      whenb (rt_forward rt) (emit (FeedEvent (Forward rid)));;
      mfor (rt_children rt) (resume_visitor n);;
      mfor (seq 0 (length (rt_outputs rt))) (λ i, emit (FeedEvent (Named rid i)))
  end.

(** src/src/websocket.c:933-943 [sync_visitor] *)
Fixpoint sync_visitor (n : nat) (rid : route_id) : MR unit :=
  match n with
  | O => out_of_fuel
  | S n =>
      rt ← get_route rid;
      mfor (rt_children rt) (sync_visitor n);;
      mfor (seq 0 (length (rt_outputs rt))) (λ i, emit (FeedSync (Named rid i)))
  end.

(** [Routing] is the root of the tree; src/src/websocket.c:946-948 [websockets_sync_now] *)
Definition websockets_sync_now (n : nat) (Routing : route_id) : MR unit := sync_visitor n Routing.

(** src/src/websocket.c:950-986 [pause_websockets] *)
Definition pause_websockets (n : nat) (Routing : route_id) (pause : bool) : MR unit :=
  r ← get;
  if Bool.eqb (paused r) pause then mret tt
  else
    let mm := if pause then str "ZEROGW:paused" else str "ZEROGW:resumed" in
    new_message true;;
    each_hybi (λ h,
      hy ← get_hybi h;
      rt ← get_route (h_route hy);
      if rt_frontend_commands rt && rt_paused_command rt then do_send h mm else mret tt);;
    if pause then modify (λ r, r <| paused := true |>)
    else modify (λ r, r <| paused := false |>);; resume_visitor n Routing.
End operations.
