(* ===== verification/Publish.v ===== *)
(** * Delivering messages to browsers (websocket.c)

    One message goes to one connection, to the subscribers of a topic or to
    everybody on a route.  A polling connection that is full is closed on the way,
    which takes it off the very list that is being walked. *)

From S2P Require Import Prelude Sieve Pool MsgQueue Uidgen Links State Topics Backend Outputs Hybi.
From S2P Require Import CometArgs Request Comet Session Frontend.

(** Without memory for a message the server aborts (unless its log level hides
    the failed assertion). *)
Lemma new_message_aborts `{LogLevel, Malloc, Env} sized r :
  message_malloc (trace r) = false → (LOG_ALERT ≤ LOGLEVEL)%Z → new_message sized r = Aborted.
Proof.
  intros Hm Hl. unfold new_message, mbind, M_bind, get. rewrite Hm. unfold ANIMPL. by rewrite (proj2 (Z.leb_le _ _) Hl).
Qed.

(** ** What goes into websockets *)

Definition ws_log (tr : list event) : list (conn_id * bytes) :=
  omap (λ e, match e with WsSend c m _ => Some (c, m) | _ => None end) tr.

(** The messages on the control socket, and the parts of one that is not
    complete. *)
Definition control_step (w : list (list bytes) * list bytes) (e : event) : list (list bytes) * list bytes :=
  match e with
  | CtlSend part more Sent => if more : bool then (w.1, w.2 ++ [part]) else (w.1 ++ [w.2 ++ [part]], [])
  | _ => w
  end.
Definition control_wire (tr : list event) : list (list bytes) * list bytes := foldl control_step ([], []) tr.

(** The topics, what was sent to websockets and on the control socket so far, and
    the size of the table of connections. *)
Definition ws_side (r : root) := (topics r, ws_log (trace r), max (hsieve r), control_wire (trace r)).

(** Closing connections takes subscribers off the lists and adds none. *)
Definition trims (r r' : root) : Prop := ∀ a t', topics r' !! a = Some t' →
  ∃ t, topics r !! a = Some t ∧ sublist (t_subscribers t') (t_subscribers t).

Record quietly (r r' : root) : Prop := {
  qt_trims : trims r r';
  qt_log : ws_log (trace r') = ws_log (trace r);
  qt_max : max (hsieve r') = max (hsieve r);
  qt_control : control_wire (trace r') = control_wire (trace r);
}.

#[export] Instance quietly_preorder : PreOrder quietly.
Proof.
  split.
  - intros r. split; [|done..]. intros a t Ht. by exists t.
  - intros r1 r2 r3 [T1 W1 M1 C1] [T2 W2 M2 C2]. split; [|congruence..].
    intros a t3 H3. destruct (T2 a t3 H3) as (t2 & H2 & ?). destruct (T1 a t2 H2) as (t1 & ? & ?).
    exists t1. split; [done|]. by etrans.
Qed.

Lemma quietly_same r r' : ws_side r' = ws_side r → quietly r r'.
Proof.
  unfold ws_side. intros [= E1 E2 E3 E4]. split; [|done..]. intros a t'. rewrite E1. by exists t'.
Qed.

(** ** Lemmas: closing a connection is quiet *)
Section quiet.
Context `{LogLevel, Malloc, Env}.
Implicit Types (r : root).

Definition no_ws (e : event) : Prop := match e with WsSend _ _ _ | CtlSend _ _ _ => False | _ => True end.

Lemma ws_log_snoc tr e : no_ws e → ws_log (tr ++ [e]) = ws_log tr.
Proof. intros He. unfold ws_log. rewrite omap_app. destruct e; try done; by rewrite app_nil_r. Qed.

Lemma control_wire_app tr l : control_wire (tr ++ l) = foldl control_step (control_wire tr) l.
Proof. apply foldl_app. Qed.

Lemma control_wire_snoc tr e : no_ws e → control_wire (tr ++ [e]) = control_wire tr.
Proof. intros He. rewrite control_wire_app. by destruct e. Qed.

Lemma keeps_ws_emit e : no_ws e → keeps ws_side (emit e).
Proof. intros He. apply keeps_emit. intros r. unfold ws_side. simpl. by rewrite ws_log_snoc, control_wire_snoc. Qed.

Lemma keeps_ws_send s h msg force : keeps ws_side (backend_send s h msg force).
Proof.
  apply keeps_backend_send; try done. intros. unfold ws_side. simpl. by rewrite ws_log_snoc, control_wire_snoc.
Qed.

Lemma keeps_ws_header req n v : keeps ws_side (ws_add_header req n v).
Proof. by apply keeps_ws_emit. Qed.
Lemma keeps_ws_status req l : keeps ws_side (ws_statusline req l).
Proof. by apply keeps_ws_emit. Qed.
Lemma keeps_ws_reply req d : keeps ws_side (ws_reply_data req d).
Proof. by apply keeps_ws_emit. Qed.

Lemma keeps_ws_ANIMPL c : keeps ws_side (ANIMPL c).
Proof. unfold ANIMPL. solve_keeps. Qed.
Lemma keeps_ws_SNIMPL c : keeps ws_side (SNIMPL c).
Proof. unfold SNIMPL. solve_keeps. Qed.

Hint Resolve keeps_ws_send keeps_ws_header keeps_ws_status keeps_ws_reply keeps_ws_ANIMPL
  keeps_ws_SNIMPL : keeps.
Hint Extern 1 (keeps ws_side (emit _)) => by apply keeps_ws_emit : keeps.

Lemma keeps_ws_UID_HOLE u : keeps ws_side (UID_HOLE u).
Proof. unfold UID_HOLE. solve_keeps. Qed.

Lemma keeps_ws_sieve i : keeps ws_side (on_hsieve (sieve_empty i)).
Proof.
  intros r [] r'. unfold on_hsieve, zoom. destruct (sieve_empty i (hsieve r)) as [[] sv| | |] eqn:E; [|done..].
  intros [= <-]. assert (max sv = max (hsieve r)) as Em; [|unfold ws_side; simpl; by rewrite Em].
  unfold sieve_empty, read_item, ANIMPL, mbind, M_bind, get, deref in E.
  destruct (items (hsieve r) !! Z.to_nat i) as [c|]; [|done]. cbn in E.
  destruct (_ && _)%bool; [done|]. by injection E as <-.
Qed.

Lemma keeps_ws_headers req : keeps ws_side (set_headers req).
Proof. unfold set_headers, http_common_headers. solve_keeps. Qed.

Lemma keeps_ws_stop_outputs h l : keeps ws_side (stop_outputs h l).
Proof.
  induction l as [|out l IH]; simpl; [solve_keeps|].
  unfold unlink_socket, unlink_client, free_output.
  repeat (first [apply IH|keeps_step]).
Qed.

Lemma keeps_ws_hybi_DECREF h : keeps ws_side (hybi_DECREF h).
Proof. unfold hybi_DECREF, hybi_free. solve_keeps. Qed.

Hint Resolve keeps_ws_UID_HOLE keeps_ws_sieve keeps_ws_headers keeps_ws_stop_outputs keeps_ws_hybi_DECREF : keeps.

Lemma keeps_ws_REQ_DECREF req : keeps ws_side (REQ_DECREF req).
Proof. unfold REQ_DECREF, request_free, request_finish. solve_keeps. Qed.

Lemma keeps_ws_get_comet h : keeps ws_side (get_comet h).
Proof. unfold get_comet. solve_keeps. Qed.

Lemma keeps_ws_set_comet h f : keeps ws_side (set_comet h f).
Proof. unfold set_comet. solve_keeps. Qed.

Hint Resolve keeps_ws_REQ_DECREF keeps_ws_get_comet keeps_ws_set_comet : keeps.

Lemma keeps_ws_close_reply h : keeps ws_side (close_reply h).
Proof. unfold close_reply. solve_keeps. Qed.

Lemma keeps_ws_comet_queue {A} h (m : M pooled_queue A) : keeps ws_side (on_comet_queue h m).
Proof.
  intros r a r'. unfold on_comet_queue. destruct (hybis r !! h) as [hy|]; [|done].
  destruct (h_comet hy); [|done]. destruct (m _); [|done..]. by intros [= _ <-].
Qed.

(** *** The list of a topic *)

Lemma respects_keeps_ws {A} (m : MR A) : keeps ws_side m → respects quietly m.
Proof. intros Hm. apply (respects_keeps _ ws_side); [apply quietly_same|done]. Qed.

Ltac respects_step :=
  lazymatch goal with
  | |- respects _ (mbind _ _) => apply respects_bind; [apply _| |intros ?]
  | |- respects _ (mfor _ _) => apply respects_mfor; [apply _|intros ?]
  | |- respects _ (match ?x with _ => _ end) => destruct x
  | |- respects _ _ => solve [apply respects_keeps_ws; solve_keeps]
  end; cbn beta.

Lemma quietly_unlink sub : respects quietly (remove_from_topic sub).
Proof.
  intros r [] r'. unfold remove_from_topic, get_sub, mbind, M_bind, get, deref.
  destruct (subs r !! sub) as [s|]; [|done]. simpl. unfold set_topic, get_topic, mbind, M_bind, get, deref.
  destruct (topics r !! s_topic s) as [t|] eqn:Ht; [|done]. intros [= <-]. split; [|done..].
  intros a t'. simpl. rewrite lookup_insert_Some. intros [[<- <-]|[_ Ha]]; [|by exists t'].
  exists t. split; [done|]. apply sublist_filter.
Qed.

Lemma quietly_delete a : respects quietly (modify (λ r, r <| topics ::= delete a |>)).
Proof.
  apply respects_modify. intros r. split; [|done..]. intros b t' Hb. simpl in Hb.
  apply lookup_delete_Some in Hb as [_ Hb]. by exists t'.
Qed.

Lemma quietly_free_topic a : respects quietly (free_topic a).
Proof.
  unfold free_topic, drop_subscriber, remove_from_client, free_subscriber.
  repeat (first [apply quietly_unlink|apply quietly_delete|respects_step]).
Qed.

Lemma quietly_stop_subscription e : respects quietly (stop_subscription e).
Proof.
  unfold stop_subscription, remove_from_client, free_subscriber.
  repeat (first [apply quietly_unlink|apply quietly_free_topic|respects_step]).
Qed.

Lemma quietly_comet_close h : respects quietly (comet_close h).
Proof.
  pose proof keeps_ws_close_reply as H2.
  unfold comet_close, free_comet, hybi_stop, close_fmsg.
  repeat (first [apply quietly_stop_subscription|respects_step]).
Qed.

Lemma quietly_comet_send h msg : respects quietly (comet_send h msg).
Proof.
  pose proof (@keeps_ws_comet_queue) as H2.
  unfold comet_send. repeat (first [apply quietly_comet_close|respects_step]).
Qed.
End quiet.

(** ** What delivering means *)

(** The websocket that a connection writes to. *)
Definition wire_of (r : root) (h : addr) : option conn_id :=
  hy ← hybis r !! h;
  match h_type hy with HYBI_WEBSOCKET => h_conn hy | HYBI_COMET => None end.

(** The session of [h] cannot take another message. *)
Definition no_room (r : root) (h : addr) : Prop :=
  ∃ c, comet_of r h = Some c ∧ (capacity (c_queue c) ≤ size (c_queue c))%Z.

(** A connection apart from its lists and its session. *)
Definition named_by (hy : hybi) : hybi := (bare hy) <| h_comet := None |>.

(** [msg] was delivered to the connections [cs], each once and in this order: it
    went into their websockets or to the end of their queues, or the queue had
    no room and the connection was closed.  Nobody else noticed. *)
Record delivered `{Malloc} (act act' : gset nat) (r r' : root) (cs : list addr) (msg : bytes) : Prop := {
  dv_ok : full_ok act' r';
  dv_act : act' ⊆ act;
  dv_closed : ∀ h, h ∈ act → h ∉ act' →
    h ∈ cs ∧ is_Some (comet_of r h) ∧ (no_room r h ∨ out_of_memory);
  dv_got : ∀ h, h ∈ act' → h ∈ cs →
    session_of r' h = prod_map id (λ l, l ++ [msg]) <$> session_of r h;
  dv_other : ∀ h, h ∈ act → h ∉ cs →
    bare <$> hybis r' !! h = bare <$> hybis r !! h ∧ session_of r' h = session_of r h;
  dv_conns : ∀ h, h ∈ act' → named_by <$> hybis r' !! h = named_by <$> hybis r !! h;
  dv_log : ws_log (trace r') = ws_log (trace r) ++ omap (λ h, (λ c, (c, msg)) <$> wire_of r h) cs;
  dv_control : control_wire (trace r') = control_wire (trace r);
  dv_nodes : ∀ e s, subs r' !! e = Some s ↔ subs r !! e = Some s ∧ s_connection s ∈ act';
  dv_trims : trims r r';
  dv_fixed : max (hsieve r') = max (hsieve r) ∧ dom (socks r') = dom (socks r) ∧
    static_route <$> routes r' = static_route <$> routes r;
}.

Section delivering.
Context `{LogLevel, Malloc, Env}.
Hypothesis Hdate : ∀ req, is_Some (http_date req).
Hypothesis Hzmq : zmq_laws.
Hypothesis Hws : message_laws.
Implicit Types (r : root).

(** There is memory for a message and the library takes it. *)
Lemma wp_new_message sized r (Q : unit → root → Prop) : Q tt r → wp (new_message sized) Q r.
Proof.
  destruct Hws as [_ Hm Hi Ht]. intros HQ. unfold new_message. apply wp_bind, wp_get, wp_bind, wp_ANIMPL; [apply Hm|].
  rewrite Hm. apply wp_bind, wp_ret, wp_bind, wp_SNIMPL; [apply Hi|]. rewrite Ht, andb_false_r. by apply wp_ret.
Qed.

Lemma full_ok_stat act r st : full_ok act r → full_ok act (r <| stat := st |>).
Proof.
  intros [Hsv Hcm]. split; [|by apply (comets_ok_frame act r)].
  by apply (server_ok_beside act r).
Qed.

Lemma bare_comet_of r r' h : bare <$> hybis r' !! h = bare <$> hybis r !! h → comet_of r' h = comet_of r h.
Proof.
  intros E. unfold comet_of. destruct (hybis r' !! h), (hybis r !! h); try done.
  apply (inj Some) in E. by apply (f_equal h_comet) in E.
Qed.

Lemma bare_wire_of r r' h : bare <$> hybis r' !! h = bare <$> hybis r !! h → wire_of r' h = wire_of r h.
Proof.
  intros E. unfold wire_of. destruct (hybis r' !! h) as [a|], (hybis r !! h) as [b|]; try done. simpl.
  apply (inj Some) in E. destruct a, b. injection E as. simpl in *. by subst.
Qed.

Lemma bare_named_by r r' h :
  bare <$> hybis r' !! h = bare <$> hybis r !! h → named_by <$> hybis r' !! h = named_by <$> hybis r !! h.
Proof.
  intros E. destruct (hybis r' !! h) as [a|], (hybis r !! h) as [b|]; try done. simpl.
  apply (inj Some) in E. unfold named_by. by rewrite E.
Qed.

(** Nothing about the connections changed. *)
Lemma delivered_wire act r r' h c msg :
  full_ok act r → full_ok act r' → wire_of r h = Some c → session_of r h = None →
  hybis r' = hybis r → fmsgs r' = fmsgs r → topics r' = topics r → subs r' = subs r →
  ws_log (trace r') = ws_log (trace r) ++ [(c, msg)] → control_wire (trace r') = control_wire (trace r) →
  hsieve r' = hsieve r → socks r' = socks r → routes r' = routes r →
  delivered act act r r' [h] msg.
Proof.
  intros Hok Hok' Hw Hs E1 E2 E3 E4 Hl Hctl E5 E6 E7.
  assert (Hses : ∀ h', session_of r' h' = session_of r h').
  { intros h'. unfold session_of, comet_of, backlog. by rewrite E1, E2. }
  split; try done.
  - intros h' _ ->%list_elem_of_singleton. by rewrite Hses, Hs.
  - intros h' _ _. by rewrite E1.
  - intros h' _. by rewrite E1.
  - rewrite Hl. csimpl. by rewrite Hw.
  - intros e s. rewrite E4. split; [|tauto]. intros He. split; [done|].
    by apply (sr_subs _ _ (fo_server _ _ Hok) e s).
  - intros a t'. rewrite E3. by exists t'.
  - by rewrite E5, E6, E7.
Qed.

Lemma delivered_session act r r' h hy c msg :
  full_ok act r → full_ok act r' → quietly r r' → h ∈ act → hybis r !! h = Some hy → h_comet hy = Some c →
  h_type hy = HYBI_COMET → accepted act r r' h hy c msg → delivered act act r r' [h] msg.
Proof.
  intros Hok Hok' [Htr Hl Hmx Hctl] Hact Hh Hc Ht [Hb (c' & Eh & _ & _ & _ & Efi & Ebl & _) Ho _].
  destruct (beside_subs _ _ Hb) as (E1 & _ & _).
  assert (Hco : comet_of r h = Some c) by (unfold comet_of; by rewrite Hh).
  split; try done.
  - intros h' _ ->%list_elem_of_singleton. unfold session_of.
    rewrite (session_self r r' h hy c' Eh), Hco. simpl. by rewrite Efi, Ebl.
  - intros h' Ha Hne. rewrite list_elem_of_singleton in Hne. split; [|by apply Ho].
    by rewrite Eh, lookup_insert_ne.
  - intros h' Ha. destruct (decide (h' = h)) as [->|Hne]; [|by rewrite Eh, lookup_insert_ne].
    by rewrite Eh, lookup_insert_eq, Hh.
  - rewrite Hl. csimpl. unfold wire_of. rewrite Hh. simpl. rewrite Ht. by rewrite app_nil_r.
  - intros e s. rewrite E1. split; [|tauto]. intros He. split; [done|].
    by apply (sr_subs _ _ (fo_server _ _ Hok) e s).
  - split; [done|by apply beside_fixed].
Qed.

Lemma delivered_closed act r r' h hy c msg :
  full_ok act r → full_ok (act ∖ {[h]}) r' → quietly r r' → h ∈ act → hybis r !! h = Some hy →
  h_comet hy = Some c → h_type hy = HYBI_COMET → gone r r' h hy →
  (∀ h', h' ∈ act → h' ≠ h → session_of r' h' = session_of r h') →
  (capacity (c_queue c) ≤ size (c_queue c))%Z ∨ out_of_memory →
  delivered act (act ∖ {[h]}) r r' [h] msg.
Proof.
  intros Hok Hok' [Htr Hl Hmx Hctl] Hact Hh Hc Ht Hg Ho Hfull.
  assert (Hco : comet_of r h = Some c) by (unfold comet_of; by rewrite Hh).
  assert (Hset : ∀ h', h' ∈ act ∖ {[h]} ↔ h' ∈ act ∧ h' ≠ h) by (clear Hzmq Hws Hdate; set_solver).
  split; try done.
  - clear Hzmq Hws Hdate. set_solver.
  - intros h' Ha Hn. assert (h' = h) as ->.
    { destruct (decide (h' = h)); [done|]. by destruct Hn; apply Hset. }
    split; [by left|]. split; [by eexists|]. destruct Hfull; [left; by exists c|by right].
  - intros h' [_ Hne]%Hset ->%list_elem_of_singleton. done.
  - intros h' Ha Hne. rewrite list_elem_of_singleton in Hne. split; [|by apply Ho].
    by apply (cl_conns _ _ _ _ Hg).
  - intros h' [Ha Hne]%Hset. by apply bare_named_by, (cl_conns _ _ _ _ Hg).
  - rewrite Hl. csimpl. unfold wire_of. rewrite Hh. simpl. rewrite Ht. by rewrite app_nil_r.
  - intros e s. rewrite (cl_nodes _ _ _ _ Hg), Hset. split; [|tauto]. intros [He Hne]. split_and!; try done.
    by apply (sr_subs _ _ (fo_server _ _ Hok) e s).
  - split; [done|by apply (cl_fixed _ _ _ _ Hg)].
Qed.

Lemma open_hybi act r h : full_ok act r → h ∈ act → ∃ hy, hybis r !! h = Some hy.
Proof. intros [Hsv _] Ha. by apply elem_of_dom, (bo_act _ _ (sr_backend _ _ Hsv)). Qed.

Lemma delivered_stat act act' r r' st cs msg :
  delivered act act' (r <| stat := st |>) r' cs msg → delivered act act' r r' cs msg.
Proof. by intros []; split. Qed.

Lemma wp_do_send act r h msg :
  full_ok act r → h ∈ act →
  wp (do_send h msg) (λ _ r', ∃ act', delivered act act' r r' [h] msg) r.
Proof.
  intros Hok0 Hact. destruct (open_hybi _ _ _ Hok0 Hact) as [hy Hh].
  unfold do_send. apply wp_bind, wp_count. cbn beta. set (r0 := r <| stat := _ |>).
  assert (Hok : full_ok act r0) by by apply full_ok_stat.
  pose proof (cm_kind _ _ (fo_comets _ _ Hok) h hy Hact Hh) as Hk.
  apply wp_bind. eapply wp_get_hybi; [done|]. destruct (h_type hy) eqn:Ht.
  - destruct Hk as [Hn [c Hc]]. rewrite Hc. apply wp_bind, wp_ret, wp_bind, wp_get, wp_bind, wp_write.
    assert (Hgen : ∀ l, ws_log l = [] → (∀ w, foldl control_step w l = w) → Forall off_wire l →
      delivered act act r (noted r0 (WsSend c msg (ws_send_res (trace r0) c msg) :: l)) [h] msg).
    { intros l Hl Hctl Hoff. apply (delivered_wire act r _ h c); try done.
      - apply full_ok_noted; [done|]. by constructor.
      - unfold wire_of. rewrite Hh. simpl. by rewrite Ht.
      - unfold session_of, comet_of. rewrite Hh. simpl. by rewrite Hn.
      - simpl. unfold ws_log in *. rewrite omap_app. csimpl. by rewrite Hl.
      - simpl. rewrite control_wire_app. simpl. apply Hctl. }
    destruct (ws_send_res (trace r0) c msg) eqn:Eres.
    + apply wp_ret. exists act. by apply (Hgen []).
    + apply wp_write. rewrite noted_noted. exists act. by apply (Hgen [WsClose c]); [| |repeat constructor].
    + by destruct (ml_send Hws (trace r0) c msg).
  - destruct Hk as [c Hc]. apply wp_bind.
    eapply wp_mono; [apply (wp_respects quietly); [apply quietly_comet_send|
      by apply (wp_comet_send Hdate Hzmq act r0 h hy c msg)]|].
    intros ok r' [Hr' Hq]. apply wp_ret.
    destruct ok.
    + destruct Hr' as (Hok' & Hac & _). exists act.
      eapply delivered_stat, (delivered_session act r0 r' h hy c msg); done.
    + destruct Hr' as (Hok' & Hg & Hfull & Ho). exists (act ∖ {[h]}).
      eapply delivered_stat, (delivered_closed act r0 r' h hy c msg); done.
Qed.

(** One connection after another. *)
Lemma delivered_cons act act1 act2 r r1 r2 h cs msg :
  h ∈ act → h ∉ cs → (∀ c, c ∈ cs → c ∈ act) →
  delivered act act1 r r1 [h] msg → delivered act1 act2 r1 r2 cs msg → delivered act act2 r r2 (h :: cs) msg.
Proof.
  intros Hact Hn Hcs D1 D2.
  assert (Hone : ∀ h', h' ∈ act → h' ≠ h → h' ∈ act1 ∧
    bare <$> hybis r1 !! h' = bare <$> hybis r !! h' ∧ session_of r1 h' = session_of r h').
  { intros h' Ha Hne. split.
    - destruct (decide (h' ∈ act1)) as [|Hx]; [done|]. destruct (dv_closed _ _ _ _ _ _ D1 h' Ha Hx) as [Hi _].
      by apply list_elem_of_singleton in Hi.
    - apply (dv_other _ _ _ _ _ _ D1); [done|]. by rewrite list_elem_of_singleton. }
  split.
  - apply D2.
  - transitivity act1; [exact (dv_act _ _ _ _ _ _ D2)|exact (dv_act _ _ _ _ _ _ D1)].
  - intros h' Ha Hx. destruct (decide (h' = h)) as [->|Hne].
    + destruct (decide (h ∈ act1)) as [Hi|Hi].
      { by destruct (dv_closed _ _ _ _ _ _ D2 h Hi Hx) as [? _]. }
      destruct (dv_closed _ _ _ _ _ _ D1 h Ha Hi) as (_ & ? & ?). split; [by left|done].
    + destruct (Hone h' Ha Hne) as (Hi & Eb & _).
      destruct (dv_closed _ _ _ _ _ _ D2 h' Hi Hx) as (? & Hc & Hf). split; [by right|].
      unfold no_room in *. by rewrite (bare_comet_of r r1 h' Eb) in *.
  - intros h' Ha [->|Hin]%elem_of_cons.
    + pose proof (dv_act _ _ _ _ _ _ D2 h Ha) as Hi.
      destruct (dv_other _ _ _ _ _ _ D2 h Hi Hn) as [_ ->]. apply D1; [done|by left].
    + rewrite (dv_got _ _ _ _ _ _ D2 h' Ha Hin). f_equal.
      apply Hone; [by apply Hcs|]. by intros ->.
  - intros h' Ha [Hne Hni]%not_elem_of_cons. destruct (Hone h' Ha Hne) as (Hi & Eb & Es).
    destruct (dv_other _ _ _ _ _ _ D2 h' Hi Hni) as [Eb2 Es2]. by rewrite Eb2, Es2.
  - intros h' Ha. rewrite (dv_conns _ _ _ _ _ _ D2 h' Ha). apply (dv_conns _ _ _ _ _ _ D1). by apply D2.
  - rewrite (dv_log _ _ _ _ _ _ D2), (dv_log _ _ _ _ _ _ D1), <- app_assoc. f_equal.
    change (h :: cs) with ([h] ++ cs). rewrite omap_app. f_equal. apply omap_same.
    intros h' Hin. f_equal. apply bare_wire_of, Hone; [by apply Hcs|]. by intros ->.
  - by rewrite (dv_control _ _ _ _ _ _ D2), (dv_control _ _ _ _ _ _ D1).
  - intros e s. rewrite (dv_nodes _ _ _ _ _ _ D2), (dv_nodes _ _ _ _ _ _ D1). split; [tauto|].
    intros [He Hc]. split_and!; try done. by apply D2.
  - intros a t'. intros Ht'. destruct (dv_trims _ _ _ _ _ _ D2 a t' Ht') as (t1 & Ht1 & ?).
    destruct (dv_trims _ _ _ _ _ _ D1 a t1 Ht1) as (t0 & Ht0 & ?). exists t0. split; [done|by etrans].
  - destruct (dv_fixed _ _ _ _ _ _ D2) as (-> & -> & ->). apply (dv_fixed _ _ _ _ _ _ D1).
Qed.

Lemma delivered_nil act r msg : full_ok act r → delivered act act r r [] msg.
Proof.
  intros Hok. split; try done.
  - by intros h _ ?%not_elem_of_nil.
  - csimpl. by rewrite app_nil_r.
  - intros e s. split; [|tauto]. intros He. split; [done|]. by apply (sr_subs _ _ (fo_server _ _ Hok) e s).
  - intros a t. by exists t.
Qed.

(** *** To the subscribers of a topic *)

(** The connections of a list of subscriptions. *)
Definition clients r (l : list addr) : list addr := omap (λ e, s_connection <$> subs r !! e) l.

Lemma topic_nodes act r topic t e :
  full_ok act r → topics r !! topic = Some t →
  e ∈ t_subscribers t ↔ ∃ s, subs r !! e = Some s ∧ s_topic s = topic.
Proof. intros [Hsv _]. apply (subs_ok_topic _ _ _ _ _ (tk_subs _ (sr_topics _ _ Hsv))). Qed.

Lemma topic_nodup act r topic t : full_ok act r → topics r !! topic = Some t → NoDup (t_subscribers t).
Proof.
  intros [Hsv _] Ht. eapply side_NoDup; [apply (so_topic _ _ (tk_subs _ (sr_topics _ _ Hsv)))|].
  by apply lookup_fmap_Some'.
Qed.

(** A connection is on the list of a topic once. *)
Lemma topic_client_inj act r e e' s s' :
  full_ok act r → subs r !! e = Some s → subs r !! e' = Some s' → s_topic s = s_topic s' →
  s_connection s = s_connection s' → e = e'.
Proof.
  intros [Hsv _] He He' Et Ec. apply (so_uniq _ _ (tk_subs _ (sr_topics _ _ Hsv)) e e' s); [done|].
  destruct s, s'. simpl in *. by subst.
Qed.

Lemma list_filter_iff' {A} (P Q : A → Prop) `{∀ a, Decision (P a)} `{∀ a, Decision (Q a)} (l : list A) :
  (∀ a, a ∈ l → P a ↔ Q a) → filter P l = filter Q l.
Proof.
  induction l as [|a l IH]; [done|]. intros Hpq. rewrite !filter_cons.
  rewrite IH by (intros; apply Hpq; by right). specialize (Hpq a ltac:(by left)).
  destruct (decide (P a)), (decide (Q a)); tauto.
Qed.

Lemma filter_all {A} (l : list A) : filter (λ _, True) l = l.
Proof. induction l as [|a l IH]; [done|]. by rewrite filter_cons_True, IH. Qed.

(** Once [msg] went to the client of [e], the rest of the list is still there. *)
Lemma rest_of_list act act1 r r1 topic t pre e s l msg :
  full_ok act r → topics r !! topic = Some t → t_subscribers t = pre ++ e :: l → subs r !! e = Some s →
  delivered act act1 r r1 [s_connection s] msg →
  (∀ x, x ∈ l → subs r1 !! x = subs r !! x) ∧
  match l with
  | [] => True
  | _ => ∃ t1 pre1, topics r1 !! topic = Some t1 ∧ t_subscribers t1 = pre1 ++ l
  end.
Proof.
  intros Hok Ht Hl He D. pose proof (topic_nodup _ _ _ _ Hok Ht) as Hnd. rewrite Hl in Hnd.
  pose proof (dv_ok _ _ _ _ _ _ D) as Hok1.
  assert (Hs : s_topic s = topic).
  { assert (Hin : e ∈ t_subscribers t) by (rewrite Hl; apply elem_of_app; right; by left).
    apply (topic_nodes act r topic t e Hok Ht) in Hin as (s' & Hs' & E). congruence. }
  assert (Hother : ∀ x s', subs r !! x = Some s' → s_topic s' = topic → x ≠ e → s_connection s' ∈ act1).
  { intros x s' Hx Hxt Hne. pose proof (sr_subs _ _ (fo_server _ _ Hok) _ _ Hx) as Ha.
    destruct (decide (s_connection s' ∈ act1)) as [|Hn]; [done|].
    destruct (dv_closed _ _ _ _ _ _ D _ Ha Hn) as [Hin _]. apply list_elem_of_singleton in Hin.
    destruct Hne. apply (topic_client_inj act r x e s' s); congruence. }
  assert (Hnode : ∀ x, x ∈ l → x ≠ e ∧ ∃ s', subs r !! x = Some s' ∧ s_topic s' = topic ∧ subs r1 !! x = Some s').
  { intros x Hx. assert (Hne : x ≠ e).
    { intros ->. apply NoDup_app in Hnd as (_ & _ & Hnd). by apply NoDup_cons in Hnd as [? _]. }
    split; [done|]. assert (Hin : x ∈ t_subscribers t) by (rewrite Hl; apply elem_of_app; right; by right).
    apply (topic_nodes act r topic t x Hok Ht) in Hin as (s' & Hs' & E). exists s'. split_and!; try done.
    apply (dv_nodes _ _ _ _ _ _ D). split; [done|]. by eapply Hother. }
  split.
  { intros x Hx. destruct (Hnode x Hx) as (_ & s' & -> & _ & ->). done. }
  destruct l as [|e2 l]; [done|].
  destruct (Hnode e2) as (_ & s2 & _ & Et2 & Hs2); [by left|].
  destruct (subs_ok_lookup _ _ _ _ (tk_subs _ (sr_topics _ _ (fo_server _ _ Hok1))) Hs2) as (t1 & _ & Ht1 & _).
  rewrite Et2 in Ht1. destruct (dv_trims _ _ _ _ _ _ D topic t1 Ht1) as (t' & Ht' & Hsub).
  rewrite Ht in Ht'. injection Ht' as <-. rewrite Hl in Hsub. exists t1.
  assert (Hmem : ∀ x, x ∈ t_subscribers t1 ↔ x ∈ pre ++ e :: e2 :: l ∧ (x = e → s_connection s ∈ act1)).
  { intros x. rewrite (topic_nodes act1 r1 topic t1 x Hok1 Ht1), <- Hl, (topic_nodes act r topic t x Hok Ht). split.
    - intros (s' & Hx & E). apply (dv_nodes _ _ _ _ _ _ D) in Hx as [Hx Ha]. split; [by exists s'|].
      intros ->. congruence.
    - intros [(s' & Hx & E) Hp]. exists s'. split; [|done]. apply (dv_nodes _ _ _ _ _ _ D). split; [done|].
      destruct (decide (x = e)) as [->|Hne]; [|by eapply Hother].
      assert (s' = s) as -> by congruence. by apply Hp. }
  destruct (decide (s_connection s ∈ act1)).
  - exists (pre ++ [e]). split; [done|]. rewrite <- app_assoc. simpl.
    rewrite (sublist_filter_eq (λ _, True) _ _ Hsub Hnd); [apply filter_all|].
    intros x. rewrite Hmem. tauto.
  - exists pre. split; [done|]. rewrite <- (unlink_mid e pre (e2 :: l) Hnd).
    apply sublist_filter_eq; [done|done|]. intros x. rewrite Hmem. split; (intros [? Hp]; split; [done|]); tauto.
Qed.

Lemma wp_publish_loop n topic msg : ∀ l pre r act,
  full_ok act r → length l ≤ n →
  match l with [] => True | _ => ∃ t, topics r !! topic = Some t ∧ t_subscribers t = pre ++ l end →
  wp (publish_loop n (head l) msg) (λ _ r', ∃ act', delivered act act' r r' (clients r l) msg) r.
Proof.
  induction n as [|n IH]; intros [|e l] pre r act Hok Hn Hl; simpl in Hn; try lia; cbn [publish_loop head].
  1,2: by apply wp_ret; exists act; apply delivered_nil.
  destruct Hl as (t & Ht & Hl).
  assert (Hin : e ∈ t_subscribers t) by (rewrite Hl; apply elem_of_app; right; by left).
  apply (topic_nodes act r topic t e Hok Ht) in Hin as (s & Hs & Es).
  pose proof (topic_nodup _ _ _ _ Hok Ht) as Hnd.
  apply wp_bind. eapply wp_get_sub; [done|]. apply wp_bind. eapply wp_get_topic; [by rewrite Es|].
  rewrite Hl, next_of_mid by by rewrite <- Hl.
  pose proof (sr_subs _ _ (fo_server _ _ Hok) e s Hs) as Ha.
  apply wp_bind. eapply wp_mono; [by apply (wp_do_send act)|]. intros _ r1 [act1 D].
  destruct (rest_of_list _ _ _ _ _ _ _ _ _ _ _ Hok Ht Hl Hs D) as [Hsame Hrest].
  assert (Hcl : clients r1 l = clients r l) by (apply omap_same; intros x Hx; by rewrite Hsame).
  assert (Hpre : ∃ pre1, match l with [] => True | _ => ∃ t, topics r1 !! topic = Some t ∧ t_subscribers t = pre1 ++ l end).
  { destruct l; [by exists []|]. destruct Hrest as (t1 & pre1 & ? & ?). by exists pre1, t1. }
  destruct Hpre as [pre1 Hpre].
  eapply wp_mono; [apply (IH l pre1 r1 act1); [apply D|lia|done]|]. intros _ r2 [act2 D2].
  exists act2. rewrite Hcl in D2. unfold clients. csimpl. rewrite Hs. simpl.
  assert (Hcs : ∀ c, c ∈ clients r l → ∃ x s', x ∈ l ∧ subs r !! x = Some s' ∧ s_connection s' = c ∧ s_topic s' = topic).
  { intros c Hc. unfold clients in Hc. apply list_elem_of_omap in Hc as (x & Hx & Hxs).
    apply fmap_Some in Hxs as (s' & Hs' & ->). exists x, s'. split_and!; try done.
    assert (Hin : x ∈ t_subscribers t) by (rewrite Hl; apply elem_of_app; right; by right).
    apply (topic_nodes act r topic t x Hok Ht) in Hin as (s2 & Hs2 & E2). congruence. }
  eapply delivered_cons; [exact Ha| | |exact D|exact D2].
  - intros (x & s' & Hx & Hs' & Ec & Et)%Hcs. assert (x = e) as ->.
    { apply (topic_client_inj act r x e s' s); congruence. }
    rewrite Hl in Hnd. apply NoDup_app in Hnd as (_ & _ & Hnd). by apply NoDup_cons in Hnd as [? _].
  - intros c (x & s' & Hx & Hs' & <- & _)%Hcs. by apply (sr_subs _ _ (fo_server _ _ Hok) x s').
Qed.

Lemma wp_topic_publish act r topic t msg :
  full_ok act r → topics r !! topic = Some t →
  wp (topic_publish topic msg) (λ _ r', ∃ act', delivered act act' r r' (clients r (t_subscribers t)) msg) r.
Proof.
  intros Hok Ht. unfold topic_publish. apply wp_bind, wp_new_message, wp_bind, wp_count. cbn beta. apply wp_bind.
  eapply wp_get_topic; [done|]. eapply wp_mono.
  - apply (wp_publish_loop _ topic msg (t_subscribers t) [] _ act); [by apply full_ok_stat|done|].
    destruct (t_subscribers t) eqn:E; [done|]. by exists t.
  - intros _ r' [act' D]. exists act'. by eapply delivered_stat.
Qed.

(** *** To everybody on a route *)

(** The open connections of the route, in the order of the table, from cell [i] on. *)
Definition on_route r (rid : route_id) (i : nat) : list addr :=
  filter (λ h, h_route <$> hybis r !! h = Some rid) (omap id (drop i (items (hsieve r)))).

Lemma cell_open act r i h :
  full_ok act r → items (hsieve r) !! i = Some (Some h) →
  h ∈ act ∧ ∃ hy, hybis r !! h = Some hy ∧
    le_value (take 8 (drop IID_LEN (h_uid hy))) = Z.of_nat i.
Proof.
  intros [Hsv _] Hi. destruct (sr_sieve _ _ Hsv) as [Hwf Hiid Hact Huid].
  assert (Hho : holes (hsieve r) !! i = Some h) by by rewrite lookup_holes, Hi.
  clear Hi. rename Hho into Hi. destruct (Huid i h Hi) as (hy & ix & tl & Hh & Hu & Htl).
  split; [by apply Hact; exists i|]. exists hy. split; [done|].
  pose proof (holes_lt _ _ _ Hwf Hi). pose proof (wf_max _ Hwf). by rewrite Hu, uid_hole_field by (done || lia).
Qed.

Lemma open_cell act r h :
  full_ok act r → h ∈ act → ∃ i, items (hsieve r) !! i = Some (Some h).
Proof.
  intros [Hsv _] Ha. destruct (sr_sieve _ _ Hsv) as [Hwf Hiid Hact Huid].
  apply Hact in Ha as [i Hi]. exists i. rewrite lookup_holes in Hi.
  destruct (items (hsieve r) !! i) as [[x|]|]; [|done..]. by injection Hi as ->.
Qed.

(** The cells of the other connections stay. *)
Lemma cells_kept act act1 r r1 h msg i :
  full_ok act r → delivered act act1 r r1 [h] msg → items (hsieve r) !! i = Some (Some h) →
  ∀ j, j ≠ i → items (hsieve r1) !! j = items (hsieve r) !! j.
Proof.
  intros Hok D Hi j Hj. pose proof (dv_ok _ _ _ _ _ _ D) as Hok1.
  assert (Hlen : length (items (hsieve r1)) = length (items (hsieve r))).
  { rewrite !wf_items; [apply (dv_fixed _ _ _ _ _ _ D)|apply Hok|apply Hok1]. }
  destruct (decide (j < length (items (hsieve r)))) as [Hlt|]; [|by rewrite !lookup_ge_None_2 by lia].
  destruct (lookup_lt_is_Some_2 (items (hsieve r)) j Hlt) as [o Ho].
  destruct (lookup_lt_is_Some_2 (items (hsieve r1)) j ltac:(lia)) as [o1 Ho1].
  assert (Huid : ∀ h' hy hy1, h' ∈ act1 → hybis r !! h' = Some hy → hybis r1 !! h' = Some hy1 →
    h_uid hy1 = h_uid hy).
  { intros h' hy hy1 Ha Hh Hh1. pose proof (dv_conns _ _ _ _ _ _ D h' Ha) as E. rewrite Hh, Hh1 in E.
    apply (inj Some) in E. by apply (f_equal h_uid) in E. }
  rewrite Ho, Ho1. f_equal. destruct o1 as [h1|].
  - destruct (cell_open act1 r1 j h1 Hok1 Ho1) as (Ha & hy1 & Hh1 & Hv1).
    destruct (open_cell act r h1 Hok (dv_act _ _ _ _ _ _ D h1 Ha)) as [j' Hj'].
    destruct (cell_open act r j' h1 Hok Hj') as (_ & hy & Hh & Hv).
    rewrite (Huid h1 hy hy1 Ha Hh Hh1) in Hv1. assert (j' = j) as -> by lia. congruence.
  - destruct o as [h0|]; [|done]. destruct (cell_open act r j h0 Hok Ho) as (Ha & hy & Hh & Hv).
    destruct (decide (h0 ∈ act1)) as [Ha1|Hn].
    + destruct (open_cell act1 r1 h0 Hok1 Ha1) as [j' Hj'].
      destruct (cell_open act1 r1 j' h0 Hok1 Hj') as (_ & hy1 & Hh1 & Hv1).
      rewrite (Huid h0 hy hy1 Ha1 Hh Hh1) in Hv1. assert (j' = j) as -> by lia. congruence.
    + destruct (dv_closed _ _ _ _ _ _ D h0 Ha Hn) as [->%list_elem_of_singleton _].
      destruct (cell_open act r i h Hok Hi) as (_ & hy' & Hh' & Hv'). assert (hy' = hy) as -> by congruence.
      lia.
Qed.

(** The connections whose route is chosen. *)
Definition chosen_from r (sel : route_id → bool) (i : nat) : list addr :=
  filter (λ h, sel ∘ h_route <$> hybis r !! h = Some true) (omap id (drop i (items (hsieve r)))).

Lemma chosen_open act r sel i h :
  full_ok act r → h ∈ chosen_from r sel i → h ∈ act ∧ ∃ j, i ≤ j ∧ items (hsieve r) !! j = Some (Some h).
Proof.
  intros Hok Hin. unfold chosen_from in Hin. apply list_elem_of_filter in Hin as [_ Hin].
  apply list_elem_of_omap in Hin as (o & Ho & Eo). simpl in Eo. subst o. apply list_elem_of_lookup in Ho as [k Hk].
  rewrite lookup_drop in Hk. split; [by eapply cell_open|]. exists (i + k). split; [lia|done].
Qed.

(** Sending to one connection leaves the choice among the later cells. *)
Lemma chosen_kept act act1 r r1 h msg sel i :
  full_ok act r → delivered act act1 r r1 [h] msg → items (hsieve r) !! i = Some (Some h) →
  chosen_from r1 sel (S i) = chosen_from r sel (S i).
Proof.
  intros Hok D Hi. unfold chosen_from.
  assert (drop (S i) (items (hsieve r1)) = drop (S i) (items (hsieve r))) as E.
  { apply list_eq. intros k. rewrite !lookup_drop. by apply (cells_kept act act1 r r1 h msg i); [..|lia]. }
  rewrite E. apply list_filter_iff'. intros h' Hin'.
  apply list_elem_of_omap in Hin' as (o & Ho' & Eo). simpl in Eo. subst o. apply list_elem_of_lookup in Ho' as [k Hk].
  rewrite lookup_drop in Hk. destruct (cell_open act r _ h' Hok Hk) as (Ha' & hy' & Hh' & Hv').
  destruct (cell_open act r i h Hok Hi) as (_ & hy & Hh & Hv).
  assert (Hne : h' ≠ h) by (intros ->; assert (hy' = hy) as -> by congruence; lia).
  destruct (dv_other _ _ _ _ _ _ D h' Ha') as [Eb _]; [by rewrite list_elem_of_singleton|].
  rewrite Hh' in *. destruct (hybis r1 !! h') as [hy1|]; [|done]. apply (inj Some) in Eb.
  apply (f_equal h_route) in Eb. simpl in Eb. simpl. by rewrite Eb.
Qed.

(** The loop over the cells, of a function that sends to the connections whose
    route is chosen; [C] are the routes apart from their topics, and [R] holds of the
    routes of the open connections. *)
Lemma wp_send_cells (C : gmap nat route) (R : route_id → Prop) (sel : route_id → bool) (f : addr → MR unit) msg
    (Hf : ∀ h hy r Q, hybis r !! h = Some hy → static_route <$> routes r = C → R (h_route hy) →
       wp (if sel (h_route hy) then do_send h msg else mret tt) Q r → wp (f h) Q r) n : ∀ i r act,
  full_ok act r → static_route <$> routes r = C →
  (∀ h hy, h ∈ act → hybis r !! h = Some hy → R (h_route hy)) → i + n = max (hsieve r) →
  wp (mfor (seq i n) (λ i, o ← on_hsieve (read_item i); match o with None => mret tt | Some h => f h end))
     (λ _ r', ∃ act', delivered act act' r r' (chosen_from r sel i) msg) r.
Proof.
  induction n as [|n IH]; intros i r act Hok HC Hrt Hn; cbn [seq mfor].
  all: assert (Hlen : length (items (hsieve r)) = max (hsieve r)) by (apply wf_items, Hok).
  { apply wp_ret. exists act. unfold chosen_from. rewrite drop_ge by lia. by apply delivered_nil. }
  destruct (lookup_lt_is_Some_2 (items (hsieve r)) i ltac:(lia)) as [o Ho].
  assert (Hstep : chosen_from r sel i = filter (λ h, sel ∘ h_route <$> hybis r !! h = Some true) (omap id [o]) ++
                                        chosen_from r sel (S i)).
  { unfold chosen_from. rewrite (drop_S _ o) by done. change (o :: ?l) with ([o] ++ l).
    by rewrite omap_app, filter_app. }
  apply wp_bind, wp_bind. unfold on_hsieve. apply wp_zoom. unfold read_item. apply wp_bind, wp_get.
  eapply wp_deref; [exact Ho|]. replace (r <| hsieve := hsieve r |>) with r by by destruct r.
  destruct o as [h|]; cycle 1.
  { apply wp_ret. rewrite Hstep. simpl. apply IH; [done..|lia]. }
  destruct (cell_open act r i h Hok Ho) as (Ha & hy & Hh & Hv).
  eapply Hf; [done|done|by eapply Hrt|]. rewrite Hstep. csimpl.
  destruct (sel (h_route hy)) eqn:Esel.
  2:{ apply wp_ret. rewrite filter_cons_False by (rewrite Hh; simpl; congruence). apply IH; [done..|lia]. }
  rewrite filter_cons_True by (rewrite Hh; simpl; congruence).
  eapply wp_mono; [by apply (wp_do_send act)|]. intros _ r1 [act1 D].
  pose proof (chosen_kept act act1 r r1 h msg sel i Hok D Ho) as Hnext.
  destruct (dv_fixed _ _ _ _ _ _ D) as (Em & _ & Est).
  eapply wp_mono; [apply (IH (S i) r1 act1); [apply D|congruence| |lia]|].
  { intros h' hy1 Ha1 Hh1. pose proof (dv_conns _ _ _ _ _ _ D h' Ha1) as E.
    destruct (open_hybi _ _ _ Hok (dv_act _ _ _ _ _ _ D h' Ha1)) as [hy' Hh']. rewrite Hh1, Hh' in E.
    apply (inj Some) in E. apply (f_equal h_route) in E. simpl in E. rewrite E.
    eapply Hrt; [by apply (dv_act _ _ _ _ _ _ D)|done]. }
  intros _ r2 [act2 D2]. exists act2. rewrite Hnext in D2. simpl.
  eapply delivered_cons; [done| | |done|done].
  - intros [_ (j & Hj & Hc)]%(chosen_open act); [|done].
    destruct (cell_open act r j h Hok Hc) as (_ & hy' & Hh' & Hv').
    assert (hy' = hy) as -> by congruence. lia.
  - intros c Hc. by eapply chosen_open.
Qed.

Lemma on_route_chosen r rid i : on_route r rid i = chosen_from r (λ x, bool_decide (x = rid)) i.
Proof.
  apply list_filter_iff'. intros h _. destruct (hybis r !! h) as [hy|]; simpl; [|done].
  case_bool_decide; split; congruence.
Qed.

Lemma wp_send_all act r rid msg :
  full_ok act r →
  wp (send_all rid msg) (λ _ r', ∃ act', delivered act act' r r' (on_route r rid 0) msg) r.
Proof.
  intros Hok. unfold send_all, each_hybi. apply wp_bind, wp_new_message, wp_bind, wp_count. cbn beta. apply wp_bind, wp_get.
  eapply wp_mono; [eapply (wp_send_cells (static_route <$> routes r) (λ _, True) (λ x, bool_decide (x = rid)));
    [|by apply full_ok_stat|done..]|].
  - intros h hy r1 Q Hh _ _ HQ. apply wp_bind. eapply wp_get_hybi; [done|].
    destruct (decide (h_route hy ≠ rid)) as [Hne|Heq].
    + by rewrite bool_decide_eq_false_2 in HQ.
    + rewrite bool_decide_eq_true_2 in HQ; [done|by apply dec_stable].
  - intros _ r' [act' D]. exists act'. rewrite on_route_chosen. by eapply delivered_stat.
Qed.
End delivering.

Lemma example_message_laws : @message_laws example_env.
Proof. by split. Qed.
