(* ===== verification/Inbound.v ===== *)
(** * Messages from browsers (websocket.c)

    What a browser sends is forwarded to one socket of its route, chosen by the
    mappings of its connection; posting it changes nothing but the queue of that
    socket. *)

From S2P Require Import Prelude Sieve Pool MsgQueue Uidgen Links State Topics Backend Outputs Hybi.
From S2P Require Import CometArgs Request Comet Session Frontend Publish.

(** ** Lemmas: comparing with a prefix *)

(** What [strncmp] compares of a prefix: up to its first NUL, with it. *)
Fixpoint compared (p : bytes) : bytes :=
  match p with
  | [] => []
  | c :: p => if decide (c = NUL) then [NUL] else c :: compared p
  end.

(** A prefix of a mapping matches a message. *)
Definition matches (prefix data : bytes) : Prop :=
  length prefix ≤ length data ∧ compared prefix `prefix_of` data.

Lemma strncmp_eq_compared b : ∀ a, length b ≤ length a →
  strncmp_eq (length b) a b = true ↔ compared b `prefix_of` a.
Proof.
  induction b as [|c b IH]; intros a Hl; simpl.
  { split; [intros _; apply prefix_nil|done]. }
  destruct a as [|d a]; simpl in *; [lia|].
  destruct (decide (d ≠ c)) as [Hd|Hd].
  { split; [done|]. case_decide; intros Hp; apply prefix_cons_inv_1 in Hp; congruence. }
  apply dec_stable in Hd as ->. case_decide as Hc.
  - subst. split; [intros _; apply prefix_cons, prefix_nil|done].
  - rewrite IH by lia. split; [apply prefix_cons|apply prefix_cons_inv_2].
Qed.

(** Without a NUL in it that is the prefix itself. *)
Lemma matches_prefix p data : nul_free p → matches p data ↔ p `prefix_of` data.
Proof.
  intros Hn. assert (compared p = p) as E.
  { unfold nul_free in Hn. induction p as [|c p IH]; [done|]. apply not_elem_of_cons in Hn as [Hc Hn].
    simpl. rewrite decide_False by done. by rewrite IH. }
  unfold matches. rewrite E. split; [tauto|]. intros Hp. split; [by apply prefix_length|done].
Qed.

(** ** Lemmas: the socket of a message *)
Section inbound.
Context `{LogLevel, Malloc, Env}.
Hypothesis Hzmq : zmq_laws.
Hypothesis Hws : message_laws.
Implicit Types (r : root).

(** The mapping takes the message. *)
Definition takes (data : bytes) (o : output) : Prop :=
  length (o_prefix o) ≤ length data ∧ strncmp_eq (length (o_prefix o)) data (o_prefix o) = true.

#[export] Instance takes_dec data o : Decision (takes data o) := _.

(** The first mapping of the list that takes the message, if any. *)
Inductive chosen r (data : bytes) : list addr → option sock_id → Prop :=
  | chosen_none : chosen r data [] None
  | chosen_first a o l : outputs r !! a = Some o → takes data o → chosen r data (a :: l) (Some (o_socket o))
  | chosen_later a o l s : outputs r !! a = Some o → ¬ takes data o → chosen r data l s →
      chosen r data (a :: l) s.

Lemma wp_resolve_prefix r data l :
  (∀ a, a ∈ l → is_Some (outputs r !! a)) →
  wp (resolve_prefix data l) (λ o r', r' = r ∧ chosen r data l o) r.
Proof.
  induction l as [|a l IH]; intros Hl; cbn [resolve_prefix].
  { apply wp_ret. split; [done|constructor]. }
  destruct (Hl a) as [o Ho]; [by left|]. apply wp_bind. eapply wp_get_output; [done|].
  destruct (decide (takes data o)) as [Ht|Ht]; unfold takes in Ht.
  - rewrite decide_True by done. apply wp_ret. split; [done|by econstructor].
  - rewrite decide_False by done. eapply wp_mono; [apply IH; intros; apply Hl; by right|].
    intros s r' [-> Hs]. split; [done|by econstructor].
Qed.

(** The message is one for the gateway itself. *)
Definition gateway_command (rt : route) (data : bytes) : Prop :=
  rt_frontend_commands rt = true ∧ 8 ≤ length data ∧ take 7 data = str "ZEROGW:".

Definition plain_message r (hy : hybi) (data : bytes) : Prop :=
  ∃ rt, routes r !! h_route hy = Some rt ∧ ¬ gateway_command rt data.

(** What the gateway answers to such a message. *)
Definition command_answer r (data : bytes) : option bytes :=
  if decide (11 ≤ length data ∧ take 4 (drop 7 data) = str "echo") then Some data
  else if decide (16 ≤ length data ∧ take 9 (drop 7 data) = str "timestamp") then
    Some (data ++ time_text (trace r) (str ":%14.3f"))
  else None.

(** The clock fits in the buffer that it is printed to. *)
Definition clock_ok : Prop := ∀ tr, length (time_text tr (str ":%14.3f")) ≤ 15.

Lemma wp_gateway_command r h hy rt data (Q : option sock_id → root → Prop) :
  hybis r !! h = Some hy → routes r !! h_route hy = Some rt → gateway_command rt data → clock_ok →
  match command_answer r data with
  | Some m => wp (do_send h m) (λ _, Q None) r
  | None => Q None r
  end →
  wp (websock_resolve h data) Q r.
Proof.
  clear Hzmq. intros Hh Hrt Hc Ht HQ. unfold websock_resolve. apply wp_bind. eapply wp_get_hybi; [done|].
  apply wp_bind. eapply wp_get_route; [done|]. rewrite decide_True by done. apply wp_bind.
  unfold command_answer in HQ. case_decide; [|case_decide].
  - apply wp_bind, (wp_new_message Hws). eapply wp_mono; [exact HQ|]. done.
  - apply wp_bind, (wp_new_message Hws), wp_bind, wp_get. rewrite decide_True by apply Ht.
    eapply wp_mono; [exact HQ|]. done.
  - by apply wp_ret, wp_ret.
Qed.

Lemma wp_websock_resolve act r h hy data :
  full_ok act r → hybis r !! h = Some hy → plain_message r hy data →
  wp (websock_resolve h data) (λ o r', r' = r ∧ ∃ c, chosen r data (h_outputs hy) c ∧
    o = Some (default (Forward (h_route hy)) c)) r.
Proof.
  intros [Hsv _] Hh (rt & Hrt & Hp). unfold websock_resolve. apply wp_bind. eapply wp_get_hybi; [done|].
  apply wp_bind. eapply wp_get_route; [done|]. rewrite decide_False by done. apply wp_bind.
  eapply wp_mono; [apply wp_resolve_prefix|].
  - intros a Ha. pose proof (oo_client _ _ (oo_links _ (sr_outputs _ _ Hsv))) as Hs.
    apply (side_elem _ _ h (h_outputs hy) a Hs) in Ha; [|by apply lookup_fmap_Some'].
    rewrite lookup_fmap in Ha. by destruct (outputs r !! a).
  - intros c r' [-> Hc]. apply wp_ret. split; [done|]. by exists c.
Qed.

(** ** Lemmas: posting *)

(** One message more is queued. *)
Lemma preqs_insert ms b m q :
  b ∉ dom ms → preqs (<[b := m]> ms) q = preqs ms q + (if decide (b_msg m = PRequest q) then 1 else 0).
Proof.
  intros Hb. assert (Hn : ms !! b = None) by by apply not_elem_of_dom. unfold preqs, posted.
  rewrite !map_filter_filter. case_decide as E.
  - rewrite map_filter_insert_True by (simpl; by rewrite E). rewrite map_size_insert_None; [lia|].
    apply map_lookup_filter_None. by left.
  - rewrite map_filter_insert_not'; [lia|simpl; tauto|]. intros y Hy. by rewrite Hn in Hy.
Qed.

(** What is posted refers to a request that counts it. *)
Definition counted r (msg : payload) : Prop :=
  match msg with
  | PRequest req => ∃ q, requests r !! req = Some q ∧
      (Z.of_nat (preqs (bmsgs r) req + holds (rq_hybi q)) < rq_refcnt q)%Z
  | _ => True
  end.

Lemma comets_ok_queued act r h msg b :
  comets_ok act r → counted r msg → b ∉ dom (bmsgs r) →
  comets_ok act (r <| bmsgs := <[b := mk_backend_msg h msg]> (bmsgs r) |>).
Proof.
  intros [? ? ? ? Hwt ? H7 H8] Hc Hb. split; try done; simpl.
  - intros h' c q Ha Hc' Hq'. destruct (Hwt h' c q Ha Hc' Hq') as (rq & ? & [W1 W2 W3]). by exists rq.
  - intros q rq Hq. rewrite preqs_insert by done. destruct (H7 q rq Hq) as [Hle Hr]. split; [|done].
    simpl. case_decide as E; [|lia]. subst msg. destruct Hc as (q' & Hq' & ?).
    assert (q' = rq) as -> by congruence. lia.
  - intros b' m q. rewrite lookup_insert_Some. intros [[<- <-]|[_ Hb']] Hm; [|by eapply H8].
    simpl in Hm. subst msg. destruct Hc as (q' & Hq' & _). by exists q'.
Qed.

(** What posting to [s] changes. *)
Record sent_to r r' (s : sock_id) (fs : list bytes) (ok : bool) : Prop := {
  st_frame : sent_frame r r';
  st_preqs : ∀ q, preqs (bmsgs r') q ≤ preqs (bmsgs r) q + 1;
  st_stream : ∀ s', stream r' s' = stream r s' ++ (if ok then if decide (s' = s) then [fs] else [] else []);
}.

Lemma wp_post act r s h hy msg data force :
  full_ok act r → hybis r !! h = Some hy → s ∈ dom (socks r) → payload_of r hy msg = Some data →
  counted r msg →
  wp (backend_send s h msg force) (λ ok r', full_ok act r' ∧ sent_to r r' s (frames hy msg data) ok ∧
    (ok = false → force = true ∨ no_memory r')) r.
Proof.
  intros [Hsv Hcm] Hh [so Hs]%elem_of_dom Hd Hc. pose proof (sr_backend _ _ Hsv) as Hbk.
  eapply wp_mono; [apply (wp_keeps off_backend); [apply keeps_off_backend_send|
    by apply (wp_backend_send Hzmq act s so h hy msg data force r Hbk (sr_between _ _ Hsv))]|].
  intros ok r' [(Hbk' & Hbt' & Hco & Hdo & Hf & Hq1 & _ & Hst) Hoff].
  assert (Hsf : sent_frame r r') by done.
  pose proof (server_ok_sent act r r' Hsv Hsf Hbk' Hbt') as Hsv'.
  pose proof Hoff as Ho. unfold off_backend in Ho. injection Ho as E1 E2 E3 E4 E5 E6 E7 E8 E9 E10 E11 E12 E13 E14 E15.
  assert (Hbase : comets_ok act (r' <| bmsgs := bmsgs r |>)).
  { apply (comets_ok_talk act r); [done|unfold aside; simpl; congruence|]. intros h' _. simpl.
    rewrite <- !lookup_fmap. f_equal. eapply fmap_via; [|exact Hco]. intros a a' E.
    destruct a, a'. by injection E as -> -> -> -> -> -> -> -> ->. }
  split_and!.
  - split; [done|]. destruct Hq1 as [E|(b & Hb & E)].
    + rewrite <- E in Hbase. by destruct r'.
    + pose proof (comets_ok_queued act (r' <| bmsgs := bmsgs r |>) h msg b Hbase) as Hq'.
      simpl in Hq'. rewrite <- E in Hq'. destruct r'. apply Hq'; [|done]. destruct msg; try done.
      simpl in *. by rewrite E5.
  - split; [done| |done]. intros q. destruct Hq1 as [->|(b & Hb & ->)]; [lia|].
    rewrite preqs_insert by done. case_decide; lia.
  - intros E. destruct (Hf E) as [_ [[? _]|?]]; [by left|by right].
Qed.

(** The socket of a mapping exists, and so does the one of the route. *)
Lemma chosen_sock act r h hy data c :
  full_ok act r → hybis r !! h = Some hy → chosen r data (h_outputs hy) c →
  default (Forward (h_route hy)) c ∈ dom (socks r).
Proof.
  intros [Hsv _] Hh Hc. destruct c as [s|]; [|by apply (sr_route _ _ Hsv h)]. simpl.
  assert (∃ a o, outputs r !! a = Some o ∧ o_socket o = s) as (a & o & Ho & <-).
  { remember (Some s) as c eqn:Ec. induction Hc as [|a o l Ho _|a o l c' _ _ _ IH]; [done| |by apply IH].
    injection Ec as <-. by exists a, o. }
  pose proof (oo_socket _ _ (oo_links _ (sr_outputs _ _ Hsv))) as Hs.
  destruct (sd_node _ _ Hs a (o_socket o)) as (xs & Hxs & _); [by apply lookup_fmap_Some'|].
  rewrite lookup_fmap in Hxs. apply fmap_Some in Hxs as (so & ? & _). apply elem_of_dom. by exists so.
Qed.

(** Where a message of [hy] goes: to the first of its mappings whose prefix
    matches it, else to the main backend of the route. *)
Definition routed r (hy : hybi) (data : bytes) (s : sock_id) : Prop :=
  (∃ l1 a o l2, h_outputs hy = l1 ++ a :: l2 ∧ outputs r !! a = Some o ∧ s = o_socket o ∧
     matches (o_prefix o) data ∧
     ∀ b o', b ∈ l1 → outputs r !! b = Some o' → ¬ matches (o_prefix o') data) ∨
  s = Forward (h_route hy) ∧
  ∀ b o', b ∈ h_outputs hy → outputs r !! b = Some o' → ¬ matches (o_prefix o') data.

Lemma takes_matches data o : takes data o ↔ matches (o_prefix o) data.
Proof. unfold takes, matches. split; intros [Hl He]; (split; [done|]); by apply strncmp_eq_compared. Qed.

Lemma chosen_routed r hy data c :
  chosen r data (h_outputs hy) c → routed r hy data (default (Forward (h_route hy)) c).
Proof.
  unfold routed. generalize (h_outputs hy). intros l Hc.
  induction Hc as [|a o l Ho Ht|a o l c Ho Ht Hc IH].
  - right. split; [done|]. by intros b o' ?%not_elem_of_nil.
  - left. exists [], a, o, l. split_and!; try done; [by apply takes_matches|].
    by intros b o' ?%not_elem_of_nil.
  - assert (Hno : ∀ o', outputs r !! a = Some o' → ¬ matches (o_prefix o') data).
    { intros o' Ho'. assert (o' = o) as -> by congruence. by rewrite <- takes_matches. }
    destruct IH as [(l1 & b & ob & l2 & -> & Hb & Hs & Hp & Hl)|[Hs Hl]]; [left|right].
    + exists (a :: l1), b, ob, l2. split_and!; try done. intros b' o' [->|Hin]%elem_of_cons; [by apply Hno|by apply Hl].
    + split; [done|]. intros b' o' [->|Hin]%elem_of_cons; [by apply Hno|by apply Hl].
Qed.

Lemma wp_websock_message act r h hy msg :
  full_ok act r → hybis r !! h = Some hy → h_type hy = HYBI_WEBSOCKET → plain_message r hy msg →
  wp (websock_message h msg) (λ ok r', full_ok act r' ∧ (ok = false → no_memory r') ∧
    ∃ c, chosen r msg (h_outputs hy) c ∧
      sent_to r r' (default (Forward (h_route hy)) c) (frames hy (PMessage msg) msg) ok) r.
Proof.
  intros Hok Hh Ht Hp. unfold websock_message. apply wp_bind, wp_count. cbn beta. set (r0 := r <| stat := _ |>).
  assert (Hok0 : full_ok act r0) by by apply full_ok_stat.
  apply wp_bind. eapply wp_mono; [by apply (wp_websock_resolve act)|]. intros s r1 (-> & c & Hc & ->).
  eapply wp_mono; [apply (wp_post act r0 _ h hy (PMessage msg) msg)|]; try done.
  - by apply (chosen_sock act r0 h hy msg c).
  - unfold payload_of. by rewrite Ht.
  - intros ok r' (Hok' & [Hf Hpq Hst] & Hx). split; [done|]. split; [by intros Eo; destruct (Hx Eo)|].
    exists c. split; [|split; [destruct Hf; by split|done|done]].
    clear -Hc. induction Hc; by econstructor.
Qed.

(** A command of a websocket is answered into it, and nothing else happens. *)
Record commanded r r' (c : conn_id) (answer : option bytes) : Prop := {
  cd_frame : sent_frame r r';
  cd_stream : ∀ s, stream r' s = stream r s;
  cd_log : ws_log (trace r') = ws_log (trace r) ++ match answer with Some m => [(c, m)] | None => [] end;
}.

Lemma wp_websock_command_message act r h hy rt msg :
  full_ok act r → h ∈ act → hybis r !! h = Some hy → h_type hy = HYBI_WEBSOCKET →
  routes r !! h_route hy = Some rt → gateway_command rt msg → clock_ok →
  wp (websock_message h msg) (λ ok r', ok = true ∧ full_ok act r' ∧
    ∃ c, h_conn hy = Some c ∧ commanded r r' c (command_answer r msg)) r.
Proof.
  intros Hok Ha Hh Ht Hrt Hcmd Hclk.
  pose proof (cm_kind _ _ (fo_comets _ _ Hok) h hy Ha Hh) as Hk. rewrite Ht in Hk. destruct Hk as [_ [c Hc]].
  unfold websock_message. apply wp_bind, wp_count. cbn beta. set (r0 := r <| stat := _ |>).
  assert (Hok0 : full_ok act r0) by by apply full_ok_stat.
  assert (Hgen : ∀ st l, Forall off_wire l →
    ws_log l = (match command_answer r0 msg with Some m => [(c, m)] | None => [] end) →
    full_ok act (noted (r0 <| stat := st |>) l) ∧
    ∃ c, h_conn hy = Some c ∧ commanded r (noted (r0 <| stat := st |>) l) c (command_answer r msg)).
  { intros st l Hoff Hl. destruct (full_ok_noted act (r0 <| stat := st |>) l) as [Hok' Hst];
      [by apply full_ok_stat|done|]. split; [done|]. exists c. split; [done|]. split; [done|done|].
    simpl. unfold ws_log in *. by rewrite omap_app, Hl. }
  apply wp_bind. eapply (wp_gateway_command r0 h hy rt); [done..|].
  destruct (command_answer r0 msg) as [m|] eqn:Em.
  2:{ apply wp_ret. split; [done|]. destruct (Hgen (stat r0) []) as [? ?]; [done..|].
      assert (noted (r0 <| stat := stat r0 |>) [] = r0) as E by (destruct r; unfold noted; simpl; by rewrite app_nil_r).
      by rewrite E in *. }
  unfold do_send. apply wp_bind, wp_count. cbn beta. apply wp_bind. eapply wp_get_hybi; [done|].
  rewrite Ht. rewrite Hc in Hgen |- *. apply wp_bind, wp_ret, wp_bind, wp_get, wp_bind, wp_write.
  match goal with |- context [WsSend c m ?x] => destruct x eqn:Eres end.
  - apply wp_ret, wp_ret. split; [done|]. apply (Hgen ((stat r0) <| st_websock_sent ::= plus 1 |>) [WsSend c m WsOk]); [by repeat constructor|done].
  - apply wp_write. rewrite noted_noted. apply wp_ret. split; [done|]. apply (Hgen ((stat r0) <| st_websock_sent ::= plus 1 |>) [WsSend c m WsExfull; WsClose c]); [by repeat constructor|done].
  - by destruct (ml_send Hws (trace r0) c m).
Qed.

(** ** Lemmas: websockets come and go *)

(** The websocket itself is only the library's business. *)
Lemma wp_websock_start act r c rid urandom :
  full_ok act r → Forward rid ∈ dom (socks r) →
  wp (websock_start c rid urandom) (λ ok r', off_start r' = off_start r ∧
    if ok then ∃ h, (h ∉ act) ∧ full_ok ({[h]} ∪ act) r' ∧ wire_of r' h = Some c
    else full_ok act r') r.
Proof.
  intros Hok Hsk. unfold websock_start. apply wp_bind. eapply wp_mono; [by apply (wp_open Hzmq act)|].
  intros [h|] r1 [Hoff Ho]; [|apply wp_ret; tauto].
  destruct Ho as (Hact & Hsv1 & Hcm1 & Hbare & uid & hy & Hop & Hh & Hi).
  apply wp_bind. eapply wp_set_hybi; [done|]. cbn beta. apply wp_bind, wp_count. apply wp_ret.
  split; [done|]. set (hy' := hy <| h_conn := Some c |>). exists h. split; [done|]. split.
  2:{ unfold wire_of. simpl. rewrite lookup_insert_eq. simpl. apply (f_equal h_type) in Hi. simpl in Hi. by rewrite Hi. }
  apply full_ok_stat. split.
  - apply (server_ok_beside _ r1); [done|]. split; try done. simpl. by apply (fmap_insert_same plain _ _ hy).
  - apply (comets_ok_open act r1 _ h hy'); try done. simpl.
    assert (E : h_type hy = HYBI_WEBSOCKET ∧ h_comet hy = None).
    { split; [by apply (f_equal h_type) in Hi|by apply (f_equal h_comet) in Hi]. }
    destruct E as [-> ->]. split; [done|by eexists].
Qed.

(** An open connection without a session takes nothing with it. *)
Lemma comets_ok_without act r h :
  comets_ok act r → h ∈ act → (∃ hy, hybis r !! h = Some hy ∧ h_comet hy = None) →
  comets_ok (act ∖ {[h]}) r.
Proof.
  intros [K1 K2 K3 K4 K5 K6 K7 K8] Hact (hy & Hh & Hc).
  assert (Hco : comet_of r h = None) by (unfold comet_of; by rewrite Hh).
  assert (Hset : ∀ h', h' ∈ act ∖ {[h]} ↔ h' ∈ act ∧ h' ≠ h) by (clear Hzmq; set_solver).
  split; try done.
  - intros h' hy' [Ha _]%Hset. by apply K1.
  - destruct K2 as (E & Hd & Hs). exists E. split; [done|].
    replace (comet_items <$> filter (λ p : nat * hybi, p.1 ∈ act ∖ {[h]}) (hybis r))
      with (delete h (comet_items <$> filter (λ p : nat * hybi, p.1 ∈ act) (hybis r))).
    + apply side_del; [done|]. rewrite lookup_fmap.
      assert (filter (λ p : nat * hybi, p.1 ∈ act) (hybis r) !! h = Some hy) as ->
        by by apply map_lookup_filter_Some.
      simpl. unfold comet_items. by rewrite Hc.
    + apply map_eq. intros h'. destruct (decide (h' = h)) as [->|Hne].
      * rewrite lookup_delete_eq, lookup_fmap, map_lookup_filter, Hh. simpl.
        rewrite option_guard_False; [done|]. by intros [_ ?]%Hset.
      * rewrite lookup_delete_ne, !lookup_fmap, !map_lookup_filter by done.
        destruct (hybis r !! h') as [a|]; [|done]. simpl.
        destruct (decide (h' ∈ act)).
        -- rewrite !option_guard_True; [done|by apply Hset|done].
        -- rewrite !option_guard_False; [done|by intros [? _]%Hset|done].
  - intros h' c [Ha _]%Hset. by apply K3.
  - intros h' c q [Ha _]%Hset. by apply K5.
  - intros q rq h' Hq Hh'. destruct (K6 q rq h' Hq Hh') as [Ha (c & Hc' & ?)].
    split; [|by exists c]. apply Hset. split; [done|]. intros ->. congruence.
Qed.

Lemma wp_websock_stop act r h hy :
  full_ok act r → h ∈ act → hybis r !! h = Some hy → h_type hy = HYBI_WEBSOCKET →
  wp (websock_stop h) (λ _ r', full_ok (act ∖ {[h]}) r' ∧ gone r r' h hy ∧ aside r' = aside r) r.
Proof.
  intros Hok Hact Hh Ht. unfold websock_stop. apply wp_bind, wp_count, wp_bind, wp_count. cbn beta.
  set (r0 := _ <| stat := _ |>). assert (Hok0 : full_ok act r0) by by do 2 apply full_ok_stat.
  pose proof Hok0 as [Hsv Hcm].
  assert (Hc : h_comet hy = None).
  { pose proof (cm_kind _ _ Hcm h hy Hact Hh) as Hk. rewrite Ht in Hk. apply Hk. }
  eapply wp_mono; [by apply (wp_hybi_stop Hzmq act r0 h hy)|].
  intros _ r2 (Hsv2 & [Hg (Ha & _)]). split; [split; [done|]|].
  - apply (comets_ok_frame (act ∖ {[h]}) r0); [|done|].
    + apply comets_ok_without; [done|done|by exists hy].
    + intros c0 Hc0. apply (cl_conns _ _ _ _ Hg). clear Hzmq. set_solver.
  - split; [|done]. destruct Hg. by split.
Qed.
End inbound.

(** ** Properties *)

(** The example server with a websocket on it. *)
Definition example_browser : root :=
  let LL : LogLevel := 0%Z in let MM : Malloc := λ _ _, true in
  match @websock_start LL MM example_env 7 0 (random_of (replicate 8 "r"%char)) example_visit with
  | Ok _ r => r
  | _ => example_visit
  end.

Lemma example_browser_ok : full_ok {[0]} example_browser.
Proof.
  set (LL := 0%Z : LogLevel). set (MM := (λ _ _, true) : Malloc).
  destruct (proj1 (wp_Ok _ _ _) (@wp_websock_start LL MM example_env example_laws ∅ example_visit 7 0
    (random_of (replicate 8 "r"%char)) example_visit_ok ltac:(by apply elem_of_dom)))
    as (ok & r' & Hrun & _ & Ho).
  unfold example_browser, LL, MM in *. rewrite Hrun. destruct ok.
  - destruct Ho as (h & _ & Ho & Hw). rewrite (right_id_L ∅ (∪)) in Ho. vm_compute in Hrun. injection Hrun as <-.
    destruct h as [|h]; [exact Ho|]. exfalso.
    assert (Hd : S h ∈ dom (hybis example_browser)).
    { apply (bo_act _ _ (sr_backend _ _ (fo_server _ _ Ho))). set_solver. }
    assert (Hdom : dom (hybis example_browser) = {[0]}) by (apply (bool_decide_unpack _); vm_compute; exact I).
    rewrite Hdom in Hd. set_solver.
  - vm_compute in Hrun. discriminate.
Qed.

(** C3: a message from a websocket that is not a command for the gateway is posted
    once, to the first of the mappings of its connection whose prefix it starts
    with (a prefix with a NUL in it counts up to that NUL), else to the main
    backend of its route, behind everything that was posted there before, and to
    no other socket; the connection, the subscriptions and the mappings stay as
    they are.  The limit of the queue does not matter here: only memory for the
    queued message can be refused.  A "ZEROGW:" command on a route that allows
    them is answered into the websocket and posted nowhere (as long as there is
    memory for the answer, the library takes it or says that the websocket is
    full, and the clock has at most 15 characters). *)
Theorem websock_message_correct `{LogLevel, Malloc, Env} (act : gset nat) (r : root) (h : addr) (hy : hybi)
    (rt : route) (msg : bytes) (Hzmq : zmq_laws) (Hok : full_ok act r) (Hact : h ∈ act)
    (Hh : hybis r !! h = Some hy) (Ht : h_type hy = HYBI_WEBSOCKET) (Hrt : routes r !! h_route hy = Some rt) :
  (¬ gateway_command rt msg →
   ∃ ok r' s, websock_message h msg r = Ok ok r' ∧ full_ok act r' ∧ routed r hy msg s ∧
     sent_to r r' s (frames hy (PMessage msg) msg) ok ∧ (ok = false → no_memory r')) ∧
  (gateway_command rt msg → message_laws → clock_ok →
   ∃ r' c, websock_message h msg r = Ok true r' ∧ full_ok act r' ∧ h_conn hy = Some c ∧
     commanded r r' c (command_answer r msg)).
Proof.
  split.
  - intros Hp. destruct (proj1 (wp_Ok _ _ _) (wp_websock_message Hzmq act r h hy msg Hok Hh Ht ltac:(by exists rt)))
      as (ok & r' & Hrun & Hok' & Hx & c & Hc & Hs).
    exists ok, r', (default (Forward (h_route hy)) c). split_and!; try done. by apply chosen_routed.
  - intros Hcmd Hws Hclk.
    destruct (proj1 (wp_Ok _ _ _) (wp_websock_command_message Hws act r h hy rt msg Hok Hact Hh Ht Hrt Hcmd Hclk))
      as (? & r' & Hrun & -> & Hok' & c & Hc & Hcd). by exists r', c.
Qed.

Lemma websock_message_correct_witness :
  let LL : LogLevel := 0%Z in let MM : Malloc := λ _ _, true in let EE := example_env in
  (∃ r' hy, websock_message 0 (str "hello") example_browser = Ok true r' ∧
    hybis example_browser !! 0 = Some hy ∧
    stream r' (Forward 0) = [[h_uid hy; str "connect"]; [h_uid hy; str "message"; str "hello"]]) ∧
  ∃ r', websock_message 0 (str "ZEROGW:echo") example_browser = Ok true r' ∧
    ws_log (trace r') = [(7, str "ZEROGW:echo")].
Proof.
  intros LL MM EE. destruct (hybis example_browser !! 0) as [hy|] eqn:Hh; [|vm_compute in Hh; discriminate].
  destruct (routes example_browser !! h_route hy) as [rt|] eqn:Hrt;
    [|vm_compute in Hh; injection Hh as <-; vm_compute in Hrt; discriminate].
  assert (Ht : h_type hy = HYBI_WEBSOCKET) by (vm_compute in Hh; by injection Hh as <-). split.
  - destruct (@websock_message_correct LL MM EE {[0]} example_browser 0 hy rt (str "hello")) as [Hgo _];
      [apply example_laws|apply example_browser_ok|set_solver|done..|].
    destruct Hgo as (ok & r' & s & Hrun & _); [intros (_ & Hl & _); vm_compute in Hl; lia|].
    exists r', hy. destruct ok; [|vm_compute in Hrun; discriminate]. split; [exact Hrun|]. split; [reflexivity|].
    vm_compute in Hh. injection Hh as <-. vm_compute in Hrun. injection Hrun as <-. vm_compute. reflexivity.
  - destruct (@websock_message_correct LL MM EE {[0]} example_browser 0 hy rt (str "ZEROGW:echo")) as [_ Hgo];
      [apply example_laws|apply example_browser_ok|set_solver|done..|].
    destruct Hgo as (r' & c & Hrun & _); [|apply example_message_laws|intros tr; vm_compute; lia|].
    + vm_compute in Hh. injection Hh as <-. vm_compute in Hrt. injection Hrt as <-. repeat split. vm_compute. lia.
    + exists r'. split; [exact Hrun|]. vm_compute in Hrun. injection Hrun as <-. vm_compute. reflexivity.
Defined.
