(* ===== verification/Commands.v ===== *)
(** * Commands of a backend (websocket.c)

    Whatever a backend sends, the invariant of the whole server is kept: the
    commands are the only way in which topics and mappings change, and together
    with the messages that they deliver they may close connections. *)

From S2P Require Import Prelude Sieve Pool MsgQueue Uidgen Links State Topics Backend Outputs Hybi.
From S2P Require Import CometArgs Request Comet Session Frontend Publish.

(** ** Lemmas: commands that only change lists *)
Section frames.
Context `{LogLevel, Malloc, Env}.
Implicit Types (r : root).

(** What no command changes. *)
Definition fixed r := (max (hsieve r), dom (socks r), static_route <$> routes r).

(** A command ran; [act'] are the connections that are still open. *)
Record handled (act act' : gset nat) r r' : Prop := {
  hd_ok : full_ok act' r';
  hd_act : act' ⊆ act;
  hd_fixed : fixed r' = fixed r;
}.

Lemma handled_same act r : full_ok act r → handled act act r r.
Proof. by split. Qed.

(** The traffic and all queues. *)
Definition kept r :=
  (trace r, (bmsgs r, backend_arena r, hybi_heap r), core <$> hybis r, so_queue <$> socks r).

Lemma full_ok_lists act r r' :
  full_ok act r → calm r' = calm r → kept r' = kept r → topics_ok r' → outputs_ok r' →
  (∀ e s, subs r' !! e = Some s → s_connection s ∈ act) →
  (∀ e o, outputs r' !! e = Some o → o_connection o ∈ act ∧ ∃ rid i, o_socket o = Named rid i) →
  handled act act r r'.
Proof.
  intros [[Hsv Hbk Hbt Htp Hou Hsub Hout Hknd Hrt] Hcm] Hc Hk Ht Ho Hs Hm.
  pose proof Hc as Hc0. unfold calm in Hc0. injection Hc0 as _ Esv Eh Ed Ea1 Ea2 Ea3 Ea4 Ea5 Ea6.
  assert (Ha : aside r' = aside r) by (unfold aside; congruence).
  unfold kept in Hk. injection Hk as K1 K2 K3 K4 K5 K6.
  assert (Hbare : ∀ h, bare <$> hybis r' !! h = bare <$> hybis r !! h).
  { intros h. by rewrite <- !lookup_fmap, Eh. }
  split; [|done|unfold fixed; by rewrite Esv, Ed, Ea5].
  split; [|by apply (comets_ok_frame act r)].
  destruct (backend_ok_frame act r r' Hbk) as [Hbk' Hp]; try done; [by apply same_bodies_eq|].
  split; try done.
  - by apply (sieve_ok_calm act r).
  - intros s. rewrite K1. apply Hbt.
  - intros e o He. by apply (Hm e o).
  - intros e o He. by apply (Hm e o).
  - intros h hy' Hh'. rewrite Ed. destruct (calm_bare r' r h hy' (eq_sym Hc) Hh') as (hy & Hh & Eb).
    apply (f_equal h_route) in Eb. simpl in Eb. rewrite <- Eb. by apply (Hrt h).
Qed.

Lemma kept_untouched r r' : untouched r' = untouched r → kept r' = kept r.
Proof.
  intros Hq. unfold untouched in Hq. injection Hq as E0 E1 _ _ Eh _ _ Ec _ _ E7 E8 _ _ _ E4.
  unfold kept. rewrite E0, E7, E8, Eh, E4. do 2 f_equal. eapply fmap_via; [|exact Ec].
  intros a a' E. destruct a, a'. injection E as. unfold core. simpl. by subst.
Qed.

(** *** Subscriptions *)
Hypothesis Hmem : ∀ hp n, malloc_ok hp n = true.

(** Every state has its set of subscriptions. *)
Definition subscriptions r : pubsub :=
  list_to_set (omap (λ p : nat * subscriber,
    k ← keys r !! s_topic p.2; Some (s_connection p.2, k.1.1, k.2)) (map_to_list (subs r))).

Lemma refines_subscriptions r : topics_ok r → refines r (subscriptions r).
Proof.
  intros Hok c rid name. unfold subscriptions. rewrite elem_of_list_to_set, list_elem_of_omap. split.
  - intros (e & a & He & Ha). exists (e, mk_subscriber a c). split; [by apply elem_of_map_to_list|].
    simpl. unfold named in Ha. by rewrite Ha.
  - intros ([e s] & He & Hk). apply elem_of_map_to_list in He. simpl in Hk.
    destruct (keys r !! s_topic s) as [k|] eqn:Ek; [|done]. injection Hk as <- <- <-.
    exists e, (s_topic s). split; [by destruct s|]. unfold named. rewrite Ek.
    pose proof (to_hash _ _ _ (tk_tables _ Hok) _ _ Ek). destruct k as [[? ?] ?]. simpl in *. by subst.
Qed.

(** Only an unsubscription can fail, when there is no such topic. *)
Lemma wp_topic_command_same r op :
  topics_ok r → op_ok r op → wp (topic_command op) (λ ok r', ok = false → r' = r) r.
Proof.
  intros Hok Hop. pose proof (refines_subscriptions r Hok) as HS.
  destruct op as [h rid name|h rid name|rid src tgt|rid name]; cbn [topic_command].
  - eapply wp_mono; [by eapply (wp_subscribe_command Hmem r (subscriptions r))|]. by intros ? ? [-> _].
  - destruct Hop as ([hy Hhy] & Hr & Hlen). unfold unsubscribe_command. apply wp_bind.
    eapply wp_mono; [by apply (wp_find_only Hmem)|]. intros [a|] r' [-> Ha]; [|by apply wp_ret].
    destruct Ha as [_ [t Ht]]. apply wp_bind. eapply wp_mono; [by eapply (wp_topic_unsubscribe)|].
    intros ? r2 _. by apply wp_ret.
  - eapply wp_mono; [by eapply (wp_clone_command Hmem r (subscriptions r))|]. by intros ? ? [-> _].
  - eapply wp_mono; [by eapply (wp_drop_command Hmem r (subscriptions r))|]. by intros ? ? [-> _].
Qed.

(** The commands of Topics.v, for connections that are open. *)
Lemma wp_subscription_command act r op :
  full_ok act r → op_ok r op → match op with TSubscribe h _ _ => h ∈ act | _ => True end →
  wp (topic_command op) (λ ok r', handled act act r r' ∧ (ok = false → r' = r)) r.
Proof.
  intros Hok Hop Hact. pose proof Hok as [Hsv _]. pose proof (sr_topics _ _ Hsv) as Htp.
  apply wp_conj; [|by apply wp_topic_command_same]. eapply wp_mono; [apply (wp_keeps untouched); [apply keeps_topic_command|]|].
  { apply (wp_topic_command Hmem r (subscriptions r)); [done|by apply refines_subscriptions|done]. }
  intros _ r' [[Htp' HS] Hu].
  assert (Hold : ∀ c rid name, (c, rid, name) ∈ subscriptions r → c ∈ act).
  { intros c rid name Hin. apply refines_subscriptions in Hin as (e & a & He & _); [|done].
    by apply (sr_subs _ _ Hsv e (mk_subscriber a c)). }
  apply full_ok_lists; try done; [by apply calm_untouched|by apply kept_untouched|..].
  - unfold untouched in Hu. injection Hu as _ _ _ _ _ _ _ Ec Eoh Eo _ _ _ _ _ Es.
    apply (outputs_ok_frame r); [apply Hsv|done|done| |by rewrite Es].
    eapply fmap_via; [|exact Ec]. intros a a' E. by apply (f_equal h_outputs) in E.
  - intros e s He.
    destruct (linked_key r' (s_connection s) (s_topic s) Htp') as [k Hk]; [exists e; by destruct s|].
    assert (Hsubd : subscribed r' (s_connection s) k.1.1 k.2).
    { exists e, (s_topic s). split; [by destruct s|]. unfold named. rewrite Hk.
      pose proof (to_hash _ _ _ (tk_tables _ Htp') _ _ Hk). destruct k as [[? ?] ?]. simpl in *. by subst. }
    apply HS in Hsubd. destruct op as [h rid name|h rid name|rid src tgt|rid name]; simpl in Hsubd.
    + apply elem_of_union in Hsubd as [Hin|Hin]; [|by eapply Hold].
      apply elem_of_singleton in Hin. by injection Hin as -> _ _.
    + apply elem_of_difference in Hsubd as [Hin _]. by eapply Hold.
    + apply elem_of_union in Hsubd as [Hin|Hin]; [by eapply Hold|].
      apply elem_of_map in Hin as ([[c' rid'] name'] & E & Hin). apply elem_of_filter in Hin as [_ Hin].
      injection E as -> _ _. by eapply Hold.
    + apply elem_of_filter in Hsubd as [_ Hin]. by eapply Hold.
  - intros e o. unfold untouched in Hu. injection Hu as _ _ _ _ _ _ _ _ _ Eo _ _ _ _ _ _. rewrite Eo.
    intros He. split; [by apply (sr_outs _ _ Hsv e)|by apply (sr_kind _ _ Hsv e)].
Qed.

(** *** Mappings *)

Definition off_lists r :=
  (calm r, kept r, (topics r, subs r, sub_arena r, topic_heap r, routes r), h_subscribers <$> hybis r).

Lemma off_lists_hybi r h hy hy' :
  hybis r !! h = Some hy → hy' <| h_outputs := [] |> = hy <| h_outputs := [] |> →
  off_lists (r <| hybis := <[h := hy']> (hybis r) |>) = off_lists r.
Proof.
  intros Hh E. assert (Hs : h_subscribers hy' = h_subscribers hy) by by apply (f_equal h_subscribers) in E.
  assert (Hb : bare hy' = bare hy).
  { destruct hy, hy'. injection E as. unfold bare, shape, ident. simpl. by subst. }
  assert (Hc : core hy' = core hy).
  { destruct hy, hy'. injection E as. unfold core. simpl. by subst. }
  unfold off_lists, calm, kept. simpl.
  rewrite (fmap_insert_same bare _ _ hy), (fmap_insert_same core _ _ hy), (fmap_insert_same h_subscribers _ _ hy);
    done.
Qed.

Lemma off_lists_sock r s so so' :
  socks r !! s = Some so → so_queue so' = so_queue so →
  off_lists (r <| socks := <[s := so']> (socks r) |>) = off_lists r.
Proof.
  intros Hs E. unfold off_lists, calm, kept. simpl.
  rewrite (fmap_insert_same so_queue _ _ so), dom_insert_lookup_L by done. done.
Qed.

Lemma keeps_off_lists_hybi h f : keeps off_lists (set_hybi h (λ hy, hy <| h_outputs ::= f |>)).
Proof. apply keeps_set_hybi. intros. by eapply off_lists_hybi. Qed.
Lemma keeps_off_lists_sock s f : keeps off_lists (set_sock s (λ so, so <| so_outputs ::= f |>)).
Proof. apply keeps_set_sock. intros. by eapply off_lists_sock. Qed.
Lemma keeps_off_lists_scan data s l o p : keeps off_lists (scan_outputs data s l o p).
Proof. revert o p. induction l; intros; simpl; solve_keeps. Qed.

Hint Resolve keeps_off_lists_hybi keeps_off_lists_sock keeps_off_lists_scan : keeps.

Lemma keeps_add_output rid h prefix name : keeps off_lists (add_output rid h prefix name).
Proof.
  assert (∀ b, keeps off_lists (ANIMPL b)) as H2 by (intros; unfold ANIMPL; solve_keeps).
  unfold add_output, link_output, unlink_client, unlink_socket. repeat (first [apply H2|keeps_step]).
Qed.

Lemma keeps_del_output h prefix : keeps off_lists (del_output h prefix).
Proof.
  assert (∀ data l, keeps off_lists (del_output_in data l)) as H2.
  { induction l; simpl; [solve_keeps|]. unfold unlink_client, unlink_socket, free_output. solve_keeps. }
  unfold del_output. repeat (first [apply H2|keeps_step]).
Qed.

Lemma handled_mapping act r r' :
  full_ok act r → off_lists r' = off_lists r → outputs_ok r' →
  (∀ h p s, mapped (outputs r') h p s → mapped (outputs r) h p s ∨ h ∈ act ∧ ∃ rid i, s = Named rid i) →
  handled act act r r'.
Proof.
  intros Hok Hoff Ho Hm. pose proof Hok as [Hsv _].
  pose proof (f_equal (λ p, p.1.1.1) Hoff) as Hc. pose proof (f_equal (λ p, p.1.1.2) Hoff) as Hk.
  pose proof (f_equal (λ p, p.1.2) Hoff) as Ht. pose proof (f_equal (λ p, p.2) Hoff) as Hh.
  cbn in Hc, Hk, Ht, Hh. injection Ht as E1 E2 E3 E4 E5.
  apply full_ok_lists; try done.
  - by apply (topics_ok_frame r); [apply Hsv|..].
  - intros e s. rewrite E2. apply (sr_subs _ _ Hsv).
  - intros e o He. destruct (Hm (o_connection o) (o_prefix o) (o_socket o)) as [[e' He']|[Ha (rid & i & Hs)]].
    + exists e. by destruct o.
    + split; [by apply (sr_outs _ _ Hsv _ _ He')|by apply (sr_kind _ _ Hsv _ _ He')].
    + split; [done|by exists rid, i].
Qed.

Lemma wp_add_output_command act r rid rt h prefix name :
  full_ok act r → h ∈ act → routes r !! rid = Some rt →
  (∀ i, i < length (rt_outputs rt) → Named rid i ∈ dom (socks r)) →
  wp (add_output rid h prefix name) (λ _ r', handled act act r r') r.
Proof.
  intros Hok Ha Hrt Hso. pose proof Hok as [Hsv _].
  assert (∃ hy, hybis r !! h = Some hy) as [hy Hh].
  { by apply elem_of_dom, (bo_act _ _ (sr_backend _ _ Hsv)). }
  eapply wp_mono; [apply (wp_keeps off_lists); [apply keeps_add_output|]|].
  { apply (wp_add_output Hmem r rid rt h hy prefix name); [apply Hsv|done|done|].
    intros i Hi. by apply elem_of_dom, Hso. }
  intros _ r' [[Ho Hm] Hoff]. apply handled_mapping; try done. intros h' p' s' Hin.
  destruct (find_named rid 0 (rt_outputs rt) name) as [s|] eqn:Efind; [|subst r'; by left].
  apply Hm in Hin as [(-> & -> & ->)|[Hin _]]; [right|by left]. split; [done|].
  destruct (find_named_lt _ _ _ _ _ Efind) as (j & Ej & _). by eexists _, _.
Qed.

Lemma wp_del_output_command act r h prefix :
  full_ok act r → h ∈ act → wp (del_output h prefix) (λ _ r', handled act act r r') r.
Proof.
  intros Hok Ha. pose proof Hok as [Hsv _].
  assert (∃ hy, hybis r !! h = Some hy) as [hy Hh].
  { by apply elem_of_dom, (bo_act _ _ (sr_backend _ _ Hsv)). }
  eapply wp_mono; [apply (wp_keeps off_lists); [apply keeps_del_output|]|].
  { by apply (wp_del_output Hmem r h hy prefix); [apply Hsv|]. }
  intros _ r' [[Ho Hm] Hoff]. apply handled_mapping; try done. intros h' p' s' Hin.
  left. by apply Hm in Hin as [? _].
Qed.

(** *** Cookies *)
Lemma wp_set_cookie_command act r h cookie :
  full_ok act r → h ∈ act → wp (set_cookie h cookie) (λ _ r', handled act act r r') r.
Proof.
  intros Hok Ha. pose proof Hok as [[Hsv Hbk Hbt Htp Hou Hsub Hout Hknd Hrt] Hcm].
  assert (∃ hy, hybis r !! h = Some hy) as [hy Hh] by by apply elem_of_dom, (bo_act _ _ Hbk).
  unfold set_cookie. eapply wp_set_hybi; [done|]. cbn beta.
  lazymatch goal with |- handled _ _ _ (over_field _ _ _) => idtac end.
  set (hy' := hy <| h_cookie := cookie |> <| h_flags ::= λ f, Z.lor f WS_HAS_COOKIE |>).
  set (r' := r <| hybis := _ |>).
  assert (Hvia : ∀ {A} (f : hybi → A), f hy' = f hy → f <$> hybis r' = f <$> hybis r).
  { intros A f E. by apply (fmap_insert_same f _ _ hy). }
  assert (Hdom : dom (hybis r') = dom (hybis r)) by by apply dom_insert_lookup_L.
  assert (Hlk : ∀ h0 hy0', hybis r' !! h0 = Some hy0' → ∃ hy0, hybis r !! h0 = Some hy0 ∧
    h_refcnt hy0' = h_refcnt hy0 ∧ h_route hy0' = h_route hy0).
  { intros h0 hy0'. simpl. rewrite lookup_insert_Some. intros [[<- <-]|[_ ?]]; [by exists hy|by exists hy0']. }
  assert (Hbk' : backend_ok act r').
  { destruct Hbk as [B1 B2 B3 B4 B5 B6 B7 B8]. split; rewrite ?Hdom; try done.
    - intros h0 hy0' Hh0. destruct (Hlk _ _ Hh0) as (hy0 & ? & -> & _). by apply B6.
    - intros q b Hq. destruct (B8 q b Hq) as (hy0 & Hh0 & Hp). simpl.
      destruct (decide (b_hybi b = h)) as [E|]; [|exists hy0; by rewrite lookup_insert_ne].
      rewrite E, lookup_insert_eq. exists hy'. split; [done|]. rewrite E, Hh in Hh0. by injection Hh0 as <-. }
  split; [|done|done]. split.
  - split; try done.
    + apply (sieve_ok_frame act r); try done. intros h0 _. rewrite <- !lookup_fmap. f_equal. by apply Hvia.
    + apply (topics_ok_frame r); try done. by apply Hvia.
    + apply (outputs_ok_frame r); try done. by apply Hvia.
    + intros h0 hy0' Hh0. destruct (Hlk _ _ Hh0) as (hy0 & ? & _ & ->). by eapply Hrt.
  - apply (comets_ok_talk act r); [done..|]. intros h0 _. rewrite <- !lookup_fmap. f_equal. by apply Hvia.
Qed.
End frames.

(** ** The handler *)

(** A message that its handler can read: parts are shorter than 2 GiB, what is used
    as an identifier is not shorter than one, and it does not name the cell one past
    the table, which [sieve_get] reads.  The handler itself checks the length
    for two of the commands only. *)
Definition id_commands : list bytes :=
  str <$> ["send"; "add_output"; "del_output"; "set_cookie"; "disconnect"]%string.

Definition command_ok (size : nat) (parts : list bytes) : Prop :=
  Forall (λ part, (Z.of_nat (length part) < 2 ^ 31)%Z) parts ∧
  match parts with
  | cmd :: id :: _ =>
      (cmd ∈ id_commands → length id = UID_LEN) ∧
      (length id = UID_LEN → le_value (take 8 (drop IID_LEN id)) ≠ Z.of_nat size)
  | _ => True
  end.

#[export] Instance command_ok_dec size parts : Decision (command_ok size parts).
Proof. destruct parts as [|? [|? ?]]; apply _. Defined.

(** The route with its sockets. *)
Definition route_ready (r : root) (rid : route_id) : Prop :=
  ∃ rt, routes r !! rid = Some rt ∧ ∀ i, i < length (rt_outputs rt) → Named rid i ∈ dom (socks r).

Section handler.
Context `{LogLevel, Malloc, Env}.
Hypothesis Hmem : ∀ hp n, malloc_ok hp n = true.
Hypothesis Hdate : ∀ req, is_Some (http_date req).
Hypothesis Hzmq : zmq_laws.
Hypothesis Hws : message_laws.
Implicit Types (r : root).

Lemma handled_delivered act act' r r' cs msg : delivered act act' r r' cs msg → handled act act' r r'.
Proof.
  intros D. split; [apply D|apply D|]. destruct (dv_fixed _ _ _ _ _ _ D) as (E1 & E2 & E3).
  unfold fixed. by rewrite E1, E2, E3.
Qed.

Lemma handled_stat act act' r st r' : handled act act' (r <| stat := st |>) r' → handled act act' r r'.
Proof. by intros []. Qed.

Lemma wp_find_on_route act r rid id k (Q : bool → root → Prop) :
  full_ok act r → length id = UID_LEN →
  le_value (take 8 (drop IID_LEN id)) ≠ Z.of_nat (max (hsieve r)) →
  Q false r → (∀ h, h ∈ act → wp (k h) Q r) → wp (find_on_route rid id k) Q r.
Proof.
  intros Hok Hlen Hcell HQ Hk. unfold find_on_route. apply wp_bind.
  eapply wp_mono; [by apply (wp_hybi_find act); [apply Hok|..]|]. intros o r1 [-> Ho].
  destruct o as [h|]; [|by apply wp_ret]. destruct (proj1 (Ho h) eq_refl) as [Ha Hu].
  destruct (open_hybi _ _ _ Hok Ha) as [hy Hh]. apply wp_bind. eapply wp_get_hybi; [done|].
  case_decide; [by apply wp_ret|by apply Hk].
Qed.

Lemma wp_RECV_NEXT r parts k (Q : bool → root → Prop) :
  Q false r → (∀ a rest, parts = a :: rest → wp (k a rest) Q r) → wp (RECV_NEXT parts k) Q r.
Proof. intros HQ Hk. destruct parts as [|a [|b rest]]; [exact HQ..|]. exact (Hk a (b :: rest) eq_refl). Qed.

Lemma wp_RECV_LAST r parts k (Q : bool → root → Prop) :
  Q false r → (∀ a, parts = [a] → wp (k a) Q r) → wp (RECV_LAST parts k) Q r.
Proof. intros HQ Hk. destruct parts as [|a [|b rest]]; [exact HQ| |exact HQ]. exact (Hk a eq_refl). Qed.

(** A message was handled, or it was rejected without a trace. *)
Definition answered (act : gset nat) r : bool → root → Prop := λ ok r',
  (∃ act', handled act act' r r') ∧ (ok = false → r' = r).

Lemma answered_same act r ok : full_ok act r → answered act r ok r.
Proof. intros Hok. split; [exists act; by apply handled_same|done]. Qed.

Lemma answered_true act act' r r' : handled act act' r r' → answered act r true r'.
Proof. intros Hr. split; [by exists act'|done]. Qed.

Lemma wp_then {A} act act' r (m : MR A) :
  wp m (λ _ r', handled act act' r r') r → wp (m;; mret true) (answered act r) r.
Proof. intros Hm. apply wp_bind. eapply wp_mono; [exact Hm|]. intros ? r1 Hr. apply wp_ret. exact (answered_true _ _ _ _ Hr). Qed.

Lemma wp_comet_close_command act r h hy c :
  full_ok act r → h ∈ act → hybis r !! h = Some hy → h_comet hy = Some c →
  wp (comet_close h) (λ _ r', handled act (act ∖ {[h]}) r r') r.
Proof.
  intros Hok Ha Hh Hc. eapply wp_mono; [apply (wp_respects quietly); [apply quietly_comet_close|
    by eapply (wp_comet_close Hdate Hzmq)]|].
  intros _ r' [(Hok' & Hg & _) Hq]. split; [done|clear Hzmq Hws; set_solver|].
  destruct (cl_fixed _ _ _ _ Hg) as [E1 E2]. unfold fixed. by rewrite E1, E2, (qt_max _ _ Hq).
Qed.

Lemma wp_disconnect_command act r rid id :
  full_ok act r → length id = UID_LEN →
  le_value (take 8 (drop IID_LEN id)) ≠ Z.of_nat (max (hsieve r)) →
  wp (disconnect_command rid id) (answered act r) r.
Proof.
  intros Hok Hlen Hcell. unfold disconnect_command. apply wp_bind.
  eapply wp_mono; [by apply (wp_hybi_find act); [apply Hok|..]|]. intros o r1 [-> Ho].
  destruct o as [h|]; [|apply wp_ret; by apply answered_same].
  destruct (proj1 (Ho h) eq_refl) as [Ha Hu].
  destruct (open_hybi _ _ _ Hok Ha) as [hy Hh]. apply wp_bind. eapply wp_get_hybi; [done|].
  case_decide; [|apply wp_ret; by apply answered_same].
  pose proof (cm_kind _ _ (fo_comets _ _ Hok) h hy Ha Hh) as Hk. destruct (h_type hy).
  - destruct Hk as [_ [c Hc]]. rewrite Hc. apply wp_bind, wp_ret, wp_bind, wp_write, wp_ret. eapply answered_true.
    split; [|done|done]. apply full_ok_noted; [done|by constructor].
  - destruct Hk as [c Hc]. apply wp_bind. eapply wp_mono; [by eapply wp_comet_close_command|].
    intros ? r1 Hr1. apply wp_ret. exact (answered_true _ _ _ _ Hr1).
Qed.

Lemma wp_publish_command act r rid name rest :
  full_ok act r → is_Some (routes r !! rid) → (Z.of_nat (length name) < 2 ^ 31)%Z →
  wp (publish_command rid name rest) (answered act r) r.
Proof.
  intros Hok Hr Hs. unfold publish_command. apply wp_bind.
  eapply wp_mono; [apply (wp_find_only Hmem); [apply Hok|done|done]|]. intros o r1 [-> Ho].
  destruct o as [t|]; [|apply wp_ret; by apply answered_same].
  destruct Ho as [_ [tp Ht]]. apply wp_RECV_LAST; [by apply answered_same|].
  intros data _. apply wp_bind. eapply wp_mono; [by apply (wp_topic_publish Hdate Hzmq Hws act r t tp)|].
  intros _ r' [act' D]. apply wp_ret. eapply answered_true, handled_delivered, D.
Qed.

Lemma wp_websock_command act r rid parts :
  full_ok act r → route_ready r rid → command_ok (max (hsieve r)) parts →
  wp (websock_command rid parts) (answered act r) r.
Proof.
  intros Hok (rt & Hrt & Hso) [Hsmall Hids].
  assert (Hsame : ∀ ok, answered act r ok r) by (intros; by apply answered_same).
  unfold websock_command. destruct parts as [|cmd [|id rest]]; [by apply wp_ret..|].
  destruct Hids as [Hlen Hcell].
  assert (Hid : ∀ s, s ∈ id_commands → cmd = s → length id = UID_LEN) by (intros s Hin ->; by apply Hlen).
  apply Forall_cons in Hsmall as [_ Hsmall]. apply Forall_cons in Hsmall as [Hs1 Hsmall].
  assert (Hr : is_Some (routes r !! rid)) by by exists rt.
  assert (Hopen : ∀ h, h ∈ act → is_Some (hybis r !! h)).
  { intros h Ha. by destruct (open_hybi _ _ _ Hok Ha) as [hy ->]. }
  assert (Hone : ∀ name, rest = [name] → (Z.of_nat (length name) < 2 ^ 31)%Z).
  { intros name ->. by apply Forall_cons in Hsmall as [? _]. }
  assert (Htop : ∀ op, op_ok r op → match op with TSubscribe h _ _ => h ∈ act | _ => True end →
    wp (topic_command op) (answered act r) r).
  { intros op Hop Ha. eapply wp_mono; [by apply (wp_subscription_command Hmem act r op)|]. intros ? r' [? ?]. split; [by exists act|done]. }
  repeat (case_decide as Hc; [|clear Hc]).
  - apply wp_RECV_NEXT; [done|]. intros a l [= <- <-]. case_decide as Hl; [by apply wp_ret|].
    apply (wp_find_on_route act); [done|done|by apply Hcell|done|]. intros h Ha. apply wp_RECV_LAST; [done|].
    intros name ->. apply (Htop (TSubscribe h rid name)); [|done]. split_and!; auto.
  - apply wp_RECV_NEXT; [done|]. intros a l [= <- <-]. case_decide as Hl; [by apply wp_ret|].
    apply (wp_find_on_route act); [done|done|by apply Hcell|done|]. intros h Ha. apply wp_RECV_LAST; [done|].
    intros name ->. apply (Htop (TUnsubscribe h rid name)); [|done]. split_and!; auto.
  - apply wp_RECV_NEXT; [done|]. intros a l [= <- <-]. by apply wp_publish_command.
  - assert (length id = UID_LEN) by (eapply Hid; [|done]; apply (bool_decide_unpack _); by vm_compute).
    apply wp_RECV_NEXT; [done|]. intros a l [= <- <-].
    apply (wp_find_on_route act); [done|done|by apply Hcell|done|]. intros h Ha. apply wp_RECV_LAST; [done|].
    intros msg ->. unfold send_command. apply wp_bind, (wp_new_message Hws), wp_bind, wp_count. cbn beta. apply wp_bind.
    eapply wp_mono; [apply (wp_do_send Hdate Hzmq Hws act); [by apply full_ok_stat|done]|].
    intros _ r' [act' D]. apply wp_ret. eapply answered_true, handled_stat, handled_delivered, D.
  - apply wp_RECV_NEXT; [done|]. intros a l [= <- <-]. apply wp_RECV_LAST; [done|].
    intros target ->. apply (Htop (TClone rid id target)); [|done]. split_and!; auto.
  - apply wp_RECV_LAST; [done|]. intros a [= <- ->]. by apply (Htop (TDrop rid id)).
  - assert (length id = UID_LEN) by (eapply Hid; [|done]; apply (bool_decide_unpack _); by vm_compute).
    apply wp_RECV_NEXT; [done|]. intros a l [= <- <-].
    apply (wp_find_on_route act); [done|done|by apply Hcell|done|]. intros h Ha.
    apply wp_RECV_NEXT; [done|]. intros prefix l ->. apply wp_RECV_LAST; [done|]. intros name ->.
    eapply wp_then. by apply (wp_add_output_command Hmem act r rid rt).
  - assert (length id = UID_LEN) by (eapply Hid; [|done]; apply (bool_decide_unpack _); by vm_compute).
    apply wp_RECV_NEXT; [done|]. intros a l [= <- <-].
    apply (wp_find_on_route act); [done|done|by apply Hcell|done|]. intros h Ha.
    apply wp_RECV_LAST; [done|]. intros prefix ->. eapply wp_then. by apply (wp_del_output_command Hmem).
  - assert (length id = UID_LEN) by (eapply Hid; [|done]; apply (bool_decide_unpack _); by vm_compute).
    apply wp_RECV_NEXT; [done|]. intros a l [= <- <-].
    apply (wp_find_on_route act); [done|done|by apply Hcell|done|]. intros h Ha.
    apply wp_RECV_LAST; [done|]. intros cookie ->. eapply wp_then. by apply wp_set_cookie_command.
  - apply wp_RECV_LAST; [done|]. intros msg [= <- ->]. apply wp_bind.
    eapply wp_mono; [by apply (wp_send_all Hdate Hzmq Hws act)|]. intros _ r' [act' D].
    apply wp_ret. eapply answered_true, handled_delivered, D.
  - assert (length id = UID_LEN) by (eapply Hid; [|done]; apply (bool_decide_unpack _); by vm_compute).
    apply wp_RECV_LAST; [done|]. intros a [= <- ->]. apply wp_disconnect_command; [done|done|by apply Hcell].
  - by apply wp_ret.
Qed.

Lemma wp_websock_process act r rid msgs :
  full_ok act r → route_ready r rid → Forall (command_ok (max (hsieve r))) msgs →
  wp (websock_process rid msgs) (λ _ r', ∃ act', handled act act' r r') r.
Proof.
  unfold websock_process. revert act r. induction msgs as [|parts msgs IH]; intros act r Hok Hrt Hm; cbn [mfor].
  { apply wp_ret. exists act. by apply handled_same. }
  apply Forall_cons in Hm as [Hc Hm]. apply wp_bind, wp_bind.
  eapply wp_mono; [by apply (wp_websock_command act)|]. intros ok r1 [[act1 [Hok1 Ha1 Hf1]] _]. apply wp_ret.
  pose proof Hf1 as Hf. unfold fixed in Hf. injection Hf as E1 E2 E3.
  eapply wp_mono; [apply (IH act1 r1); [done| |by rewrite E1]|].
  - destruct Hrt as (rt & Hrt & Hso).
    assert (Hl : (static_route <$> routes r1) !! rid = Some (static_route rt)) by by rewrite E3, lookup_fmap, Hrt.
    rewrite lookup_fmap in Hl. apply fmap_Some in Hl as (rt1 & Hrt1 & Ert). exists rt1. split; [done|].
    apply (f_equal rt_outputs) in Ert. simpl in Ert. by rewrite E2, <- Ert.
  - intros ? r2 [act2 [Hok2 Ha2 Hf2]]. exists act2. split; [done|by transitivity act1|congruence].
Qed.
End handler.

(** [on_route] has every open connection of the route. *)
Lemma on_route_all act r rid h :
  full_ok act r → h ∈ on_route r rid 0 ↔ h ∈ act ∧ h_route <$> hybis r !! h = Some rid.
Proof.
  intros Hok. split.
  - intros Hin. split; [rewrite on_route_chosen in Hin; by eapply chosen_open|]. by apply list_elem_of_filter in Hin as [? _].
  - intros [Ha Hr]. apply list_elem_of_filter. split; [done|]. apply list_elem_of_omap.
    destruct (open_cell act r h Hok Ha) as [i Hi]. exists (Some h). split; [|done].
    rewrite drop_0. by apply list_elem_of_lookup_2 in Hi.
Qed.

(** ** Properties *)

(** The example server with a session that is subscribed to a topic. *)
Definition example_subscribed : root :=
  let MM : Malloc := λ _ _, true in
  match topic_command (TSubscribe 0 0 (str "x")) example_session with
  | Ok _ r => r
  | _ => example_session
  end.

Lemma example_subscribed_ok : full_ok {[0]} example_subscribed.
Proof.
  set (MM := (λ _ _, true) : Malloc).
  assert (Hop : op_ok example_session (TSubscribe 0 0 (str "x"))).
  { split_and!; [eexists; vm_compute; reflexivity|eexists; vm_compute; reflexivity|vm_compute; reflexivity]. }
  destruct (proj1 (wp_Ok _ _ _) (@wp_subscription_command MM (λ _ _, eq_refl) {[0]} example_session
    (TSubscribe 0 0 (str "x")) example_session_ok Hop ltac:(set_solver))) as (ok & r' & Hrun & [Hh _] & _).
  unfold example_subscribed, MM in *. by rewrite Hrun.
Qed.

Lemma example_route_ready : route_ready example_subscribed 0.
Proof. eexists. split; [vm_compute; reflexivity|]. intros i Hi. simpl in Hi. lia. Qed.

(** C1: as long as memory lasts and the websocket library takes each message or
    reports a full connection ([Hmem], [message_laws]), the handler survives
    whatever a backend sends, provided that the parts are shorter than 2^31 bytes,
    that an identifier has 40 bytes where the code does not check its length and
    that it does not name the cell one past the table ([command_ok]): it goes
    through all the messages, neither aborts nor touches freed memory, and leaves a
    server whose tables, lists, queues, sessions and reference counts are
    consistent, with no connection that was not there before. *)
Theorem websock_process_safe `{LogLevel, Malloc, Env} (act : gset nat) (r : root) (rid : route_id)
    (msgs : list (list bytes)) (Hmem : ∀ hp n, malloc_ok hp n = true)
    (Hdate : ∀ req, is_Some (http_date req)) (Hzmq : zmq_laws) (Hws : message_laws)
    (Hok : full_ok act r) (Hrt : route_ready r rid) (Hmsgs : Forall (command_ok (max (hsieve r))) msgs) :
  ∃ act' r', websock_process rid msgs r = Ok tt r' ∧ handled act act' r r'.
Proof.
  destruct (proj1 (wp_Ok _ _ _) (wp_websock_process Hmem Hdate Hzmq Hws act r rid msgs Hok Hrt Hmsgs))
    as ([] & r' & ? & act' & ?). by exists act', r'.
Qed.

Lemma websock_process_safe_witness :
  let LL : LogLevel := 0%Z in let MM : Malloc := λ _ _, true in let EE := example_env in
  let msgs := [[str "publish"; str "x"; str "hello"]; [str "send"; example_uid; str "you"];
               [str "nonsense"]; [str "disconnect"; example_uid]; [str "sendall"; str "anyone"]] in
  ∃ r', websock_process 0 msgs example_subscribed = Ok tt r' ∧ on_route r' 0 0 = [] ∧
    topics r' = ∅ ∧ subs r' = ∅.
Proof.
  intros LL MM EE msgs.
  destruct (@websock_process_safe LL MM EE {[0]} example_subscribed 0 msgs)
    as (act' & r' & Hrun & _);
    [done|by eexists|apply example_laws|apply example_message_laws|apply example_subscribed_ok|apply example_route_ready| |].
  - apply (bool_decide_unpack _). vm_compute. exact I.
  - exists r'. split; [exact Hrun|]. vm_compute in Hrun. injection Hrun as <-. split_and!; vm_compute; reflexivity.
Defined.

(** a message of a backend that the handler rejects (an unknown command, a
    missing or a superfluous part, an identifier of the wrong length or of nobody
    on this route, a topic that does not exist) changes nothing at all; any other
    message leaves a consistent server. *)
Theorem rejected_command_ignored `{LogLevel, Malloc, Env} (act : gset nat) (r : root) (rid : route_id)
    (parts : list bytes) (Hmem : ∀ hp n, malloc_ok hp n = true)
    (Hdate : ∀ req, is_Some (http_date req)) (Hzmq : zmq_laws) (Hws : message_laws)
    (Hok : full_ok act r) (Hrt : route_ready r rid) (Hparts : command_ok (max (hsieve r)) parts) :
  ∃ ok r', websock_command rid parts r = Ok ok r' ∧
    (∃ act', handled act act' r r') ∧ (ok = false → r' = r).
Proof. by apply wp_Ok, (wp_websock_command Hmem Hdate Hzmq Hws). Qed.

Lemma rejected_command_ignored_witness :
  let LL : LogLevel := 0%Z in let MM : Malloc := λ _ _, true in let EE := example_env in
  websock_command 0 [str "send"; example_uid] example_subscribed = Ok false example_subscribed.
Proof.
  intros LL MM EE.
  destruct (@rejected_command_ignored LL MM EE {[0]} example_subscribed 0 [str "send"; example_uid])
    as (ok & r' & Hrun & _ & Hsame);
    [done|by eexists|apply example_laws|apply example_message_laws|apply example_subscribed_ok|apply example_route_ready| |].
  - apply (bool_decide_unpack _). vm_compute. exact I.
  - rewrite Hrun. destruct ok; [vm_compute in Hrun; discriminate|]. by rewrite Hsame.
Defined.

(** C14: as long as there is memory for the message and the websocket library
    takes it or reports a full connection ([message_laws]), publishing to a topic
    delivers the message once to each of its subscribers, in the order of its
    list, although delivering may close connections and so shorten the list, down
    to freeing the topic, on the way: every subscriber gets it at the end of its
    queue or into its websocket, except those whose queue has no room (or gets no
    memory) and that are closed for it; nobody else notices.  If there is no
    memory for the message itself, the server aborts (unless its log level hides
    the failed assertion). *)
Theorem topic_publish_correct `{LogLevel, Malloc, Env} (act : gset nat) (r : root) (topic : addr)
    (t : State.topic) (msg : bytes) (Hdate : ∀ req, is_Some (http_date req)) (Hzmq : zmq_laws)
    (Hok : full_ok act r) (Ht : topics r !! topic = Some t) :
  (message_laws → ∃ act' r', topic_publish topic msg r = Ok tt r' ∧
     delivered act act' r r' (clients r (t_subscribers t)) msg) ∧
  (message_malloc (trace r) = false → (LOG_ALERT ≤ LOGLEVEL)%Z → topic_publish topic msg r = Aborted).
Proof.
  split.
  - intros Hws. destruct (proj1 (wp_Ok _ _ _) (wp_topic_publish Hdate Hzmq Hws act r topic t msg Hok Ht))
      as ([] & r' & ? & act' & ?). by exists act', r'.
  - intros Hm Hl. unfold topic_publish, mbind at 1, M_bind at 1. by rewrite new_message_aborts.
Qed.

(** The example environment without memory for messages. *)
Definition example_full_memory : Env := {|
  zmq_send_res := @zmq_send_res example_env; ws_send_res := @ws_send_res example_env;
  zmq_writable := @zmq_writable example_env; time_text := @time_text example_env;
  wait_text := @wait_text example_env; http_date := @http_date example_env;
  retries := @retries example_env; sizeof_hybi := 160; sizeof_comet := 200;
  message_malloc := λ _, false; message_init_fails := λ _, false; message_text := λ _, true;
  backlog_malloc := limited_malloc; backlog_limit := limited_malloc_limit;
|}.

Lemma topic_publish_correct_witness :
  let LL : LogLevel := 6%Z in let MM : Malloc := λ _ _, true in
  (∃ r', @topic_publish LL MM example_env 2 (str "news") example_subscribed = Ok tt r' ∧
    session_of r' 0 = Some (1%Z, [str "news"])) ∧
  @topic_publish LL MM example_full_memory 2 (str "news") example_subscribed = Aborted.
Proof.
  intros LL MM. destruct (topics example_subscribed !! 2) as [t|] eqn:Ht; [|vm_compute in Ht; discriminate]. split.
  - destruct (@topic_publish_correct LL MM example_env {[0]} example_subscribed 2 t (str "news"))
      as [Hgo _]; [by eexists|apply example_laws|apply example_subscribed_ok|exact Ht|].
    destruct Hgo as (act' & r' & Hrun & _); [apply example_message_laws|].
    exists r'. split; [exact Hrun|]. vm_compute in Hrun. injection Hrun as <-. vm_compute. reflexivity.
  - assert (Hz : @zmq_laws example_full_memory) by (destruct example_laws as [Z1 Z2 Z3]; split; [exact Z1|exact Z2|exact Z3]).
    destruct (@topic_publish_correct LL MM example_full_memory {[0]} example_subscribed 2 t (str "news"))
      as [_ Hab]; [by eexists|exact Hz|apply example_subscribed_ok|exact Ht|]. by apply Hab.
Defined.

(** A message to everybody reaches each open connection of the route once, in
    the order of the table of connections, and no connection of another route. *)
Theorem send_all_correct `{LogLevel, Malloc, Env} (act : gset nat) (r : root) (rid : route_id) (msg : bytes)
    (Hdate : ∀ req, is_Some (http_date req)) (Hzmq : zmq_laws)
    (Hws : message_laws) (Hok : full_ok act r) :
  ∃ act' r', send_all rid msg r = Ok tt r' ∧ delivered act act' r r' (on_route r rid 0) msg ∧
    (∀ h, h ∈ on_route r rid 0 ↔ h ∈ act ∧ h_route <$> hybis r !! h = Some rid).
Proof.
  destruct (proj1 (wp_Ok _ _ _) (wp_send_all Hdate Hzmq Hws act r rid msg Hok))
    as ([] & r' & ? & act' & ?). exists act', r'. split_and!; [done..|]. intros h. by apply on_route_all.
Qed.

Lemma send_all_correct_witness :
  let LL : LogLevel := 0%Z in let MM : Malloc := λ _ _, true in let EE := example_env in
  ∃ r', send_all 0 (str "news") example_subscribed = Ok tt r' ∧
    session_of r' 0 = Some (1%Z, [str "news"]) ∧ on_route example_subscribed 0 0 = [0].
Proof.
  intros LL MM EE.
  destruct (@send_all_correct LL MM EE {[0]} example_subscribed 0 (str "news"))
    as (act' & r' & Hrun & _); [by eexists|apply example_laws|apply example_message_laws|apply example_subscribed_ok|].
  exists r'. split; [exact Hrun|]. vm_compute in Hrun. injection Hrun as <-. split; vm_compute; reflexivity.
Defined.
