(* ===== verification/Polling.v ===== *)
(** * Polling requests (polling.c)

    A request of a polling browser connects, posts a message, waits for
    messages, or several of these at once. *)

From S2P Require Import Prelude Sieve Pool MsgQueue Uidgen Links State Topics Backend Outputs Hybi.
From S2P Require Import CometArgs Request Comet Session Frontend Publish Inbound.

(** ** Operations *)
Section operations.
Context `{LogLevel, Malloc, Env, Digest}.

(** A failure to queue the message is only logged.
    src/src/polling.c:270-287 [send_message] *)
Definition send_message (h req : addr) : MR unit :=
  count (λ st, st <| st_comet_received_batches ::= plus 1 |>
                  <| st_comet_received_messages ::= plus 1 |>);;
  q ← get_request req;
  sock ← websock_resolve h (rq_body q);
  match sock with
  | Some s => REQ_INCREF req;; backend_send s h (PRequest req) false;; mret tt
  | None => mret tt
  end.

(** Polling is open to every page if no origin is configured or none is sent.
    src/src/polling.c:496-506 [comet_request] *)
Definition connect_request (req : addr) (urandom : random_device) : MR bool :=
  q ← get_request req;
  rid ← deref NullDeref (rq_route q);
  rt ← get_route rid;
  match rt_allow_origins rt, rq_origin q with
  | (_ :: _) as l, Some origin =>
      if decide (origin ∈ l) then comet_connect req urandom else mret false
  | _, _ => comet_connect req urandom
  end.

(** The action that a request without [action] asks for; [None] is an error.
    src/src/polling.c:517-532 [comet_request] *)
Definition implied_action (body : bytes) (limit : Z) : option action_enum :=
  match body with
  | _ :: _ => Some (if decide (limit ≠ 0)%Z then ACT_BIDI else ACT_POST)
  | [] => if decide (limit = 0)%Z then None else Some ACT_GET
  end.

(** The request becomes the one that collects messages.
    src/src/polling.c:570-597 [comet_request] *)
Definition wait_for_messages (h req : addr) (args : comet_args) : MR unit :=
  REQ_INCREF req;;
  set_comet h (λ c, c <| cur_request := Some req |> <| cur_format := a_out_format args |>);;
  hy ← get_hybi h;
  rt ← get_route (h_route hy);
  let limit := i32 (rt_queue_limit rt) in
  let limit := if decide (0 ≤ a_limit args ∧ a_limit args < limit)%Z then a_limit args else limit in
  set_comet h (λ c, c <| cur_limit := limit |>);;
  set_request req (λ q, q <| rq_hybi := Some h |>);;
  c ← get_comet h;
  (if decide (size (c_queue c) ≠ 0)%Z
   then set_comet h (λ c, c <| sendlater_active := true |>)
   else set_request req (λ q, q <| rq_timeout_active := true |>));;
  set_comet h (λ c, c <| inactivity_active := false |>).

(** The request is answered by closing the session.
    src/src/polling.c:552-558 [comet_request] *)
Definition close_request (h req : addr) : MR bool :=
  c ← get_comet h;
  (match cur_request c with Some _ => close_reply h | None => mret tt end);;
  REQ_INCREF req;;
  set_comet h (λ c, c <| cur_request := Some req |>);;
  comet_close h;;
  mret true.

(** src/src/polling.c:599-603 [comet_request] *)
Definition post_reply (req : addr) : MR unit :=
  ws_statusline req "200 OK";;
  ws_add_header req "X-Messages" (str "0");;
  set_headers req;;
  ws_reply_data req [].

(** src/src/polling.c:560-566 [comet_request] *)
Definition post_body (h req : addr) (action : action_enum) (args : comet_args) : MR bool :=
  if decide (action = ACT_POST ∨ action = ACT_BIDI) then
    match a_in_format args with
    | FMT_SINGLE => send_message h req;; mret true
    | FMT_JSONLIST => mret false
    end
  else mret true.

(** src/src/polling.c:568-605 [comet_request] *)
Definition serve_request (h req : addr) (action : action_enum) (args : comet_args) : MR bool :=
  (if decide (action = ACT_GET ∨ action = ACT_BIDI) then wait_for_messages h req args
   else if decide (action = ACT_POST) then post_reply req
   else mret tt);;
  mret true.

(** Once the connection and the action are known.
    src/src/polling.c:541-605 [comet_request] *)
Definition comet_action (h req : addr) (action : action_enum) (args : comet_args) : MR bool :=
  c ← get_comet h;
  ANIMPL (bool_decide (cur_request c ≠ Some req));;
  (if decide (action = ACT_GET ∨ action = ACT_BIDI ∨ action = ACT_CLOSE)
   then match cur_request c with Some _ => empty_reply h | None => mret tt end
   else mret tt);;
  moved ← move_queue h (a_last_message args);
  if decide (moved = false ∨ action = ACT_CLOSE) then close_request h req
  else
    posted ← post_body h req action args;
    if posted : bool then serve_request h req action args else mret false.

(** [false] is the error return; src/src/polling.c:487-606 [comet_request] *)
Definition comet_request (req : addr) (urandom : random_device) : MR bool :=
  q ← get_request req;
  args ← parse_uri (rq_uri q);
  match args with
  | None => mret false
  | Some args =>
      if decide (a_action args = ACT_CONNECT) then connect_request req urandom
      else
        o ← hybi_find (a_uid args);
        match o with
        | None => mret false
        | Some h =>
            hy ← get_hybi h;
            if decide (h_type hy ≠ HYBI_COMET) then mret false
            else
              let action := if decide (a_action args = ACT_UNKNOWN)
                            then implied_action (rq_body q) (a_limit args)
                            else Some (a_action args) in
              match action with
              | None => mret false
              | Some action =>
                  if decide (rq_method q = str "OPTIONS") then
                    ws_statusline req "200 OK";;
                    set_headers req;;
                    ws_reply_data req [];;
                    mret true
                  else comet_action h req action args
              end
        end
  end.
End operations.

(** ** Lemmas: the request that is being handled *)
Section handling.
Context `{LogLevel, Malloc, Env, Digest}.
Hypothesis Hdate : ∀ req, is_Some (http_date req).
Hypothesis Hzmq : zmq_laws.
Hypothesis Hws : message_laws.
Hypothesis Hclk : clock_ok.
Implicit Types (r : root).

(** A request that the library still has a reference to: it can be replied to. *)
Record owned r (req : addr) (q : request) : Prop := {
  ow_lookup : requests r !! req = Some q;
  ow_hybi : rq_hybi q = None;
  ow_route : ∃ rid, rq_route q = Some rid ∧ rid ∈ dom (routes r);
  ow_flags : Z.land (rq_flags q) REQ_IN_SIEVE = 0%Z;
  ow_refs : (Z.of_nat (preqs (bmsgs r) req) < rq_refcnt q)%Z;
}.

(** Only fields that the layers below do not look at may differ. *)
Lemma full_ok_request act r req q q' :
  full_ok act r → requests r !! req = Some q → rq_hybi q' = rq_hybi q → rq_body q' = rq_body q →
  rq_route q' = rq_route q → rq_flags q' = rq_flags q → (rq_refcnt q ≤ rq_refcnt q' < 2 ^ 31)%Z →
  let r' := r <| requests := <[req := q']> (requests r) |> in
  full_ok act r' ∧ ∀ s, stream r' s = stream r s.
Proof.
  intros [Hsv Hcm] Hq E1 E2 E3 E4 Hrc r'. destruct (server_ok_beside act r r') as [Hsv' Hst]; [done| |].
  { split; try done. intros b m req' _ _. simpl.
    destruct (decide (req' = req)) as [->|]; [|by rewrite lookup_insert_ne].
    rewrite lookup_insert_eq, Hq. simpl. by rewrite E2. }
  split; [split; [done|]|done]. unfold r'. clear Hsv' Hst r'.
  - destruct Hcm as [K1 K2 K3 K4 K5 K6 K7 K8]. split; try done; simpl.
    + intros h c q0 Ha Hc Hcur. destruct (K5 h c q0 Ha Hc Hcur) as (rq & Hrq & [W1 W2 W3]).
      destruct (decide (q0 = req)) as [->|]; [|exists rq; by rewrite lookup_insert_ne].
      exists q'. rewrite lookup_insert_eq. split; [done|]. assert (rq = q) as -> by congruence.
      split; [congruence|by rewrite E3|by rewrite E4].
    + intros q0 rq h. rewrite lookup_insert_Some. intros [[<- <-]|[_ Hq0]]; [|by apply K6].
      rewrite E1. by apply K6.
    + intros q0 rq. rewrite lookup_insert_Some. intros [[<- <-]|[_ Hq0]]; [|by apply K7].
      rewrite E1. destruct (K7 req q Hq). lia.
    + intros b m q0 Hb Hm. destruct (decide (q0 = req)) as [->|]; [rewrite lookup_insert_eq; by eexists|].
      rewrite lookup_insert_ne by done. by eapply K8.
Qed.

Lemma owned_ne act r h c req q mreq :
  full_ok act r → owned r req q → h ∈ act → comet_of r h = Some c → cur_request c = Some mreq → mreq ≠ req.
Proof.
  intros [_ Hcm] Ho Ha Hc Hcur ->. destruct (cm_wait _ _ Hcm h c req Ha Hc Hcur) as (q' & Hq' & [W _ _]).
  pose proof (ow_lookup _ _ _ Ho). pose proof (ow_hybi _ _ _ Ho). congruence.
Qed.

(** Answering another request does not concern it. *)
Lemma owned_beside r r' req q :
  owned r req q → beside r r' → requests r' !! req = requests r !! req → owned r' req q.
Proof.
  intros [O1 O2 O3 O4 O5] [Hs _ _ _] E. unfold server_side in Hs. injection Hs as _ _ _ _ _ _ _ _ _ _ Eb Er _.
  split; rewrite ?Eb, ?Er; congruence.
Qed.

Lemma wp_REQ_INCREF act r req q (Q : unit → root → Prop) :
  full_ok act r → owned r req q → (rq_refcnt q < 2 ^ 31 - 1)%Z →
  (let q' := q <| rq_refcnt := (rq_refcnt q + 1)%Z |> in
   let r' := r <| requests := <[req := q']> (requests r) |> in
   full_ok act r' → requests r' !! req = Some q' → (∀ s, stream r' s = stream r s) → Q tt r') →
  wp (REQ_INCREF req) Q r.
Proof.
  intros Hok Ho Hrc HQ. unfold REQ_INCREF. eapply wp_set_request; [apply Ho|].
  assert (Hpos : (0 < rq_refcnt q)%Z) by (pose proof (ow_refs _ _ _ Ho); lia).
  assert (q <| rq_refcnt ::= λ n, i32 (n + 1) |> = q <| rq_refcnt := (rq_refcnt q + 1)%Z |>) as ->.
  { simpl. by rewrite i32_small by lia. }
  destruct (full_ok_request act r req q (q <| rq_refcnt := (rq_refcnt q + 1)%Z |>)) as [Hok' Hst]; try done.
  { apply Ho. } { simpl. lia. }
  apply HQ; [done|apply lookup_insert_eq|done].
Qed.

(** *** Posting its body *)

(** The body of [req] was posted to [s], or there was no memory for it; one
    reference more belongs to the message. *)
Record posted_body r r' (req : addr) (q : request) (s : sock_id) (fs : list bytes) (ok : bool) : Prop := {
  pb_owned : owned r' req (q <| rq_refcnt := (rq_refcnt q + 1)%Z |>);
  pb_stream : ∀ s', stream r' s' = stream r s' ++ (if ok then if decide (s' = s) then [fs] else [] else []);
  pb_conns : conns r' = conns r;
  pb_same : fmsgs r' = fmsgs r ∧ routes r' = routes r ∧ dom (socks r') = dom (socks r) ∧ outputs r' = outputs r;
}.

Lemma wp_send_message act r h hy req q :
  full_ok act r → hybis r !! h = Some hy → h_type hy = HYBI_COMET → owned r req q →
  (rq_refcnt q < 2 ^ 31 - 1)%Z → plain_message r hy (rq_body q) →
  wp (send_message h req) (λ _ r', full_ok act r' ∧ ∃ c ok, chosen r (rq_body q) (h_outputs hy) c ∧
    posted_body r r' req q (default (Forward (h_route hy)) c) (frames hy (PRequest req) (rq_body q)) ok) r.
Proof.
  intros Hok Hh Ht Ho Hrc Hp. unfold send_message. apply wp_bind, wp_count. cbn beta.
  set (r0 := r <| stat := _ |>). assert (Hok0 : full_ok act r0) by by apply full_ok_stat.
  assert (Ho0 : owned r0 req q) by by destruct Ho; split.
  apply wp_bind. eapply wp_get_request; [apply Ho|]. apply wp_bind.
  eapply wp_mono; [by apply (wp_websock_resolve act r0 h hy)|]. intros s r1 (-> & c & Hc & ->).
  apply wp_bind. eapply (wp_REQ_INCREF act r0 req q); [done..|]. cbn zeta.
  set (q' := q <| rq_refcnt := _ |>). set (r1 := r0 <| requests := _ |>). intros Hok1 Hq1 Hst1.
  apply wp_bind. eapply wp_mono; [apply (wp_post Hzmq act r1 _ h hy (PRequest req) (rq_body q) false)|]; try done.
  - by apply (chosen_sock act r0 h hy (rq_body q) c).
  - unfold payload_of. by rewrite Ht, Hq1.
  - exists q'. split; [done|]. simpl. rewrite (ow_hybi _ _ _ Ho). simpl. pose proof (ow_refs _ _ _ Ho). lia.
  - intros ok r2 (Hok2 & [[Hoff Hco Hdo] Hpq Hst] & _). apply wp_ret. split; [done|]. exists c, ok.
    split; [clear -Hc; induction Hc; by econstructor|].
    unfold off_backend in Hoff. injection Hoff as _ _ _ _ E5 _ _ _ _ _ E11 _ E13 E14 _.
    split; [|intros s'; by rewrite Hst, Hst1|done|done].
    destruct Ho as [O1 O2 O3 O4 O5]. split; try done; [by rewrite E5|by rewrite E14|].
    specialize (Hpq req). simpl in *. lia.
Qed.

(** *** Waiting for messages *)

(** The session takes the request. *)
Lemma comets_ok_hold act r r' h hy c c' req q q' :
  comets_ok act r → h ∈ act → hybis r !! h = Some hy → h_comet hy = Some c → cur_request c = None →
  owned r req q → hybis r' = <[h := hy <| h_comet := Some c' |>]> (hybis r) →
  c_queue c' = c_queue c → first_index c' = first_index c → overflow c' = overflow c → cur_request c' = Some req →
  requests r' = <[req := q']> (requests r) → rq_hybi q' = Some h → rq_route q' = rq_route q →
  rq_flags q' = rq_flags q → (rq_refcnt q < rq_refcnt q' < 2 ^ 31)%Z →
  fmsgs r' = fmsgs r → frontend_arena r' = frontend_arena r → bmsgs r' = bmsgs r → routes r' = routes r →
  comets_ok act r'.
Proof.
  intros [K1 K2 K3 K4 K5 K6 K7 K8] Hact Hh Hhc Hcur Ho Ehs Eq Ef Eov Ecur Er Q1 Q2 Q3 Q4 E1 E2 E3 E4.
  assert (Hco : comet_of r h = Some c) by (unfold comet_of; by rewrite Hh).
  assert (Hcof : ∀ h', comet_of r' h' = if decide (h' = h) then Some c' else comet_of r h').
  { intros h'. unfold comet_of. rewrite Ehs. case_decide as E; [subst|by rewrite lookup_insert_ne].
    by rewrite lookup_insert_eq. }
  destruct Ho as [O1 O2 O3 O4 O5].
  split; rewrite ?E1, ?E2, ?E3; try done.
  - intros h' hy' Ha'. rewrite Ehs, lookup_insert_Some. intros [[<- <-]|[_ Hh']]; [|by eapply K1].
    specialize (K1 h hy Ha' Hh). simpl. destruct (h_type hy); [|by eexists]. destruct K1; congruence.
  - destruct K2 as (E & Hd & Hs). exists E. split; [done|].
    change (side_ok E (item_lists act r')). rewrite (item_lists_insert act r r' h hy c') by done.
    rewrite Eq, insert_id; [done|]. by apply (item_lists_lookup act r h hy).
  - intros h' c0 Ha'. rewrite Hcof. case_decide as E; [|by apply K3]. intros [= <-]. subst h'.
    destruct (K3 h c Hact Hco) as [C1 C2 C3]. split; rewrite ?Eq, ?Ef, ?Eov; done.
  - intros h' c0 q0 Ha'. rewrite Hcof. case_decide as E.
    + intros [= <-]. rewrite Ecur. intros [= <-]. exists q'. rewrite Er, lookup_insert_eq. split; [done|].
      subst h'. split; [done|by rewrite Q2, E4|by rewrite Q3].
    + intros Hc0 Hq0. destruct (K5 h' c0 q0 Ha' Hc0 Hq0) as (rq & Hrq & [W1 W2 W3]).
      exists rq. rewrite Er, lookup_insert_ne by congruence. split; [done|]. split; [done|by rewrite E4|done].
  - intros q0 rq h'. rewrite Er, lookup_insert_Some. intros [[<- <-]|[Hne Hq0]] Hh'.
    + rewrite Q1 in Hh'. injection Hh' as <-. split; [done|]. exists c'. by rewrite Hcof, decide_True.
    + destruct (K6 q0 rq h' Hq0 Hh') as [Ha' (c0 & Hc0 & Hcq)]. split; [done|]. exists c0.
      rewrite Hcof, decide_False; [done|]. intros ->. congruence.
  - intros q0 rq. rewrite Er, lookup_insert_Some. intros [[<- <-]|[_ Hq0]]; [|by apply K7].
    rewrite Q1. simpl. lia.
  - intros b m q0 Hb Hm. rewrite Er. destruct (decide (q0 = req)) as [->|]; [rewrite lookup_insert_eq; by eexists|].
    rewrite lookup_insert_ne by done. by eapply K8.
Qed.

(** [req] waits for messages now, or for the idle callback if there are some. *)
Record waits r r' (h : addr) (hy : hybi) (c : comet) (req : addr) (q : request) (args : comet_args) : Prop := {
  wa_beside : beside r r';
  wa_comet : ∃ c' rt, hybis r' = <[h := hy <| h_comet := Some c' |>]> (hybis r) ∧
    routes r !! h_route hy = Some rt ∧ cur_request c' = Some req ∧ cur_format c' = a_out_format args ∧
    cur_limit c' = (if decide (0 ≤ a_limit args < i32 (rt_queue_limit rt))%Z then a_limit args
                    else i32 (rt_queue_limit rt)) ∧
    c_queue c' = c_queue c ∧ first_index c' = first_index c ∧ inactivity_active c' = false ∧
    (size (c_queue c) ≠ 0%Z → sendlater_active c' = true);
  wa_request : ∃ q', requests r' = <[req := q']> (requests r) ∧ rq_hybi q' = Some h ∧
    (rq_refcnt q' = rq_refcnt q + 1)%Z ∧ (size (c_queue c) = 0%Z → rq_timeout_active q' = true);
  wa_same : fmsgs r' = fmsgs r ∧ trace r' = trace r;
}.

Lemma wp_wait_for_messages act r h hy c req q args :
  full_ok act r → h ∈ act → hybis r !! h = Some hy → h_comet hy = Some c → cur_request c = None →
  owned r req q → (rq_refcnt q < 2 ^ 31 - 1)%Z → is_Some (routes r !! h_route hy) →
  wp (wait_for_messages h req args) (λ _ r', full_ok act r' ∧ waits r r' h hy c req q args) r.
Proof.
  intros Hok Ha Hh Hc Hcur Ho Hrc [rt Hrt]. unfold wait_for_messages.
  apply wp_bind. eapply (wp_REQ_INCREF act r req q); [done..|]. cbn zeta. set (q1 := q <| rq_refcnt := _ |>).
  set (r1 := r <| requests := _ |>). intros _ Hq1 _.
  apply wp_bind. eapply wp_set_comet; [done..|]. apply wp_bind. eapply wp_get_hybi; [apply lookup_insert_eq|].
  apply wp_bind. eapply wp_get_route; [done|].
  set (lim := if decide (0 ≤ a_limit args < _)%Z then _ else _).
  apply wp_bind. eapply wp_set_comet; [apply lookup_insert_eq|done|]. rewrite hybis_twice.
  apply wp_bind. eapply wp_set_request; [exact Hq1|]. cbn beta.
  apply wp_bind. eapply wp_get_comet; [apply lookup_insert_eq|done|].
  set (c1 := c <| cur_request := Some req |> <| cur_format := a_out_format args |> <| cur_limit := lim |>).
  set (q2 := q1 <| rq_hybi := Some h |>).
  assert (Hfin : ∀ c' q' r', hybis r' = <[h := hy <| h_comet := Some c' |>]> (hybis r) →
    requests r' = <[req := q']> (requests r) → r' = r <| requests := requests r' |> <| hybis := hybis r' |> →
    c' = c1 <| sendlater_active := sendlater_active c' |> <| inactivity_active := false |> →
    q' = q2 <| rq_timeout_active := rq_timeout_active q' |> →
    (size (c_queue c) ≠ 0%Z → sendlater_active c' = true) →
    (size (c_queue c) = 0%Z → rq_timeout_active q' = true) → full_ok act r' ∧ waits r r' h hy c req q args).
  { intros c' q' r' Eh Er E Ec Eq S1 S2.
    assert (Hbs : beside r r').
    { apply (beside_intro r r' h hy c' []); try done; try (by rewrite E); [|rewrite E; by rewrite app_nil_r].
      intros b m req' _ _. rewrite Er. destruct (decide (req' = req)) as [->|]; [|by rewrite lookup_insert_ne].
      rewrite lookup_insert_eq, (ow_lookup _ _ _ Ho), Eq. done. }
    split; [split; [by apply (server_ok_beside act r r'), Hbs; apply Hok|]|].
    - pose proof (ow_refs _ _ _ Ho).
      apply (comets_ok_hold act r r' h hy c c' req q q'); try done; try (by rewrite E); try (by rewrite Ec);
        try (by rewrite Eq); [apply Hok|rewrite Eq; simpl; lia].
    - split; [done| | |by rewrite E].
      + exists c', rt. split_and!; try done; try (by rewrite Ec).
      + exists q'. split_and!; try done; by rewrite Eq. }
  apply wp_bind. destruct (decide (size (c_queue c1) ≠ 0%Z)) as [Hs|Hs].
  - eapply wp_set_comet; [apply lookup_insert_eq|done|]. eapply wp_set_comet; [apply lookup_insert_eq|done|].
    eapply Hfin; [simpl; by rewrite !insert_insert_eq|simpl; by rewrite insert_insert_eq|by destruct r|done..].
  - apply dec_stable in Hs. eapply wp_set_request; [apply lookup_insert_eq|]. cbn beta.
    eapply wp_set_comet; [apply lookup_insert_eq|done|].
    eapply Hfin; [simpl; by rewrite !insert_insert_eq|simpl; by rewrite !insert_insert_eq|by destruct r|done..].
Qed.

(** *** The whole handler *)

(** [req], which is [q], is being handled for the session [c] of [h]. *)
Record ready (act : gset nat) r (h : addr) (hy : hybi) (c : comet) (req : addr) (q : request) : Prop := {
  rd_ok : full_ok act r;
  rd_act : h ∈ act;
  rd_hybi : hybis r !! h = Some hy;
  rd_comet : h_comet hy = Some c;
  rd_type : h_type hy = HYBI_COMET;
  rd_owned : owned r req q;
  rd_route : is_Some (routes r !! h_route hy);
}.

(** The session is the one that it was, but for its first [n] messages and the
    request that waits. *)
Record progress r r' (hy : hybi) (c : comet) (hy' : hybi) (c' : comet) (n : nat) : Prop := {
  pg_hybi : h_route hy' = h_route hy ∧ h_type hy' = h_type hy;
  pg_first : first_index c' = (first_index c + Z.of_nat n)%Z;
  pg_backlog : backlog r' c' = drop n (backlog r c);
  pg_capacity : capacity (c_queue c') = capacity (c_queue c);
  pg_size : size (c_queue c') = (size (c_queue c) - Z.of_nat n)%Z;
  pg_routes : routes r' = routes r;
}.

Lemma progress_same r hy c : progress r r hy c hy c 0.
Proof. split; (done || lia). Qed.

Lemma progress_trans r1 r2 r3 hy1 c1 hy2 c2 hy3 c3 n m :
  progress r1 r2 hy1 c1 hy2 c2 n → progress r2 r3 hy2 c2 hy3 c3 m → progress r1 r3 hy1 c1 hy3 c3 (n + m).
Proof.
  intros [[? ?] A2 A3 A4 A5 A6] [[? ?] B2 B3 B4 B5 B6]. split; [split; congruence|lia| |congruence|lia|congruence].
  by rewrite B3, A3, drop_drop.
Qed.

(** The queue and its messages are as they were. *)
Lemma progress_queue r r' hy c hy' c' :
  h_route hy' = h_route hy → h_type hy' = h_type hy → c_queue c' = c_queue c → first_index c' = first_index c →
  fmsgs r' = fmsgs r → routes r' = routes r → progress r r' hy c hy' c' 0.
Proof. intros E1 E2 E3 E4 E5 E6. split; rewrite ?E3; try (done || lia). unfold backlog. by rewrite E3, E5. Qed.

(** A body that is a command for the gateway itself is answered into the queue of
    its own session, which has to have room for that. *)
Definition harmless r (hy : hybi) (c : comet) (body : bytes) : Prop :=
  ∃ rt, routes r !! h_route hy = Some rt ∧
    (¬ gateway_command rt body ∨
     (size (c_queue c) < capacity (c_queue c))%Z ∧ ∀ hp n, malloc_ok hp n = true).

Lemma plain_progress r r' hy c hy' c' n body :
  progress r r' hy c hy' c' n → plain_message r hy body → plain_message r' hy' body.
Proof. intros [[E _] _ _ _ _ E'] (rt & Hrt & Hp). exists rt. by rewrite E', E. Qed.

Lemma harmless_progress r r' hy c hy' c' n body :
  progress r r' hy c hy' c' n → harmless r hy c body → harmless r' hy' c' body.
Proof.
  intros [[E _] _ _ E2 E3 E'] (rt & Hrt & Hp). exists rt. rewrite E', E, E2, E3. split; [done|].
  destruct Hp as [?|[? ?]]; [by left|right]. split; [lia|done].
Qed.

Lemma beside_routes r r' : beside r r' → routes r' = routes r.
Proof. intros Hb. pose proof (bs_server _ _ Hb) as Hs. unfold server_side in Hs. by injection Hs. Qed.

Lemma ready_step act r r' h hy c c' req q :
  ready act r h hy c req q → full_ok act r' → beside r r' →
  hybis r' = <[h := hy <| h_comet := Some c' |>]> (hybis r) → requests r' !! req = requests r !! req →
  ready act r' h (hy <| h_comet := Some c' |>) c' req q.
Proof.
  intros [R1 R2 R3 R4 R5 R6 R7] Hok Hb Eh Er. split; try done.
  - by rewrite Eh, lookup_insert_eq.
  - by apply (owned_beside r).
  - by rewrite (beside_routes r r').
Qed.

Lemma ready_ne act r h hy c req q mreq :
  ready act r h hy c req q → cur_request c = Some mreq → mreq ≠ req.
Proof.
  intros [R1 R2 R3 R4 _ R6 _]. apply (owned_ne act r h c req q); try done. unfold comet_of. by rewrite R3.
Qed.

Lemma ready_replied act r r' h hy c req q mreq :
  ready act r h hy c req q → cur_request c = Some mreq → full_ok act r' →
  replied r r' mreq h hy (c <| cur_request := None |>) →
  let hy' := hy <| h_comet := Some (c <| cur_request := None |>) |> in
  ready act r' h hy' (c <| cur_request := None |>) req q ∧
  progress r r' hy c hy' (c <| cur_request := None |>) 0.
Proof.
  intros R Hcur Hok [Hb Ehs [Ef _] [tl Hrel]]. split.
  - apply (ready_step act r r' h hy c); try done. apply Hrel. intros <-. by apply (ready_ne _ _ _ _ _ _ _ _ R Hcur).
  - apply progress_queue; try done. by apply beside_routes.
Qed.

(** [comet_close] answers the request that brought it about. *)
Lemma wp_close_request act r h hy c req q :
  ready act r h hy c req q → (rq_refcnt q < 2 ^ 31 - 1)%Z →
  wp (close_request h req)
     (λ _ r', full_ok (act ∖ {[h]}) r' ∧ is_Some (requests r' !! req)) r.
Proof.
  intros R Hrc. unfold close_request. apply wp_bind. eapply wp_get_comet; [apply R|apply R|].
  assert (Hclose : ∀ r1 hy1 c1, ready act r1 h hy1 c1 req q → cur_request c1 = None →
    wp (REQ_INCREF req;; set_comet h (λ c, c <| cur_request := Some req |>);; comet_close h;; mret true)
       (λ _ r', full_ok (act ∖ {[h]}) r' ∧ is_Some (requests r' !! req)) r1).
  { clear r hy c R. intros r hy c [R1 R2 R3 R4 R5 R6 R7] Hcur. pose proof R6 as [O1 O2 O3 O4 O5].
    apply wp_bind. eapply (wp_REQ_INCREF act r req q); [done..|]. cbn zeta. set (q1 := q <| rq_refcnt := _ |>).
    set (r1 := r <| requests := _ |>). intros _ Hq1 _.
    apply wp_bind. eapply wp_set_comet; [done..|]. set (c1 := c <| cur_request := Some req |>).
    set (q2 := q1 <| rq_hybi := Some h |>).
    set (hy1 := hy <| h_comet := Some c1 |>).
    set (r2 := r <| requests := <[req := q2]> (requests r) |> <| hybis := <[h := hy1]> (hybis r) |>).
    assert (Hok2 : full_ok act r2).
    { assert (Hbs : beside r r2).
      { apply (beside_intro r r2 h hy c1 []); try done; [|by rewrite app_nil_r].
        intros b m req' _ _. simpl. destruct (decide (req' = req)) as [->|]; [|by rewrite lookup_insert_ne].
        by rewrite lookup_insert_eq, O1. }
      split; [by apply (server_ok_beside act r r2), Hbs; apply R1|].
      apply (comets_ok_hold act r r2 h hy c c1 req q q2); try done; [apply R1|simpl; lia]. }
    apply wp_bind. replace (_ <| hybis := _ |>) with (with_request r2 (Some (req, q1)))
      by (simpl; by rewrite insert_insert_eq).
    eapply wp_mono; [apply (wp_comet_close_with Hdate Hzmq act r2 h hy1 c1); try done|].
    - apply lookup_insert_eq.
    - intros req' q' [= <- <-]. split; [done|]. exists q2. split; [apply lookup_insert_eq|done].
    - intros _ r' (Hok' & _ & _ & tl & Hrel). apply wp_ret. split; [done|].
      destruct (rl_self _ _ _ _ Hrel) as (q' & Hq' & Hc). simpl in Hq'. rewrite lookup_insert_eq in Hq'.
      injection Hq' as <-. simpl in Hc. destruct Hc as [(E & _)|(_ & _ & q' & -> & _)]; [lia|by eexists]. }
  destruct (cur_request c) as [mreq|] eqn:Hcur; [|by apply wp_bind, wp_ret, (Hclose r hy c)].
  assert (Hco : comet_of r h = Some c).
  { unfold comet_of. rewrite (rd_hybi _ _ _ _ _ _ _ R). apply R. }
  destruct (cm_wait _ _ (fo_comets _ _ (rd_ok _ _ _ _ _ _ _ R)) h c mreq (rd_act _ _ _ _ _ _ _ R) Hco Hcur)
    as (mq & Hmq & _).
  apply wp_bind. pose proof (wp_close_reply Hdate act r h hy c mreq mq mq) as Hw.
  rewrite insert_id in Hw by done. replace (r <| requests := requests r |>) with r in Hw by by destruct r.
  pose proof R as [R1 R2 R3 R4 _ _ _]. eapply wp_mono; [by apply Hw|]. intros _ r1 [Hok1 Hrep].
  eapply Hclose; [by eapply ready_replied|done].
Qed.

(** The answer to a POST. *)
Lemma wp_posted_reply act r req q :
  full_ok act r → owned r req q →
  wp (post_reply req) (λ _ r', full_ok act r' ∧ ∃ l, r' = noted r l) r.
Proof.
  unfold post_reply. intros Hok [O1 O2 (rid & Hr & Hrt) O4 O5]. apply wp_bind, wp_write, wp_bind, wp_write. rewrite noted_noted.
  apply wp_bind. eapply (wp_notes (header_of req)); [by apply (notes_set_headers Hdate _ req q rid)|].
  intros hs Hhs. rewrite noted_noted. apply wp_write. rewrite noted_noted. split; [|by eexists].
  apply full_ok_noted; [done|]. repeat (apply Forall_app; split); try by repeat constructor.
  eapply Forall_impl; [exact Hhs|apply header_off_wire].
Qed.

(** A session is numbered in an [int]. *)
Definition numbers_left (c : comet) : Prop := (first_index c + size (c_queue c) < 2 ^ 31)%Z.

(** The session after [req] was handled: its first [n] messages were acknowledged
    and, unless the body was a command for the gateway, nothing else happened. *)
Definition advanced r r' (h : addr) (hy : hybi) (c : comet) (body : bytes) (n : nat) : Prop :=
  plain_message r hy body → ∃ hy' c', hybis r' !! h = Some hy' ∧ h_comet hy' = Some c' ∧
    progress r r' hy c hy' c' n.

Lemma owned_some r req q : owned r req q → is_Some (requests r !! req).
Proof. intros Ho. exists q. apply Ho. Qed.

Lemma advanced_step r1 r2 r3 h hy1 c1 hy2 c2 body n m :
  progress r1 r2 hy1 c1 hy2 c2 n → advanced r2 r3 h hy2 c2 body m → advanced r1 r3 h hy1 c1 body (n + m).
Proof.
  intros Hp Ha Hpl. destruct Ha as (hy3 & c3 & ? & ? & ?); [by eapply plain_progress|].
  exists hy3, c3. split_and!; [done..|]. by eapply progress_trans.
Qed.

(** *** A command for the gateway in the body *)

Lemma wp_send_command_body act r h hy c req q rt :
  ready act r h hy c req q → routes r !! h_route hy = Some rt → gateway_command rt (rq_body q) →
  (size (c_queue c) < capacity (c_queue c))%Z → (∀ hp n, malloc_ok hp n = true) →
  wp (send_message h req) (λ _ r', ∃ hy' c', ready act r' h hy' c' req q ∧ cur_request c' = cur_request c) r.
Proof.
  intros [R1 R2 R3 R4 R5 R6 R7] Hrt Hcmd Hroom Hmem. unfold send_message. apply wp_bind, wp_count. cbn beta.
  set (r0 := r <| stat := _ |>). assert (R : ready act r0 h hy c req q).
  { split; try done; [by apply full_ok_stat|by destruct R6; split]. }
  apply wp_bind. eapply wp_get_request; [apply R6|]. apply wp_bind.
  eapply (wp_gateway_command Hws r0 h hy rt); [done..|].
  destruct (command_answer r0 (rq_body q)) as [m|]; [|apply wp_ret; by exists hy, c].
  unfold do_send. apply wp_bind, wp_count. cbn beta. set (r1 := r0 <| stat := _ |>).
  assert (R' : ready act r1 h hy c req q).
  { destruct R as [S1 S2 S3 S4 S5 S6 S7]. split; try done; [by apply full_ok_stat|by destruct S6; split]. }
  apply wp_bind. eapply wp_get_hybi; [done|]. rewrite R5. apply wp_bind.
  eapply wp_mono; [apply (wp_comet_send Hdate Hzmq act r1 h hy c m); [apply R'|done..]|].
  intros [|] r2 Hr2.
  - destruct Hr2 as (Hok2 & [Hb (c' & Eh & E & _) _ [Er _]] & _). apply wp_ret, wp_ret.
    exists (hy <| h_comet := Some c' |>), c'. split; [|done]. apply (ready_step act r1 r2 h hy c); try done. by rewrite Er.
  - destruct Hr2 as (_ & _ & [?|(hp & n & E)] & _); [lia|by rewrite Hmem in E].
Qed.

Lemma wp_post_body act r h hy c req q action args :
  ready act r h hy c req q → harmless r hy c (rq_body q) → (rq_refcnt q < 2 ^ 31 - 1)%Z →
  wp (post_body h req action args) (λ _ r', ∃ hy' c' q',
    ready act r' h hy' c' req q' ∧ (rq_refcnt q' ≤ rq_refcnt q + 1)%Z ∧ cur_request c' = cur_request c ∧
    (plain_message r hy (rq_body q) → rq_body q' = rq_body q ∧ progress r r' hy c hy' c' 0)) r.
Proof.
  intros R Hb Hrc. pose proof R as [R1 R2 R3 R4 R5 R6 [rt Hrt]]. unfold post_body.
  assert (Hsame : ∃ hy' c' q', ready act r h hy' c' req q' ∧ (rq_refcnt q' ≤ rq_refcnt q + 1)%Z ∧
    cur_request c' = cur_request c ∧
    (plain_message r hy (rq_body q) → rq_body q' = rq_body q ∧ progress r r hy c hy' c' 0)).
  { exists hy, c, q. split_and!; [done|lia|done|]. intros _. split; [done|apply progress_same]. }
  case_decide; [|by apply wp_ret]. destruct (a_in_format args); [|by apply wp_ret]. apply wp_bind.
  destruct (decide (gateway_command rt (rq_body q))) as [Hcmd|Hpl].
  { assert (Hnot : ¬ plain_message r hy (rq_body q)) by (intros (rt' & ? & ?); congruence).
    destruct Hb as (rt' & Hrt' & [Hn|[Hroom Hmem]]); [congruence|].
    eapply wp_mono; [by apply (wp_send_command_body act r h hy c req q rt)|].
    intros _ r' (hy' & c' & R' & E). apply wp_ret. exists hy', c', q. split_and!; [done|lia|done|done]. }
  assert (Hp : plain_message r hy (rq_body q)) by by exists rt.
  eapply wp_mono; [by apply (wp_send_message act r h hy req q)|].
  intros _ r' (Hok' & cc & ok & Hcc & [Ho' Hst Hco (S1 & S2 & S3 & S4)]). apply wp_ret.
  assert (Hl : ident <$> hybis r' !! h = Some (ident hy)).
  { unfold conns in Hco. by rewrite <- lookup_fmap, Hco, lookup_fmap, R3. }
  apply fmap_Some in Hl as (hy' & Hh' & Ei). symmetry in Ei.
  assert (Er : h_route hy' = h_route hy) by by apply (f_equal h_route) in Ei.
  assert (Et : h_type hy' = h_type hy) by by apply (f_equal h_type) in Ei.
  exists hy', c, (q <| rq_refcnt := (rq_refcnt q + 1)%Z |>). split; [|split; [simpl; lia|split; [done|]]].
  - split; try done; [|congruence|rewrite Er, S2; by exists rt].
    rewrite <- R4. by apply (f_equal h_comet) in Ei.
  - intros _. split; [done|]. by apply progress_queue.
Qed.

(** What is left of the connections once [req] was handled for the session: it is
    closed if the browser wants so or acknowledges what it was never sent. *)
Definition handled_poll (act : gset nat) r (h : addr) (hy : hybi) (c : comet) (req : addr) (q : request)
    (action : action_enum) (id : Z) (r' : root) : Prop :=
  is_Some (requests r' !! req) ∧
  if decide (action = ACT_CLOSE ∨ (first_index c + size (c_queue c) ≤ id)%Z) then full_ok (act ∖ {[h]}) r'
  else full_ok act r' ∧ advanced r r' h hy c (rq_body q) (Z.to_nat (id - first_index c + 1)).

Lemma wp_serve_request act r h hy c req q action args :
  ready act r h hy c req q → (rq_refcnt q < 2 ^ 31 - 1)%Z →
  (action = ACT_GET ∨ action = ACT_BIDI → cur_request c = None) →
  wp (serve_request h req action args) (λ _ r', is_Some (requests r' !! req) ∧ full_ok act r' ∧
    ∃ hy' c', hybis r' !! h = Some hy' ∧ h_comet hy' = Some c' ∧ progress r r' hy c hy' c' 0) r.
Proof.
  intros R Hrc Hcur. pose proof R as [R1 R2 R3 R4 R5 R6 R7]. unfold serve_request. apply wp_bind.
  case_decide as Hg; [|case_decide as Hp].
  - eapply wp_mono; [by apply (wp_wait_for_messages act r h hy c req q args); auto|].
    intros _ r' [Hok' [Hb (c' & rt & Eh & _ & _ & _ & _ & E1 & E2 & _) (q' & E & _) [Ef _]]]. apply wp_ret.
    split; [rewrite E, lookup_insert_eq; by eexists|]. split; [done|].
    exists (hy <| h_comet := Some c' |>), c'. rewrite Eh, lookup_insert_eq. split_and!; [done..|].
    apply progress_queue; try done. by apply beside_routes.
  - eapply wp_mono; [by apply (wp_posted_reply act r req q)|]. intros _ r' [Hok' [l ->]].
    apply wp_ret. split; [exact (owned_some _ _ _ R6)|]. split; [done|]. exists hy, c. split_and!; [done..|].
    by apply progress_queue.
  - apply wp_ret, wp_ret. split; [by eapply owned_some|]. split; [done|]. exists hy, c. split_and!; [done..|].
    apply progress_same.
Qed.

(** The acknowledgement. *)
Lemma ready_moved act r h hy c req q id :
  ready act r h hy c req q → (0 ≤ id < 2 ^ 64)%Z → numbers_left c →
  wp (move_queue h id) (λ ok r', ok = bool_decide (id < first_index c + size (c_queue c))%Z ∧
    ∃ hy' c', ready act r' h hy' c' req q ∧ cur_request c' = cur_request c ∧
      ∃ n, progress r r' hy c hy' c' n ∧ (ok = true → n = Z.to_nat (id - first_index c + 1))) r.
Proof.
  intros R Hid Hnum. pose proof R as [R1 R2 R3 R4 R5 R6 R7].
  assert (Hco : comet_of r h = Some c) by (unfold comet_of; by rewrite R3).
  destruct (cm_comet _ _ (fo_comets _ _ R1) _ _ R2 Hco) as [C1 _ _ _ _].
  eapply wp_mono; [by apply (wp_move_queue Hdate act r h hy c id)|]. intros ok r' Hr'.
  destruct (decide (id < first_index c)%Z).
  { destruct Hr' as [-> ->]. rewrite bool_decide_eq_true_2 by lia. split; [done|]. exists hy, c. split_and!; [done..|].
    exists 0. split; [apply progress_same|lia]. }
  case_decide.
  2:{ destruct Hr' as [-> ->]. rewrite bool_decide_eq_false_2 by lia. split; [done|]. exists hy, c. split_and!; [done..|].
      exists 0. split; [apply progress_same|done]. }
  rewrite bool_decide_eq_true_2 by lia.
  destruct Hr' as (-> & Hok' & [Hb (c' & Eh & Ecur & G1 & G2 & G3 & G4) _ [Er _]]). split; [done|].
  exists (hy <| h_comet := Some c' |>), c'. split; [|split; [done|]].
  - apply (ready_step act r r' h hy c); try done. by rewrite Er.
  - eexists. split; [|done]. split; try done. by apply beside_routes.
Qed.

Lemma wp_comet_action act r h hy c req q action args :
  ready act r h hy c req q → harmless r hy c (rq_body q) → (rq_refcnt q < 2 ^ 31 - 2)%Z → args_ok args →
  numbers_left c →
  wp (comet_action h req action args)
     (λ _ r', handled_poll act r h hy c req q action (a_last_message args) r') r.
Proof.
  intros R Hb Hrc [_ Hack] Hnum. unfold comet_action. pose proof R as [R1 R2 R3 R4 R5 R6 R7].
  apply wp_bind. eapply wp_get_comet; [done..|]. apply wp_bind, wp_ANIMPL.
  { apply bool_decide_eq_true. intros Hcur. by apply (ready_ne _ _ _ _ _ _ _ _ R Hcur). }
  set (frees := action = ACT_GET ∨ action = ACT_BIDI ∨ action = ACT_CLOSE).
  apply wp_bind. eapply (wp_mono _ (λ _ r1, ∃ hy1 c1, ready act r1 h hy1 c1 req q ∧
    progress r r1 hy c hy1 c1 0 ∧ (frees → cur_request c1 = None))).
  { destruct (decide frees) as [Hf|Hf].
    - destruct (cur_request c) as [mreq|] eqn:Hcur.
      + eapply wp_mono; [by eapply (wp_empty_reply Hdate act)|]. intros _ r1 [Hok1 Hrep].
        destruct (ready_replied act r r1 h hy c req q mreq R Hcur Hok1 Hrep) as [? ?]. by do 2 eexists.
      + apply wp_ret. exists hy, c. split_and!; [done|apply progress_same|done].
    - apply wp_ret. exists hy, c. split_and!; [done|apply progress_same|done]. }
  intros _ r1 (hy1 & c1 & R' & P1 & Hfree). clear R1 R2 R3 R4 R5 R6 R7.
  pose proof (harmless_progress _ _ _ _ _ _ _ _ P1 Hb) as Hb1.
  assert (E1 : first_index c1 = first_index c ∧ size (c_queue c1) = size (c_queue c)).
  { destruct P1. split; lia. }
  destruct E1 as [E1 E2].
  apply wp_bind. eapply wp_mono; [eapply (ready_moved act r1 h hy1 c1 req q); [done|done|]|].
  { unfold numbers_left in *. by rewrite E1, E2. }
  intros moved r2 (-> & hy2 & c2 & R2 & Hcur & n & P2 & Hn). rewrite E1, E2 in *. unfold handled_poll.
  set (id := a_last_message args) in *.
  destruct (decide (action = ACT_CLOSE ∨ (first_index c + size (c_queue c) ≤ id)%Z)) as [Hclose|Hopen].
  - rewrite decide_True.
    2:{ destruct Hclose as [?|?]; [by right|left]. apply bool_decide_eq_false_2. lia. }
    eapply wp_mono; [eapply wp_close_request; [done|lia]|]. intros _ r' [Hok' Hreq]. done.
  - assert (Hlt : (id < first_index c + size (c_queue c))%Z) by (destruct (Z.lt_ge_cases id (first_index c + size (c_queue c))); [done|tauto]).
    rewrite bool_decide_eq_true_2 in Hn |- * by done. specialize (Hn eq_refl).
    rewrite decide_False by (intros [?|?]; [done|tauto]).
    pose proof (harmless_progress _ _ _ _ _ _ _ _ P2 Hb1) as Hb2.
    pose proof (progress_trans _ _ _ _ _ _ _ _ _ _ _ P1 P2) as P. simpl in P. rewrite Hn in P.
    apply wp_bind. eapply wp_mono; [eapply wp_post_body; [done|done|lia]|].
    intros posted r3 (hy3 & c3 & q3 & R3 & Hq3 & Hc3 & P3).
    assert (Hdone : ∀ r', is_Some (requests r' !! req) → full_ok act r' →
      (∃ hy' c', hybis r' !! h = Some hy' ∧ h_comet hy' = Some c' ∧ progress r3 r' hy3 c3 hy' c' 0) →
      is_Some (requests r' !! req) ∧ full_ok act r' ∧
      advanced r r' h hy c (rq_body q) (Z.to_nat (id - first_index c + 1))).
    { intros r' Hs Hok' (hy' & c' & Hh' & Hc' & P4). split_and!; [done..|]. intros Hpl.
      destruct P3 as [_ P3]; [by eapply plain_progress|]. exists hy', c'. split_and!; [done..|].
      pose proof (progress_trans _ _ _ _ _ _ _ _ _ _ _ (progress_trans _ _ _ _ _ _ _ _ _ _ _ P P3) P4) as P5.
      by rewrite !Nat.add_0_r in P5. }
    destruct posted.
    + eapply wp_mono; [apply (wp_serve_request act r3 h hy3 c3 req q3); [done|lia|]|].
      { intros Hg. rewrite Hc3, Hcur. apply Hfree. unfold frees. tauto. }
      intros ok r' (Hs & Hok' & Hp). by apply Hdone.
    + apply wp_ret. destruct R3 as [S1 S2 S3 S4 S5 S6 S7]. apply Hdone; [by eapply owned_some|done|].
      exists hy3, c3. split_and!; [done..|apply progress_same].
Qed.

(** What the handler relies on: the identifier does not name the cell that
    [sieve_get] reads past the table, the numbers of the session fit in an [int],
    and a body that is a command for the gateway finds room in its queue. *)
Record poll_ok r (q : request) : Prop := {
  po_cell : ∀ args, parse_uri (rq_uri q) r = Ok (Some args) r →
    le_value (take 8 (drop IID_LEN (a_uid args))) ≠ Z.of_nat (max (hsieve r));
  po_session : ∀ args h hy c, parse_uri (rq_uri q) r = Ok (Some args) r →
    hybis r !! h = Some hy → h_uid hy = a_uid args → h_comet hy = Some c →
    numbers_left c ∧ harmless r hy c (rq_body q);
  po_route : ∀ rid, rq_route q = Some rid → Forward rid ∈ dom (socks r);
  po_refs : (rq_refcnt q < 2 ^ 31 - 2)%Z;
}.

(** A request was handled: the connections that are open now were open before,
    but for the one that it may have opened. *)
Definition polled (act : gset nat) r (req : addr) (r' : root) : Prop :=
  ∃ act', full_ok act' r' ∧ is_Some (requests r' !! req) ∧
    ∃ new, act' ⊆ new ∪ act ∧ ∀ h, h ∈ new → h ∉ dom (hybis r).

Lemma polled_within act act' r req r' :
  full_ok act' r' → act' ⊆ act → is_Some (requests r' !! req) → polled act r req r'.
Proof. intros Hok Hs Hr. exists act'. split_and!; [done..|]. exists ∅. clear Hzmq Hdate Hws. set_solver. Qed.

Lemma polled_same act r req q : full_ok act r → owned r req q → polled act r req r.
Proof. intros Hok Ho. apply (polled_within act act); [done..|by eapply owned_some]. Qed.

Lemma wp_connect_request act r req q urandom :
  full_ok act r → owned r req q → poll_ok r q → random_ok urandom →
  wp (connect_request req urandom) (λ _ r', polled act r req r') r.
Proof.
  intros Hok Ho Hp Hur. pose proof Ho as [O1 O2 (rid & Hr & [rt Hrt]%elem_of_dom) O4 O5].
  unfold connect_request. apply wp_bind. eapply wp_get_request; [done|]. rewrite Hr. apply wp_bind, wp_ret.
  apply wp_bind. eapply wp_get_route; [done|].
  assert (Hconn : wp (comet_connect req urandom) (λ _ r', polled act r req r') r).
  { eapply wp_mono; [apply (wp_comet_connect Hdate Hzmq act r req q rid rt urandom); try done; by apply Hp|].
    intros [|] r' Hr'.
    - destruct Hr' as (h & rt' & Hok' & Hc & _). exists ({[h]} ∪ act). split; [done|].
      rewrite (cn_requests _ _ _ _ _ _ _ Hc). split; [by eapply owned_some|].
      exists {[h]}. split; [done|]. intros h' ->%elem_of_singleton. apply Hc.
    - destruct Hr' as (Hok' & _ & Erq & _). apply (polled_within act act); [done..|].
      rewrite Erq. by eapply owned_some. }
  destruct (rt_allow_origins rt) as [|o l]; [done|]. destruct (rq_origin q); [|done].
  case_decide; [done|]. by apply wp_ret, (polled_same act r req q).
Qed.

Lemma wp_comet_request act r req q urandom :
  full_ok act r → owned r req q → poll_ok r q → random_ok urandom →
  wp (comet_request req urandom) (λ _ r', polled act r req r') r.
Proof.
  intros Hok Ho Hp Hur. assert (Hsame : polled act r req r) by by eapply polled_same.
  unfold comet_request. apply wp_bind. eapply wp_get_request; [apply Ho|]. apply wp_bind.
  destruct (parse_uri_ok (rq_uri q) r) as [o Ho']. apply wp_parse_uri_at with o; [done|]. intros Hgood.
  destruct o as [args|]; [|by apply wp_ret]. destruct (Hgood args eq_refl) as [Hlen Hack].
  case_decide; [by apply (wp_connect_request act r req q)|].
  apply wp_bind. eapply wp_mono; [apply (wp_hybi_find act); [apply Hok|done|by apply Hp]|].
  intros [h|] r1 [-> Hf]; [|by apply wp_ret]. destruct (proj1 (Hf h) eq_refl) as [Ha Hu].
  destruct (open_hybi _ _ _ Hok Ha) as [hy Hh]. apply wp_bind. eapply wp_get_hybi; [done|].
  case_decide as Ht; [by apply wp_ret|]. assert (Ht' : h_type hy = HYBI_COMET) by by destruct (h_type hy).
  pose proof (cm_kind _ _ (fo_comets _ _ Hok) h hy Ha Hh) as Hk. rewrite Ht' in Hk. destruct Hk as [c Hc].
  rewrite Hh in Hu. injection Hu as Hu. destruct (po_session _ _ Hp args h hy c Ho' Hh Hu Hc) as [Hnum Hplain].
  lazymatch goal with |- wp (match ?a with _ => _ end) _ _ => destruct a as [action|] end; [|by apply wp_ret].
  case_decide.
  - pose proof Ho as [O1 O2 (rid & Hr & Hrt) O4 O5]. apply wp_bind, wp_write, wp_bind.
    eapply (wp_notes (header_of req)); [by apply (notes_set_headers Hdate _ req q rid)|].
    intros hs Hhs. rewrite noted_noted. apply wp_bind, wp_write. rewrite noted_noted. apply wp_ret.
    apply (polled_within act act); [|done|exact (owned_some _ _ _ Ho)].
    apply full_ok_noted; [done|]. repeat (apply Forall_app; split); try by repeat constructor.
    eapply Forall_impl; [exact Hhs|apply header_off_wire].
  - eapply wp_mono; [apply (wp_comet_action act r h hy c req q); try done; [|apply Hp]|].
    + split; try done. destruct Hplain as (rt & -> & _). by eexists.
    + intros ? r' [Hs Hr']. case_decide; [|destruct Hr' as [Hr' _]; by apply (polled_within act act)].
      apply (polled_within act (act ∖ {[h]})); [done| |done]. clear Hzmq Hdate Hws. set_solver.
Qed.
End handling.

(** ** The promise of a session

    Everything accepted for the session, and how many of those messages the
    browser has acknowledged. *)
Record log := mk_log { sent : list bytes; seen : nat }.

(** What happens to a session: a message for it, a request of its browser, and the
    idle callback that answers the request that waits. *)
Inductive poll_op :=
  | Deliver (msg : bytes)
  | Serve (q : request) (action : action_enum) (args : comet_args)
  | Collect.

(** [None]: the session is closed, because too many messages are unacknowledged,
    because a request acknowledges what was never sent, or because it says so. *)
Definition log_step (cap : Z) (l : log) (op : poll_op) : option log :=
  match op with
  | Deliver msg =>
      if decide (Z.of_nat (length (sent l) - seen l) < cap)%Z
      then Some (mk_log (sent l ++ [msg]) (seen l)) else None
  | Serve _ action args =>
      if decide (action = ACT_CLOSE ∨ (Z.of_nat (length (sent l)) < a_last_message args)%Z) then None
      else Some (mk_log (sent l) (Nat.max (seen l) (Z.to_nat (a_last_message args))))
  | Collect => Some l
  end.

Fixpoint log_run (cap : Z) (ops : list poll_op) (l : log) : option log :=
  match ops with
  | [] => Some l
  | op :: ops => l ← log_step cap l op; log_run cap ops l
  end.

(** The library has received a request of a browser. *)
Definition arrive (q : request) : MR addr :=
  r ← get;
  let req := fresh (dom (requests r)) in
  modify (λ r, r <| requests ::= <[req := q]> |>);;
  mret req.

Definition poll_step `{LogLevel, Malloc, Env} (h : addr) (op : poll_op) : MR unit :=
  match op with
  | Deliver msg => comet_send h msg;; mret tt
  | Serve q action args => req ← arrive q; comet_action h req action args;; mret tt
  | Collect => send_later h
  end.

(** The code, until the session is not in the table of connections any more, where
    requests and commands look it up. *)
Fixpoint poll_run `{LogLevel, Malloc, Env} (h : addr) (ops : list poll_op) : MR bool :=
  match ops with
  | [] => mret true
  | op :: ops =>
      poll_step h op;;
      r ← get;
      if decide (Some h ∈ items (hsieve r)) then poll_run h ops else mret false
  end.

(** The session of [h], which is on the route [rid] of [rts], is what the log says. *)
Record follows (r : root) (h : addr) (rts : gmap route_id route) (rid : route_id) (cap : Z) (l : log) : Prop := {
  fl_session : ∃ hy c, hybis r !! h = Some hy ∧ h_comet hy = Some c ∧ h_type hy = HYBI_COMET ∧
    h_route hy = rid ∧ routes r = rts ∧ capacity (c_queue c) = cap ∧
    first_index c = Z.of_nat (S (seen l)) ∧ backlog r c = drop (seen l) (sent l) ∧
    size (c_queue c) = Z.of_nat (length (sent l) - seen l);
  fl_seen : seen l ≤ length (sent l);
}.

(** A request for a session as the library passes it on; its body is not a command
    for the gateway. *)
Record visit_ok (rts : gmap route_id route) (rid : route_id) (q : request) (args : comet_args) : Prop := {
  vi_new : rq_hybi q = None ∧ rq_refcnt q = 1%Z ∧ Z.land (rq_flags q) REQ_IN_SIEVE = 0%Z;
  vi_route : ∃ rid', rq_route q = Some rid' ∧ rid' ∈ dom rts;
  vi_body : ∃ rt, rts !! rid = Some rt ∧ ¬ gateway_command rt (rq_body q);
  vi_args : args_ok args;
}.

Definition poll_op_ok (rts : gmap route_id route) (rid : route_id) (op : poll_op) : Prop :=
  match op with Serve q _ args => visit_ok rts rid q args | _ => True end.

Section promise.
Context `{LogLevel, Malloc, Env}.
Hypothesis Hdate : ∀ req, is_Some (http_date req).
Hypothesis Hzmq : zmq_laws.
Hypothesis Hws : message_laws.
Hypothesis Hclk : clock_ok.
Hypothesis Hmem : ∀ hp n, malloc_ok hp n = true.
Implicit Types (r : root).

Lemma wp_arrive act r q (Q : addr → root → Prop) :
  full_ok act r → rq_hybi q = None → rq_refcnt q = 1%Z → Z.land (rq_flags q) REQ_IN_SIEVE = 0%Z →
  (∃ rid, rq_route q = Some rid ∧ rid ∈ dom (routes r)) →
  (∀ req, let r' := r <| requests := <[req := q]> (requests r) |> in
    full_ok act r' → owned r' req q → Q req r') →
  wp (arrive q) Q r.
Proof.
  intros [Hsv Hcm] Hh Hrc Hfl Hrt HQ. unfold arrive. apply wp_bind, wp_get.
  set (req := fresh (dom (requests r))).
  assert (Hn : requests r !! req = None) by (apply not_elem_of_dom, is_fresh).
  apply wp_bind, wp_modify, wp_ret. destruct Hcm as [K1 K2 K3 K4 K5 K6 K7 K8].
  assert (Hne : ∀ b m q0, bmsgs r !! b = Some m → b_msg m = PRequest q0 → q0 ≠ req).
  { intros b m q0 Hb Hm ->. destruct (K8 b m req Hb Hm). congruence. }
  assert (Hp : preqs (bmsgs r) req = 0).
  { unfold preqs. apply map_size_empty_iff, map_eq. intros b. rewrite lookup_empty, map_lookup_filter.
    destruct (posted (bmsgs r) !! b) as [m|] eqn:Hb; [|done]. simpl. rewrite option_guard_False; [done|].
    simpl. intros Hm. apply map_lookup_filter_Some in Hb as [Hb _]. by eapply Hne. }
  apply HQ.
  - set (r' := r <| requests := _ |>). split.
    + apply (server_ok_beside act r r'); [done|]. split; try done. intros b m q0 Hb Hm. simpl.
      rewrite lookup_insert_ne; [done|]. intros <-. by destruct (Hne b m req Hb Hm).
    + split; try done; simpl.
      * intros h c q0 Ha Hc Hq0. destruct (K5 h c q0 Ha Hc Hq0) as (rq & Hrq & W). exists rq.
        rewrite lookup_insert_ne by congruence. split; [done|]. destruct W. by split.
      * intros q0 rq h. rewrite lookup_insert_Some. intros [[<- <-]|[_ Hq0]]; [congruence|by apply K6].
      * intros q0 rq. rewrite lookup_insert_Some. intros [[<- <-]|[_ Hq0]]; [|by apply K7].
        rewrite Hp, Hh, Hrc. simpl. lia.
      * intros b m q0 Hb Hm. rewrite lookup_insert_ne by (intros <-; by destruct (Hne b m req Hb Hm)). by eapply K8.
  - split; [apply lookup_insert_eq|done|done|done|]. simpl. rewrite Hp, Hrc. lia.
Qed.

(** What one step of the session leaves. *)
Lemma wp_poll_step act h rts rid cap op r l :
  full_ok act r → h ∈ act → follows r h rts rid cap l → poll_op_ok rts rid op →
  (Z.of_nat (length (sent l)) < 2 ^ 31 - 2)%Z →
  wp (poll_step h op) (λ _ r', match log_step cap l op with
    | Some l' => full_ok act r' ∧ follows r' h rts rid cap l' ∧ length (sent l') ≤ S (length (sent l))
    | None => full_ok (act ∖ {[h]}) r'
    end) r.
Proof.
  intros Hok Hact Hfl Hop Hlen. pose proof Hfl as [(hy & c & Hh & Hc & Ht & Er & Ert & F1 & F2 & F3 & F4) Hs].
  destruct op as [msg|q action args|]; cbn [poll_step log_step].
  - apply wp_bind. eapply wp_mono; [by apply (wp_comet_send Hdate Hzmq act r h hy c)|]. intros [|] r1 Hr1; apply wp_ret.
    + destruct Hr1 as (Hok1 & [Hb (c' & Eh & _ & _ & _ & G1 & G2 & G3 & G4 & _) _ _] & Hlt).
      rewrite decide_True by lia. split; [done|]. split; [|simpl; rewrite length_app; simpl; lia].
      split; simpl; [|rewrite length_app; simpl; lia].
      exists (hy <| h_comet := Some c' |>), c'.
      rewrite Eh, lookup_insert_eq, G1, G2, G3, G4, F1, F2, F3, F4, length_app, (beside_routes r r1 Hb).
      split_and!; try done; [by rewrite drop_app_le|simpl; lia].
    + destruct Hr1 as (Hok1 & _ & [Hfull|(hp & n & Hm)] & _); [|by rewrite Hmem in Hm].
      by rewrite decide_False by lia.
  - destruct Hop as [(V1 & V2 & V3) V4 (rt & Hrt & Hpl) V5]. apply wp_bind.
    apply (wp_arrive act); [done..|by rewrite Ert|]. intros req. cbn zeta. set (r0 := r <| requests := _ |>). intros Hok0 Ho.
    apply wp_bind. eapply wp_mono; [apply (wp_comet_action Hdate Hzmq Hws Hclk act r0 h hy c req q)|].
    + split; try done. simpl. rewrite Ert, Er. by eexists.
    + exists rt. simpl. rewrite Ert, Er. split; [done|by left].
    + lia.
    + done.
    + unfold numbers_left. lia.
    + intros ? r1 [_ Hr1]. apply wp_ret. rewrite F2, F4 in Hr1.
      destruct (decide (action = ACT_CLOSE ∨ (Z.of_nat (length (sent l)) < a_last_message args)%Z)) as [Hc1|Hc1].
      { rewrite decide_True in Hr1; [done|]. destruct Hc1; [by left|right; lia]. }
      rewrite decide_False in Hr1 by (intros [?|?]; apply Hc1; [by left|right; lia]).
      destruct Hr1 as [Hok1 Hadv]. split; [done|]. split; [|simpl; lia].
      destruct Hadv as (hy' & c' & Hh' & Hc' & [[G1 G2] G3 G4 G5 G6 G7]).
      { exists rt. simpl. by rewrite Ert, Er. }
      split; simpl; [|lia]. exists hy', c'. simpl in G7. change (backlog r0 c) with (backlog r c) in G4.
      rewrite G1, G2, G3, G4, G5, G6, G7, F1, F2, F3, F4, drop_drop.
      split_and!; try done; [lia|f_equal; lia|lia].
  - eapply wp_mono; [by apply (wp_send_later Hdate act r h hy c)|].
    intros _ r1 [Hok1 [Hb (c' & Eh & G1 & G2 & _) G4 _]]. split; [done|]. split; [|lia].
    split; [|done]. exists (hy <| h_comet := Some c' |>), c'.
    rewrite Eh, lookup_insert_eq, G1, G2, (beside_routes r r1 Hb). split_and!; try done. unfold backlog. by rewrite G1, G4.
Qed.

(** The table holds the open connections. *)
Lemma in_table act r h : full_ok act r → Some h ∈ items (hsieve r) ↔ h ∈ act.
Proof.
  intros Hok. split.
  - intros [i Hi]%list_elem_of_lookup. by eapply cell_open.
  - intros [i Hi]%(open_cell act r); [|done]. by apply list_elem_of_lookup_2 in Hi.
Qed.

Lemma wp_poll_run act h rts rid cap : ∀ ops r l,
  full_ok act r → h ∈ act → follows r h rts rid cap l → Forall (poll_op_ok rts rid) ops →
  (Z.of_nat (length (sent l) + length ops) < 2 ^ 31 - 2)%Z →
  wp (poll_run h ops) (λ alive r', match log_run cap ops l with
    | Some l' => alive = true ∧ full_ok act r' ∧ follows r' h rts rid cap l'
    | None => alive = false ∧ full_ok (act ∖ {[h]}) r'
    end) r.
Proof.
  induction ops as [|op ops IH]; intros r l Hok Hact Hfl Hops Hlen; [by apply wp_ret|].
  apply Forall_cons in Hops as [Hop Hops]. cbn [poll_run log_run length] in *. apply wp_bind.
  eapply wp_mono; [apply (wp_poll_step act h rts rid cap op r l); [done..|lia]|].
  intros ? r1 Hr1. apply wp_bind, wp_get. destruct (log_step cap l op) as [l'|].
  - destruct Hr1 as (Hok1 & Hfl1 & Hle). rewrite decide_True by by apply (in_table act). cbn.
    apply IH; [done..|lia].
  - rewrite decide_False; [by apply wp_ret|]. rewrite (in_table (act ∖ {[h]})) by done. clear -Hact. set_solver.
Qed.
End promise.

(** ** Properties *)

(** The example server with a session and a request of its browser. *)
Definition example_get : request :=
  (plain_request "GET" "/?limit=1" "" 0)
    <| rq_uri := str "/?outfmt=jsonlist&limit=1&id=" ++ @uid_text example_digest example_uid |>.

Definition example_poll : root := example_session <| requests ::= <[1 := example_get]> |>.

Lemma example_poll_ok : full_ok {[0]} example_poll.
Proof.
  apply (full_ok_request {[0]} example_session 1 (plain_request "GET" "/?limit=1" "" 0));
    [apply example_session_ok|vm_compute; reflexivity|done..].
Qed.

Lemma example_poll_owned :
  let MM : Malloc := λ _ _, true in ∃ q, owned example_poll 1 q ∧ @poll_ok MM example_digest example_poll q.
Proof.
  intros MM. destruct (requests example_poll !! 1) as [q|] eqn:Hq; [|vm_compute in Hq; discriminate]. exists q.
  assert (Hq' := Hq). vm_compute in Hq'. injection Hq' as Hq'. split.
  - split; [done|by subst q| |by subst q|subst q; vm_compute; reflexivity].
    exists 0. split; [by subst q|]. apply (bool_decide_unpack _). vm_compute. exact I.
  - split; [| | |by subst q].
    + intros args Hargs. subst q. vm_compute in Hargs. injection Hargs as <-. vm_compute. discriminate.
    + intros args h hy c _ Hh _ Hc. assert (Hd : h ∈ dom (hybis example_poll)) by (apply elem_of_dom; by eexists).
      assert (E : dom (hybis example_poll) = {[0]}) by (apply (bool_decide_unpack _); vm_compute; exact I).
      rewrite E in Hd. apply elem_of_singleton in Hd as ->. vm_compute in Hh. injection Hh as <-.
      simpl in Hc. injection Hc as <-. split; [vm_compute; reflexivity|].
      eexists. split; [vm_compute; reflexivity|]. left. intros (_ & Hl & _). subst q. vm_compute in Hl. lia.
    + intros rid Hr. subst q. injection Hr as <-. apply (bool_decide_unpack _). vm_compute. exact I.
Qed.

Lemma example_clock_ok : @clock_ok example_env.
Proof. intros tr. vm_compute. lia. Qed.

Definition example_device : random_device := random_of (replicate 8 "r"%char).

(** C2: a polling request, well-formed or not, is handled to the end: nothing freed
    is touched and no assertion fails, the server stays consistent with every
    other connection open, and the request itself is still there for the callback
    of the library that releases it.  This is under the conditions of [poll_ok]:
    its identifier does not name the cell one past the table (which [sieve_get]
    reads out of bounds), its session is numbered below 2^31, and a body that is a
    "ZEROGW:" command for the gateway finds room for the answer in the queue of its
    session, and memory ([echo_on_full_session] shows what happens otherwise); and
    as long as /dev/urandom can be read for a CONNECT and there is memory for a
    command's answer, whose time has at most 15 characters. *)
Theorem comet_request_safe `{LogLevel, Malloc, Env, Digest} (act : gset nat) (r : root) (req : addr)
    (q : request) (urandom : random_device) (Hdate : ∀ req, is_Some (http_date req)) (Hzmq : zmq_laws)
    (Hws : message_laws) (Hclk : clock_ok)
    (Hok : full_ok act r) (Ho : owned r req q) (Hp : poll_ok r q) (Hur : random_ok urandom) :
  ∃ ok r', comet_request req urandom r = Ok ok r' ∧ polled act r req r'.
Proof. by apply wp_Ok, (wp_comet_request Hdate Hzmq Hws Hclk act r req q urandom). Qed.

Lemma comet_request_safe_witness :
  let LL : LogLevel := 0%Z in let MM : Malloc := λ _ _, true in
  ∃ r', @comet_request LL MM example_env example_digest 1 example_device example_poll = Ok true r' ∧
    cur_request <$> comet_of r' 0 = Some (Some 1).
Proof.
  intros LL MM. destruct example_poll_owned as (q & Ho & Hp).
  destruct (@comet_request_safe LL MM example_env example_digest {[0]} example_poll 1 q example_device)
    as (ok & r' & Hrun & _); [by eexists|apply example_laws|apply example_message_laws|apply example_clock_ok|
    apply example_poll_ok|done|done|by apply random_of_ok|].
  exists r'. destruct ok; [|vm_compute in Hrun; discriminate]. split; [exact Hrun|].
  vm_compute in Hrun. injection Hrun as <-. vm_compute. reflexivity.
Defined.

(** The example environment with a backend that takes every message at once. *)
Definition accepting_env : Env := {|
  zmq_send_res := λ _ _ _ _, Sent; ws_send_res := λ _ _ _, WsOk; zmq_writable := λ _ _, true;
  time_text := λ _ _, []; wait_text := λ _ _, []; http_date := @http_date example_env; retries := 3;
  sizeof_hybi := 160; sizeof_comet := 200;
  message_malloc := λ _, true; message_init_fails := λ _, false; message_text := λ _, true;
  backlog_malloc := limited_malloc; backlog_limit := limited_malloc_limit;
|}.

Lemma accepting_laws : zmq_laws (H := accepting_env).
Proof. split; try done. intros tr s p. exists 0. split; [simpl; lia|done]. Qed.

(** A session connects, its queue fills up, and a request that would wait asks for
    an echo: the echo closes the session, which the handler then goes on using. *)
Theorem echo_on_full_session :
  let LL : LogLevel := 0%Z in let MM : Malloc := λ _ _, true in let EE := accepting_env in
  let echo := example_get <| rq_body := str "ZEROGW:echo" |> in
  match (@comet_connect LL MM EE example_digest 0 example_device;;
         @poll_run LL MM EE 0 (replicate 100 (Deliver (str "a")));;
         modify (λ r, r <| requests ::= <[1 := echo]> |>)) example_visit with
  | Ok _ r => @comet_request LL MM EE example_digest 1 example_device r
  | _ => NoFuel
  end = Faulted UseAfterFree.
Proof. vm_compute. reflexivity. Qed.

(** The request waits, and two messages have arrived since. *)
Definition example_waiting : root :=
  let LL : LogLevel := 0%Z in let MM : Malloc := λ _ _, true in
  match @comet_request LL MM example_env example_digest 1 example_device example_poll with
  | Ok _ r => r
  | _ => example_poll
  end.

Definition example_pending : root :=
  let LL : LogLevel := 0%Z in let MM : Malloc := λ _ _, true in
  match @poll_run LL MM example_env 0 [Deliver (str "a"); Deliver (str "b")] example_waiting with
  | Ok _ r => r
  | _ => example_waiting
  end.

(** The open connections are those in the table. *)
Lemma only_open act r : full_ok act r → holes (hsieve r) = {[0 := 0]} → act = {[0]}.
Proof.
  intros [Hsv _] E. apply set_eq. intros h. rewrite (sv_act _ _ (sr_sieve _ _ Hsv)), E. split.
  - intros [i [_ <-]%lookup_singleton_Some]. by apply elem_of_singleton.
  - intros ->%elem_of_singleton. exists 0. apply lookup_singleton_eq.
Qed.

Lemma example_waiting_ok : full_ok {[0]} example_waiting.
Proof.
  set (LL := 0%Z : LogLevel). set (MM := (λ _ _, true) : Malloc).
  destruct example_poll_owned as (q & Ho & Hp).
  destruct (proj1 (wp_Ok _ _ _) (@wp_comet_request LL MM example_env example_digest ltac:(by eexists)
    example_laws example_message_laws example_clock_ok {[0]} example_poll 1 q example_device example_poll_ok Ho Hp
    ltac:(by apply random_of_ok)))
    as (ok & r' & Hrun & act' & Hok & _).
  unfold example_waiting, LL, MM in *. rewrite Hrun. rewrite <- (only_open act' r' Hok); [done|].
  vm_compute in Hrun. injection Hrun as _ <-. apply (bool_decide_unpack _). vm_compute. exact I.
Qed.

(** The routes of the example server. *)
Definition example_routes : gmap route_id route := routes example_waiting.

Lemma example_follows : follows example_waiting 0 example_routes 0 100 (mk_log [] 0).
Proof. split; [|done]. vm_compute. do 2 eexists. repeat split. Qed.

(** A request of the browser that acknowledges up to [id]. *)
Definition example_ack (id : Z) : poll_op :=
  Serve (plain_request "POST" "/" "" 0) ACT_POST
    (mk_args ACT_POST example_uid id None FMT_SINGLE FMT_SINGLE (-1)).

Lemma example_ack_ok id : (0 ≤ id < 2 ^ 64)%Z → poll_op_ok example_routes 0 (example_ack id).
Proof.
  intros Hid. split; [done| | |split; [vm_compute; reflexivity|done]].
  - exists 0. split; [done|]. apply (bool_decide_unpack _). vm_compute. exact I.
  - eexists. split; [vm_compute; reflexivity|]. intros (_ & Hl & _). simpl in Hl. lia.
Qed.

Lemma example_pending_ok : full_ok {[0]} example_pending.
Proof.
  set (LL := 0%Z : LogLevel). set (MM := (λ _ _, true) : Malloc).
  destruct (proj1 (wp_Ok _ _ _) (@wp_poll_run LL MM example_env ltac:(by eexists) example_laws example_message_laws example_clock_ok (λ _ _, eq_refl)
    {[0]} 0 example_routes 0 100 [Deliver (str "a"); Deliver (str "b")] example_waiting (mk_log [] 0) example_waiting_ok
    ltac:(set_solver) example_follows ltac:(repeat (apply Forall_cons_2; [first [exact I|by apply example_ack_ok]|]); by apply Forall_nil_2) ltac:(vm_compute; reflexivity)))
    as (alive & r' & Hrun & Hr').
  unfold example_pending, LL, MM in *. rewrite Hrun. apply Hr'.
Qed.

(** C13: a session keeps its promise.  Over any sequence of messages for it,
    requests of its browser (of any action, with any acknowledgement) and idle
    callbacks, the queue holds what was accepted and not yet acknowledged, in
    order, and the numbers follow the messages; acknowledging again changes
    nothing; and the session is closed exactly by the first message for which the
    limit of unacknowledged messages leaves no room, by the first request that
    acknowledges a message that was never sent, or by one that asks for it.  This
    is as long as memory lasts ([Hmem], [message_laws]), fewer than 2^31 - 2
    messages are accepted, and the bodies are not commands for the gateway. *)
Theorem polling_refines `{LogLevel, Malloc, Env} (act : gset nat) (r : root) (h : addr)
    (rts : gmap route_id route) (rid : route_id) (cap : Z) (ops : list poll_op) (l : log)
    (Hdate : ∀ req, is_Some (http_date req)) (Hzmq : zmq_laws) (Hws : message_laws) (Hclk : clock_ok)
    (Hmem : ∀ hp n, malloc_ok hp n = true) (Hok : full_ok act r) (Hact : h ∈ act)
    (Hfl : follows r h rts rid cap l) (Hops : Forall (poll_op_ok rts rid) ops)
    (Hlen : (Z.of_nat (length (sent l) + length ops) < 2 ^ 31 - 2)%Z) :
  ∃ alive r', poll_run h ops r = Ok alive r' ∧
    match log_run cap ops l with
    | Some l' => alive = true ∧ full_ok act r' ∧ follows r' h rts rid cap l'
    | None => alive = false ∧ full_ok (act ∖ {[h]}) r'
    end.
Proof. by apply wp_Ok, (wp_poll_run Hdate Hzmq Hws Hclk Hmem). Qed.

Lemma polling_refines_witness :
  let LL : LogLevel := 0%Z in let MM : Malloc := λ _ _, true in let EE := example_env in
  let ops := [Deliver (str "a"); Deliver (str "b"); example_ack 1; Collect; Deliver (str "c"); example_ack 1] in
  (∃ r', poll_run 0 ops example_waiting = Ok true r' ∧ session_of r' 0 = Some (2%Z, [str "b"; str "c"])) ∧
  ∃ r', poll_run 0 (ops ++ [example_ack 4; Collect]) example_waiting = Ok false r' ∧ holes (hsieve r') = ∅.
Proof.
  intros LL MM EE ops. split.
  - destruct (@polling_refines LL MM EE {[0]} example_waiting 0 example_routes 0 100 ops (mk_log [] 0))
      as (alive & r' & Hrun & _); [by eexists|apply example_laws|apply example_message_laws|apply example_clock_ok|
      done|apply example_waiting_ok|set_solver|apply example_follows| |vm_compute; reflexivity|].
    + repeat (apply Forall_cons_2; [first [exact I|by apply example_ack_ok]|]). by apply Forall_nil_2.
    + exists r'. vm_compute in Hrun. injection Hrun as <- <-. split; vm_compute; reflexivity.
  - destruct (@polling_refines LL MM EE {[0]} example_waiting 0 example_routes 0 100
      (ops ++ [example_ack 4; Collect]) (mk_log [] 0))
      as (alive & r' & Hrun & _); [by eexists|apply example_laws|apply example_message_laws|apply example_clock_ok|
      done|apply example_waiting_ok|set_solver|apply example_follows| |vm_compute; reflexivity|].
    + repeat (apply Forall_cons_2; [first [exact I|by apply example_ack_ok]|]). by apply Forall_nil_2.
    + exists r'. vm_compute in Hrun. injection Hrun as <- <-. split; vm_compute; reflexivity.
Defined.

(** the idle callback answers the request that waits with the queued messages,
    oldest first, as many as the request asked for, under headers that number
    them, and lets go of the request; without a request or without messages
    nothing is sent.  The queue stays as it is until it is acknowledged. *)
Theorem send_later_correct `{LogLevel, Malloc, Env} (act : gset nat) (r : root) (h : addr) (hy : hybi)
    (c : comet) (Hdate : ∀ req, is_Some (http_date req)) (Hok : full_ok act r) (Hact : h ∈ act)
    (Hh : hybis r !! h = Some hy) (Hc : h_comet hy = Some c) :
  ∃ r', send_later h r = Ok tt r' ∧ full_ok act r' ∧ collected r r' h hy c.
Proof.
  destruct (proj1 (wp_Ok _ _ _) (wp_send_later Hdate act r h hy c Hok Hact Hh Hc)) as ([] & r' & ? & ?).
  by exists r'.
Qed.

Lemma send_later_correct_witness :
  let LL : LogLevel := 0%Z in let MM : Malloc := λ _ _, true in let EE := example_env in
  ∃ r', send_later 0 example_pending = Ok tt r' ∧
    last (trace r') = Some (ReqReply 1 (str "[a]")) ∧ session_of r' 0 = Some (1%Z, [str "a"; str "b"]) ∧
    rq_refcnt <$> requests r' !! 1 = Some 1%Z.
Proof.
  intros LL MM EE. destruct (hybis example_pending !! 0) as [hy|] eqn:Hh; [|vm_compute in Hh; discriminate].
  destruct (h_comet hy) as [c|] eqn:Hc; [|vm_compute in Hh; injection Hh as <-; discriminate].
  destruct (@send_later_correct LL MM EE {[0]} example_pending 0 hy c)
    as (r' & Hrun & _); [by eexists|apply example_pending_ok|set_solver|done|done|].
  exists r'. split; [exact Hrun|]. vm_compute in Hrun. injection Hrun as <-. split_and!; vm_compute; reflexivity.
Defined.

(** A request that limits how many messages it takes is told the number of the
    last message in the queue, not of the last one that it was sent: a browser
    that acknowledges that number, as it is meant to, never gets the messages
    in between. *)
Theorem limited_reply_skips `{LogLevel, Malloc, Env} (act : gset nat) (r : root) (h : addr) (hy : hybi)
    (c : comet) (req : addr) (Hdate : ∀ req, is_Some (http_date req)) (Hok : full_ok act r) (Hact : h ∈ act)
    (Hh : hybis r !! h = Some hy) (Hc : h_comet hy = Some c) (Hcur : cur_request c = Some req)
    (Hfmt : cur_format c = FMT_JSONLIST) (Hlim : (0 < cur_limit c < size (c_queue c))%Z)
    (Hnum : numbers_left c) :
  let last_id := (first_index c + size (c_queue c) - 1)%Z in
  ∃ r1 r2, send_later h r = Ok tt r1 ∧ ReqHeader req (str "X-Last-ID") (print_int last_id) ∈ trace r1 ∧
    ReqReply req ("["%char :: commas (json_item <$> take (Z.to_nat (cur_limit c)) (backlog r c)) ++ ["]"%char])
      ∈ trace r1 ∧
    move_queue h last_id r1 = Ok true r2 ∧ session_of r2 h = Some ((last_id + 1)%Z, []).
Proof.
  intros last_id. assert (Hco : comet_of r h = Some c) by (unfold comet_of; by rewrite Hh).
  destruct (cm_comet _ _ (fo_comets _ _ Hok) h c Hact Hco) as [C1 C2 C3]. unfold numbers_left in Hnum.
  destruct (proj1 (wp_Ok _ _ _) (wp_send_later Hdate act r h hy c Hok Hact Hh Hc)) as ([] & r1 & Hrun & Hok1 & Hcol).
  pose proof Hcol as [_ (c1 & Eh & Q1 & Q2 & _) Efm Htr]. rewrite Hcur, decide_False in Htr by lia.
  destruct Htr as (hs & tl & _ & _ & Etr).
  assert (Hh1 : hybis r1 !! h = Some (hy <| h_comet := Some c1 |>)) by by rewrite Eh, lookup_insert_eq.
  destruct (proj1 (wp_Ok _ _ _) (wp_move_queue Hdate act r1 h _ c1 last_id Hok1 Hact Hh1 eq_refl
    ltac:(unfold last_id; lia) ltac:(rewrite Q1, Q2; lia))) as (ok & r2 & Hrun2 & Hr2).
  rewrite Q1, Q2, decide_False, decide_True in Hr2 by (unfold last_id; lia).
  destruct Hr2 as (-> & _ & [_ (c2 & Eh2 & _ & G2 & G3 & _) _ _]).
  exists r1, r2. split; [done|]. split; [|split; [|split; [done|]]].
  - rewrite Etr. apply elem_of_app. right. apply elem_of_app. left. unfold answer, reply_head. rewrite Hfmt.
    rewrite i32_small by lia. right. apply elem_of_app. left. csimpl. right. by left.
  - rewrite Etr. apply elem_of_app. right. apply elem_of_app. left. unfold answer, reply_body, batch.
    rewrite Hfmt, decide_True by lia. right. apply elem_of_app. right. apply elem_of_app. right. by left.
  - unfold session_of, comet_of. rewrite Eh2, lookup_insert_eq. simpl. rewrite G2, G3, Q2. f_equal. f_equal.
    + unfold last_id. lia.
    + apply drop_ge. assert (Hco1 : comet_of r1 h = Some c1) by (unfold comet_of; by rewrite Hh1).
      destruct (backlog_items act r1 h c1 (fo_comets _ _ Hok1) Hact Hco1) as [-> _].
      rewrite Q1. unfold last_id. lia.
Qed.

Lemma limited_reply_skips_witness :
  let LL : LogLevel := 0%Z in let MM : Malloc := λ _ _, true in let EE := example_env in
  ∃ r1 r2, send_later 0 example_pending = Ok tt r1 ∧
    ReqHeader 1 (str "X-Last-ID") (str "2") ∈ trace r1 ∧ ReqReply 1 (str "[a]") ∈ trace r1 ∧
    move_queue 0 2 r1 = Ok true r2 ∧ session_of r2 0 = Some (3%Z, []).
Proof.
  intros LL MM EE. destruct (hybis example_pending !! 0) as [hy|] eqn:Hh; [|vm_compute in Hh; discriminate].
  destruct (h_comet hy) as [c|] eqn:Hc; [|vm_compute in Hh; injection Hh as <-; discriminate].
  assert (Hc' : c = default c (comet_of example_pending 0)).
  { unfold comet_of. rewrite Hh. cbn. rewrite Hc. reflexivity. }
  vm_compute in Hc'.
  destruct (@limited_reply_skips LL MM EE {[0]} example_pending 0 hy c 1)
    as (r1 & r2 & Hrun & H1 & H2 & Hrun2 & H3);
    [by eexists|apply example_pending_ok|set_solver|exact Hh|exact Hc|subst c; reflexivity|subst c; reflexivity|
     subst c; split; reflexivity|subst c; vm_compute; reflexivity|].
  rewrite Hc' in *. exists r1, r2. split_and!; [exact Hrun|exact H1|exact H2|exact Hrun2|exact H3].
Defined.

(** When the browser gives up a request that waits, only one of the two
    references to it is dropped, the one of the session; the library's is not,
    as its callback has run by then.  The request is never released and keeps
    pointing to the connection. *)
Theorem aborted_request_leaks `{LogLevel, Malloc, Env} (act : gset nat) (r : root) (h : addr) (hy : hybi)
    (c : comet) (req : addr) (q : request) (Hok : full_ok act r) (Hact : h ∈ act)
    (Hh : hybis r !! h = Some hy) (Hc : h_comet hy = Some c) (Hcur : cur_request c = Some req)
    (Hq : requests r !! req = Some q) (Hrc : (1 < rq_refcnt q)%Z) :
  ∃ r' q', comet_request_sent req r = Ok tt r' ∧ requests r' !! req = Some q' ∧
    rq_refcnt q' = (rq_refcnt q - 1)%Z ∧ rq_hybi q' = Some h ∧
    cur_request <$> comet_of r' h = Some None ∧ trace r' = trace r.
Proof.
  assert (Hco : comet_of r h = Some c) by (unfold comet_of; by rewrite Hh).
  pose proof (flags_keep_sieve act r h c req q (fo_comets _ _ Hok) Hact Hco Hcur Hq) as [W1 _ W3].
  destruct (cm_refs _ _ (fo_comets _ _ Hok) req q Hq) as [_ Hmax].
  assert (Hw : wp (comet_request_sent req) (λ _ r', ∃ q', requests r' !! req = Some q' ∧
    rq_refcnt q' = (rq_refcnt q - 1)%Z ∧ rq_hybi q' = Some h ∧
    cur_request <$> comet_of r' h = Some None ∧ trace r' = trace r) r).
  2:{ apply wp_Ok in Hw as ([] & r' & Hrun & q' & ?). by exists r', q'. }
  unfold comet_request_sent. apply wp_bind. eapply wp_get_request; [done|]. rewrite W1.
  unfold comet_request_aborted. apply wp_bind. eapply wp_get_request; [done|]. rewrite W1. apply wp_bind, wp_ret.
  apply wp_bind. eapply wp_get_comet; [done..|]. apply wp_bind, wp_count. cbn beta.
  apply wp_bind, wp_ANIMPL; [by apply bool_decide_eq_true|].
  apply wp_bind. eapply wp_set_request; [done|]. cbn beta. apply wp_bind. eapply wp_set_comet; [done..|].
  apply wp_bind. eapply wp_REQ_DECREF; [apply lookup_insert_eq|simpl; lia|done| |simpl; lia].
  intros _. eapply wp_set_comet; [apply lookup_insert_eq|done|]. eexists.
  split; [apply lookup_insert_eq|]. split; [done|]. split; [done|]. split; [|done].
  unfold comet_of. simpl. by rewrite lookup_insert_eq.
Qed.

Lemma aborted_request_leaks_witness :
  let LL : LogLevel := 0%Z in let MM : Malloc := λ _ _, true in let EE := example_env in
  ∃ r', comet_request_sent 1 example_waiting = Ok tt r' ∧ rq_refcnt <$> requests r' !! 1 = Some 1%Z ∧
    rq_hybi <$> requests r' !! 1 = Some (Some 0) ∧ cur_request <$> comet_of r' 0 = Some None.
Proof.
  intros LL MM EE. destruct (hybis example_waiting !! 0) as [hy|] eqn:Hh; [|vm_compute in Hh; discriminate].
  destruct (h_comet hy) as [c|] eqn:Hc; [|vm_compute in Hh; injection Hh as <-; discriminate].
  destruct (requests example_waiting !! 1) as [q|] eqn:Hq; [|vm_compute in Hq; discriminate].
  assert (Hq' : q = default q (requests example_waiting !! 1)) by (rewrite Hq; reflexivity).
  assert (Hc' : c = default c (comet_of example_waiting 0)).
  { unfold comet_of. rewrite Hh. cbn. rewrite Hc. reflexivity. }
  vm_compute in Hc'. vm_compute in Hq'.
  destruct (@aborted_request_leaks LL MM EE {[0]} example_waiting 0 hy c 1 q)
    as (r' & q' & Hrun & H1 & H2 & H3 & H4 & _);
    [apply example_waiting_ok|set_solver|exact Hh|exact Hc|subst c; reflexivity|exact Hq|subst q; reflexivity|].
  exists r'. split; [exact Hrun|]. rewrite H1. cbn. rewrite H2, H3. split; [by subst q|]. split; [reflexivity|exact H4].
Defined.

(** The idle callback starts the timer of an idle session even when the request
    still waits, because what it was woken for has been acknowledged by another
    request in between.  When that timer fires, the assertion that nobody waits
    ends the process. *)
Theorem idle_with_request_aborts `{LogLevel, Malloc, Env} (act : gset nat) (r : root) (h : addr) (hy : hybi)
    (c : comet) (req : addr) (Hdate : ∀ req, is_Some (http_date req)) (Hok : full_ok act r) (Hact : h ∈ act)
    (Hh : hybis r !! h = Some hy) (Hc : h_comet hy = Some c) (Hcur : cur_request c = Some req)
    (Hempty : size (c_queue c) = 0%Z) (Hlog : (LOG_ALERT ≤ LOGLEVEL)%Z) :
  ∃ r', send_later h r = Ok tt r' ∧ inactivity_active <$> comet_of r' h = Some true ∧
    inactivity_timeout h r' = Aborted.
Proof.
  assert (Hco : comet_of r h = Some c) by (unfold comet_of; by rewrite Hh).
  destruct (cm_comet _ _ (fo_comets _ _ Hok) h c Hact Hco) as [C1 C2 C3].
  set (c1 := c <| sendlater_active := false |> <| inactivity_active := true |>).
  set (r' := r <| hybis := <[h := hy <| h_comet := Some c1 |>]> (hybis r) |>).
  assert (Hw : wp (send_later h) (λ _ r0, r0 = r') r).
  { unfold send_later. apply wp_bind. eapply wp_get_comet; [done..|]. apply wp_bind, wp_ANIMPL; [by rewrite C3|].
    rewrite Hcur, Hempty. cbn [Z.eqb negb whenb]. apply wp_bind, wp_ret, wp_bind. eapply wp_set_comet; [done..|].
    eapply wp_set_comet; [apply lookup_insert_eq|done|]. by rewrite hybis_twice. }
  apply wp_Ok in Hw as ([] & r0 & Hrun & ->). exists r'. split; [done|].
  assert (Hh' : hybis r' !! h = Some (hy <| h_comet := Some c1 |>)) by apply lookup_insert_eq.
  split; [unfold comet_of; by rewrite Hh'|].
  unfold inactivity_timeout, free_comet, set_comet, get_comet, get_hybi, count, deref, mbind, M_bind, get, modify.
  rewrite Hh'. cbn. rewrite lookup_insert_eq. cbn. unfold ANIMPL. rewrite Hcur.
  by rewrite (proj2 (Z.leb_le _ _) Hlog).
Qed.

(** A message came and was acknowledged before the idle callback ran. *)
Definition example_idle : root :=
  let LL : LogLevel := 0%Z in let MM : Malloc := λ _ _, true in
  match @poll_run LL MM example_env 0 [Deliver (str "a"); example_ack 1] example_waiting with
  | Ok _ r => r
  | _ => example_waiting
  end.

Lemma example_idle_ok : full_ok {[0]} example_idle.
Proof.
  set (LL := 0%Z : LogLevel). set (MM := (λ _ _, true) : Malloc).
  destruct (proj1 (wp_Ok _ _ _) (@wp_poll_run LL MM example_env ltac:(by eexists) example_laws example_message_laws example_clock_ok (λ _ _, eq_refl)
    {[0]} 0 example_routes 0 100 [Deliver (str "a"); example_ack 1] example_waiting (mk_log [] 0) example_waiting_ok
    ltac:(set_solver) example_follows ltac:(repeat (apply Forall_cons_2; [first [exact I|by apply example_ack_ok]|]); by apply Forall_nil_2) ltac:(vm_compute; reflexivity)))
    as (alive & r' & Hrun & Hr').
  unfold example_idle, LL, MM in *. rewrite Hrun. apply Hr'.
Qed.

Lemma idle_with_request_aborts_witness :
  let LL : LogLevel := 7%Z in let MM : Malloc := λ _ _, true in let EE := example_env in
  sendlater_active <$> comet_of example_idle 0 = Some true ∧
  ∃ r', send_later 0 example_idle = Ok tt r' ∧ inactivity_timeout 0 r' = Aborted.
Proof.
  intros LL MM EE. split; [vm_compute; reflexivity|].
  destruct (hybis example_idle !! 0) as [hy|] eqn:Hh; [|vm_compute in Hh; discriminate].
  destruct (h_comet hy) as [c|] eqn:Hc; [|vm_compute in Hh; injection Hh as <-; discriminate].
  assert (Hc' : c = default c (comet_of example_idle 0)).
  { unfold comet_of. rewrite Hh. cbn. rewrite Hc. reflexivity. }
  vm_compute in Hc'.
  destruct (@idle_with_request_aborts LL MM EE {[0]} example_idle 0 hy c 1) as (r' & Hrun & _ & Habort);
    [by eexists|apply example_idle_ok|set_solver|exact Hh|exact Hc|subst c; reflexivity|
     subst c; reflexivity|vm_compute; discriminate|].
  exists r'. split; [exact Hrun|exact Habort].
Defined.
