(* ===== verification/Control.v ===== *)
(** * The control socket (commands.c, reopenlogs of log.c)

    Another program sends commands: to pause and resume the browsers, to have the
    backends told who is connected, to open the log files again.  A command comes
    behind an envelope, which goes in front of the reply. *)

From S2P Require Import Prelude Sieve Pool MsgQueue Uidgen Links State Topics Backend Outputs Hybi.
From S2P Require Import CometArgs Request Comet Session Frontend Publish Inbound Commands Polling.

(** ** Operations *)

(** The name of the log file, if one is configured, and what [open] gives. *)
Class LogFile := {
  log_filename : option bytes;
  open_log : list event → bytes → Z;
}.

Section operations.
Context `{LogLevel, Malloc, Env, LogFile}.

(** The standard streams follow the new file.
    src/src/log.c:132-153 [reopenlogs] *)
Definition reopenlogs : MR bool :=
  match log_filename with
  | Some name =>
      r ← get;
      let fd := open_log (trace r) name in
      if decide (fd ≤ 0)%Z then mret false
      else modify (λ r, r <| logfile := fd |>);; mret true
  | None => mret false
  end.

(** When the server starts; src/src/log.c:117-130 [openlogs] *)
Definition openlogs : MR unit :=
  match log_filename with
  | Some name =>
      r ← get;
      let fd := open_log (trace r) name in
      if decide (fd ≤ 0)%Z then mret tt else modify (λ r, r <| logfile := fd |>)
  | None => mret tt
  end.

(** False if the message is given up; src/src/commands.c:7-11 [REPLY_COMMAND] *)
Definition REPLY_COMMAND (part : bytes) (more : bool) : MR bool :=
  r ← get;
  let res := zmq_send_res (trace r) Control part more in
  emit (CtlSend part more res);;
  mret (bool_decide (res = Sent)).

(** The envelope goes back until its empty part: the parts after it, unless the
    message ends before.  src/src/commands.c:31-36 [recv_command] *)
Fixpoint echo_envelope (p : bytes) (rest : list bytes) : MR (option (list bytes)) :=
  ok ← REPLY_COMMAND p true;
  if negb ok then mret None
  else if decide (p = []) then mret (Some rest)
  else match rest with
       | p :: ((_ :: _) as rest) => echo_envelope p rest
       | _ => mret None
       end.

(** src/src/commands.c:12-15 [REPLY_SHORT] *)
Fixpoint reply_all (l : list bytes) : MR bool :=
  match l with
  | [] => mret true
  | p :: l =>
      ok ← REPLY_COMMAND p (match l with [] => false | _ :: _ => true end);
      if ok : bool then reply_all l else mret false
  end.

(** What a command does and the reply to it; [n] bounds the depth of the tree of
    routes.  src/src/commands.c:37-66 [recv_command] *)
Definition run_command (n : nat) (Routing : route_id) (cmd : bytes) : MR (list bytes) :=
  if decide (cmd = str "list_commands") then
    mret [str "list_commands"; str "pause_websockets"; str "resume_websockets"; str "sync_now"; str "reopen_logs"]
  else if decide (cmd = str "pause_websockets") then
    pause_websockets n Routing true;; mret [str "paused"]
  else if decide (cmd = str "resume_websockets") then
    pause_websockets n Routing false;; mret [str "resumed"]
  else if decide (cmd = str "sync_now") then
    websockets_sync_now n Routing;; mret [str "sync_sent"]
  else if decide (cmd = str "reopen_logs") then
    ok ← reopenlogs; mret [if ok : bool then str "logs_reopened" else str "cant_reopen_logs"]
  else mret [str "error"].

(** One message, [parts]: what follows the command is left on the socket, the
    rest of a message that is given up is skipped.
    src/src/commands.c:24-73 [recv_command] *)
Definition recv_message (n : nat) (Routing : route_id) (parts : list bytes) : MR (list bytes) :=
  match parts with
  | p :: ((_ :: _) as rest) =>
      o ← echo_envelope p rest;
      match o with
      | Some (cmd :: remains) =>
          replies ← run_command n Routing cmd;
          ok ← reply_all replies;
          mret (if ok : bool then remains else [])
      | _ => mret []
      end
  | _ => mret []
  end.

(** What is left on the socket is read as a message; [fuel] is at least the
    number of parts.  src/src/commands.c:23-74 [recv_command] *)
Fixpoint recv_parts (fuel n : nat) (Routing : route_id) (parts : list bytes) : MR unit :=
  match parts, fuel with
  | [], _ => mret tt
  | _, O => out_of_fuel
  | _, S fuel => remains ← recv_message n Routing parts; recv_parts fuel n Routing remains
  end.

(** [msgs] are the messages that wait on the socket.
    src/src/commands.c:20-74 [recv_command] *)
Definition recv_command (n : nat) (Routing : route_id) (msgs : list (list bytes)) : MR unit :=
  mfor msgs (λ parts, recv_parts (length parts) n Routing parts).
End operations.

(** ** Specification *)

(** The tree of routes has no circles, and its depth is less than [n]. *)
Record tree_of (rank : route_id → nat) (C : gmap nat route) : Prop := {
  tree_child : ∀ rid rt child, C !! rid = Some rt → child ∈ rt_children rt →
    is_Some (C !! child) ∧ rank child < rank rid;
}.

(** The routes below [rid]. *)
Inductive in_tree (C : gmap nat route) (rid : route_id) : route_id → Prop :=
  | in_tree_refl : in_tree C rid rid
  | in_tree_child rt child x : C !! rid = Some rt → child ∈ rt_children rt → in_tree C child x → in_tree C rid x.

(** The sockets of a route to which messages may be queued. *)
Definition queue_socket (C : gmap nat route) (rid : route_id) (s : sock_id) : Prop :=
  ∃ rt, C !! rid = Some rt ∧ (rt_forward rt = true ∧ s = Forward rid ∨ ∃ i, i < length (rt_outputs rt) ∧ s = Named rid i).

(** The connections that are told of a pause. *)
Definition told_of_pause (C : gmap nat route) (rid : route_id) : bool :=
  match C !! rid with Some rt => rt_frontend_commands rt && rt_paused_command rt | None => false end.

(** ** Lemmas: the tree of routes *)

(** What a walk down the tree notes, [pre] before and [post] after the children. *)
Fixpoint tree_events (pre post : route_id → route → list event) (C : gmap nat route) (n : nat) (rid : route_id) :
    list event :=
  match n, C !! rid with
  | S n, Some rt => pre rid rt ++ mjoin (tree_events pre post C n <$> rt_children rt) ++ post rid rt
  | _, _ => []
  end.

Definition feed_forward (rid : route_id) (rt : route) : list event :=
  if rt_forward rt then [FeedEvent (Forward rid)] else [].
Definition feed_named (rid : route_id) (rt : route) : list event :=
  (λ i, FeedEvent (Named rid i)) <$> seq 0 (length (rt_outputs rt)).
Definition sync_named (rid : route_id) (rt : route) : list event :=
  (λ i, FeedSync (Named rid i)) <$> seq 0 (length (rt_outputs rt)).

Lemma elem_of_tree_events rank pre post C n rid e :
  tree_of rank C → is_Some (C !! rid) → rank rid < n →
  e ∈ tree_events pre post C n rid ↔ ∃ x rt, in_tree C rid x ∧ C !! x = Some rt ∧ (e ∈ pre x rt ∨ e ∈ post x rt).
Proof.
  intros Ht. revert rid. induction n as [|n IH]; intros rid [rt Ert] Hn; [lia|].
  cbn [tree_events]. rewrite Ert, !elem_of_app, list_elem_of_join. split.
  - intros [He|[(l & He & Hl)|He]]; [by exists rid, rt; eauto using in_tree_refl| |by exists rid, rt; eauto using in_tree_refl].
    apply list_elem_of_fmap in Hl as (c & -> & Hc). destruct (tree_child _ _ Ht rid rt c Ert Hc) as [Hs Hr].
    apply IH in He as (x & rtx & Hx & Ex & He); [|done|lia]. exists x, rtx. split; [by eapply in_tree_child|done].
  - intros (x & rtx & Hx & Ex & He). destruct Hx as [|rt' c x Ert' Hc Hx]; simplify_eq.
    + destruct He; [by left|by right; right].
    + right; left. destruct (tree_child _ _ Ht rid rt c Ert Hc) as [Hs Hr].
      exists (tree_events pre post C n c). split; [|apply list_elem_of_fmap; eauto].
      apply IH; [done|lia|]. eauto.
Qed.

Lemma route_of_static (C : gmap nat route) rid rt0 (r : root) :
  static_route <$> routes r = C → C !! rid = Some rt0 → ∃ rt, routes r !! rid = Some rt ∧ rt_forward rt = rt_forward rt0 ∧
    rt_children rt = rt_children rt0 ∧ rt_outputs rt = rt_outputs rt0 ∧
    rt_frontend_commands rt = rt_frontend_commands rt0 ∧ rt_paused_command rt = rt_paused_command rt0.
Proof. intros <-. rewrite lookup_fmap. intros (rt & E & ->)%fmap_Some_1. by exists rt. Qed.

Section visitors.
Context `{LogLevel, Malloc, Env} (rank : route_id → nat) (C : gmap nat route).
Hypothesis Htree : tree_of rank C.
Implicit Types (r : root).

Lemma wp_mfor_tree (f : route_id → MR unit) (g : route_id → list event) l (Q : unit → root → Prop) : ∀ r,
  (∀ c r Q, c ∈ l → static_route <$> routes r = C → Q tt (noted r (g c)) → wp (f c) Q r) →
  static_route <$> routes r = C → Q tt (noted r (mjoin (g <$> l))) → wp (mfor l f) Q r.
Proof.
  induction l as [|c l IH]; intros r Hf HC HQ; cbn [mfor].
  - apply wp_ret. by rewrite noted_nil in HQ.
  - apply wp_bind. apply Hf; [by left|done|]. apply IH; [|done|by rewrite noted_noted].
    intros c' r' Q' Hc'. apply Hf. by right.
Qed.

Lemma wp_mfor_emit {A} (l : list A) (g : A → event) (Q : unit → root → Prop) r :
  Q tt (noted r (g <$> l)) → wp (mfor l (λ a, emit (g a))) Q r.
Proof.
  revert r. induction l as [|a l IH]; intros r HQ; cbn [mfor].
  - apply wp_ret. by rewrite noted_nil in HQ.
  - apply wp_bind, wp_emit. apply IH. change (r <| trace := _ |>) with (noted r [g a]). by rewrite noted_noted.
Qed.

Lemma wp_resume_visitor n : ∀ rid r (Q : unit → root → Prop),
  static_route <$> routes r = C → is_Some (C !! rid) → rank rid < n →
  Q tt (noted r (tree_events feed_forward feed_named C n rid)) → wp (resume_visitor n rid) Q r.
Proof.
  induction n as [|n IH]; intros rid r Q HC [rt0 Ert0] Hn HQ; [lia|]. cbn [resume_visitor].
  destruct (route_of_static C rid rt0 r HC Ert0) as (rt & Ert & Ef & Ec & Eo & _).
  cbn [tree_events] in HQ. rewrite Ert0 in HQ. apply wp_bind. eapply wp_get_route; [done|].
  assert (Hgo : ∀ r1, static_route <$> routes r1 = C → Q tt (noted r1 (mjoin
      (tree_events feed_forward feed_named C n <$> rt_children rt0) ++ feed_named rid rt0)) →
    wp (mfor (rt_children rt) (resume_visitor n);;
        mfor (seq 0 (length (rt_outputs rt))) (λ i, emit (FeedEvent (Named rid i)))) Q r1).
  { intros r1 HC1 HQ1. apply wp_bind. rewrite Ec, Eo.
    eapply (wp_mfor_tree _ (tree_events feed_forward feed_named C n)); [|done|].
    - intros c r2 Q2 Hc HC2 HQ2. destruct (tree_child _ _ Htree rid rt0 c Ert0 Hc) as [Hs Hr].
      apply IH; [done..|lia|done].
    - apply wp_mfor_emit. by rewrite noted_noted. }
  apply wp_bind. unfold feed_forward at 1 in HQ. rewrite Ef. destruct (rt_forward rt0); unfold whenb.
  - apply wp_emit. apply Hgo; [done|]. change (r <| trace := _ |>) with (noted r [FeedEvent (Forward rid)]).
    by rewrite noted_noted.
  - apply wp_ret. by apply Hgo.
Qed.

Lemma wp_sync_visitor n : ∀ rid r (Q : unit → root → Prop),
  static_route <$> routes r = C → is_Some (C !! rid) → rank rid < n →
  Q tt (noted r (tree_events (λ _ _, []) sync_named C n rid)) → wp (sync_visitor n rid) Q r.
Proof.
  induction n as [|n IH]; intros rid r Q HC [rt0 Ert0] Hn HQ; [lia|]. cbn [sync_visitor].
  destruct (route_of_static C rid rt0 r HC Ert0) as (rt & Ert & Ef & Ec & Eo & _).
  cbn [tree_events] in HQ. rewrite Ert0 in HQ. apply wp_bind. eapply wp_get_route; [done|].
  apply wp_bind. rewrite Ec, Eo. eapply (wp_mfor_tree _ (tree_events (λ _ _, []) sync_named C n)); [|done|].
  - intros c r2 Q2 Hc HC2 HQ2. destruct (tree_child _ _ Htree rid rt0 c Ert0 Hc) as [Hs Hr].
    apply IH; [done..|lia|done].
  - apply wp_mfor_emit. by rewrite noted_noted.
Qed.
End visitors.

(** ** Lemmas: pausing *)
Section pausing.
Context `{LogLevel, Malloc, Env}.
Hypothesis Hdate : ∀ req, is_Some (http_date req).
Hypothesis Hzmq : zmq_laws.
Hypothesis Hws : message_laws.
Implicit Types (r : root).

(** Events that no browser and no backend sees. *)
Definition aside (e : event) : Prop := off_wire e ∧ no_ws e.

Lemma full_ok_aside act r p f l : full_ok act r → Forall aside l →
  full_ok act (noted (r <| paused := p |> <| logfile := f |>) l).
Proof.
  intros [Hsv Hcm] Hl. split; [|by apply (comets_ok_frame act r)].
  apply (server_ok_beside act r); [done|]. split; try done. intros s. simpl. apply wire_off.
  eapply Forall_impl; [done|]. by intros e [? _].
Qed.

Lemma ws_log_aside tr l : Forall aside l → ws_log (tr ++ l) = ws_log tr.
Proof.
  intros Hl. unfold ws_log. rewrite omap_app. induction Hl as [|e l [_ He] Hl IH]; [by rewrite app_nil_r|].
  by destruct e.
Qed.

Lemma control_wire_aside tr l : Forall aside l → control_wire (tr ++ l) = control_wire tr.
Proof.
  intros Hl. rewrite control_wire_app. generalize (control_wire tr).
  induction Hl as [|e l [_ He] Hl IH]; intros w; [done|]. simpl. rewrite IH. by destruct e.
Qed.

Lemma delivered_aside act act' r r1 cs msg p f l :
  delivered act act' r r1 cs msg → Forall aside l →
  delivered act act' r (noted (r1 <| paused := p |> <| logfile := f |>) l) cs msg.
Proof.
  intros [Hok Ha Hc Hg Ho Hn Hl Hctl Hnd Ht Hf] Hl'. split; try done; [by apply full_ok_aside|..]; simpl.
  - by rewrite ws_log_aside.
  - by rewrite control_wire_aside.
Qed.

Lemma tree_events_aside pre post C n rid :
  (∀ x rt, Forall aside (pre x rt)) → (∀ x rt, Forall aside (post x rt)) → Forall aside (tree_events pre post C n rid).
Proof.
  intros Hpre Hpost. revert rid. induction n as [|n IH]; intros rid; [constructor|]. cbn [tree_events].
  destruct (C !! rid) as [rt|]; [|constructor]. repeat (apply Forall_app; split); try done.
  apply Forall_forall. intros e (l & He & Hl)%list_elem_of_join. apply list_elem_of_fmap in Hl as (c & -> & _).
  specialize (IH c). rewrite Forall_forall in IH. by apply IH.
Qed.

Lemma feed_aside n C rid : Forall aside (tree_events feed_forward feed_named C n rid).
Proof.
  apply tree_events_aside.
  - intros x rt. unfold feed_forward. destruct (rt_forward rt); by repeat constructor.
  - intros x rt. apply Forall_fmap, Forall_forall. done.
Qed.

Lemma sync_aside n C rid : Forall aside (tree_events (λ _ _, []) sync_named C n rid).
Proof. apply tree_events_aside; [constructor|]. intros x rt. apply Forall_fmap, Forall_forall. done. Qed.

Definition pause_text (pause : bool) : bytes := if pause then str "ZEROGW:paused" else str "ZEROGW:resumed".

Lemma wp_pause_websockets rank C act n Routing pause r :
  full_ok act r → static_route <$> routes r = C → tree_of rank C → is_Some (C !! Routing) → rank Routing < n →
  (∀ h hy, h ∈ act → hybis r !! h = Some hy → is_Some (C !! h_route hy)) →
  wp (pause_websockets n Routing pause) (λ _ r', if Bool.eqb (paused r) pause then r' = r else
    paused r' = pause ∧ ∃ act' l, delivered act act' r r' (chosen_from r (told_of_pause C) 0) (pause_text pause) ∧
      l = (if pause then [] else tree_events feed_forward feed_named C n Routing) ∧
      ∃ r1, trace r' = trace r1 ++ l) r.
Proof.
  intros Hok HC Htree Hroot Hn Hknown. unfold pause_websockets. apply wp_bind, wp_get.
  destruct (Bool.eqb (paused r) pause); [by apply wp_ret|].
  apply wp_bind, (wp_new_message Hws), wp_bind. unfold each_hybi. apply wp_bind, wp_get.
  eapply wp_mono; [apply (wp_send_cells Hdate Hzmq Hws C (λ x, is_Some (C !! x)) (told_of_pause C) _ (pause_text pause))
    with (act := act); [|done..]|].
  { intros h hy r1 Q Hh HC1 [rt0 Ert0] HQ. apply wp_bind. eapply wp_get_hybi; [done|]. apply wp_bind.
    destruct (route_of_static C (h_route hy) rt0 r1 HC1 Ert0) as (rt & Ert & _ & _ & _ & Ef & Ep).
    eapply wp_get_route; [done|]. unfold told_of_pause in HQ. rewrite Ert0, <- Ef, <- Ep in HQ. done. }
  intros _ r1 [act' D]. destruct pause.
  - apply wp_modify. split; [done|]. exists act', []. split_and!; [|done|exists r1; by rewrite app_nil_r].
    apply (delivered_aside _ _ _ _ _ _ true (logfile r1) []) in D; [|constructor].
    rewrite noted_nil in D. by destruct r1.
  - apply wp_bind, wp_modify. destruct (dv_fixed _ _ _ _ _ _ D) as (_ & _ & Est).
    eapply (wp_resume_visitor rank C Htree); [simpl; congruence|done..|].
    split; [done|]. exists act'. eexists. split_and!; [|done|by eexists].
    apply (delivered_aside _ _ _ _ _ _ false (logfile r1) _ D), feed_aside.
Qed.
End pausing.

(** ** Lemmas: commands *)
Section commands.
Context `{LogLevel, Malloc, Env, LogFile}.
Hypothesis Hctl : ∀ tr p more, zmq_send_res tr Control p more = Sent.
Implicit Types (r : root).

Lemma wp_REPLY_COMMAND p more r (Q : bool → root → Prop) :
  Q true (noted r [CtlSend p more Sent]) → wp (REPLY_COMMAND p more) Q r.
Proof.
  intros HQ. unfold REPLY_COMMAND. apply wp_bind, wp_get. cbn beta zeta. rewrite Hctl. apply wp_bind, wp_emit, wp_ret. exact HQ.
Qed.

(** Parts of a message that more follow. *)
Definition leading (l : list bytes) : list event := (λ p, CtlSend p true Sent) <$> l.

Lemma control_leading w l : foldl control_step w (leading l) = (w.1, w.2 ++ l).
Proof.
  revert w. induction l as [|p l IH]; intros [ms acc]; simpl; [by rewrite app_nil_r|].
  rewrite IH. simpl. by rewrite <- app_assoc.
Qed.

Lemma wp_echo_envelope env after p rest r (Q : option (list bytes) → root → Prop) :
  Forall (λ p, p ≠ []) env → after ≠ [] → p :: rest = env ++ [] :: after →
  Q (Some after) (noted r (leading (env ++ [[]]))) → wp (echo_envelope p rest) Q r.
Proof.
  intros Henv Hne. revert env p r Henv. induction rest as [|p' rest IH]; intros env p r Henv E HQ.
  { destruct env as [|? [|]]; by simplify_eq/=. }
  destruct env as [|e env]; simplify_eq/=.
  - cbn [echo_envelope]. apply wp_bind, wp_REPLY_COMMAND. cbn beta iota delta [negb].
    by apply wp_ret.
  - apply Forall_cons in Henv as [He Henv]. cbn [echo_envelope].
    apply wp_bind, wp_REPLY_COMMAND. cbn beta iota delta [negb]. rewrite decide_False by done. destruct rest as [|p2 rest].
    { destruct env as [|? [|]]; by simplify_eq/=. }
    eapply (IH env); [done..|]. by rewrite noted_noted.
Qed.

(** A message that ends before its empty part. *)
Lemma wp_echo_unterminated pre lst p rest r (Q : option (list bytes) → root → Prop) :
  Forall (λ p, p ≠ []) pre → pre ≠ [] → p :: rest = pre ++ [lst] →
  Q None (noted r (leading pre)) → wp (echo_envelope p rest) Q r.
Proof.
  intros Hpre Hne. revert pre p r Hpre Hne. induction rest as [|p' rest IH]; intros pre p r Hpre Hne E HQ.
  { destruct pre as [|? [|]]; by simplify_eq/=. }
  destruct pre as [|e pre]; simplify_eq/=. apply Forall_cons in Hpre as [He Hpre].
  apply wp_bind, wp_REPLY_COMMAND. cbn beta iota delta [negb]. rewrite decide_False by done.
  destruct rest as [|p2 rest].
  - destruct pre as [|? [|]]; simplify_eq/=. by apply wp_ret.
  - destruct pre as [|e2 pre]; [by simplify_eq/=|]. eapply (IH (e2 :: pre)); [done..|]. by rewrite noted_noted.
Qed.

(** The events of a whole message. *)
Fixpoint whole (l : list bytes) : list event :=
  match l with
  | [] => []
  | p :: l => CtlSend p (match l with [] => false | _ :: _ => true end) Sent :: whole l
  end.

Lemma control_whole ms acc l : l ≠ [] → foldl control_step (ms, acc) (whole l) = (ms ++ [acc ++ l], []).
Proof.
  revert acc. induction l as [|p l IH]; intros acc Hne; [done|]. destruct l as [|p' l]; [done|].
  change (whole (p :: p' :: l)) with (CtlSend p true Sent :: whole (p' :: l)).
  cbn [foldl control_step fst snd]. rewrite IH by done. by rewrite <- app_assoc.
Qed.

Lemma wp_reply_all l : ∀ r (Q : bool → root → Prop), Q true (noted r (whole l)) → wp (reply_all l) Q r.
Proof.
  induction l as [|p l IH]; intros r Q HQ; cbn [reply_all].
  - apply wp_ret. by rewrite noted_nil in HQ.
  - apply wp_bind, wp_REPLY_COMMAND, IH. by rewrite noted_noted.
Qed.
End commands.

(** The reply to a command. *)
Definition is_reply `{LogFile} (cmd : bytes) (tr : list event) (reply : list bytes) : Prop :=
  if decide (cmd = str "list_commands") then
    reply = [str "list_commands"; str "pause_websockets"; str "resume_websockets"; str "sync_now"; str "reopen_logs"]
  else if decide (cmd = str "pause_websockets") then reply = [str "paused"]
  else if decide (cmd = str "resume_websockets") then reply = [str "resumed"]
  else if decide (cmd = str "sync_now") then reply = [str "sync_sent"]
  else if decide (cmd = str "reopen_logs") then
    reply = [match log_filename with
             | Some name => if decide (0 < open_log tr name)%Z then str "logs_reopened" else str "cant_reopen_logs"
             | None => str "cant_reopen_logs"
             end]
  else reply = [str "error"].

(** Whether browsers are paused after a command. *)
Definition pauses (cmd : bytes) (p : bool) : bool :=
  if decide (cmd = str "pause_websockets") then true
  else if decide (cmd = str "resume_websockets") then false else p.

(** ** Lemmas: one command *)
Section one_command.
Context `{LogLevel, Malloc, Env, LogFile} (rank : route_id → nat) (C : gmap nat route).
Context (act : gset nat) (r : root) (n : nat) (Routing : route_id) (env : list bytes) (cmd : bytes).
Hypothesis Hdate : ∀ req, is_Some (http_date req).
Hypothesis Hzmq : zmq_laws.
Hypothesis Hws : message_laws.
Hypothesis Hctl : ∀ tr p more, zmq_send_res tr Control p more = Sent.
Hypothesis Hok : full_ok act r.
Hypothesis HC : C = static_route <$> routes r.
Hypothesis Htree : tree_of rank C.
Hypothesis Hroot : is_Some (C !! Routing).
Hypothesis Hn : rank Routing < n.
Hypothesis Hknown : ∀ h hy, h ∈ act → hybis r !! h = Some hy → is_Some (C !! h_route hy).
Hypothesis Hbetween : (control_wire (trace r)).2 = [].

(** The command was answered behind the envelope. *)
Definition commanded (r' : root) : Prop :=
  (∃ reply tr, is_reply cmd tr reply ∧
     control_wire (trace r') = ((control_wire (trace r)).1 ++ [env ++ [] :: reply], [])) ∧
  paused r' = pauses cmd (paused r) ∧ ∃ act', full_ok act' r' ∧ act' ⊆ act.

(** The envelope went back. *)
Definition enveloped : root := noted r (leading (env ++ [[]])).

Lemma enveloped_ok : full_ok act enveloped ∧ control_wire (trace enveloped) = ((control_wire (trace r)).1, env ++ [[]]).
Proof.
  split.
  - apply full_ok_noted; [done|]. by apply Forall_fmap, Forall_forall.
  - unfold enveloped. simpl. by rewrite control_wire_app, control_leading, Hbetween.
Qed.

Lemma wp_end_command reply r2 act2 :
  reply ≠ [] → control_wire (trace r2) = control_wire (trace enveloped) → full_ok act2 r2 → act2 ⊆ act →
  paused r2 = pauses cmd (paused r) → is_reply cmd (trace enveloped) reply →
  wp (ok ← reply_all reply; mret (if ok : bool then @nil bytes else [])) (λ remains r', remains = [] ∧ commanded r') r2.
Proof.
  intros Hne Hw2 Hok2 Hsub Hp Hr. apply wp_bind, (wp_reply_all Hctl), wp_ret. split; [done|].
  unfold commanded. split_and!; [|done|].
  - exists reply, (trace enveloped). split; [done|]. simpl.
    rewrite control_wire_app, Hw2, (proj2 enveloped_ok), control_whole by done. by rewrite <- app_assoc.
  - exists act2. split; [|done]. apply full_ok_noted; [done|]. clear. induction reply; constructor; done.
Qed.

Lemma wp_pause_command b : wp (pause_websockets n Routing b) (λ _ r2, paused r2 = b ∧
  control_wire (trace r2) = control_wire (trace enveloped) ∧ ∃ act', full_ok act' r2 ∧ act' ⊆ act) enveloped.
Proof.
  eapply wp_mono; [apply (wp_pause_websockets Hdate Hzmq Hws rank C act n Routing b enveloped (proj1 enveloped_ok) (eq_sym HC) Htree);
    done|].
  intros [] r2. change (paused enveloped) with (paused r). destruct (Bool.eqb (paused r) b) eqn:Eb.
  - intros ->. apply eqb_prop in Eb. split_and!; [done..|]. exists act. by split; [apply enveloped_ok|].
  - intros (Hp & act' & l' & D & _). split_and!; [done|apply (dv_control _ _ _ _ _ _ D)|].
    exists act'. split; [apply D|]. apply (dv_act _ _ _ _ _ _ D).
Qed.

Lemma wp_run_command :
  wp (replies ← run_command n Routing cmd; ok ← reply_all replies; mret (if ok : bool then @nil bytes else []))
    (λ remains r', remains = [] ∧ commanded r') enveloped.
Proof.
  destruct enveloped_ok as [Hok1 Hw1].
  assert (Hpause : ∀ b (reply : bytes), wp (pause_websockets n Routing b;; mret [reply]) (λ replies r2,
    replies = [reply] ∧ paused r2 = b ∧ control_wire (trace r2) = control_wire (trace enveloped) ∧
    ∃ act', full_ok act' r2 ∧ act' ⊆ act) enveloped).
  { intros b reply. apply wp_bind. eapply wp_mono; [apply wp_pause_command|]. intros [] r2 Hp. by apply wp_ret. }
  unfold run_command. apply wp_bind.
  case_decide as E; [|case_decide as E'; [|case_decide as E2; [|case_decide as E3; [|case_decide as E4]]]].
  - apply wp_ret. by apply (wp_end_command _ _ act); try done; unfold pauses, is_reply; rewrite E.
  - eapply wp_mono; [apply Hpause|]. intros ? r2 (-> & Hp & Hw & act' & ? & ?).
    by apply (wp_end_command _ _ act'); try done; unfold pauses, is_reply; rewrite E'.
  - eapply wp_mono; [apply Hpause|]. intros ? r2 (-> & Hp & Hw & act' & ? & ?).
    by apply (wp_end_command _ _ act'); try done; unfold pauses, is_reply; rewrite E2.
  - apply wp_bind. unfold websockets_sync_now.
    eapply (wp_sync_visitor rank C Htree); [by symmetry|done..|]. apply wp_ret.
    apply (wp_end_command _ _ act); try done; [| |by unfold pauses; rewrite E3|by unfold is_reply; rewrite E3].
    + simpl. apply control_wire_aside, sync_aside.
    + apply full_ok_noted; [done|]. eapply Forall_impl; [apply sync_aside|]. by intros e [? _].
  - apply wp_bind. unfold reopenlogs. destruct log_filename as [name|] eqn:Elog.
    + apply wp_bind, wp_get. cbn beta zeta. case_decide as Hfd.
      * apply wp_ret, wp_ret. apply (wp_end_command _ _ act); try done; unfold is_reply, pauses; rewrite E4; [done|].
        hnf. by rewrite Elog, decide_False by lia.
      * apply wp_bind, wp_modify, wp_ret, wp_ret. apply (wp_end_command _ _ act); try done.
        2:{ unfold pauses. by rewrite E4. }
        2:{ unfold is_reply. rewrite E4. hnf. by rewrite Elog, decide_True by lia. }
        pose proof (full_ok_aside act enveloped (paused r) (open_log (trace enveloped) name) [] Hok1 ltac:(constructor)) as Hx.
        rewrite noted_nil in Hx. exact Hx.
    + apply wp_ret, wp_ret. apply (wp_end_command _ _ act); try done; unfold is_reply, pauses; rewrite E4; [done|].
      hnf. by rewrite Elog.
  - apply wp_ret. apply (wp_end_command _ _ act); try done; unfold pauses, is_reply; by rewrite !decide_False.
Qed.
End one_command.

(** ** Lemmas: whatever is sent and whether the replies go out *)
Section any_command.
Context `{LogLevel, Malloc, Env, LogFile} (rank : route_id → nat) (C : gmap nat route).
Context (act : gset nat) (n : nat) (Routing : route_id).
Hypothesis Hdate : ∀ req, is_Some (http_date req).
Hypothesis Hzmq : zmq_laws.
Hypothesis Hws : message_laws.
Hypothesis Htree : tree_of rank C.
Hypothesis Hroot : is_Some (C !! Routing).
Hypothesis Hn : rank Routing < n.
Implicit Types (r : root).

(** The routes are [C], and the open connections are some of [act]. *)
Definition serving r : Prop := ∃ act', full_ok act' r ∧ act' ⊆ act ∧ static_route <$> routes r = C ∧
  ∀ h hy, h ∈ act' → hybis r !! h = Some hy → is_Some (C !! h_route hy).

Lemma serving_noted r p f l : serving r → Forall off_wire l → serving (noted (r <| paused := p |> <| logfile := f |>) l).
Proof.
  intros (act' & Hok & ? & ? & ?) Hl. exists act'. split_and!; try done.
  apply full_ok_noted; [|done]. pose proof (full_ok_aside act' r p f [] Hok ltac:(constructor)) as Hx.
  by rewrite noted_nil in Hx.
Qed.

Lemma serving_note r l : serving r → Forall off_wire l → serving (noted r l).
Proof. intros Hs Hl. pose proof (serving_noted r (paused r) (logfile r) l Hs Hl) as Hx. by destruct r. Qed.

Lemma wp_serving_reply p more r : serving r → wp (REPLY_COMMAND p more) (λ _, serving) r.
Proof.
  intros Hs. unfold REPLY_COMMAND. apply wp_bind, wp_get, wp_bind, wp_write, wp_ret.
  apply serving_note; [done|by repeat constructor].
Qed.

Lemma wp_serving_envelope rest : ∀ p r, serving r →
  wp (echo_envelope p rest) (λ o r', serving r' ∧ ∀ l, o = Some l → length l ≤ length rest) r.
Proof.
  induction rest as [|q rest IH]; intros p r Hs; cbn [echo_envelope]; apply wp_bind;
    (eapply wp_mono; [by apply wp_serving_reply|]); intros ok r1 Hs1; destruct ok; try by apply wp_ret.
  - case_decide; apply wp_ret; (split; [done|by intros l [= <-]]).
  - cbn [negb]. case_decide; [apply wp_ret; split; [done|by intros l [= <-]]|].
    destruct rest as [|q' rest]; [by apply wp_ret|].
    eapply wp_mono; [by apply IH|]. intros o r2 [Hs2 Hl]. split; [done|]. intros l E. specialize (Hl l E).
    simpl in *. lia.
Qed.

Lemma wp_serving_replies l : ∀ r, serving r → wp (reply_all l) (λ _, serving) r.
Proof.
  induction l as [|p l IH]; intros r Hs; cbn [reply_all]; [by apply wp_ret|]. apply wp_bind.
  eapply wp_mono; [by apply wp_serving_reply|]. intros [|] r1 Hs1; [by apply IH|by apply wp_ret].
Qed.

Lemma wp_serving_pause b r : serving r → wp (pause_websockets n Routing b) (λ _, serving) r.
Proof.
  intros (act' & Hok & Hsub & HC & Hk).
  eapply wp_mono; [by apply (wp_pause_websockets Hdate Hzmq Hws rank C act' n Routing b r)|].
  intros ? r'. destruct (Bool.eqb _ _); [intros ->; by exists act'|]. intros (_ & act2 & l & D & _).
  destruct (dv_fixed _ _ _ _ _ _ D) as (_ & _ & E). exists act2. split; [apply D|].
  split; [by transitivity act'; [apply (dv_act _ _ _ _ _ _ D)|]|]. split; [congruence|].
  intros h hy Ha Hh. pose proof (dv_act _ _ _ _ _ _ D h Ha) as Ha'. destruct (open_hybi _ _ _ Hok Ha') as [hy0 Hh0].
  pose proof (dv_conns _ _ _ _ _ _ D h Ha) as En. rewrite Hh, Hh0 in En. apply (inj Some) in En.
  apply (f_equal h_route) in En. simpl in En. rewrite En. by eapply Hk.
Qed.

Lemma wp_serving_run cmd r : serving r → wp (run_command n Routing cmd) (λ _, serving) r.
Proof.
  intros Hs. unfold run_command. case_decide; [by apply wp_ret|].
  case_decide; [apply wp_bind; eapply wp_mono; [by apply wp_serving_pause|]; intros ? r1 Hs1; by apply wp_ret|].
  case_decide; [apply wp_bind; eapply wp_mono; [by apply wp_serving_pause|]; intros ? r1 Hs1; by apply wp_ret|].
  case_decide; [|case_decide; [|by apply wp_ret]]; apply wp_bind.
  - destruct Hs as (act' & Hok & Hsub & HC & Hk). unfold websockets_sync_now.
    eapply (wp_sync_visitor rank C Htree); [done..|]. apply wp_ret. apply serving_note; [by exists act'|].
    eapply Forall_impl; [apply sync_aside|]. by intros e [? _].
  - unfold reopenlogs. destruct log_filename as [name|]; [|by apply wp_ret, wp_ret]. apply wp_bind, wp_get. cbn zeta.
    case_decide; [by apply wp_ret, wp_ret|]. apply wp_bind, wp_modify, wp_ret, wp_ret.
    pose proof (serving_noted r (paused r) (open_log (trace r) name) [] Hs ltac:(constructor)) as Hx.
    rewrite noted_nil in Hx. by destruct r.
Qed.

Lemma wp_serving_message parts r : serving r → parts ≠ [] →
  wp (recv_message n Routing parts) (λ remains r', serving r' ∧ length remains < length parts) r.
Proof.
  intros Hs Hne. unfold recv_message. destruct parts as [|p [|q rest]]; [done|by apply wp_ret; split; [|simpl; lia]|].
  apply wp_bind. eapply wp_mono; [by apply wp_serving_envelope|]. intros o r1 [Hs1 Hl].
  destruct o as [[|cmd remains]|]; [by apply wp_ret; split; [|simpl; lia]| |by apply wp_ret; split; [|simpl; lia]].
  specialize (Hl _ eq_refl). apply wp_bind. eapply wp_mono; [by apply wp_serving_run|]. intros replies r2 Hs2.
  apply wp_bind. eapply wp_mono; [by apply wp_serving_replies|]. intros ok r3 Hs3. apply wp_ret. split; [done|].
  destruct ok; simpl in *; lia.
Qed.

Lemma wp_serving_parts fuel : ∀ parts r, serving r → length parts ≤ fuel →
  wp (recv_parts fuel n Routing parts) (λ _, serving) r.
Proof.
  induction fuel as [|fuel IH]; intros [|p parts] r Hs Hl; cbn [recv_parts]; try by apply wp_ret.
  { simpl in Hl. lia. }
  apply wp_bind. eapply wp_mono; [by apply wp_serving_message|]. intros remains r1 [Hs1 Hlt].
  apply IH; [done|simpl in *; lia].
Qed.

Lemma wp_serving_command msgs : ∀ r, serving r → wp (recv_command n Routing msgs) (λ _, serving) r.
Proof.
  unfold recv_command. induction msgs as [|parts msgs IH]; intros r Hs; cbn [mfor]; [by apply wp_ret|].
  apply wp_bind. eapply wp_mono; [by apply wp_serving_parts|]. intros ? r1 Hs1. by apply IH.
Qed.
End any_command.

(** ** Claims *)

(** C24: Pausing and resuming: doing it twice changes nothing; otherwise, as long as
    there is memory for the message and the websocket library takes it or reports
    a full connection ([message_laws]), the state is switched, every open browser
    connection whose route has the command is told exactly once (a session without
    room is closed for it), nobody else notices, and the server stays consistent;
    resuming wakes, at the end, exactly the sockets of the tree of routes to
    which messages for backends are queued, so that what waited goes out.  If
    there is no memory for the message, the server aborts (unless its log level
    hides the failed assertion). *)
Theorem pause_websockets_correct `{LogLevel, Malloc, Env} (rank : route_id → nat) (C : gmap nat route)
    (act : gset nat) (r : root) (n : nat) (Routing : route_id) (pause : bool)
    (Hdate : ∀ req, is_Some (http_date req)) (Hzmq : zmq_laws)
    (Hok : full_ok act r) (HC : C = static_route <$> routes r) (Htree : tree_of rank C)
    (Hroot : is_Some (C !! Routing)) (Hn : rank Routing < n)
    (Hknown : ∀ h hy, h ∈ act → hybis r !! h = Some hy → is_Some (C !! h_route hy)) :
  (message_laws → ∃ r', pause_websockets n Routing pause r = Ok tt r' ∧ if Bool.eqb (paused r) pause then r' = r else
    paused r' = pause ∧
    (∃ act', delivered act act' r r' (chosen_from r (told_of_pause C) 0) (pause_text pause)) ∧
    (∀ h, h ∈ chosen_from r (told_of_pause C) 0 ↔
       h ∈ act ∧ told_of_pause C ∘ h_route <$> hybis r !! h = Some true) ∧
    ∃ tr l, trace r' = tr ++ l ∧ ∀ s, FeedEvent s ∈ l ↔
      pause = false ∧ ∃ rid, in_tree C Routing rid ∧ queue_socket C rid s) ∧
  (paused r ≠ pause → message_malloc (trace r) = false → (LOG_ALERT ≤ LOGLEVEL)%Z →
   pause_websockets n Routing pause r = Aborted).
Proof.
  split.
  2:{ intros Hne Hm Hl. unfold pause_websockets, mbind at 1, M_bind at 1, get.
      destruct (Bool.eqb (paused r) pause) eqn:E; [by apply eqb_prop in E|].
      unfold mbind at 1, M_bind at 1. by rewrite new_message_aborts. }
  intros Hws. destruct (proj1 (wp_Ok _ _ _) (wp_pause_websockets Hdate Hzmq Hws rank C act n Routing pause r Hok (eq_sym HC)
    Htree Hroot Hn Hknown)) as ([] & r' & Hrun & Hr'). exists r'. split; [done|]. clear Hrun. revert Hr'.
  destruct (Bool.eqb (paused r) pause); [done|]. intros (Hp & act' & l & D & -> & r1 & Et).
  split_and!; [done|by exists act'| |].
  - intros h. split.
    + intros Hin. split; [by eapply chosen_open|]. by apply list_elem_of_filter in Hin as [? _].
    + intros [Ha Hs]. destruct (open_cell act r h Hok Ha) as [i Hi]. apply list_elem_of_filter. split; [done|].
      apply list_elem_of_omap. exists (Some h). split; [|done]. rewrite drop_0. by eapply list_elem_of_lookup_2.
  - exists (trace r1). eexists. split; [done|]. intros s. destruct pause.
    + split; [by intros ?%elem_of_nil|by intros [? _]].
    + rewrite (elem_of_tree_events rank) by done. split.
      * intros (x & rt & Hx & Ex & Hs). split; [done|]. exists x. split; [done|]. exists rt. split; [done|].
        unfold feed_forward, feed_named in Hs. destruct Hs as [Hs|Hs].
        -- destruct (rt_forward rt); [|by apply elem_of_nil in Hs]. apply list_elem_of_singleton in Hs as [= ->]. by left.
        -- apply list_elem_of_fmap in Hs as (i & [= ->] & Hi). right. exists i. split; [|done].
           apply elem_of_seq in Hi. lia.
      * intros (_ & x & Hx & rt & Ex & Hs). exists x, rt. split_and!; [done..|].
        unfold feed_forward, feed_named. destruct Hs as [[-> ->]|(i & Hi & ->)]; [left; by left|right].
        apply list_elem_of_fmap. exists i. split; [done|]. apply elem_of_seq. lia.
Qed.

Lemma wp_recv_command `{LogLevel, Malloc, Env, LogFile} (rank : route_id → nat) (C : gmap nat route)
    (act : gset nat) (r : root) (n : nat) (Routing : route_id) (env : list bytes) (cmd : bytes)
    (Hdate : ∀ req, is_Some (http_date req)) (Hzmq : zmq_laws) (Hws : message_laws)
    (Hctl : ∀ tr p more, zmq_send_res tr Control p more = Sent)
    (Hok : full_ok act r) (HC : C = static_route <$> routes r) (Htree : tree_of rank C)
    (Hroot : is_Some (C !! Routing)) (Hn : rank Routing < n)
    (Hknown : ∀ h hy, h ∈ act → hybis r !! h = Some hy → is_Some (C !! h_route hy))
    (Henv : Forall (λ p, p ≠ []) env) (Hbetween : (control_wire (trace r)).2 = []) :
  wp (recv_command n Routing [env ++ [[]; cmd]]) (λ _ r',
    (∃ reply tr, is_reply cmd tr reply ∧
       control_wire (trace r') = ((control_wire (trace r)).1 ++ [env ++ [] :: reply], [])) ∧
    paused r' = pauses cmd (paused r) ∧ ∃ act', full_ok act' r' ∧ act' ⊆ act) r.
Proof.
  unfold recv_command. cbn [mfor]. apply wp_bind.
  assert (Hlen : ∃ k p q l, env ++ [[]; cmd] = p :: q :: l ∧ length (env ++ [[]; cmd]) = S k).
  { destruct env as [|p [|q l]]; simpl; eauto 10. }
  destruct Hlen as (k & p & q & l & El & ->). rewrite El. cbn [recv_parts]. apply wp_bind. unfold recv_message. apply wp_bind.
  eapply (wp_echo_envelope Hctl env [cmd]); [done..|by rewrite <- El|].
  eapply wp_mono; [by apply (wp_run_command rank C act)|]. intros remains r' [-> Hc]. by destruct k; apply wp_ret, wp_ret.
Qed.

(** C22: As long as the replies go out ([Hctl]), a command on the control socket,
    behind an envelope and an empty part, is answered with one message: the
    envelope, the empty part and the reply, which for an unknown command says that
    it is an error; nothing of the message is left over.  Pausing and resuming
    switch the browsers, the other commands leave them as they are.  And whatever
    messages come and whether or not the replies go out, the handler gets to the
    end of them and the server stays consistent.  All this is as long as there is
    memory for the message that tells browsers of a pause, and the websocket
    library takes it or reports a full connection ([message_laws]). *)
Theorem recv_command_correct `{LogLevel, Malloc, Env, LogFile} (rank : route_id → nat) (C : gmap nat route)
    (act : gset nat) (r : root) (n : nat) (Routing : route_id)
    (Hdate : ∀ req, is_Some (http_date req)) (Hzmq : zmq_laws) (Hws : message_laws)
    (Hok : full_ok act r) (HC : C = static_route <$> routes r) (Htree : tree_of rank C)
    (Hroot : is_Some (C !! Routing)) (Hn : rank Routing < n)
    (Hknown : ∀ h hy, h ∈ act → hybis r !! h = Some hy → is_Some (C !! h_route hy)) :
  (∀ env cmd, (∀ tr p more, zmq_send_res tr Control p more = Sent) → Forall (λ p, p ≠ []) env →
   (control_wire (trace r)).2 = [] →
   ∃ r', recv_command n Routing [env ++ [[]; cmd]] r = Ok tt r' ∧
    (∃ reply tr, is_reply cmd tr reply ∧
       control_wire (trace r') = ((control_wire (trace r)).1 ++ [env ++ [] :: reply], [])) ∧
    paused r' = pauses cmd (paused r) ∧ ∃ act', full_ok act' r' ∧ act' ⊆ act) ∧
  (∀ msgs, ∃ r', recv_command n Routing msgs r = Ok tt r' ∧ ∃ act', full_ok act' r' ∧ act' ⊆ act).
Proof.
  split.
  - intros env cmd Hctl Henv Hb.
    destruct (proj1 (wp_Ok _ _ _) (wp_recv_command rank C act r n Routing env cmd Hdate Hzmq Hws Hctl Hok HC Htree Hroot
      Hn Hknown Henv Hb)) as ([] & r' & ? & ?). by exists r'.
  - intros msgs. destruct (proj1 (wp_Ok _ _ _) (wp_serving_command rank C act n Routing Hdate Hzmq Hws Htree Hroot Hn
      msgs r ltac:(by exists act))) as ([] & r' & ? & act' & ? & ? & _). exists r'. split; [done|]. by exists act'.
Qed.

Definition example_log : LogFile := {| log_filename := Some (str "/var/log/zerogw.log"); open_log _ _ := 5%Z |}.

Lemma example_tree_of : tree_of (λ _, 0) (static_route <$> routes example_subscribed).
Proof.
  split. intros rid rt child E Hc.
  assert (Hall : Forall (λ p, rt_children p.2 = []) (map_to_list (static_route <$> routes example_subscribed)))
    by (vm_compute; repeat constructor).
  rewrite Forall_forall in Hall. apply elem_of_map_to_list in E. specialize (Hall _ E). simpl in Hall.
  rewrite Hall in Hc. by apply elem_of_nil in Hc.
Qed.

Lemma example_known h hy : h ∈ ({[0]} : gset nat) → hybis example_subscribed !! h = Some hy →
  is_Some ((static_route <$> routes example_subscribed) !! h_route hy).
Proof.
  intros ->%elem_of_singleton E. vm_compute in E. injection E as <-. by eexists.
Qed.

Lemma pause_websockets_correct_witness :
  let LL : LogLevel := 0%Z in let MM : Malloc := λ _ _, true in let EE := accepting_env in
  ∃ r', pause_websockets 1 0 true example_subscribed = Ok tt r' ∧
    session_of r' 0 = Some (1%Z, [str "ZEROGW:paused"]).
Proof.
  intros LL MM EE.
  destruct (@pause_websockets_correct LL MM EE (λ _, 0) (static_route <$> routes example_subscribed)
    {[0]} example_subscribed 1 0 true ltac:(by eexists) accepting_laws example_subscribed_ok eq_refl
    example_tree_of ltac:(by eexists) Nat.lt_0_1 example_known) as [Hgo _].
  destruct Hgo as (r' & Hrun & _); [by split|].
  exists r'. split; [exact Hrun|]. vm_compute in Hrun. injection Hrun as <-. vm_compute. reflexivity.
Defined.

Lemma recv_command_correct_witness :
  let LL : LogLevel := 0%Z in let MM : Malloc := λ _ _, true in let EE := accepting_env in let FF := example_log in
  ∃ r', recv_command 1 0 [[str "client"; []; str "reopen_logs"]] example_subscribed = Ok tt r' ∧
    control_wire (trace r') = ([[str "client"; []; str "logs_reopened"]], []) ∧ logfile r' = 5%Z.
Proof.
  intros LL MM EE FF.
  destruct (@recv_command_correct LL MM EE FF (λ _, 0) (static_route <$> routes example_subscribed)
    {[0]} example_subscribed 1 0 ltac:(by eexists) accepting_laws ltac:(by split)
    example_subscribed_ok eq_refl example_tree_of ltac:(by eexists) Nat.lt_0_1 example_known) as [Hgo _].
  destruct (Hgo [str "client"] (str "reopen_logs")) as (r' & Hrun & _);
    [done|by repeat constructor|vm_compute; reflexivity|].
  exists r'. split; [exact Hrun|]. vm_compute in Hrun. injection Hrun as <-. split; vm_compute; reflexivity.
Defined.

(** A message whose envelope has no empty part at its end is given up, but the
    parts that went back already are not completed: the reply to the next command
    is appended to them, and its client gets them in front of its own envelope. *)
Theorem unterminated_command `{LogLevel, Malloc, Env, LogFile} (r : root) (n : nat) (Routing : route_id)
    (pre : list bytes) (lst : bytes) (env : list bytes)
    (Hctl : ∀ tr p more, zmq_send_res tr Control p more = Sent)
    (Hpre : Forall (λ p, p ≠ []) pre) (Hne : pre ≠ []) (Henv : Forall (λ p, p ≠ []) env)
    (Hbetween : (control_wire (trace r)).2 = []) :
  wp (recv_command n Routing [pre ++ [lst]; env ++ [[]; str "list_commands"]]) (λ _ r',
    control_wire (trace r') = ((control_wire (trace r)).1 ++
      [pre ++ env ++ [[]; str "list_commands"; str "pause_websockets"; str "resume_websockets"; str "sync_now";
                      str "reopen_logs"]], [])) r.
Proof.
  unfold recv_command. cbn [mfor]. apply wp_bind.
  assert (Hfirst : ∃ k p q l, pre ++ [lst] = p :: q :: l ∧ length (pre ++ [lst]) = S k).
  { destruct pre as [|p [|q pre]]; [done|..]; simpl; eauto 10. }
  destruct Hfirst as (k & p & q & l & El & ->). rewrite El. cbn [recv_parts]. apply wp_bind.
  unfold recv_message at 1. apply wp_bind. eapply (wp_echo_unterminated Hctl pre lst); [done..|by rewrite <- El|].
  apply wp_ret. assert (Hk : ∀ r1 (Q : unit → root → Prop), Q tt r1 → wp (recv_parts k n Routing []) Q r1).
  { intros r1 Q HQ. by destruct k; apply wp_ret. }
  apply Hk. apply wp_bind.
  assert (Hsecond : ∃ k p q l, env ++ [[]; str "list_commands"] = p :: q :: l ∧
    length (env ++ [[]; str "list_commands"]) = S k).
  { destruct env as [|p' [|q' env]]; simpl; eauto 10. }
  destruct Hsecond as (k' & p' & q' & l' & El' & ->). rewrite El'. cbn [recv_parts]. apply wp_bind.
  unfold recv_message. apply wp_bind.
  eapply (wp_echo_envelope Hctl env [str "list_commands"]); [done..|by rewrite <- El'|].
  apply wp_bind. change (run_command n Routing (str "list_commands")) with (mret (M := M root)
    [str "list_commands"; str "pause_websockets"; str "resume_websockets"; str "sync_now"; str "reopen_logs"]).
  apply wp_ret, wp_bind, (wp_reply_all Hctl), wp_ret.
  assert (Hk' : ∀ r1 (Q : unit → root → Prop), Q tt r1 → wp (recv_parts k' n Routing []) Q r1).
  { intros r1 Q HQ. by destruct k'; apply wp_ret. }
  apply Hk', wp_ret. rewrite !noted_noted. unfold noted. simpl trace.
  rewrite control_wire_app, !foldl_app, !control_leading. cbn [fst snd].
  cbn [foldl control_step fst snd]. by rewrite Hbetween, <- !app_assoc.
Qed.

Lemma unterminated_command_witness :
  let LL : LogLevel := 0%Z in let MM : Malloc := λ _ _, true in let EE := accepting_env in let FF := example_log in
  ∃ r', recv_command 1 0 [[str "client"; str "sync_now"]; [[]; str "list_commands"]] empty_root = Ok tt r' ∧
    (head (control_wire (trace r')).1 ≫= head) = Some (str "client").
Proof.
  intros LL MM EE FF.
  destruct (proj1 (wp_Ok _ _ _) (@unterminated_command LL MM EE FF empty_root 1 0 [str "client"] (str "sync_now") []
    ltac:(done) ltac:(by repeat constructor) ltac:(done) ltac:(constructor) eq_refl)) as ([] & r' & Hrun & Hw).
  exists r'. split; [exact Hrun|]. by rewrite Hw.
Defined.
