(* ===== verification/Stats.v ===== *)
(** * Statistics (flush_statistics, on_connect and on_disconnect of main.c)

    A timer publishes the counters of the server, one line of text for each.  The
    lines are printed into a fixed array; a collector can read them back. *)

From S2P Require Import Prelude Sieve Pool MsgQueue Uidgen Links State Topics Backend Outputs Hybi.
From S2P Require Import CometArgs Request Comet.

(** ** Operations *)

(** The configuration of the reports, and whether a message of a size can be
    allocated. *)
Class EstpConfig := {
  host_name : bytes;
  application_name : bytes;
  interval : Z;
  zmq_msg_init_size : list event → nat → bool;
}.

(** A number that is reported: its name, how it is computed from the counters,
    and what follows it in the line. *)
Record metric := {
  m_name : bytes;
  m_value : statistics → Z;
  m_suffix : bytes;
}.
Definition gauge (name : string) (a b : statistics → Z) : metric :=
  {| m_name := str name; m_value st := u64 (a st - b st); m_suffix := [] |}.
Definition counter (name : string) (a : statistics → Z) : metric :=
  {| m_name := str name; m_value := a; m_suffix := str ":c" |}.

(** src/src/main.c:45-121 [flush_statistics] *)
Definition gauges : list metric :=
  [gauge "connections.total" st_connects st_disconnects;
   gauge "requests.processing" st_http_requests st_http_replies;
   gauge "connections.websockets" st_websock_connects st_websock_disconnects;
   gauge "websockets.comets" st_comet_connects st_comet_disconnects;
   gauge "websockets.topics" st_topics_created st_topics_removed;
   gauge "websockets.subscriptions" st_websock_subscribed st_websock_unsubscribed;
   gauge "websockets.backend_queue" st_websock_backend_queued st_websock_backend_unqueued].

(** src/src/main.c:122-209 [flush_statistics] *)
Definition comet_counters : list metric :=
  [counter "requests.issued" st_http_requests;
   counter "requests.forwarded" st_zmq_requests;
   counter "comet.acks" st_comet_acks;
   counter "comet.empty_replies" st_comet_empty_replies;
   counter "comet.aborted_replies" st_comet_aborted_replies;
   counter "comet.received_messages" st_comet_aborted_replies;
   counter "comet.send_messages" st_comet_aborted_replies;
   counter "comet.send_batches" st_comet_aborted_replies].

(** src/src/main.c:210-286 [flush_statistics] *)
Definition websock_counters : list metric :=
  [counter "websockets.sent_messages" st_websock_sent;
   counter "websockets.received_messages" st_websock_received;
   counter "websockets.published_messages" st_websock_published;
   counter "websockets.sent_pings" st_websock_sent_pings;
   counter "disk.requests" st_disk_requests;
   counter "disk.reads" st_disk_reads;
   counter "disk.bytes_read" st_disk_bytes_read].

Section operations.
Context `{Env, EstpConfig}.

(** [sprintf] of one line; src/src/main.c:45-51 [flush_statistics] *)
Definition estp_line (tstamp : bytes) (m : metric) (st : statistics) : bytes :=
  str "ESTP:" ++ take 64 host_name ++ str ":" ++ take 64 application_name ++ str "::" ++ m_name m ++ str ": " ++
  tstamp ++ str " " ++ show_int 20 interval ++ str " " ++ show_int 20 (m_value m st) ++ m_suffix m.

(** The array has 512 bytes, the last for the NUL.  False if the rest of the lines
    is given up; src/src/main.c:44-54 [flush_statistics] *)
Definition send_line (tstamp : bytes) (m : metric) : MR bool :=
  r ← get;
  let buf := estp_line tstamp m (stat r) in
  if decide (512 < length buf + 1) then undefined OutOfBounds
  else if negb (zmq_msg_init_size (trace r) (length buf)) then mret false
  else
    let res := zmq_send_res (trace r) Estp buf false in
    emit (ZmqSend Estp buf false res);;
    mret (bool_decide (res = Sent)).

Fixpoint send_lines (tstamp : bytes) (l : list metric) : MR unit :=
  match l with
  | [] => mret tt
  | m :: l => ok ← send_line tstamp m; if ok : bool then send_lines tstamp l else mret tt
  end.

(** src/src/main.c:30-287 [flush_statistics] *)
Definition flush_statistics : MR unit :=
  r ← get;
  let tstamp := time_text (trace r) (str "%Y-%m-%dT%H:%M:%SZ") in
  send_lines tstamp (gauges ++ comet_counters ++ websock_counters).
End operations.

(** src/src/main.c:289-291 [on_connect] *)
Definition on_connect : MR unit :=
  modify (λ r, r <| stat ::= λ s, s <| st_connects ::= λ x, u64 (x + 1) |> |>).

(** src/src/main.c:293-295 [on_disconnect] *)
Definition on_disconnect : MR unit :=
  modify (λ r, r <| stat ::= λ s, s <| st_disconnects ::= λ x, u64 (x + 1) |> |>).

(** ** Specification *)

(** What a report promises under a name: a number of things that are there now, or
    a count since the start. *)
Record promise := mk_promise { p_name : string; p_count : bool; p_value : statistics → Z }.

Definition now (name : string) (a b : statistics → Z) : promise := mk_promise name false (λ st, a st - b st)%Z.
Definition since_start (name : string) (a : statistics → Z) : promise := mk_promise name true a.

Definition promised : list promise :=
  [now "connections.total" st_connects st_disconnects;
   now "requests.processing" st_http_requests st_http_replies;
   now "connections.websockets" st_websock_connects st_websock_disconnects;
   now "websockets.comets" st_comet_connects st_comet_disconnects;
   now "websockets.topics" st_topics_created st_topics_removed;
   now "websockets.subscriptions" st_websock_subscribed st_websock_unsubscribed;
   now "websockets.backend_queue" st_websock_backend_queued st_websock_backend_unqueued;
   since_start "requests.issued" st_http_requests;
   since_start "requests.forwarded" st_zmq_requests;
   since_start "comet.acks" st_comet_acks;
   since_start "comet.empty_replies" st_comet_empty_replies;
   since_start "comet.aborted_replies" st_comet_aborted_replies;
   since_start "comet.received_messages" st_comet_received_messages;
   since_start "comet.send_messages" st_comet_sent_messages;
   since_start "comet.send_batches" st_comet_sent_batches;
   since_start "websockets.sent_messages" st_websock_sent;
   since_start "websockets.received_messages" st_websock_received;
   since_start "websockets.published_messages" st_websock_published;
   since_start "websockets.sent_pings" st_websock_sent_pings;
   since_start "disk.requests" st_disk_requests;
   since_start "disk.reads" st_disk_reads;
   since_start "disk.bytes_read" st_disk_bytes_read].

(** The names under which the number of aborted replies is reported instead. *)
Definition misreported : list string := ["comet.received_messages"; "comet.send_messages"; "comet.send_batches"]%string.

(** The number that goes out under a name, of 64 bits. *)
Definition reported (p : promise) (st : statistics) : Z :=
  if decide (p_name p ∈ misreported) then st_comet_aborted_replies st else u64 (p_value p st).

(** The counters are 64-bit numbers. *)
Definition counters_ok (st : statistics) : Prop :=
  Forall (λ p, p_count p = true → 0 ≤ p_value p st < 2 ^ 64)%Z promised.

(** What a collector reads from a line. *)
Record reading := {
  e_host : bytes;
  e_application : bytes;
  e_name : bytes;
  e_time : bytes;
  e_interval : Z;
  e_value : Z;
  e_suffix : bytes;
}.

(** The text before the first [d] and the text after it. *)
Definition cut (d : ascii) (s : bytes) : option (bytes * bytes) :=
  match upto d s with (a, _ :: b) => Some (a, b) | _ => None end.

Definition read_line (s : bytes) : option reading :=
  '(magic, s) ← cut ":" s;
  if decide (magic ≠ str "ESTP") then None else
  '(host, s) ← cut ":" s;
  '(application, s) ← cut ":" s;
  '(resource, s) ← cut ":" s;
  if decide (resource ≠ []) then None else
  '(name, s) ← cut ":" s;
  '(empty, s) ← cut " " s;
  '(time, s) ← cut " " s;
  '(ivl, s) ← cut " " s;
  let '(interval, n) := digits 0 0 ivl in
  let '(value, n') := digits 0 0 s in
  if decide (n = 0 ∨ n ≠ length ivl ∨ n' = 0 ∨ empty ≠ []) then None else
  Some {| e_host := host; e_application := application; e_name := name; e_time := time;
          e_interval := interval; e_value := value; e_suffix := drop n' s |}.

Definition metrics : list metric := gauges ++ comet_counters ++ websock_counters.

(** A number of the table is the one that is reported. *)
Definition fulfils (st : statistics) (m : metric) (p : promise) : Prop :=
  m_name m = str (p_name p) ∧ m_suffix m = (if p_count p then str ":c" else []) ∧ m_value m st = reported p st.

Lemma metrics_fulfil st : counters_ok st → Forall2 (fulfils st) metrics promised.
Proof.
  unfold counters_ok, promised, metrics, gauges, comet_counters, websock_counters. cbn [app]. intros Hc.
  repeat (apply Forall_cons in Hc as [? Hc]; constructor;
    [split_and!; [reflexivity..|]; unfold reported;
     first [rewrite decide_False by (apply (bool_decide_unpack _); vm_compute; exact I)
           |rewrite decide_True by (apply (bool_decide_unpack _); vm_compute; exact I)]; simpl;
     first [reflexivity|by rewrite u64_small by auto]|]).
  constructor.
Qed.

Section specification.
Context `{Env, EstpConfig}.

Definition reading_of (tstamp : bytes) (st : statistics) (m : metric) : reading :=
  {| e_host := take 64 host_name; e_application := take 64 application_name; e_name := m_name m;
     e_time := tstamp; e_interval := interval; e_value := m_value m st; e_suffix := m_suffix m |}.

(** The message carries the number under its name; it fits in the array. *)
Definition carries (tstamp : bytes) (st : statistics) (p : promise) (e : event) : Prop :=
  ∃ line, e = ZmqSend Estp line false Sent ∧ length line < 512 ∧ read_line line = Some
    {| e_host := take 64 host_name; e_application := take 64 application_name; e_name := str (p_name p);
       e_time := tstamp; e_interval := interval; e_value := reported p st;
       e_suffix := if p_count p then str ":c" else [] |}.

Definition report (tstamp : bytes) (st : statistics) (m : metric) : event :=
  ZmqSend Estp (estp_line tstamp m st) false Sent.

(** Text that the fields of a line can hold. *)
Definition texts_ok (tstamp : bytes) : Prop :=
  length tstamp ≤ 31 ∧ (" "%char ∉ tstamp) ∧ (":"%char ∉ take 64 host_name) ∧
  (":"%char ∉ take 64 application_name) ∧
  (0 ≤ interval ≤ 86400)%Z.

(** A metric that fits and can be read back. *)
Definition metric_ok (st : statistics) (m : metric) : Prop :=
  length (m_name m) ≤ 30 ∧ (":"%char ∉ m_name m) ∧ (0 ≤ m_value m st < 2 ^ 64)%Z ∧
  (m_suffix m = [] ∨ m_suffix m = str ":c").

(** ** Lemmas *)

Lemma cut_in d a b : d ∉ a → cut d (a ++ d :: b) = Some (a, b).
Proof. intros Hd. unfold cut. by rewrite upto_in. Qed.

Lemma cut_here d b : cut d (d :: b) = Some ([], b).
Proof. unfold cut. cbn [upto]. by rewrite decide_True. Qed.

Lemma show_int_length n z : length (show_int n z) ≤ n.
Proof. revert z. induction n as [|n IH]; intros z; simpl; [done|]. rewrite length_app. simpl. case_decide; simpl; [lia|]. pose proof (IH (z / 10)%Z). lia. Qed.

Lemma show_int_digits n z : (0 ≤ z)%Z → Forall (λ c, is_digit c = true) (show_int n z).
Proof.
  revert z. induction n as [|n IH]; intros z Hz; [constructor|]. cbn [show_int]. apply Forall_app. split.
  - case_decide; [constructor|]. apply IH, Z.div_pos; lia.
  - repeat constructor. pose proof (Z.mod_pos_bound z 10). unfold is_digit. rewrite uchar_char_of, Z.mod_small by lia.
    by rewrite !(proj2 (Z.leb_le _ _)) by lia.
Qed.

Lemma show_int_no d n z : (0 ≤ z)%Z → is_digit d = false → d ∉ show_int n z.
Proof. intros Hz Hd Hin. pose proof (show_int_digits n z Hz) as Hall. rewrite Forall_forall in Hall. specialize (Hall d Hin). congruence. Qed.

Lemma digits_show_suffix z suffix : (0 ≤ z < 2 ^ 64)%Z → (suffix = [] ∨ suffix = str ":c") →
  digits 0 0 (show_int 20 z ++ suffix) = (z, length (show_int 20 z)) ∧ length (show_int 20 z) ≠ 0.
Proof.
  intros Hz Hs. assert (2 ^ 64 < 10 ^ 20)%Z by done. rewrite digits_show by (change (Z.of_nat 20) with 20%Z; lia). split.
  - destruct Hs as [->| ->]; cbn [digits]; [|change (is_digit ":") with false; cbn iota]; f_equal; lia.
  - destruct (show_int_head 20 z) as (c & l & -> & _); [lia..|done].
Qed.

Lemma estp_line_length tstamp m st : texts_ok tstamp → metric_ok st m → length (estp_line tstamp m st) < 512.
Proof.
  intros (Ht & _) (Hn & _ & _ & Hs). unfold estp_line. rewrite !length_app.
  pose proof (firstn_le_length 64 host_name). pose proof (firstn_le_length 64 application_name).
  pose proof (show_int_length 20 interval). pose proof (show_int_length 20 (m_value m st)).
  assert (length (m_suffix m) ≤ 2) by (destruct Hs as [-> | ->]; simpl; lia).
  rewrite !length_take. simpl (length (str _)). lia.
Qed.

Lemma read_estp_line tstamp m st : texts_ok tstamp → metric_ok st m →
  read_line (estp_line tstamp m st) = Some (reading_of tstamp st m).
Proof.
  intros (_ & Ht & Hh & Ha & Hi) (_ & Hn & Hv & Hs). unfold estp_line, read_line.
  change (str "ESTP:") with (str "ESTP" ++ [":"%char]). change (str "::") with ([":"%char] ++ [":"%char]).
  change (str ": ") with ([":"%char] ++ [" "%char]). change (str " ") with [" "%char]. change (str ":") with [":"%char].
  rewrite <- !app_assoc. cbn [app].
  rewrite cut_in by (intros Hin; repeat (apply elem_of_cons in Hin as [Hin|Hin]; [done|]); by apply elem_of_nil in Hin).
  cbn [mbind option_bind]. rewrite decide_False by (intros Hne; by apply Hne).
  rewrite cut_in by done. cbn [mbind option_bind]. rewrite cut_in by done. cbn [mbind option_bind].
  rewrite cut_here. cbn [mbind option_bind]. rewrite decide_False by (intros Hne; by apply Hne).
  rewrite cut_in by done. cbn [mbind option_bind].
  rewrite cut_here. cbn [mbind option_bind].
  rewrite cut_in by done. cbn [mbind option_bind].
  rewrite cut_in by (apply show_int_no; [lia|done]). cbn [mbind option_bind].
  assert (0 ≤ interval < 2 ^ 64)%Z as Hi' by lia.
  destruct (digits_show_suffix interval [] Hi' ltac:(by left)) as [E1 Hz1]. rewrite app_nil_r in E1. rewrite E1.
  destruct (digits_show_suffix (m_value m st) (m_suffix m) Hv Hs) as [E2 Hz2]. rewrite E2.
  rewrite decide_False by (intros [?|[?|[?|?]]]; done). by rewrite drop_app_length.
Qed.

Lemma metrics_ok st m : counters_ok st → m ∈ metrics → metric_ok st m.
Proof.
  intros Hst Hm. destruct (list_elem_of_lookup_1 _ _ Hm) as [i Hi].
  destruct (Forall2_lookup_l _ _ _ _ _ (metrics_fulfil st Hst) Hi) as (p & Hp & _ & _ & Ev).
  assert (Hall : forallb (λ m, bool_decide (length (m_name m) ≤ 30 ∧ (":"%char ∉ m_name m) ∧
    (m_suffix m = [] ∨ m_suffix m = str ":c"))) metrics = true) by (vm_compute; reflexivity).
  rewrite forallb_forall in Hall. specialize (Hall m (proj1 (list_elem_of_In _ _) Hm)).
  apply bool_decide_eq_true in Hall as (? & ? & ?). unfold metric_ok. rewrite Ev.
  split_and!; try done; unfold reported; (case_decide; [|apply u64_range]).
  all: unfold counters_ok in Hst; rewrite Forall_forall in Hst;
    assert (Ha : since_start "comet.aborted_replies" st_comet_aborted_replies ∈ promised)
      by (apply list_elem_of_In; unfold promised; simpl; tauto);
    specialize (Hst _ Ha eq_refl); simpl in Hst; lia.
Qed.

Lemma carries_report tstamp st m p : texts_ok tstamp → metric_ok st m → fulfils st m p →
  carries tstamp st p (report tstamp st m).
Proof.
  intros Ht Hm (En & Es & Ev). exists (estp_line tstamp m st). split; [done|]. split; [by apply estp_line_length|].
  rewrite read_estp_line by done. unfold reading_of. by rewrite En, Es, Ev.
Qed.

(** A line that the network refused. *)
Definition lost (e : event) : Prop :=
  match e with ZmqSend Estp _ false res => res ≠ Sent | _ => False end.

(** Something refused a line. *)
Definition refusal : Prop :=
  (∃ tr n, zmq_msg_init_size tr n = false) ∨ (∃ tr part, zmq_send_res tr Estp part false ≠ Sent).

Lemma wp_send_lines tstamp st l : texts_ok tstamp → Forall (metric_ok st) l → ∀ r, stat r = st →
  wp (send_lines tstamp l) (λ _ r', ∃ sent rest failed, l = sent ++ rest ∧ Forall lost failed ∧
    r' = noted r ((report tstamp st <$> sent) ++ failed) ∧ (rest ≠ [] → refusal)) r.
Proof.
  intros Ht Hl. induction Hl as [|m l Hm Hl IH]; intros r Hst; cbn [send_lines].
  { apply wp_ret. exists [], [], []. by rewrite noted_nil. }
  apply wp_bind. unfold send_line. apply wp_bind, wp_get. cbn beta zeta. rewrite Hst.
  rewrite decide_False by (pose proof (estp_line_length tstamp m st Ht Hm); lia).
  destruct (zmq_msg_init_size _ _) eqn:Ei; cbn [negb].
  2:{ apply wp_ret, wp_ret. exists [], (m :: l), []. rewrite noted_nil. split_and!; try done. intros _. left; eauto. }
  apply wp_bind, wp_emit, wp_ret.
  destruct (decide (zmq_send_res (trace r) Estp (estp_line tstamp m st) false = Sent)) as [Es|Es].
  - rewrite bool_decide_true by done. rewrite Es. eapply wp_mono; [by apply IH|].
    intros [] r' (sent & rest & failed & -> & Hf & -> & Hr). exists (m :: sent), rest, failed.
    split_and!; [done..| |done]. change (r <| trace := _ |>) with (noted r [report tstamp st m]). by rewrite noted_noted.
  - rewrite bool_decide_false by done. apply wp_ret. exists [], (m :: l). eexists [_].
    split_and!; [done| |reflexivity|intros _; right; by eexists _, _]. by repeat constructor.
Qed.
End specification.

(** ** Claims *)

(** C32: At every report the lines go out in the order of the list of names, one
    message each, until the network or the memory refuses one: then the others are
    given up, and nothing else of the server changes.  No line is longer than the
    array it is printed into, and a collector reads back from each line the name,
    the time, the interval and the value that the name promises, modulo 2^64,
    except under three names ("comet.received_messages", "comet.send_messages" and
    "comet.send_batches"), where it reads the number of aborted replies. *)
Theorem flush_statistics_correct `{Env, EstpConfig} (r : root) (tstamp : bytes)
    (Htime : time_text (trace r) (str "%Y-%m-%dT%H:%M:%SZ") = tstamp) (Htexts : texts_ok tstamp)
    (Hst : counters_ok (stat r)) :
  ∃ r' sent rest lines failed, flush_statistics r = Ok tt r' ∧ promised = sent ++ rest ∧
    r' = noted r (lines ++ failed) ∧ Forall2 (carries tstamp (stat r)) sent lines ∧
    Forall lost failed ∧ (rest ≠ [] → refusal).
Proof.
  assert (Hall : Forall (metric_ok (stat r)) metrics) by (apply Forall_forall; intros m; by apply metrics_ok).
  assert (Hw : wp flush_statistics (λ _ r', ∃ sent rest failed, metrics = sent ++ rest ∧ Forall lost failed ∧
    r' = noted r ((report tstamp (stat r) <$> sent) ++ failed) ∧ (rest ≠ [] → refusal)) r).
  { unfold flush_statistics. apply wp_bind, wp_get. cbn beta zeta. rewrite Htime.
    by apply (wp_send_lines tstamp (stat r)). }
  apply wp_Ok in Hw as ([] & r' & Hrun & sent & rest & failed & E & Hf & -> & Hr).
  pose proof (metrics_fulfil (stat r) Hst) as Hful. rewrite E in Hall, Hful.
  apply Forall2_app_inv_l in Hful as (psent & prest & Hs & Hp & Epr). apply Forall_app in Hall as [Hall _].
  eexists _, psent, prest, (report tstamp (stat r) <$> sent), failed. split_and!; [exact Hrun|done|done| |done|].
  - clear -Hs Hall Htexts. induction Hs as [|m p sent psent Hm Hs IH]; [constructor|]. apply Forall_cons in Hall as [? ?].
    constructor; [by apply carries_report|by apply IH].
  - intros Hne. apply Hr. intros ->. by apply Forall2_nil_inv_l in Hp.
Qed.

Definition example_estp : EstpConfig := {|
  host_name := str "localhost"; application_name := str "zerogw"; interval := 10; zmq_msg_init_size _ _ := true;
|}.
Definition example_clock : Env := {|
  zmq_send_res := λ _ _ _ _, Sent; ws_send_res := λ _ _ _, WsOk; zmq_writable := λ _ _, true;
  time_text := λ _ _, str "2012-03-01T12:00:00Z"; wait_text := λ _ _, []; http_date := λ _, None;
  retries := 3; sizeof_hybi := 160; sizeof_comet := 200;
  message_malloc := λ _, true; message_init_fails := λ _, false; message_text := λ _, true;
  backlog_malloc := limited_malloc; backlog_limit := limited_malloc_limit;
|}.

Lemma flush_statistics_correct_witness :
  let EE := example_clock in let CC := example_estp in
  ∃ r', flush_statistics empty_root = Ok tt r' ∧
    head (trace r') = Some (ZmqSend Estp
      (str "ESTP:localhost:zerogw::connections.total: 2012-03-01T12:00:00Z 10 0") false Sent).
Proof.
  intros EE CC.
  destruct (@flush_statistics_correct EE CC empty_root (str "2012-03-01T12:00:00Z") eq_refl
    ltac:(split_and!; try (by vm_compute); apply (bool_decide_unpack _); vm_compute; exact I)
    ltac:(repeat (apply Forall_cons_2; [intros _; vm_compute; split; [discriminate|reflexivity]|]); apply Forall_nil_2))
    as (r' & sent & rest & lines & failed & Hrun & _).
  exists r'. split; [exact Hrun|]. vm_compute in Hrun. injection Hrun as <-. vm_compute. reflexivity.
Defined.

(** The counters of what browsers and backends exchange through polling never
    reach a report: three lines carry the number of aborted replies instead. *)
Theorem polling_counters_unreported `{EstpConfig} (tstamp : bytes) (st : statistics) (m : metric) (a b c : Z) :
  m ∈ metrics →
  estp_line tstamp m (st <| st_comet_received_messages := a |> <| st_comet_sent_messages := b |>
                         <| st_comet_sent_batches := c |>) = estp_line tstamp m st.
Proof.
  intros Hm. unfold estp_line. do 11 f_equal. f_equal. unfold metrics in Hm.
  repeat (apply elem_of_cons in Hm as [->|Hm]; [done|]). by apply elem_of_nil in Hm.
Qed.
