(* ===== verification/Log.v ===== *)
(** * The log (log.c)

    Messages are printed into arrays of 4096 bytes: a plain message, one with a
    description of the error, a warning that is not repeated too often, and one
    that may hold text from a browser, which is escaped. *)

From S2P Require Import Prelude CometArgs.

(** ** Arrays *)

(** Every array of log.c has this size; a cell may be uninitialized. *)
Definition BUFSIZE : nat := 4096.
Definition buffer : Type := list (option ascii).
Definition fresh : buffer := replicate BUFSIZE None.
Definition NL : ascii := ascii_of_nat 10.
Definition CR : ascii := ascii_of_nat 13.
Definition QUOTE : ascii := ascii_of_nat 34.
Definition BACKSLASH : ascii := ascii_of_nat 92.

(** What was written to the log, and the static array of the place of a warning
    ([tt]: when it was printed and called last, and the calls since it was
    printed). *)
Record site := mk_site {
  written : list bytes;
  WT_LASTPRINT : Z;
  WT_LASTCALL : Z;
  WT_COUNTER : Z;
}.
#[export] Instance rebuild_site : Rebuild site := λ s,
  mk_site (written s) (WT_LASTPRINT s) (WT_LASTCALL s) (WT_COUNTER s).

Abbreviation ML := (M site).

(** Characters stored from index [idx]. *)
Definition store (buf : buffer) (idx : nat) (l : bytes) : ML buffer :=
  if decide (idx + length l ≤ length buf)
  then mret (take idx buf ++ (Some <$> l) ++ drop (idx + length l) buf)
  else undefined OutOfBounds.

(** [snprintf(buf + idx, size, ...)] of the whole [text]; the size is an unsigned
    number.  The result is the length that the text would need. *)
Definition snprintf (buf : buffer) (idx : nat) (size : Z) (text : bytes) : ML (buffer * nat) :=
  if decide (u64 size = 0)%Z then mret (buf, length text)
  else
    let room := Z.to_nat (Z.min (u64 size - 1) (Z.of_nat (length text))) in
    buf ← store buf idx (take room text ++ [NUL]);
    mret (buf, length text).

(** [write(logfile, buf, n)] *)
Definition write_log (buf : buffer) (n : nat) : ML unit :=
  if decide (length buf < n) then undefined OutOfBounds
  else match mapM id (take n buf) with
       | Some l => modify (λ s, s <| written ::= λ w, w ++ [l] |>)
       | None => undefined Uninitialized
       end.

(** ** Operations

    [head] is the date, the level and the place in the source as they are printed
    in front of a message, [text] the message; both are printed in full. *)

Definition left_at (idx : nat) : Z := (Z.of_nat BUFSIZE - Z.of_nat idx)%Z.

(** The first lines of every function of the log: the array after both texts and
    the length that they need; src/src/log.c:35-47 [logmsg] *)
Definition print_message (head text : bytes) : ML (buffer * nat) :=
  '(buf, idx) ← snprintf fresh 0 (Z.of_nat BUFSIZE) head;
  '(buf, n) ← snprintf buf idx (left_at idx) text;
  mret (buf, idx + n).

(** src/src/log.c:48-53 [logmsg] *)
Definition end_line (level : Z) (buf : buffer) (idx : nat) : ML unit :=
  let idx := idx `min` 4094 in
  buf ← store buf idx [NL];
  write_log buf (S idx);;
  if decide (level ≤ 2)%Z then abort_ else mret tt.

(** src/src/log.c:35-54 [logmsg] *)
Definition logmsg (level : Z) (head text : bytes) : ML unit :=
  '(buf, idx) ← print_message head text;
  end_line level buf idx.

(** [strlen] of what was put at [idx]. *)
Fixpoint strlen_at (buf : buffer) : ML nat :=
  match buf with
  | [] => undefined OutOfBounds
  | None :: _ => undefined Uninitialized
  | Some c :: buf => if decide (c = NUL) then mret 0 else n ← strlen_at buf; mret (S n)
  end.

(** [description] is what [strerror_r] gives for the error.
    src/src/log.c:56-82 [logstd] *)
Definition logstd (level : Z) (head text description : bytes) : ML unit :=
  '(buf, idx) ← print_message head text;
  '(buf, idx) ← (if decide (idx < 4093) then
                   buf ← store buf idx (str ": ");
                   let idx := idx + 2 in
                   '(buf, _) ← snprintf buf idx (left_at idx) description;
                   n ← strlen_at (drop idx buf);
                   mret (buf, idx + n)
                 else mret (buf, idx));
  end_line level buf idx.

(** [sprintf("%ld")] *)
Definition show_long (z : Z) : bytes :=
  if decide (z < 0)%Z then "-"%char :: show_int 20 (- z) else show_int 20 z.

(** The note about the calls that were not printed. *)
Definition repeated (counter : Z) : bytes :=
  str " (repeated " ++ show_long counter ++ str " times)".

(** [tm] is the time of the call.  src/src/log.c:84-111 [timedwarn] *)
Definition timedwarn (warning_timeout tm : Z) (head text : bytes) : ML unit :=
  modify (λ s, s <| WT_COUNTER ::= Z.add 1 |>);;
  s ← get;
  (if decide (WT_LASTPRINT s < tm - warning_timeout)%Z then
     '(buf, idx) ← print_message head text;
     let idx := idx `min` 4094 in
     '(buf, idx) ← (if decide (WT_LASTCALL s > tm - warning_timeout)%Z then
                      '(buf, n) ← snprintf buf idx (left_at idx) (repeated (WT_COUNTER s));
                      mret (buf, idx + n)
                    else mret (buf, idx));
     buf ← store buf idx [NL];
     write_log buf (S idx);;
     modify (λ s, s <| WT_LASTPRINT := tm |> <| WT_COUNTER := 0 |>)%Z
   else mret tt);;
  modify (λ s, s <| WT_LASTCALL := tm |>).

(** [isprint] in the locale of a program that chooses none. *)
Definition isprint (c : ascii) : bool := (32 <=? schar c)%Z && (schar c <=? 126)%Z.

(** src/src/log.c:29-29 [hexchar] *)
Definition hexchar : bytes := str "0123456789abcdef" ++ [NUL].
Definition get_hexchar (i : Z) : option ascii := if decide (i < 0)%Z then None else hexchar !! Z.to_nat i.

(** What one character is copied as, unless the table of digits is read out of its
    bounds; src/src/log.c:186-209 [logudata] *)
Definition escape_char (c : ascii) : option bytes :=
  if isprint c then
    if decide (c = BACKSLASH) then Some [BACKSLASH; BACKSLASH]
    else if decide (c = QUOTE) then Some [BACKSLASH; QUOTE]
    else Some [c]
  else if decide (c = CR) then Some [BACKSLASH; "r"%char]
  else if decide (c = NL) then Some [BACKSLASH; "n"%char]
  else
    h ← get_hexchar (Z.shiftr (schar c) 4);
    l ← get_hexchar (Z.land (schar c) 15);
    Some [BACKSLASH; "x"%char; h; l].

(** The loop over the [n] characters of the message: [buf2] is filled up to [cur],
    until it is too full for the longest escape.
    src/src/log.c:182-210 [logudata] *)
Fixpoint escape_loop (src : buffer) (buf2 : buffer) (cur : nat) : ML (buffer * nat) :=
  match src with
  | [] => mret (buf2, cur)
  | o :: src =>
      if decide (cur < BUFSIZE - 6) then
        c ← deref Uninitialized o;
        l ← deref OutOfBounds (escape_char c);
        buf2 ← store buf2 cur l;
        escape_loop src buf2 (cur + length l)
      else mret (buf2, cur)
  end.

(** src/src/log.c:166-215 [logudata] *)
Definition logudata (level : Z) (head text : bytes) : ML unit :=
  '(buf, idx) ← print_message head text;
  let idx := idx `min` 4094 in
  '(buf2, cur) ← escape_loop (take idx buf) fresh 0;
  buf2 ← store buf2 cur [NL];
  write_log buf2 (S cur);;
  if decide (level ≤ 2)%Z then abort_ else mret tt.

(** ** Specification *)

(** The text that fits into a line. *)
Definition line_text (head text : bytes) : bytes := take 4094 (head ++ text).

(** The character that two hexadecimal digits stand for. *)
Definition hex_value (c : ascii) : option Z :=
  p ← list_find (λ d, d = c) (take 16 hexchar); Some (Z.of_nat p.1).

(** Reads an escaped text. *)
Fixpoint unescape (fuel : nat) (s : bytes) : option bytes :=
  match fuel, s with
  | _, [] => Some []
  | S fuel, c :: s =>
      if decide (c ≠ BACKSLASH) then cons c <$> unescape fuel s
      else match s with
           | d :: s' =>
               if decide (d = "r"%char) then cons CR <$> unescape fuel s'
               else if decide (d = "n"%char) then cons NL <$> unescape fuel s'
               else if decide (d = "x"%char) then
                 match s' with
                 | h :: l :: s' =>
                     h ← hex_value h; l ← hex_value l;
                     cons (char_of (16 * h + l)) <$> unescape fuel s'
                 | _ => None
                 end
               else cons d <$> unescape fuel s'
           | [] => None
           end
  | O, _ => None
  end.

(** The escape of a 7-bit character. *)
Definition escaped (c : ascii) : bytes := default [] (escape_char c).
Definition ascii7 (c : ascii) : Prop := (uchar c < 128)%Z.

(** ** Lemmas: arrays *)

Definition holds (buf : buffer) (l : bytes) : Prop :=
  length buf = BUFSIZE ∧ take (length l) buf = Some <$> l.

Lemma holds_fresh : holds fresh [].
Proof. split; [apply length_replicate|done]. Qed.

Lemma holds_length buf l : holds buf l → length l ≤ BUFSIZE.
Proof.
  intros [Hb Ht]. apply (f_equal length) in Ht. rewrite length_fmap, length_take in Ht. lia.
Qed.

Lemma holds_prefix buf l k : holds buf (l ++ k) → holds buf l.
Proof.
  intros [Hb Ht]. split; [done|]. rewrite length_app in Ht.
  apply (f_equal (take (length l))) in Ht. rewrite take_take, fmap_app, take_app_length' in Ht by by rewrite length_fmap.
  rewrite Nat.min_l in Ht by lia. done.
Qed.

Lemma wp_store buf l k idx s (Q : buffer → site → Prop) :
  holds buf (l ++ k) → idx = length l → ∀ l', length l + length l' ≤ BUFSIZE →
  (∀ buf', holds buf' (l ++ l') → Q buf' s) → wp (store buf idx l') Q s.
Proof.
  intros Hh -> l' Hlen HQ. apply holds_prefix in Hh. destruct Hh as [Hb Ht].
  unfold store. rewrite decide_True by (rewrite Hb; done). apply wp_ret, HQ. split.
  - rewrite !length_app, length_take, length_fmap, length_drop, Hb. lia.
  - rewrite Ht, app_assoc, <- fmap_app. by rewrite take_app_length' by by rewrite length_fmap.
Qed.

Lemma wp_snprintf buf l k idx size s text (Q : buffer * nat → site → Prop) :
  holds buf (l ++ k) → idx = length l → (0 < size)%Z → (size + Z.of_nat idx = Z.of_nat BUFSIZE)%Z →
  (∀ buf', holds buf' (l ++ take (Z.to_nat (size - 1)) text ++ [NUL]) → Q (buf', length text) s) →
  wp (snprintf buf idx size text) Q s.
Proof.
  intros Hh Hi Hs Hsize HQ. unfold snprintf. assert (Z.of_nat BUFSIZE < 2 ^ 64)%Z by done.
  rewrite u64_small by lia. rewrite decide_False by lia.
  assert (Htake : take (Z.to_nat (Z.min (size - 1) (Z.of_nat (length text)))) text = take (Z.to_nat (size - 1)) text).
  { destruct (Z.le_ge_cases (size - 1) (Z.of_nat (length text))) as [?|?].
    - by rewrite Z.min_l by lia.
    - rewrite Z.min_r by lia. rewrite !take_ge by lia. done. }
  rewrite Htake. apply wp_bind. eapply (wp_store buf l k); [done..| |].
  - rewrite length_app, length_take. cbn [length]. lia.
  - intros buf' Hb. apply wp_ret. by apply HQ.
Qed.

Lemma wp_print_message head text s (Q : buffer * nat → site → Prop) :
  length head < BUFSIZE →
  (∀ buf, holds buf (take 4095 (head ++ text) ++ [NUL]) → Q (buf, length head + length text) s) →
  wp (print_message head text) Q s.
Proof.
  intros Hl HQ. unfold print_message, BUFSIZE in *. apply wp_bind.
  eapply (wp_snprintf _ [] []); [exact holds_fresh|done|lia|unfold BUFSIZE; simpl length; lia|]. intros buf Hb.
  rewrite take_ge in Hb by lia. cbn [app] in Hb. apply wp_bind. unfold left_at.
  eapply (wp_snprintf buf head [NUL]); [done..|unfold BUFSIZE; lia|lia|]. intros buf' Hb'. apply wp_ret, HQ.
  rewrite take_app, <- app_assoc, (take_ge head) by lia.
  replace (Z.to_nat (Z.of_nat BUFSIZE - Z.of_nat (length head) - 1)) with (4095 - length head) in Hb' by (unfold BUFSIZE; lia).
  done.
Qed.

Lemma holds_line buf head text l :
  holds buf (take 4095 (head ++ text) ++ l) → ∃ k, holds buf (line_text head text ++ k).
Proof.
  intros Hb. exists (drop 4094 (take 4095 (head ++ text)) ++ l). unfold line_text. rewrite app_assoc.
  replace (take 4094 (head ++ text)) with (take 4094 (take 4095 (head ++ text))) by by rewrite take_take.
  by rewrite take_drop.
Qed.

Lemma line_text_length head text : length (line_text head text) = (length head + length text) `min` 4094.
Proof. unfold line_text. rewrite length_take, length_app. lia. Qed.

Lemma wp_write_log buf l k s (Q : unit → site → Prop) n :
  holds buf (l ++ k) → n = length l → Q tt (s <| written ::= λ w, w ++ [l] |>) → wp (write_log buf n) Q s.
Proof.
  intros Hh -> HQ. apply holds_prefix in Hh. pose proof (holds_length _ _ Hh). destruct Hh as [Hb Ht].
  unfold write_log. rewrite decide_False by lia. rewrite Ht.
  assert (mapM id (Some <$> l) = Some l) as -> by (apply mapM_Some, Forall2_fmap_l, Forall_Forall2_diag, Forall_true; done).
  by apply wp_modify.
Qed.

Lemma wp_end_text {A} buf m k s (K : ML A) (Q : A → site → Prop) :
  holds buf (m ++ k) → length m ≤ 4095 → wp K Q (s <| written ::= λ w, w ++ [m ++ [NL]] |>) →
  wp (buf ← store buf (length m) [NL]; write_log buf (S (length m));; K) Q s.
Proof.
  intros Hb Hm HK. apply wp_bind. eapply (wp_store buf m k); [done..|unfold BUFSIZE; simpl; lia|].
  intros buf' Hb'. apply wp_bind. rewrite <- (app_nil_r (m ++ [NL])) in Hb'.
  eapply wp_write_log; [exact Hb'| |done]. rewrite length_app. simpl. lia.
Qed.

(** ** Lemmas: warnings *)
Section warnings.
Context (warning_timeout : Z) (head text : bytes).
Implicit Types s : site.

(** The line of a warning that was called [n] times. *)
Definition warning_line (again : bool) (n : Z) : bytes :=
  line_text head text ++ (if again then repeated n else []).

(** The state after a call at [tm]. *)
Definition warned (tm : Z) s : site :=
  if decide (WT_LASTPRINT s < tm - warning_timeout)%Z then
    let line := warning_line (bool_decide (WT_LASTCALL s > tm - warning_timeout)%Z) (1 + WT_COUNTER s) in
    mk_site (written s ++ [line ++ [NL]]) tm tm 0
  else mk_site (written s) (WT_LASTPRINT s) tm (1 + WT_COUNTER s).

Hypothesis Hhead : length head < BUFSIZE.

Lemma wp_timedwarn tm s :
  length (warning_line true (1 + WT_COUNTER s)) ≤ 4095 →
  wp (timedwarn warning_timeout tm head text) (λ _ s', s' = warned tm s) s.
Proof.
  intros Hfit. unfold warning_line in Hfit. rewrite length_app in Hfit.
  unfold timedwarn, warned. apply wp_bind, wp_modify, wp_bind, wp_get. apply wp_bind. simpl.
  case_decide; [|by apply wp_ret, wp_modify].
  apply wp_bind, wp_print_message; [done|]. intros buf [k Hb]%holds_line. rewrite <- line_text_length.
  apply wp_bind. case_decide as Hagain.
  - rewrite bool_decide_true by done. apply wp_bind. pose proof (line_text_length head text).
    eapply (wp_snprintf buf _ k); [done..| |unfold left_at; lia|]; [unfold left_at, BUFSIZE; lia|].
    intros buf' Hb'. apply wp_ret. rewrite take_ge in Hb' by (unfold left_at, BUFSIZE; lia).
    rewrite app_assoc in Hb'. rewrite <- length_app. eapply wp_end_text; [done|by rewrite length_app|].
    by apply wp_modify, wp_modify.
  - rewrite bool_decide_false by done. apply wp_ret. eapply wp_end_text; [done|rewrite line_text_length; lia|].
    apply wp_modify, wp_modify. unfold warning_line. by rewrite app_nil_r.
Qed.

(** *** A sequence of calls

    Each has its own date, of the second in which it comes, and its own arguments. *)
End warnings.

Record call := mk_call { c_time : Z; c_head : bytes; c_text : bytes }.

Definition warn (warning_timeout : Z) (c : call) : ML unit :=
  timedwarn warning_timeout (c_time c) (c_head c) (c_text c).

(** Together with a note about repetitions the line fits in the array. *)
Definition short_call (c : call) : Prop := length (c_head c) + length (c_text c) ≤ 4057.

Section sequences.
Context (warning_timeout : Z).
Implicit Types s : site.

(** The calls since a line at [last]: those of each of the lines that follow, each
    up to the call that printed it, and those after the last line. *)
Inductive grouped : Z → list (list call) → list call → Prop :=
  | grouped_rest last rest :
      Forall (λ c, c_time c ≤ last + warning_timeout)%Z rest → grouped last [] rest
  | grouped_line last quiet c groups rest :
      Forall (λ c, c_time c ≤ last + warning_timeout)%Z quiet → (last + warning_timeout < c_time c)%Z →
      grouped (c_time c) groups rest → grouped last ((quiet ++ [c]) :: groups) rest.

(** The line that a group of calls gives: the last of them, and maybe their number. *)
Definition line_of (g : list call) (line : bytes) : Prop :=
  ∃ quiet c again, g = quiet ++ [c] ∧
    line = warning_line (c_head c) (c_text c) again (Z.of_nat (length g)) ++ [NL].

Lemma repeated_length n : (0 ≤ n)%Z → length (repeated n) ≤ 38.
Proof.
  intros Hn. unfold repeated, show_long. rewrite decide_False by lia. rewrite !length_app.
  assert (Hs : ∀ k z, length (show_int k z) ≤ k).
  { induction k as [|k IH]; intros z; simpl; [done|]. rewrite length_app. simpl.
    case_decide; simpl; [lia|]. pose proof (IH (z / 10)%Z). lia. }
  pose proof (Hs 20 n). simpl (length (str _)). lia.
Qed.

Lemma warning_line_fits c again n : short_call c → (0 ≤ n)%Z →
  length (warning_line (c_head c) (c_text c) again n) ≤ 4095.
Proof.
  intros Hc Hn. unfold warning_line, short_call in *. rewrite length_app, line_text_length.
  pose proof (repeated_length n Hn). destruct again; [lia|cbn [length]; lia].
Qed.

Lemma wp_warnings cs : Forall short_call cs → ∀ quiet s,
  WT_COUNTER s = Z.of_nat (length quiet) → Forall (λ c, c_time c ≤ WT_LASTPRINT s + warning_timeout)%Z quiet →
  wp (mfor cs (warn warning_timeout)) (λ _ s', ∃ groups rest lines,
    quiet ++ cs = mjoin groups ++ rest ∧ grouped (WT_LASTPRINT s) groups rest ∧ Forall2 line_of groups lines ∧
    written s' = written s ++ lines ∧ WT_COUNTER s' = Z.of_nat (length rest)) s.
Proof.
  induction 1 as [|c cs Hs Hcs IH]; intros quiet s Hc Hq; cbn [mfor].
  { apply wp_ret. exists [], quiet, []. rewrite !app_nil_r. split_and!; try done. by constructor. }
  apply wp_bind. unfold warn at 1.
  eapply wp_mono; [apply wp_timedwarn; [unfold short_call, BUFSIZE in *; lia|apply warning_line_fits; [done|lia]]|].
  intros [] s' ->. unfold warned. case_decide as Hp.
  - eapply wp_mono; [by apply (IH [])|]. intros [] s' (groups & rest & lines & E & Hg & Hl & Hw & Hr).
    simpl in E, Hg, Hw. exists ((quiet ++ [c]) :: groups), rest,
      ((warning_line (c_head c) (c_text c) (bool_decide (WT_LASTCALL s > c_time c - warning_timeout)%Z)
         (1 + WT_COUNTER s) ++ [NL]) :: lines).
    split_and!; [| | | |done].
    + simpl. by rewrite E, <- !app_assoc.
    + constructor; [done|lia|done].
    + constructor; [|done]. eexists quiet, c, _. split; [done|]. rewrite length_app. cbn [length].
      do 2 f_equal. rewrite Hc. lia.
    + by rewrite Hw, <- app_assoc.
  - eapply wp_mono; [apply (IH (quiet ++ [c])); simpl|].
    + rewrite Hc, length_app. simpl. lia.
    + apply Forall_app. split; [done|]. repeat constructor. lia.
    + intros [] s'. rewrite <- app_assoc. simpl. done.
Qed.
End sequences.

(** ** Lemmas: escaped text *)

Lemma ascii_cases (P : ascii → Prop) : Forall P (ascii_of_nat <$> seq 0 256) → ∀ c, P c.
Proof.
  intros Hall c. rewrite Forall_forall in Hall. apply Hall. apply list_elem_of_fmap. exists (nat_of_ascii c).
  split; [by rewrite ascii_nat_embedding|]. apply elem_of_seq. pose proof (nat_ascii_bounded c). lia.
Qed.

Lemma escape_char_ok c : ascii7 c →
  escape_char c = Some (escaped c) ∧ length (escaped c) ≤ 4 ∧ Forall (λ d, isprint d = true) (escaped c).
Proof.
  revert c. refine (ascii_cases _ _). unfold ascii7. apply (bool_decide_unpack _). vm_compute. exact I.
Qed.

Lemma escape_char_high c : (128 ≤ uchar c)%Z → escape_char c = None.
Proof. revert c. refine (ascii_cases _ _). apply (bool_decide_unpack _). vm_compute. exact I. Qed.

Lemma unescape_escaped c fuel s : ascii7 c → unescape (S fuel) (escaped c ++ s) = cons c <$> unescape fuel s.
Proof.
  unfold ascii7. destruct c as [[] [] [] [] [] [] [] []]; intros Hc; first [vm_compute in Hc; discriminate|reflexivity].
Qed.

Definition escape_text (l : bytes) : bytes := mjoin (escaped <$> l).

Lemma escape_text_cons c l : escape_text (c :: l) = escaped c ++ escape_text l.
Proof. done. Qed.

Lemma unescape_text l fuel : Forall ascii7 l → length (escape_text l) ≤ fuel → unescape fuel (escape_text l) = Some l.
Proof.
  intros Hl. revert fuel. induction Hl as [|c l Hc Hl IH]; intros fuel Hf; [by destruct fuel|].
  rewrite escape_text_cons in *. rewrite length_app in Hf.
  assert (length (escaped c) ≠ 0) as Hne.
  { intros Hz%nil_length_inv. pose proof (unescape_escaped c 0 [] Hc) as Hu. rewrite Hz in Hu. done. }
  destruct fuel as [|fuel]; [lia|]. rewrite unescape_escaped by done. by rewrite IH by lia.
Qed.

Lemma escape_text_print l : Forall ascii7 l → Forall (λ d, isprint d = true) (escape_text l).
Proof.
  induction 1 as [|c l Hc Hl IH]; [constructor|]. rewrite escape_text_cons. apply Forall_app. split; [|done].
  by apply escape_char_ok.
Qed.

Lemma wp_escape_loop l : ∀ buf2 out k cur s (Q : buffer * nat → site → Prop),
  Forall ascii7 l → holds buf2 (out ++ k) → cur = length out → cur ≤ 4093 →
  (∀ buf2' k' l1 l2, l = l1 ++ l2 → holds buf2' ((out ++ escape_text l1) ++ k') →
     length (out ++ escape_text l1) ≤ 4093 → (l2 ≠ [] → 4090 ≤ length (out ++ escape_text l1)) →
     Q (buf2', length (out ++ escape_text l1)) s) →
  wp (escape_loop (Some <$> l) buf2 cur) Q s.
Proof.
  induction l as [|c l IH]; intros buf2 out k cur s Q Hl Hb -> Hc HQ; cbn [fmap list_fmap escape_loop].
  { apply wp_ret. specialize (HQ buf2 k [] []). change (escape_text []) with (@nil ascii) in HQ. rewrite !app_nil_r in HQ. by apply HQ. }
  apply Forall_cons in Hl as [H7 Hl]. destruct (escape_char_ok c H7) as (He & Hlen & _).
  unfold BUFSIZE. case_decide as Hroom.
  - apply wp_bind, (wp_deref _ _ c); [done|]. apply wp_bind. eapply wp_deref; [exact He|].
    apply wp_bind. eapply (wp_store buf2 out k); [done..|unfold BUFSIZE; lia|]. intros buf3 Hb3.
    rewrite <- length_app. rewrite <- (app_nil_r (out ++ escaped c)) in Hb3.
    eapply IH; [done|exact Hb3|done|rewrite length_app; lia|].
    intros buf2' k' l1 l2 -> Hb' Hmax Hmin. specialize (HQ buf2' k' (c :: l1) l2).
    rewrite escape_text_cons, app_assoc in HQ. by apply HQ.
  - apply wp_ret. specialize (HQ buf2 k [] (c :: l)). change (escape_text []) with (@nil ascii) in HQ. rewrite !app_nil_r in HQ. apply HQ; [done..|lia].
Qed.

Lemma wp_Faulted {A B} (m : ML A) (K : A → ML B) s f :
  wp m (λ a s', K a s' = Faulted f) s → (m ≫= K) s = Faulted f.
Proof. unfold wp, mbind, M_bind. by destruct (m s). Qed.

Lemma Faulted_bind {A B} (m : ML A) (K : A → ML B) s f : m s = Faulted f → (m ≫= K) s = Faulted f.
Proof. unfold mbind, M_bind. by intros ->. Qed.

(** ** Claims *)

(** C34: A warning is printed when more than the configured time has passed since
    the last line, and only then: of any sequence of calls, each with its own time,
    date and arguments, each that is not printed came within this time of the line
    before it, and each line is that of the call that printed it and is followed
    by the next one after more than this time.  A line that tells how often the
    warning came counts exactly the calls since the line before it.  This is for
    calls whose text, with what is printed in front of it, has at most 4057 bytes
    ([timedwarn_overflow] is about longer ones). *)
Theorem warnings_limited (warning_timeout : Z) (cs : list call) (s : site)
    (Hshort : Forall short_call cs) (Hcounter : WT_COUNTER s = 0%Z) :
  ∃ s' groups rest lines, mfor cs (warn warning_timeout) s = Ok tt s' ∧
    cs = mjoin groups ++ rest ∧ grouped warning_timeout (WT_LASTPRINT s) groups rest ∧
    Forall2 line_of groups lines ∧ written s' = written s ++ lines ∧
    WT_COUNTER s' = Z.of_nat (length rest).
Proof.
  destruct (proj1 (wp_Ok _ _ _) (wp_warnings warning_timeout cs Hshort [] s ltac:(done) ltac:(constructor)))
    as ([] & s' & Hrun & groups & rest & lines & ?). by exists s', groups, rest, lines.
Qed.

Lemma warnings_limited_witness :
  let cs := [mk_call 1000 (str "00:16:40 WARN: ") (str "wrong uid"); mk_call 1100 (str "00:18:20 WARN: ") (str "no uid");
             mk_call 1200 (str "00:20:00 WARN: ") (str "wrong uid"); mk_call 1301 (str "00:21:41 WARN: ") (str "bad uid")] in
  ∃ s', mfor cs (warn 300) (mk_site [] 0 0 0) = Ok tt s' ∧
    written s' = [str "00:16:40 WARN: wrong uid" ++ [NL]; str "00:21:41 WARN: bad uid (repeated 3 times)" ++ [NL]].
Proof.
  intros cs. destruct (warnings_limited 300 cs (mk_site [] 0 0 0)
    ltac:(repeat (apply Forall_cons_2; [unfold short_call; simpl; lia|]); apply Forall_nil_2) eq_refl)
    as (s' & groups & rest & lines & Hrun & _).
  exists s'. split; [exact Hrun|]. vm_compute in Hrun. injection Hrun as <-. vm_compute. reflexivity.
Defined.

Lemma wp_logudata (level : Z) (head text : bytes) (s : site) :
  (2 < level)%Z → length head < BUFSIZE → Forall ascii7 (head ++ text) →
  wp (logudata level head text) (λ _ s', ∃ line shown rest,
    written s' = written s ++ [line ++ [NL]] ∧ Forall (λ c, isprint c = true) line ∧ length line < BUFSIZE ∧
    head ++ text = shown ++ rest ∧ unescape (length line) line = Some shown ∧
    (length line < 4090 → length (head ++ text) ≤ 4094 → rest = [])) s.
Proof.
  intros Hlevel Hhead Hascii.
  unfold logudata. apply wp_bind, wp_print_message; [done|]. intros buf [k Hb]%holds_line. rewrite <- line_text_length.
  apply holds_prefix in Hb as [_ Hb]. rewrite Hb. apply wp_bind.
  assert (H7 : Forall ascii7 (line_text head text)) by by apply Forall_take.
  eapply (wp_escape_loop _ fresh [] []); [done|exact holds_fresh|done|simpl; lia|].
  intros buf2 k' l1 l2 El Hb2 Hmax Hmin. rewrite El in H7. apply Forall_app in H7 as [H71 _]. cbn [app] in *.
  eapply wp_end_text; [exact Hb2|lia|]. rewrite decide_False by lia. apply wp_ret.
  exists (escape_text l1), l1, (l2 ++ drop 4094 (head ++ text)). split_and!.
  - done.
  - by apply escape_text_print.
  - unfold BUFSIZE. lia.
  - rewrite app_assoc, <- El. unfold line_text. by rewrite take_drop.
  - by apply unescape_text.
  - intros Hshort Hfits. rewrite drop_ge, app_nil_r by done. destruct l2; [done|]. exfalso.
    by pose proof (Hmin ltac:(done)); lia.
Qed.

(** A character above 127 reads the table of digits in front of its first element. *)
Lemma logudata_high (level : Z) (head text a b : bytes) (c : ascii) (s : site) :
  length head < BUFSIZE → head ++ text = a ++ c :: b → Forall ascii7 a → (128 ≤ uchar c)%Z →
  length a < 1000 → logudata level head text s = Faulted OutOfBounds.
Proof.
  intros Hhead E Ha Hc Hlen. apply wp_Faulted, wp_print_message; [done|].
  intros buf [k Hb]%holds_line. rewrite <- line_text_length. cbn zeta. apply holds_prefix in Hb as [_ Hb]. rewrite Hb.
  assert (Hline : ∃ b', line_text head text = a ++ c :: b').
  { exists (take (4093 - length a) b). unfold line_text. rewrite E, take_app, take_ge by lia.
    by replace (4094 - length a) with (S (4093 - length a)) by lia. }
  destruct Hline as [b' ->]. clear Hb E.
  assert (Hloop : ∀ a, Forall ascii7 a → ∀ buf2 out k, holds buf2 (out ++ k) → length out + 4 * length a < 4090 →
    escape_loop (Some <$> a ++ c :: b') buf2 (length out) s = Faulted OutOfBounds).
  { clear a Ha Hlen. induction 1 as [|d a Hd Ha IH]; intros buf2 out k' Hb2 Hroom; cbn [app fmap list_fmap escape_loop];
      rewrite decide_True by (unfold BUFSIZE; simpl in Hroom; lia).
    - apply wp_Faulted, (wp_deref _ _ c); [done|]. unfold mbind, M_bind. by rewrite (escape_char_high c Hc).
    - destruct (escape_char_ok d Hd) as (He & Hl & _). apply wp_Faulted, (wp_deref _ _ d); [done|].
      apply wp_Faulted. eapply wp_deref; [exact He|]. apply wp_Faulted.
      simpl in Hroom. eapply (wp_store buf2 out k'); [done..|unfold BUFSIZE; lia|]. intros buf3 Hb3.
      rewrite <- length_app. rewrite <- (app_nil_r (out ++ escaped d)) in Hb3.
      eapply IH; [exact Hb3|]. rewrite length_app. lia. }
  apply Faulted_bind. apply (Hloop a Ha fresh [] [] holds_fresh). simpl. lia.
Qed.

(** C33: Text from a browser cannot forge a line of the log: if the characters are
    7-bit, what is written is one line of printable characters, which never exceeds
    the array, and reading the escapes gives back the message, up to the end of
    the array.  If one is not, and fewer than 1000 characters come in front of the
    first of them, the table of digits is read out of its bounds instead. *)
Theorem logudata_correct (level : Z) (head text : bytes) (s : site)
    (Hlevel : (2 < level)%Z) (Hhead : length head < BUFSIZE) :
  (Forall ascii7 (head ++ text) → ∃ s' line shown rest, logudata level head text s = Ok tt s' ∧
    written s' = written s ++ [line ++ [NL]] ∧ Forall (λ c, isprint c = true) line ∧ length line < BUFSIZE ∧
    head ++ text = shown ++ rest ∧ unescape (length line) line = Some shown ∧
    (length line < 4090 → length (head ++ text) ≤ 4094 → rest = [])) ∧
  (∀ a c b, head ++ text = a ++ c :: b → Forall ascii7 a → (128 ≤ uchar c)%Z → length a < 1000 →
    logudata level head text s = Faulted OutOfBounds).
Proof.
  split.
  - intros Hascii. destruct (proj1 (wp_Ok _ _ _) (wp_logudata level head text s Hlevel Hhead Hascii))
      as ([] & s' & Hrun & line & shown & rest & ?). by exists s', line, shown, rest.
  - intros a c b E Ha Hc Hlen. by apply (logudata_high level head text a b c).
Qed.

Lemma logudata_correct_witness :
  (∃ s', logudata 4 (str "WARN: ") (str "uri" ++ [NL] ++ str "EMRG: forged") (mk_site [] 0 0 0) = Ok tt s' ∧
    written s' = [str "WARN: uri\nEMRG: forged" ++ [NL]]) ∧
  logudata 4 (str "WARN: ") [char_of 200] (mk_site [] 0 0 0) = Faulted OutOfBounds.
Proof.
  split.
  - destruct (logudata_correct 4 (str "WARN: ") (str "uri" ++ [NL] ++ str "EMRG: forged") (mk_site [] 0 0 0))
      as [Hgo _]; [done|unfold BUFSIZE; simpl; lia|].
    destruct Hgo as (s' & line & shown & rest & Hrun & _); [apply (bool_decide_unpack _); vm_compute; exact I|].
    exists s'. split; [exact Hrun|]. vm_compute in Hrun. injection Hrun as <-. vm_compute. reflexivity.
  - destruct (logudata_correct 4 (str "WARN: ") [char_of 200] (mk_site [] 0 0 0))
      as [_ Hhigh]; [done|unfold BUFSIZE; simpl; lia|].
    apply (Hhigh (str "WARN: ") (char_of 200) []); [done|apply (bool_decide_unpack _); vm_compute; exact I|
      vm_compute; discriminate|simpl; lia].
Defined.

(** A character above 127 reads the table of digits in front of its first element. *)
Theorem logudata_high_character (level : Z) (head text a b : bytes) (c : ascii) (s : site) :
  length head < BUFSIZE → head ++ text = a ++ c :: b → Forall ascii7 a → (128 ≤ uchar c)%Z →
  length a < 1000 → logudata level head text s = Faulted OutOfBounds.
Proof. apply logudata_high. Qed.

(** The note about repetitions is printed behind a message that was cut to the end
    of the array, and its length is added to the index without a check. *)
Theorem timedwarn_overflow (warning_timeout tm : Z) (head text : bytes) (s : site) :
  length head < BUFSIZE → (WT_LASTPRINT s < tm - warning_timeout)%Z → (tm - warning_timeout < WT_LASTCALL s)%Z →
  4096 ≤ length (warning_line head text true (1 + WT_COUNTER s)) →
  timedwarn warning_timeout tm head text s = Faulted OutOfBounds.
Proof.
  intros Hhead Hp Hc Hlong. unfold warning_line in Hlong. rewrite length_app in Hlong. unfold timedwarn.
  apply wp_Faulted, wp_modify. apply wp_Faulted, wp_get. cbn beta.
  apply Faulted_bind.
  rewrite decide_True by exact Hp. apply wp_Faulted, wp_print_message; [done|]. intros buf [k Hb]%holds_line.
  rewrite <- line_text_length. cbn zeta. apply wp_Faulted. pose proof (line_text_length head text).
  rewrite (decide_True (P := (_ > _)%Z)) by (simpl; lia). apply wp_bind. eapply (wp_snprintf buf _ k); [done..| |unfold left_at; lia|].
  { unfold left_at, BUFSIZE. lia. }
  intros buf' [Hlen _]. apply wp_ret. unfold mbind, M_bind, store. rewrite decide_False; [done|].
  rewrite Hlen. unfold BUFSIZE. change (WT_COUNTER (s <| WT_COUNTER ::= _ |>)) with (1 + WT_COUNTER s)%Z. cbn [length]. lia.
Qed.
