(* ===== verification/Sockets.v ===== *)
(** * Opening and closing zeromq sockets (zutils.c)

    A socket of the configuration says its kind, its addresses and its options.
    The calls into zeromq are recorded, with their results, in the order in which
    they are made; a handle is what [zmq_socket] returned, [None] being NULL. *)

From S2P Require Import Prelude.

(** ** Data *)

(** src/src/config.yaml:43-53 [zmqsocket] *)
Inductive zmq_kind := kind_auto | zmq_Req | zmq_Rep | zmq_Push | zmq_Pull | zmq_Pub | zmq_Sub.
#[export] Instance zmq_kind_eq_dec : EqDecision zmq_kind.
Proof. solve_decision. Defined.

(** The socket types of zeromq that are used. *)
Inductive zmq_type := ZMQ_XREQ | ZMQ_XREP | ZMQ_PUSH | ZMQ_PULL | ZMQ_PUB | ZMQ_SUB.

(** src/src/config.yaml:35-41 [zmqaddr] *)
Inductive zmqaddr := zmq_Bind (address : bytes) | zmq_Connect (address : bytes).
#[export] Instance zmqaddr_eq_dec : EqDecision zmqaddr.
Proof. solve_decision. Defined.

(** src/src/config.yaml:43-91 [zmqsocket] *)
Record zmqsocket := mk_zmqsocket {
  sk_kind : zmq_kind;
  sk_value : list zmqaddr;
  sk_hwm : Z;
  sk_identity : bytes;
  sk_swap : Z;
  sk_affinity : Z;
  sk_sndbuf : Z;
  sk_rcvbuf : Z;
  sk_linger : Z;
}.

(** src/src/zutils.h:13-20 [zmq_kind_mask] *)
Definition ZMASK_REQ : Z := 1.
Definition ZMASK_REP : Z := 2.
Definition ZMASK_PUSH : Z := 4.
Definition ZMASK_PULL : Z := 8.
Definition ZMASK_PUB : Z := 16.
Definition ZMASK_SUB : Z := 32.

(** ** Calls of zeromq and libev *)
Abbreviation handle := (option nat) (only parsing).

Inductive zmq_option :=
  | ZMQ_HWM (v : Z) | ZMQ_IDENTITY (v : bytes) | ZMQ_SWAP (v : Z) | ZMQ_AFFINITY (v : Z)
  | ZMQ_RCVBUF (v : Z) | ZMQ_SNDBUF (v : Z) | ZMQ_LINGER (v : Z) | ZMQ_SUBSCRIBE (v : bytes).

Inductive zcall :=
  | ZSocket (t : zmq_type) (res : handle)
  | ZAddr (h : handle) (a : zmqaddr) (ok : bool)         (* zmq_bind, zmq_connect *)
  | ZSetOpt (h : handle) (o : zmq_option) (ok : bool)    (* zmq_setsockopt *)
  | ZGetFd (h : handle) (ok : bool)                      (* zmq_getsockopt of ZMQ_FD *)
  | ZClose (h : handle) (ok : bool)                      (* zmq_close *)
  | IoStart (h : handle)                                 (* ev_io_start of its watcher *)
  | IoStop (h : handle).                                 (* ev_io_stop *)

(** The answers of the libraries may depend on all earlier calls. *)
Class ZmqSetup := {
  zmq_socket_res : list zcall → zmq_type → handle;
  zmq_addr_ok : list zcall → handle → zmqaddr → bool;
  zmq_setsockopt_ok : list zcall → handle → zmq_option → bool;
  zmq_getfd_ok : list zcall → handle → bool;
  zmq_close_ok : list zcall → handle → bool;
}.

(** ** Operations *)
Section operations.
Context `{LogLevel, ZmqSetup}.

Abbreviation MZ := (M (list zcall)).

Definition call {A} (res : list zcall → A) (e : A → zcall) : MZ A := λ tr,
  Ok (res tr) (tr ++ [e (res tr)]).

Definition zmq_socket (t : zmq_type) : MZ handle := call (λ tr, zmq_socket_res tr t) (ZSocket t).
Definition zmq_addr (h : handle) (a : zmqaddr) : MZ bool := call (λ tr, zmq_addr_ok tr h a) (ZAddr h a).
Definition zmq_setsockopt (h : handle) (o : zmq_option) : MZ bool :=
  call (λ tr, zmq_setsockopt_ok tr h o) (ZSetOpt h o).
Definition zmq_getfd (h : handle) : MZ bool := call (λ tr, zmq_getfd_ok tr h) (ZGetFd h).
Definition zmq_close (h : handle) : MZ bool := call (λ tr, zmq_close_ok tr h) (ZClose h).
Definition ev_io_start (h : handle) : MZ unit := call (λ _, tt) (λ _, IoStart h).
Definition ev_io_stop (h : handle) : MZ unit := call (λ _, tt) (λ _, IoStop h).

Definition SNIMPL_call (m : MZ bool) : MZ unit := ok ← m; SNIMPL (negb ok).

(** The type of a socket and the kinds that it stands for.
    src/src/zutils.c:11-44 [zmq_open] *)
Definition socket_type (kind : zmq_kind) (defkind : zmq_type) : zmq_type * Z :=
  match kind with
  | kind_auto => (defkind, -1)%Z
  | zmq_Req => (ZMQ_XREQ, ZMASK_REQ)
  | zmq_Rep => (ZMQ_XREP, ZMASK_REP)
  | zmq_Push => (ZMQ_PUSH, ZMASK_PUSH)
  | zmq_Pull => (ZMQ_PULL, ZMASK_PULL)
  | zmq_Pub => (ZMQ_PUB, ZMASK_PUB)
  | zmq_Sub => (ZMQ_SUB, ZMASK_SUB)
  end.

(** src/src/zutils.c:52-72 [zmq_open] *)
Fixpoint open_addresses (h : handle) (l : list zmqaddr) : MZ bool :=
  match l with
  | [] => mret true
  | a :: l =>
      ok ← zmq_addr h a;
      if ok : bool then open_addresses h l else zmq_close h;; mret false
  end.

(** An option that is not zero; the last one is always set.
    src/src/zutils.c:73-99 [zmq_open] *)
Definition socket_options (sock : zmqsocket) : list zmq_option :=
  (if decide (sk_hwm sock ≠ 0)%Z then [ZMQ_HWM (sk_hwm sock)] else []) ++
  (if decide (sk_identity sock ≠ []) then [ZMQ_IDENTITY (sk_identity sock)] else []) ++
  (if decide (sk_swap sock ≠ 0)%Z then [ZMQ_SWAP (sk_swap sock)] else []) ++
  (if decide (sk_affinity sock ≠ 0)%Z then [ZMQ_AFFINITY (sk_affinity sock)] else []) ++
  (if decide (sk_rcvbuf sock ≠ 0)%Z then [ZMQ_RCVBUF (sk_rcvbuf sock)] else []) ++
  (if decide (sk_sndbuf sock ≠ 0)%Z then [ZMQ_SNDBUF (sk_sndbuf sock)] else []) ++
  [ZMQ_LINGER (sk_linger sock)].

(** What is kept of an open socket: [_sock] and whether [_watch] is active. *)
Record opened := mk_opened { op_sock : handle; op_active : bool }.

(** A socket that was not opened: the configuration is zeroed memory. *)
Definition not_opened : opened := mk_opened None false.

(** [callback] and [loop] say whether these arguments are not NULL; [None] is
    the error return.  src/src/zutils.c:9-112 [zmq_open] *)
Definition zmq_open (sock : zmqsocket) (kinds : Z) (defkind : zmq_type) (callback loop : bool) :
    MZ (option opened) :=
  let '(zkind, mask) := socket_type (sk_kind sock) defkind in
  if decide (Z.land mask kinds = 0)%Z then mret None
  else
    result ← zmq_socket zkind;
    ANIMPL (bool_decide (result ≠ None));;
    ok ← open_addresses result (sk_value sock);
    if negb ok then mret None
    else
      mfor (socket_options sock) (λ o, SNIMPL_call (zmq_setsockopt result o));;
      (if callback : bool then
         SNIMPL_call (zmq_getfd result);;
         whenb loop (ev_io_start result)
       else mret tt);;
      mret (Some (mk_opened result (callback && loop))).

(** src/src/zutils.c:129-135 [z_close] *)
Definition z_close (sock : opened) : MZ unit :=
  whenb (op_active sock) (ev_io_stop (op_sock sock));;
  SNIMPL_call (zmq_close (op_sock sock)).
End operations.

(** ** Specification *)

(** What [zmq_open] asks of the libraries for a socket of type [t] that it opens
    as [h]. *)
Definition opening (t : zmq_type) (h : handle) (sock : zmqsocket) (callback loop : bool) : list zcall :=
  ZSocket t h :: ((λ a, ZAddr h a true) <$> sk_value sock) ++
  ((λ o, ZSetOpt h o true) <$> socket_options sock) ++
  (if callback then ZGetFd h true :: (if loop then [IoStart h] else []) else []).

(** The first address that is refused ends it, and the socket is closed. *)
Inductive refusing (t : zmq_type) (h : handle) (sock : zmqsocket) : list zcall → Prop :=
  | refusing_intro good bad rest closed :
      sk_value sock = good ++ bad :: rest →
      refusing t h sock (ZSocket t h :: ((λ a, ZAddr h a true) <$> good) ++ [ZAddr h bad false; ZClose h closed]).

(** ** Lemmas *)
Section lemmas.
Context `{LogLevel, ZmqSetup}.
Hypothesis Hlevel : (LOG_ALERT ≤ LOGLEVEL)%Z.
Implicit Types (tr : list zcall).

(** A failed condition ends the program. *)
Lemma safe_ANIMPL_holds {S} c (Q : unit → S → Prop) s :
  (c = true → Q tt s) → safe (ANIMPL c) Q s.
Proof.
  intros HQ. unfold ANIMPL. rewrite (proj2 (Z.leb_le _ _)) by done. destruct c; [by apply HQ|done].
Qed.

Lemma safe_SNIMPL_call (res : list zcall → bool) (e : bool → zcall) (Q : unit → list zcall → Prop) tr :
  Q tt (tr ++ [e true]) → safe (SNIMPL_call (call res e)) Q tr.
Proof.
  intros HQ. unfold SNIMPL_call, call, SNIMPL, safe, mbind, M_bind.
  rewrite (proj2 (Z.leb_le _ _)) by done. by destruct (res tr).
Qed.

Lemma safe_options h (l : list zmq_option) (Q : unit → list zcall → Prop) tr :
  Q tt (tr ++ ((λ o, ZSetOpt h o true) <$> l)) →
  safe (mfor l (λ o, SNIMPL_call (zmq_setsockopt h o))) Q tr.
Proof.
  revert tr. induction l as [|o l IH]; intros tr HQ; cbn [mfor]; [by rewrite app_nil_r in HQ|].
  apply safe_bind, safe_SNIMPL_call, IH. by rewrite <- app_assoc.
Qed.

Lemma safe_open_addresses h l (Q : bool → list zcall → Prop) tr :
  Q true (tr ++ ((λ a, ZAddr h a true) <$> l)) →
  (∀ good bad rest closed, l = good ++ bad :: rest →
     Q false (tr ++ ((λ a, ZAddr h a true) <$> good) ++ [ZAddr h bad false; ZClose h closed])) →
  safe (open_addresses h l) Q tr.
Proof.
  revert tr. induction l as [|a l IH]; intros tr Hall Hbad; cbn [open_addresses].
  { by rewrite app_nil_r in Hall. }
  apply safe_bind. unfold zmq_addr, call, safe at 1. destruct (zmq_addr_ok tr h a).
  - apply IH; [by rewrite <- app_assoc|]. intros good bad rest closed ->.
    rewrite <- app_assoc. by apply (Hbad (a :: good) bad rest closed).
  - apply safe_bind. unfold zmq_close, call, safe at 1. apply safe_ret. rewrite <- app_assoc.
    by apply (Hbad [] a l).
Qed.

Lemma safe_zmq_open sock kinds defkind callback loop tr :
  let '(t, mask) := socket_type (sk_kind sock) defkind in
  safe (zmq_open sock kinds defkind callback loop)
    (λ o tr', ∃ new, tr' = tr ++ new ∧
       match o with
       | None => Z.land mask kinds = 0%Z ∧ new = [] ∨ ∃ h, refusing t h sock new
       | Some op => Z.land mask kinds ≠ 0%Z ∧ op_sock op ≠ None ∧ op_active op = callback && loop ∧
           new = opening t (op_sock op) sock callback loop
       end) tr.
Proof.
  destruct (socket_type (sk_kind sock) defkind) as [t mask] eqn:Et. unfold zmq_open. rewrite Et.
  case_decide as Hk; [apply safe_ret; exists []; rewrite app_nil_r; split; [done|by left]|].
  apply safe_bind. unfold zmq_socket, call, safe at 1. set (h := zmq_socket_res tr t).
  apply safe_bind, safe_ANIMPL_holds. intros Hh%bool_decide_eq_true_1.
  apply safe_bind, safe_open_addresses.
  2:{ intros good bad rest closed E. apply safe_ret. rewrite <- app_assoc. eexists. split; [done|].
      right. exists h. by econstructor. }
  apply safe_bind, safe_options, safe_bind. unfold opening.
  destruct callback; [apply safe_bind, safe_SNIMPL_call; destruct loop|]; unfold safe; simpl;
    (eexists; split; [rewrite <- !app_assoc; simpl; rewrite <- ?app_assoc; reflexivity|by rewrite ?app_nil_r]).
Qed.
End lemmas.

(** ** Claims *)

(** C38: A socket of the configuration is opened completely or not at all.  If
    its kind is not one of those that the caller accepts, zeromq is not called.
    Otherwise a socket of the type of its kind is created, bound and connected
    to every address in the order of the configuration, and given every option
    that is set, and its watcher is started if there is a callback and a loop;
    the first address that is refused makes the function close the socket and
    fail. *)
Theorem zmq_open_correct `{LogLevel, ZmqSetup} (sock : zmqsocket) (kinds : Z) (defkind : zmq_type)
    (callback loop : bool) (tr : list zcall) (Hlevel : (LOG_ALERT ≤ LOGLEVEL)%Z) :
  let '(t, mask) := socket_type (sk_kind sock) defkind in
  safe (zmq_open sock kinds defkind callback loop)
    (λ o tr', ∃ new, tr' = tr ++ new ∧
       match o with
       | None => Z.land mask kinds = 0%Z ∧ new = [] ∨ ∃ h, refusing t h sock new
       | Some op => Z.land mask kinds ≠ 0%Z ∧ op_sock op ≠ None ∧ op_active op = callback && loop ∧
           new = opening t (op_sock op) sock callback loop
       end) tr.
Proof. by apply safe_zmq_open. Qed.

(** A zeromq whose second socket cannot be bound to an address in use. *)
Definition example_setup : ZmqSetup := {|
  zmq_socket_res tr _ := Some (length tr);
  zmq_addr_ok tr _ a := bool_decide (a ≠ zmq_Bind (str "tcp://*:1"));
  zmq_setsockopt_ok _ _ _ := true;
  zmq_getfd_ok _ _ := true;
  zmq_close_ok _ _ := true;
|}.

Lemma zmq_open_correct_witness :
  let lvl : LogLevel := 4%Z in
  let sock := mk_zmqsocket zmq_Push [zmq_Connect (str "tcp://a:1"); zmq_Bind (str "tcp://*:1")] 0 [] 0 0 0 0 10000 in
  ∃ new, zmq_open (H0 := example_setup) sock (Z.lor ZMASK_PUSH ZMASK_PUB) ZMQ_PUB true true [] =
         Ok None new ∧ refusing ZMQ_PUSH (Some 0) sock new.
Proof.
  intros lvl sock.
  assert (Hl : (LOG_ALERT ≤ LOGLEVEL )%Z) by (vm_compute; discriminate).
  pose proof (zmq_open_correct (H0 := example_setup) sock (Z.lor ZMASK_PUSH ZMASK_PUB) ZMQ_PUB true true []
    Hl) as Hc. cbn [socket_type sk_kind sock] in Hc. unfold safe in Hc.
  destruct (zmq_open (H0 := example_setup) sock _ ZMQ_PUB true true []) as [o tr'| | |] eqn:E;
    vm_compute in E; try discriminate. injection E as <- <-.
  destruct Hc as (new & Hnew & [[Hm _]|[h Hr]]); [vm_compute in Hm; discriminate|].
  simpl in Hnew. subst new. eexists. split; [reflexivity|].
  assert (h = Some 0) as -> by (by inversion Hr). exact Hr.
Defined.
