(* ===== verification/Routing.v ===== *)
(** * Routes of HTTP requests (resolve.c, the set-up of http.c)

    The configuration is a tree of routes.  When the server starts, every route
    that chooses among children gets a table of the strings that lead to them;
    a request is led down the tree, at each route by one of its fields, until a
    route has no table. *)

From S2P Require Import Prelude Sieve Pool MsgQueue Uidgen State Topics Backend Outputs Hybi.
From S2P Require Import CometArgs Request Comet Sockets.

(** ** Configuration *)

(** src/src/config.yaml:143-154 [RoutingType] *)
Inductive routing_kind := Leaf | Exact | Prefix | Suffix | Hash | Hash1024 | TrySerially.
#[export] Instance routing_kind_eq_dec : EqDecision routing_kind.
Proof. solve_decision. Defined.

Inductive field_kind := Nothing | Uri | Path | Method | Header | Cookie | Body | IP.
#[export] Instance field_kind_eq_dec : EqDecision field_kind.
Proof. solve_decision. Defined.

(** [f_index] is written when the server starts.
    src/src/config.yaml:156-169 [RequestField] *)
Record request_field := mk_field {
  f_kind : field_kind;
  f_value : bytes;
  f_index : Z;   (* _field_index *)
}.
#[export] Instance rebuild_field : Rebuild request_field := λ f,
  mk_field (f_kind f) (f_value f) (f_index f).

(** src/src/config.yaml:124-141 [StaticResponse] *)
Record StaticResponse := mk_response {
  code : Z;
  status : bytes;
  sr_headers : list (bytes * bytes);
  body : bytes;
}.

(** src/src/config.yaml:17-33 [retrymode] *)
Inductive retry_mode := NoRetry | RetryFirst | RetryLast.
#[export] Instance retry_mode_eq_dec : EqDecision retry_mode.
Proof. solve_decision. Defined.

(** A table of the library: what was added to it, with whether the string stands
    for all those that it begins or ends, and whether it was compiled. *)
Record matcher := mk_matcher {
  m_entries : list (bytes * bool * route_id);
  m_compiled : bool;
}.
#[export] Instance rebuild_matcher : Rebuild matcher := λ m,
  mk_matcher (m_entries m) (m_compiled m).

(** The part of a route that serves files. *)
Record static_conf := mk_static {
  sc_enabled : bool;
  sc_root : bytes;
  sc_strip_dirs : Z;
  sc_dir_index : bool;
  sc_index_file : option bytes;
  sc_single_uri : bytes;
  sc_restrict_root : bool;
  sc_restrict_dirs : list bytes;
  sc_deny_suffixes : list bytes;
  sc_deny_prefixes : list bytes;
  sc_gzip_enabled : bool;
}.

(** The rest of a route's configuration, beside what the record [route] has of
    it, with the fields that the set-up writes. *)
Record hroute := mk_hroute {
  hr_routing : routing_kind;
  hr_routing_by : request_field;
  hr_match : list bytes;
  hr_children : list route_id;
  hr_map : list (bytes * route_id);
  hr_child_match : option matcher;   (* _child_match *)
  hr_default : StaticResponse;
  hr_not_found : StaticResponse;
  hr_forbidden : StaticResponse;
  hr_internal_error : StaticResponse;
  hr_service_unavailable : StaticResponse;
  hr_gateway_timeout : StaticResponse;
  hr_max_body_size : Z;
  hr_forward : bool;                 (* zmq_forward.enabled *)
  hr_socket : zmqsocket;
  hr_contents : list request_field;
  hr_timeout : Z;
  hr_retry_mode : retry_mode;
  hr_retry_count : Z;
  hr_polling : bool;                 (* polling_fallback.enabled *)
  hr_static : static_conf;
}.
#[export] Instance rebuild_hroute : Rebuild hroute := λ r,
  mk_hroute (hr_routing r) (hr_routing_by r) (hr_match r) (hr_children r) (hr_map r)
    (hr_child_match r) (hr_default r) (hr_not_found r) (hr_forbidden r) (hr_internal_error r)
    (hr_service_unavailable r) (hr_gateway_timeout r) (hr_max_body_size r) (hr_forward r)
    (hr_socket r) (hr_contents r) (hr_timeout r) (hr_retry_mode r) (hr_retry_count r)
    (hr_polling r) (hr_static r).

(** The functions of the http library that match strings, on the entries that
    were added, and that give a header of requests an index. *)
Class Website := {
  ws_match : list (bytes * bool * route_id) → bytes → option route_id;
  ws_fuzzy : list (bytes * bool * route_id) → bytes → option route_id;
  ws_rfuzzy : list (bytes * bool * route_id) → bytes → option route_id;
  ws_index_header : list bytes → bytes → Z;
}.

(** The configuration as the set-up leaves it: the routes, the root of the tree
    and a bound on its depth. *)
Class HttpConfig := {
  hroutes : gmap nat hroute;
  Routing : route_id;
  route_depth : nat;
}.

(** ** Set-up *)

(** The state of the set-up: the routes, the calls into zeromq, the header names
    given to [ws_index_header] and the sockets that were opened. *)
Record setup := mk_setup {
  su_routes : gmap nat hroute;
  su_calls : list zcall;
  su_headers : list bytes;
  su_socks : gmap nat opened;
}.
#[export] Instance rebuild_setup : Rebuild setup := λ s,
  mk_setup (su_routes s) (su_calls s) (su_headers s) (su_socks s).

(** [strchr(s, '*')]: what is before it and what is after it. *)
Fixpoint at_star (s : bytes) : option (bytes * bytes) :=
  match s with
  | [] => None
  | c :: s =>
      if decide (c = "*"%char) then Some ([], s)
      else match at_star s with Some (b, a) => Some (c :: b, a) | None => None end
  end.

Section setup.
Context `{LogLevel, ZmqSetup, Website}.

Abbreviation MS := (M setup).

Definition su_get (rid : route_id) : MS hroute :=
  s ← get; deref UseAfterFree (su_routes s !! rid).
Definition su_set (rid : route_id) (f : hroute → hroute) : MS unit :=
  rt ← su_get rid; modify (λ s, s <| su_routes ::= λ m, <[rid := f rt]> m |>).
Definition on_calls {A} : M (list zcall) A → MS A :=
  zoom su_calls (λ c s, s <| su_calls := c |>).

(** [field->_field_index = ws_index_header(...)], for a header.
    src/src/http.c:157-162 [socket_visitor] *)
Definition index_field (f : request_field) : MS request_field :=
  if decide (f_kind f = Header) then
    s ← get;
    modify (λ s, s <| su_headers ::= λ l, l ++ [f_value f] |>);;
    mret (f <| f_index := ws_index_header (su_headers s) (f_value f) |>)
  else mret f.

Fixpoint index_fields (l : list request_field) : MS (list request_field) :=
  match l with
  | [] => mret []
  | f :: l => f ← index_field f; l ← index_fields l; mret (f :: l)
  end.

(** src/src/http.c:153-164 [socket_visitor] *)
Definition open_forward (rid : route_id) : MS unit :=
  rt ← su_get rid;
  match sk_value (hr_socket rt) with
  | [] => mret tt
  | _ :: _ =>
      o ← on_calls (zmq_open (hr_socket rt) ZMASK_REQ ZMQ_XREQ true true);
      SNIMPL (bool_decide (o = None));;
      (match o with Some o => modify (λ s, s <| su_socks ::= <[rid := o]> |>) | None => mret tt end);;
      l ← index_fields (hr_contents rt);
      su_set rid (λ rt, rt <| hr_contents := l |>)
  end.

(** The string of an entry, and whether it stands for more than itself.
    src/src/http.c:193-204 [socket_visitor] *)
Definition match_entry (kind : routing_kind) (value : bytes) : bytes * bool :=
  match kind, at_star value with
  | Prefix, Some (before, _) => (before, true)
  | Suffix, Some (_, after) => (after, true)
  | _, _ => (value, false)
  end.

(** A conflict is only logged.  src/src/http.c:172-176 [socket_visitor] *)
Definition add_entry (rid : route_id) (kind : routing_kind) (value : bytes) (child : route_id) : MS unit :=
  su_set rid (λ rt, rt <| hr_child_match ::= λ m,
    (λ m, m <| m_entries ::= λ l, l ++ [(match_entry kind value, child)] |>) <$> m |>).

(** src/src/http.c:152-269 [socket_visitor] *)
Fixpoint socket_visitor (n : nat) (rid : route_id) : MS unit :=
  match n with
  | O => out_of_fuel
  | S n =>
      open_forward rid;;
      su_set rid (λ rt, rt <| hr_child_match := None |>);;
      rt ← su_get rid;
      if decide (hr_routing rt ≠ Leaf ∧ (hr_map rt ≠ [] ∨ hr_children rt ≠ [])) then
        let kind := hr_routing rt in
        (if decide (kind = Exact ∨ kind = Prefix ∨ kind = Suffix) then
           su_set rid (λ rt, rt <| hr_child_match := Some (mk_matcher [] false) |>);;
           mfor (hr_children rt) (λ child,
             crt ← su_get child;
             mfor (hr_match crt) (λ value, add_entry rid kind value child);;
             socket_visitor n child);;
           mfor (hr_map rt) (λ item,
             add_entry rid kind item.1 item.2;;
             socket_visitor n item.2);;
           su_set rid (λ rt, rt <| hr_child_match ::= fmap (λ m, m <| m_compiled := true |>) |>)
         else LNIMPL);;
        f ← index_field (hr_routing_by rt);
        su_set rid (λ rt, rt <| hr_routing_by := f |>)
      else mret tt
  end.

(** Closes the sockets, also those of children that no routing leads to.
    src/src/http.c:271-295 [socket_unvisitor] *)
Fixpoint socket_unvisitor (n : nat) (rid : route_id) : MS unit :=
  match n with
  | O => out_of_fuel
  | S n =>
      rt ← su_get rid;
      (match sk_value (hr_socket rt) with
       | [] => mret tt
       | _ :: _ =>
           s ← get;
           on_calls (z_close (default not_opened (su_socks s !! rid)))
       end);;
      (if decide (hr_routing rt ≠ Leaf ∧ (hr_map rt ≠ [] ∨ hr_children rt ≠ [])) then
         if decide (hr_routing rt = Exact ∨ hr_routing rt = Prefix ∨ hr_routing rt = Suffix)
         then su_set rid (λ rt, rt <| hr_child_match := None |>)
         else LNIMPL
       else mret tt);;
      mfor (hr_children rt) (socket_unvisitor n);;
      mfor (hr_map rt) (λ item, socket_unvisitor n item.2)
  end.

(** src/src/http.c:432-436 [prepare_http] *)
Definition prepare_http (n : nat) (root : route_id) : MS bool := socket_visitor n root;; mret true.
End setup.

(** ** Fields of a request and static replies *)
Section operations.
Context `{LogLevel, Env, Website, HttpConfig}.

Definition get_hroute (rid : route_id) : MR hroute := deref UseAfterFree (hroutes !! rid).

(** [sprintf("%03ld", z)]. *)
Definition show_code (z : Z) : bytes :=
  let s := show_int 20 (Z.abs z) in
  if decide (z < 0)%Z then "-"%char :: replicate (2 - length s) "0"%char ++ s
  else replicate (3 - length s) "0"%char ++ s.

(** The status line is printed into an array that is five bytes longer than the
    text of the status; src/src/http.c:26-36 [http_static_response] *)
Definition http_static_response (req : addr) (resp : StaticResponse) : MR unit :=
  let line := show_code (code resp) ++ " "%char :: status resp in
  if decide (length line + 1 ≤ length (status resp) + 5) then
    emit (ReqStatus req line);;
    ok ← http_common_headers req;
    SNIMPL (negb ok);;
    mfor (sr_headers resp) (λ line, emit (ReqHeader req line.1 line.2));;
    ws_reply_data req (body resp)
  else undefined OutOfBounds.

(** [snprintf("%d.%d.%d.%d")] of an address in host byte order.
    src/src/resolve.c:35-37 [get_field] *)
Definition show_ip (ip : Z) : bytes :=
  let part n := show_int 10 (Z.land (Z.shiftr ip n) 255) in
  show_int 10 (Z.shiftr ip 24) ++ "."%char :: part 16%Z ++ "."%char :: part 8%Z ++
  "."%char :: show_int 10 (Z.land ip 255).

(** The text has room for 15 characters. *)
Definition snprintf_ip (ip : Z) : bytes := take 15 (show_ip ip).

(** The address is printed once for each request.
    src/src/resolve.c:31-42 [get_field] *)
Definition get_ip (req : addr) : MR bytes :=
  q ← get_request req;
  match rq_ip q with
  | Some ip => mret ip
  | None =>
      let ip := match rq_addr q with Some a => snprintf_ip a | None => [] end in
      set_request req (λ q, q <| rq_ip := Some ip |>);;
      mret ip
  end.

(** [headerindex] is only indexed from 0 on. *)
Definition header_at (q : request) (index : Z) : MR (option bytes) :=
  if decide (0 ≤ index)%Z then mret (rq_fields q !! Z.to_nat index) else undefined OutOfBounds.

(** The second component is what is stored in [*len], if anything is.
    src/src/resolve.c:7-62 [get_field] *)
Definition get_field (req : addr) (value : request_field) : MR (option bytes * option nat) :=
  q ← get_request req;
  let strlen (s : option bytes) := (s, Some (match s with Some s => length s | None => 0 end)) in
  match f_kind value with
  | Body => mret (if rq_bodypos q then (Some (rq_body q), Some (length (rq_body q)))
                  else (None, Some 0))
  | Header => result ← header_at q (f_index value); mret (strlen result)
  | Uri => mret (strlen (Some (rq_uri q)))
  | Path => mret (strlen (Some (rq_path q)))
  | IP => ip ← get_ip req; mret (strlen (Some ip))
  | Method => mret (strlen (Some (rq_method q)))
  | Cookie => LNIMPL;; mret (None, None)
  | Nothing => mret (None, None)
  end.

(** ** Resolution *)

(** The table lookup of a route; a null pointer is followed for an unknown kind
    of routing.  src/src/resolve.c:81-108 [do_resolve_url] *)
Definition match_child (kind : routing_kind) (m : matcher) (data : bytes) : option route_id :=
  match kind with
  | Exact => ws_match (m_entries m) data
  | Prefix => ws_fuzzy (m_entries m) data
  | Suffix => ws_rfuzzy (m_entries m) data
  | _ => None
  end.

(** src/src/resolve.c:74-120 [do_resolve_url] *)
Fixpoint resolve_loop (n : nat) (req : addr) (ready : bool) (rid : route_id) : MR (option route_id) :=
  match n with
  | O => out_of_fuel
  | S n =>
      rt ← get_hroute rid;
      match hr_child_match rt with
      | None => mret (Some rid)
      | Some m =>
          '(data, _) ← get_field req (hr_routing_by rt);
          let data := default [] data in
          match hr_routing rt with
          | Exact | Prefix | Suffix =>
              match match_child (hr_routing rt) m data with
              | Some child => resolve_loop n req ready child
              | None =>
                  whenb ready (http_static_response req (hr_not_found rt));;
                  mret None
              end
          | Hash | Hash1024 => LNIMPL;; resolve_loop n req ready rid
          | Leaf | TrySerially => LNIMPL;; mret (Some rid)
          end
      end
  end.

(** The route whose replies a request gets; src/src/resolve.h:9-9 [REQRCONFIG] *)
Definition REQRCONFIG (req : addr) : MR hroute :=
  q ← get_request req;
  get_hroute (default Routing (rq_route q)).

(** src/src/resolve.c:64-121 [do_resolve_url] *)
Definition do_resolve_url (req : addr) (ready : bool) : MR (option route_id) :=
  r ← get;
  if sieve_full (request_sieve r) then
    whenb ready (rt ← REQRCONFIG req; http_static_response req (hr_service_unavailable rt));;
    mret None
  else resolve_loop (S route_depth) req ready Routing.

(** src/src/resolve.c:124-126 [preliminary_resolve] *)
Definition preliminary_resolve (req : addr) : MR (option route_id) := do_resolve_url req false.

(** src/src/resolve.c:127-129 [resolve_url] *)
Definition resolve_url (req : addr) : MR (option route_id) := do_resolve_url req true.
End operations.

(** ** Specification *)

(** What the library promises about its tables: the string of the answer was
    added, and stands for the data; without an answer there is no such entry. *)
Definition stands_for (kind : routing_kind) (e : bytes * bool) (data : bytes) : Prop :=
  match kind with
  | Prefix => if e.2 then e.1 `prefix_of` data else e.1 = data
  | Suffix => if e.2 then e.1 `suffix_of` data else e.1 = data
  | _ => e.1 = data
  end.

Definition table_answer (kind : routing_kind) (l : list (bytes * bool * route_id)) (data : bytes)
    (o : option route_id) : Prop :=
  match o with
  | Some child => ∃ e, (e, child) ∈ l ∧ stands_for kind e data
  | None => ∀ e child, (e, child) ∈ l → ¬ stands_for kind e data
  end.

Record website_laws `{Website} : Prop := {
  wl_match : ∀ l data, table_answer Exact l data (ws_match l data);
  wl_fuzzy : ∀ l data, table_answer Prefix l data (ws_fuzzy l data);
  wl_rfuzzy : ∀ l data, table_answer Suffix l data (ws_rfuzzy l data);
  wl_index : ∀ l name, (0 ≤ ws_index_header l name)%Z;
}.

(** Zeromq accepts what it is asked to do. *)
Record zmq_ready `{ZmqSetup} : Prop := {
  zr_socket : ∀ tr t, zmq_socket_res tr t ≠ None;
  zr_addr : ∀ tr h a, zmq_addr_ok tr h a = true;
  zr_setsockopt : ∀ tr h o, zmq_setsockopt_ok tr h o = true;
  zr_getfd : ∀ tr h, zmq_getfd_ok tr h = true;
}.

(** The part of a route that the configuration file determines. *)
Definition unindexed (f : request_field) : request_field := f <| f_index := 0%Z |>.
Definition conf (rt : hroute) : hroute :=
  rt <| hr_child_match := None |> <| hr_routing_by ::= unindexed |> <| hr_contents ::= fmap unindexed |>.

Definition branching (rt : hroute) : Prop := hr_routing rt ≠ Leaf ∧ (hr_map rt ≠ [] ∨ hr_children rt ≠ []).
#[export] Instance branching_dec rt : Decision (branching rt) := _.

Definition children_of (rt : hroute) : list route_id := hr_children rt ++ (snd <$> hr_map rt).

(** The entries for a child by its own [match] strings, and all entries. *)
Definition child_entries (C : gmap nat hroute) (kind : routing_kind) (child : route_id) :
    list (bytes * bool * route_id) :=
  match C !! child with Some crt => (λ v, (match_entry kind v, child)) <$> hr_match crt | None => [] end.

Definition map_entry (kind : routing_kind) (item : bytes * route_id) : bytes * bool * route_id :=
  (match_entry kind item.1, item.2).

Definition entries (C : gmap nat hroute) (rt : hroute) : list (bytes * bool * route_id) :=
  mjoin (child_entries C (hr_routing rt) <$> hr_children rt) ++ (map_entry (hr_routing rt) <$> hr_map rt).

Definition indexed (f : request_field) : Prop := f_kind f = Header → (0 ≤ f_index f)%Z.

Record prepared (C : gmap nat hroute) (rt : hroute) : Prop := {
  pr_match : hr_child_match rt = if decide (branching rt) then Some (mk_matcher (entries C rt) true) else None;
  pr_by : branching rt → indexed (hr_routing_by rt);
  pr_contents : sk_value (hr_socket rt) ≠ [] → Forall indexed (hr_contents rt);
}.

(** The responses of a route; a code has three digits. *)
Definition responses (rt : hroute) : list StaticResponse :=
  [hr_default rt; hr_not_found rt; hr_forbidden rt; hr_internal_error rt;
   hr_service_unavailable rt; hr_gateway_timeout rt].
Definition code_ok (resp : StaticResponse) : Prop := (100 ≤ code resp ≤ 999)%Z.

(** The configuration is a tree of finite depth; its routing kinds, fields and
    socket kinds are the ones that the gateway supports. *)
Record tree_ok (rank : route_id → nat) (C : gmap nat hroute) : Prop := {
  tr_child : ∀ rid rt child, C !! rid = Some rt → child ∈ children_of rt →
    is_Some (C !! child) ∧ rank child < rank rid;
  tr_kind : ∀ rid rt, C !! rid = Some rt → branching rt →
    hr_routing rt = Exact ∨ hr_routing rt = Prefix ∨ hr_routing rt = Suffix;
  tr_socket : ∀ rid rt, C !! rid = Some rt →
    sk_kind (hr_socket rt) = kind_auto ∨ sk_kind (hr_socket rt) = zmq_Req;
  tr_field : ∀ rid rt, C !! rid = Some rt → branching rt → f_kind (hr_routing_by rt) ≠ Cookie;
  tr_codes : ∀ rid rt, C !! rid = Some rt → Forall code_ok (responses rt);
}.

(** The routes below [rid] that the set-up visits. *)
Inductive below (C : gmap nat hroute) (rid : route_id) : route_id → Prop :=
  | below_refl : below C rid rid
  | below_child rt child x : C !! rid = Some rt → branching rt → child ∈ children_of rt →
      below C child x → below C rid x.

(** ** Lemmas: the set-up *)
Section setup_lemmas.
Context `{LogLevel, ZmqSetup, Website}.
Hypothesis Hready : zmq_ready.
Hypothesis Hlaws : website_laws.
Implicit Types (s : setup) (rt : hroute).

Lemma wp_su_get rid rt Q s : su_routes s !! rid = Some rt → Q rt s → wp (su_get rid) Q s.
Proof. intros E HQ. unfold su_get. by wp_steps. Qed.

Lemma wp_su_set rid rt f Q s :
  su_routes s !! rid = Some rt → Q tt (s <| su_routes := <[rid := f rt]> (su_routes s) |>) →
  wp (su_set rid f) Q s.
Proof. intros E HQ. unfold su_set. wp_steps. by eapply wp_su_get. Qed.

Lemma wp_zmq_open sock kinds defkind callback loop (Q : option opened → list zcall → Prop) tr :
  Z.land (socket_type (sk_kind sock) defkind).2 kinds ≠ 0%Z →
  (∀ o tr', o ≠ None → Q o tr') → wp (zmq_open sock kinds defkind callback loop) Q tr.
Proof.
  intros Hk HQ. unfold zmq_open. destruct (socket_type _ _) as [t mask]. simpl in Hk.
  rewrite decide_False by done. wp_steps. unfold zmq_socket, call, wp at 1.
  set (h := zmq_socket_res tr t). assert (Hh : h ≠ None) by apply (zr_socket Hready).
  apply wp_bind, wp_ANIMPL; [by apply bool_decide_eq_true_2|].
  assert (Hopen : ∀ l (Q : bool → list zcall → Prop) tr, (∀ tr, Q true tr) → wp (open_addresses h l) Q tr).
  { clear HQ Hk. induction l as [|a l IH]; intros Q' tr' HQ; simpl; [by apply wp_ret|].
    wp_steps. unfold zmq_addr, call, wp at 1. rewrite (zr_addr Hready). by apply IH. }
  apply wp_bind, Hopen. intros tr1. cbn.
  assert (Hopts : ∀ l (Q : unit → list zcall → Prop) tr, (∀ tr, Q tt tr) →
    wp (mfor l (λ o, SNIMPL_call (zmq_setsockopt h o))) Q tr).
  { clear HQ Hk. induction l as [|o l IH]; intros Q' tr' HQ; simpl; [by apply wp_ret|].
    wp_steps. unfold SNIMPL_call. wp_steps. unfold zmq_setsockopt, call, wp at 1.
    rewrite (zr_setsockopt Hready). apply wp_SNIMPL; [done|]. by apply IH. }
  apply wp_bind, Hopts. intros tr2. apply wp_bind.
  assert (Hlast : ∀ tr, Q (Some (mk_opened h (callback && loop))) tr) by (intros; by apply HQ).
  destruct callback; [|by apply wp_ret, Hlast]. apply wp_bind. unfold SNIMPL_call.
  apply wp_bind. unfold zmq_getfd, call, wp at 1. rewrite (zr_getfd Hready). apply wp_SNIMPL; [done|].
  destruct loop; apply Hlast.
Qed.

Lemma wp_index_field f (Q : request_field → setup → Prop) s :
  (∀ f' s', unindexed f' = unindexed f → indexed f' → su_routes s' = su_routes s → Q f' s') →
  wp (index_field f) Q s.
Proof.
  intros HQ. unfold index_field. case_decide as Hk; wp_steps.
  - apply HQ; [by destruct f|intros _; apply (wl_index Hlaws)|done].
  - apply HQ; [done|by intros E; destruct (Hk E)|done].
Qed.

Lemma wp_index_fields l (Q : list request_field → setup → Prop) s :
  (∀ l' s', unindexed <$> l' = unindexed <$> l → Forall indexed l' → su_routes s' = su_routes s → Q l' s') →
  wp (index_fields l) Q s.
Proof.
  revert Q s. induction l as [|f l IH]; intros Q s HQ; simpl; [apply wp_ret, HQ; by constructor|].
  wp_steps. apply wp_index_field. intros f' s1 Hf Hi E1. wp_steps. apply IH. intros l' s2 Hl Hil E2. wp_steps.
  apply HQ; [by rewrite !fmap_cons, Hf, Hl|by constructor|congruence].
Qed.

(** *** The visitor *)

Lemma conf_lookup (C : gmap nat hroute) s rid rt :
  conf <$> su_routes s = C → su_routes s !! rid = Some rt → C !! rid = Some (conf rt).
Proof. intros <- E. by rewrite lookup_fmap, E. Qed.

Lemma conf_lookup_inv (C : gmap nat hroute) s rid crt :
  conf <$> su_routes s = C → C !! rid = Some crt → ∃ rt, su_routes s !! rid = Some rt ∧ conf rt = crt.
Proof. intros <- E. apply lookup_fmap_Some in E as (rt & <- & E). eauto. Qed.

Lemma conf_idemp rt : conf (conf rt) = conf rt.
Proof. destruct rt. unfold conf. simpl. f_equal. by rewrite <- list_fmap_compose. Qed.

(** Nothing that the configuration file says has changed, and only routes below
    [rid] have changed at all; what was prepared still is. *)
Record visiting (rank : route_id → nat) (C : gmap nat hroute) (rid : route_id) s s' : Prop := {
  vi_conf : conf <$> su_routes s' = C;
  vi_frame : ∀ x, rank rid ≤ rank x → x ≠ rid → su_routes s' !! x = su_routes s !! x;
  vi_kept : ∀ x rt, x ≠ rid → su_routes s !! x = Some rt → prepared C rt →
    ∃ rt', su_routes s' !! x = Some rt' ∧ prepared C rt';
}.

(** The routes in [X] are prepared. *)
Definition all_prepared (C : gmap nat hroute) (X : route_id → Prop) s : Prop :=
  ∀ x, X x → ∃ rt, su_routes s !! x = Some rt ∧ prepared C rt.

Lemma visiting_refl rank C rid s : conf <$> su_routes s = C → visiting rank C rid s s.
Proof. intros E. split; [done..|eauto]. Qed.

Lemma visiting_set rank C rid s s1 rt rt' :
  visiting rank C rid s s1 → su_routes s1 !! rid = Some rt → conf rt' = conf rt →
  visiting rank C rid s (s1 <| su_routes := <[rid := rt']> (su_routes s1) |>).
Proof.
  intros [V1 V2 V3] E Ec. split; simpl.
  - rewrite fmap_insert, Ec, <- V1. apply insert_id. by rewrite lookup_fmap, E.
  - intros x Hr Hne. rewrite lookup_insert_ne by done. by apply V2.
  - intros x rt0 Hne Hx Hp. rewrite lookup_insert_ne by done. by apply (V3 x rt0).
Qed.

(** A visit of a child is a step of the visit of its parent. *)
Lemma visiting_child rank C rid child s s1 s2 :
  rank child < rank rid → visiting rank C rid s s1 → visiting rank C child s1 s2 →
  (∃ rt, su_routes s2 !! child = Some rt ∧ prepared C rt) →
  visiting rank C rid s s2 ∧ su_routes s2 !! rid = su_routes s1 !! rid.
Proof.
  intros Hr [V1 V2 V3] [W1 W2 W3] Hchild. split; [split|].
  - done.
  - intros x Hx Hne. rewrite W2 by (lia || intros ->; lia). by apply V2.
  - intros x rt Hne Hx Hp. destruct (V3 x rt Hne Hx Hp) as (rt1 & E1 & P1).
    destruct (decide (x = child)) as [->|Hnc]; [done|]. by apply (W3 x rt1).
  - apply W2; [lia|]. intros ->. lia.
Qed.

Lemma visiting_prepared rank C rid X s s' :
  visiting rank C rid s s' → all_prepared C X s → (X rid → ∃ rt, su_routes s' !! rid = Some rt ∧ prepared C rt) →
  all_prepared C X s'.
Proof.
  intros [_ _ V] HX Hrid x Hx. destruct (decide (x = rid)) as [->|Hne]; [by apply Hrid|].
  destruct (HX x Hx) as (rt & E & P). by apply (V x rt).
Qed.

(** Nothing changes but the routes' own fields. *)
Lemma wp_open_forward rid rt (Q : unit → setup → Prop) s :
  su_routes s !! rid = Some rt →
  sk_kind (hr_socket rt) = kind_auto ∨ sk_kind (hr_socket rt) = zmq_Req →
  (∀ s' rt', su_routes s' = <[rid := rt']> (su_routes s) → conf rt' = conf rt →
     (sk_value (hr_socket rt) ≠ [] → Forall indexed (hr_contents rt')) → Q tt s') →
  wp (open_forward rid) Q s.
Proof.
  intros E Hk HQ. unfold open_forward. wp_steps. eapply wp_su_get; [done|]. wp_steps.
  destruct (sk_value (hr_socket rt)) as [|a l] eqn:Ev.
  { apply wp_ret, (HQ s rt); [by rewrite insert_id|done|done]. }
  wp_steps. apply wp_zoom, wp_zmq_open; [by destruct Hk as [-> | ->]|]. intros o tr Ho.
  wp_steps. apply wp_SNIMPL; [by apply bool_decide_eq_false_2|]. destruct o as [o|]; [|done].
  wp_steps. apply wp_index_fields. intros l' s' El Hl Er. eapply wp_su_set; [by rewrite Er|].
  apply (HQ _ (rt <| hr_contents := l' |>)); [simpl; by rewrite Er|by destruct rt; unfold conf; simpl in *; rewrite El|done].
Qed.

(** A table that was only filled so far. *)
Definition filling rt (l : list (bytes * bool * route_id)) : Prop :=
  hr_child_match rt = Some (mk_matcher l false).

Lemma wp_add_entry rank C rid rt kind value child l s0 (Q : unit → setup → Prop) s :
  visiting rank C rid s0 s → su_routes s !! rid = Some rt → filling rt l →
  (∀ s' rt', visiting rank C rid s0 s' → su_routes s' !! rid = Some rt' → conf rt' = conf rt →
     hr_contents rt' = hr_contents rt →
     filling rt' (l ++ [(match_entry kind value, child)]) →
     (∀ x, x ≠ rid → su_routes s' !! x = su_routes s !! x) → Q tt s') →
  wp (add_entry rid kind value child) Q s.
Proof.
  intros Hv E Hf HQ. unfold add_entry. eapply wp_su_set; [done|].
  eapply HQ; [eapply (visiting_set _ _ _ _ _ rt); [done..|] | apply lookup_insert_eq | | | |].
  - by destruct rt.
  - by destruct rt.
  - by destruct rt.
  - unfold filling. simpl. by rewrite Hf.
  - intros x Hne. simpl. by apply lookup_insert_ne.
Qed.

Lemma wp_add_entries rank C rid rt kind values child l s0 (Q : unit → setup → Prop) s :
  visiting rank C rid s0 s → su_routes s !! rid = Some rt → filling rt l →
  (∀ s' rt', visiting rank C rid s0 s' → su_routes s' !! rid = Some rt' → conf rt' = conf rt →
     hr_contents rt' = hr_contents rt →
     filling rt' (l ++ ((λ v, (match_entry kind v, child)) <$> values)) →
     (∀ x, x ≠ rid → su_routes s' !! x = su_routes s !! x) → Q tt s') →
  wp (mfor values (λ v, add_entry rid kind v child)) Q s.
Proof.
  revert rt l s. induction values as [|v values IH]; intros rt l s Hv E Hf HQ; cbn [mfor].
  { apply wp_ret, (HQ s rt); [done..|by rewrite app_nil_r|done]. }
  apply wp_bind. eapply wp_add_entry; [done..|]. intros s1 rt1 Hv1 E1 C1 T1 Hf1 Hx1.
  eapply IH; [done..|]. intros s2 rt2 Hv2 E2 C2 T2 Hf2 Hx2. apply (HQ s2 rt2); [done|done|congruence..| |].
  - by rewrite <- app_assoc in Hf2.
  - intros x Hne. rewrite Hx2, Hx1; done.
Qed.

(** *** The loops over the children *)

(** The entries [l] were added for the children [dn], which were visited. *)
Record looping (rank : route_id → nat) (C : gmap nat hroute) (rid : route_id) s0 rt0
    (dn : list route_id) (l : list (bytes * bool * route_id)) s : Prop := {
  lo_visiting : visiting rank C rid s0 s;
  lo_route : ∃ rt, su_routes s !! rid = Some rt ∧ conf rt = conf rt0 ∧ hr_contents rt = hr_contents rt0 ∧
    filling rt l;
  lo_done : all_prepared C (λ x, ∃ child, child ∈ dn ∧ below C child x) s;
}.

Definition visits_below (rank : route_id → nat) (C : gmap nat hroute) (rid : route_id) s s' : Prop :=
  visiting rank C rid s s' ∧ all_prepared C (below C rid) s'.

Lemma below_rank rank C rid x : tree_ok rank C → below C rid x → rank x ≤ rank rid.
Proof.
  intros Ht. induction 1 as [rid|rid rt child x E Hb Hc Hx IH]; [done|].
  destruct (tr_child _ _ Ht rid rt child E Hc). lia.
Qed.

Lemma wp_visit_child rank C rid s0 rt0 dn l es kind values n child (Q : unit → setup → Prop) s :
  tree_ok rank C → C !! rid = Some (conf rt0) → child ∈ children_of rt0 →
  (∀ s rt, conf <$> su_routes s = C → su_routes s !! child = Some rt →
     wp (socket_visitor n child) (λ _, visits_below rank C child s) s) →
  looping rank C rid s0 rt0 dn l s → es = (λ v, (match_entry kind v, child)) <$> values →
  (∀ s', looping rank C rid s0 rt0 (dn ++ [child]) (l ++ es) s' → Q tt s') →
  wp (mfor values (λ v, add_entry rid kind v child);; socket_visitor n child) Q s.
Proof.
  intros Ht HC Hchild Hvisit [Hv (rt & E & Ec & Et & Hf) Hd] -> HQ.
  destruct (tr_child _ _ Ht rid _ child HC Hchild) as [[crt0 Hcrt] Hr].
  apply wp_bind. eapply wp_add_entries; [done..|]. intros s1 rt1 Hv1 E1 C1 T1 Hf1 Hx1.
  assert (Hd1 : all_prepared C (λ x, ∃ child, child ∈ dn ∧ below C child x) s1).
  { intros x Hx. destruct (Hd x Hx) as (rtx & Ex & Px). exists rtx. split; [|done].
    rewrite Hx1; [done|]. intros ->. clear -Hx Ht HC Hd Ex Px E Hf.
    rewrite E in Ex. injection Ex as <-. destruct Px as [Pm _ _]. unfold filling in Hf. rewrite Hf in Pm.
    case_decide; [|done]. by injection Pm. }
  destruct (conf_lookup_inv C s1 child crt0) as (crt & Ecrt & _); [apply Hv1|done|].
  eapply wp_mono; [apply (Hvisit s1 crt); [apply Hv1|done]|]. intros [] s2 [W P].
  destruct (visiting_child rank C rid child s0 s1 s2) as [Hv2 E2]; [done..|apply P; constructor|].
  apply HQ. split; [done| |].
  - exists rt1. rewrite E2. split_and!; [done|congruence|congruence|done].
  - intros x (c & Hc & Hx). apply elem_of_app in Hc as [Hc|Hc%list_elem_of_singleton].
    + eapply (visiting_prepared _ _ _ _ _ _ W Hd1); [intros _; apply P; constructor|eauto].
    + subst c. by apply P.
Qed.

Lemma wp_mfor_one {S A B} (a : A) (f : A → M S unit) (m : M S B) (Q : B → S → Prop) st :
  wp (mfor [a] f;; m) Q st → wp (f a;; m) Q st.
Proof. unfold wp, mbind, M_bind. simpl. unfold mbind, M_bind. by destruct (f a st) as [[] | | |]. Qed.

(** Both loops over the children. *)
Lemma wp_children rank C rid s0 rt n (Q : unit → setup → Prop) s :
  tree_ok rank C → C !! rid = Some (conf rt) →
  (∀ child rt s, conf <$> su_routes s = C → su_routes s !! child = Some rt → rank child < n →
     wp (socket_visitor n child) (λ _, visits_below rank C child s) s) →
  rank rid < S n → looping rank C rid s0 rt [] [] s →
  (∀ s', looping rank C rid s0 rt (children_of rt) (entries C rt) s' →
     wp (su_set rid (λ rt, rt <| hr_child_match ::= fmap (λ m, m <| m_compiled := true |>) |>)) Q s') →
  wp (mfor (hr_children rt) (λ child,
        crt ← su_get child;
        mfor (hr_match crt) (λ value, add_entry rid (hr_routing rt) value child);;
        socket_visitor n child);;
      mfor (hr_map rt) (λ item,
        add_entry rid (hr_routing rt) item.1 item.2;;
        socket_visitor n item.2);;
      su_set rid (λ rt, rt <| hr_child_match ::= fmap (λ m, m <| m_compiled := true |>) |>)) Q s.
Proof.
  intros Ht HC IH Hn Hlo HQ. set (kind := hr_routing rt).
  apply wp_bind, (wp_mfor (λ rest s', ∃ dn, hr_children rt = dn ++ rest ∧
    looping rank C rid s0 rt dn (mjoin (child_entries C kind <$> dn)) s')).
  { by exists []. }
  { intros child rest s1 (dn & Ed & Hlo1).
    assert (Hc : child ∈ children_of rt) by (unfold children_of; rewrite Ed; set_solver).
    destruct (tr_child _ _ Ht rid _ child HC Hc) as [[ccrt Hcrt] Hr].
    destruct (conf_lookup_inv C s1 child ccrt) as (crt & Ecrt & Ecc); [apply Hlo1|done|].
    apply wp_bind. eapply wp_su_get; [done|].
    eapply (wp_visit_child rank C rid s0 rt dn); [done..| |exact Hlo1|reflexivity|].
    { intros s' rt' ? ?. eapply IH; [done..|lia]. }
    intros s2 Hlo2. exists (dn ++ [child]). split; [by rewrite <- app_assoc|].
    rewrite fmap_app, join_app. simpl. unfold child_entries at 2. rewrite Hcrt, app_nil_r.
    replace (hr_match ccrt) with (hr_match crt) by (by rewrite <- Ecc). done. }
  intros s1 (dn & Ed & Hlo1). rewrite app_nil_r in Ed. subst dn.
  apply wp_bind, (wp_mfor (λ rest s', ∃ dn, hr_map rt = dn ++ rest ∧
    looping rank C rid s0 rt (hr_children rt ++ (snd <$> dn))
      (mjoin (child_entries C kind <$> hr_children rt) ++ (map_entry kind <$> dn)) s')).
  { exists []. by rewrite !app_nil_r. }
  { intros [value child] rest s2 (dn & Ed & Hlo2). simpl.
    assert (Hc : child ∈ children_of rt) by (unfold children_of; rewrite Ed, fmap_app; set_solver).
    destruct (tr_child _ _ Ht rid _ child HC Hc) as [_ Hr].
    apply wp_mfor_one with (f := λ v, add_entry rid kind v child).
    eapply (wp_visit_child rank C rid s0 rt (hr_children rt ++ dn.*2)); [done..| |exact Hlo2|reflexivity|].
    { intros s' rt' ? ?. eapply IH; [done..|lia]. }
    intros s3 Hlo3. exists (dn ++ [(value, child)]). split; [by rewrite <- app_assoc|].
    by rewrite !fmap_app, !app_assoc. }
  intros s2 (dn & Ed & Hlo2). rewrite app_nil_r in Ed. subst dn. by apply HQ.
Qed.

Lemma wp_socket_visitor rank C n rid rt s :
  tree_ok rank C → conf <$> su_routes s = C → su_routes s !! rid = Some rt → rank rid < n →
  wp (socket_visitor n rid) (λ _, visits_below rank C rid s) s.
Proof.
  intros Ht. revert rid rt s. induction n as [|n IH]; intros rid rt s EC E Hn; [lia|]. cbn [socket_visitor].
  pose proof (conf_lookup C s rid rt EC E) as HC.
  apply wp_bind. eapply wp_open_forward; [done|apply (tr_socket _ _ Ht rid _ HC)|]. intros s1 rt1 E1 C1 T1.
  assert (Hv1 : visiting rank C rid s s1).
  { pose proof (visiting_set rank C rid s s rt rt1 (visiting_refl rank C rid s EC) E C1) as [V1 V2 V3].
    simpl in *. split; by rewrite E1. }
  apply wp_bind. eapply wp_su_set; [by rewrite E1, lookup_insert_eq|].
  set (rt2 := rt1 <| hr_child_match := None |>).
  set (s2 := s1 <| su_routes := _ |>).
  assert (C2 : conf rt2 = conf rt) by (rewrite <- C1; by destruct rt1).
  assert (Hv2 : visiting rank C rid s s2).
  { eapply (visiting_set _ _ _ _ _ rt1); [done|by rewrite E1, lookup_insert_eq|by destruct rt1]. }
  assert (E2 : su_routes s2 !! rid = Some rt2) by apply lookup_insert_eq.
  assert (T2 : sk_value (hr_socket rt2) ≠ [] → Forall indexed (hr_contents rt2)).
  { replace (hr_socket rt2) with (hr_socket rt); [done|]. change (hr_socket (conf rt) = hr_socket (conf rt2)). congruence. }
  assert (HC2 : C !! rid = Some (conf rt2)) by congruence.
  assert (N2 : hr_child_match rt2 = None) by done.
  clearbody rt2 s2. clear Hv1 E1 C1 T1 s1 rt1. clear HC.
  apply wp_bind. eapply wp_su_get; [done|].
  destruct (decide (branching rt2)) as [Hb|Hb].
  - rewrite decide_True by done. cbn zeta. apply wp_bind.
    rewrite decide_True by apply (tr_kind _ _ Ht rid _ HC2 Hb).
    apply wp_bind. eapply wp_su_set; [done|]. set (rt3 := rt2 <| hr_child_match := _ |>). set (s3 := s2 <| su_routes := _ |>).
    apply (wp_children rank C rid s rt2 n); try done.
    { split; [by apply (visiting_set _ _ _ _ _ rt2)| |intros x (c & Hc & _); by apply elem_of_nil in Hc].
      exists rt3. split_and!; [apply lookup_insert_eq|by destruct rt2..|done]. }
    intros s4 [V4 (rt4 & E4 & C4 & T4 & F4) D4].
    eapply wp_su_set; [done|]. apply wp_bind, wp_index_field. intros f s5 Ef Hf E5.
    eapply wp_su_set; [rewrite E5; apply lookup_insert_eq|].
    set (rt6 := _ <| hr_routing_by := f |>). set (s6 := s5 <| su_routes := _ |>).
    assert (C6 : conf rt6 = conf rt4).
    { assert (Eb : unindexed f = unindexed (hr_routing_by rt4)).
      { rewrite Ef. change (hr_routing_by (conf rt2) = hr_routing_by (conf rt4)). by rewrite C4. }
      clear -Eb. destruct rt4. unfold rt6, conf. simpl in *. by rewrite Eb. }
    assert (V6 : visiting rank C rid s s6).
    { pose proof (visiting_set rank C rid s s4 rt4 rt6 V4 E4 C6) as [W1 W2 W3]. simpl in *.
      unfold s6. split; simpl; rewrite E5; simpl; by rewrite insert_insert_eq. }
    split; [done|]. intros x Hx. destruct Hx as [|rt' child x HC' Hb' Hc Hx].
    + exists rt6. split; [apply lookup_insert_eq|]. assert (Ecf : conf rt6 = conf rt2) by congruence.
      assert (Hb6 : branching rt6) by (change (branching (conf rt6)); by rewrite Ecf). split.
      * rewrite decide_True by done. simpl. rewrite F4. simpl. do 2 f_equal.
        change (entries C (conf rt2) = entries C (conf rt6)). by rewrite Ecf.
      * intros _. exact Hf.
      * intros Hs. change (Forall indexed (hr_contents rt4)). rewrite T4. apply T2.
        by replace (hr_socket rt2) with (hr_socket rt6) by (change (hr_socket (conf rt6) = hr_socket (conf rt2)); by rewrite Ecf).
    + assert (rt' = conf rt2) as -> by congruence. destruct (tr_child _ _ Ht rid _ child HC2 Hc) as [_ Hr].
      pose proof (below_rank rank C child x Ht Hx).
      destruct (D4 x) as (rtx & Ex & Px); [eauto|]. exists rtx. split; [|done].
      unfold s6. simpl. rewrite E5. simpl. rewrite !lookup_insert_ne by (intros ->; lia). done.
  - rewrite decide_False by done. apply wp_ret. split; [done|].
    intros x Hx. destruct Hx as [|rt' child x HC' Hb' _ _]; [|].
    + exists rt2. split; [done|]. split; [by rewrite decide_False|done|done].
    + assert (rt' = conf rt2) as -> by congruence. by destruct Hb.
Qed.
End setup_lemmas.

(** ** Lemmas: replies and fields *)

(** The events of a static reply. *)
Definition static_reply (req : addr) (date : bytes) (resp : StaticResponse) : list event :=
  ReqStatus req (show_code (code resp) ++ " "%char :: status resp) :: ReqHeader req (str "Date") date ::
  ((λ h, ReqHeader req h.1 h.2) <$> sr_headers resp) ++ [ReqReply req (body resp)].

Lemma show_code_length z : (100 ≤ z ≤ 999)%Z → length (show_code z) = 3.
Proof.
  intros Hz. assert (Hall : forallb (λ n, length (show_code (Z.of_nat n)) =? 3)%nat (seq 100 900) = true)
    by (vm_compute; reflexivity).
  rewrite forallb_forall in Hall. specialize (Hall (Z.to_nat z)). rewrite in_seq in Hall.
  rewrite Z2Nat.id in Hall by lia. apply Nat.eqb_eq, Hall. lia.
Qed.

(** An address in dotted form always fits. *)
Lemma snprintf_ip_exact ip : (0 ≤ ip < 2 ^ 32)%Z → snprintf_ip ip = show_ip ip.
Proof.
  intros Hip. unfold snprintf_ip. apply take_ge.
  assert (Hpart : ∀ z, (0 ≤ z < 256)%Z → length (show_int 10 z) ≤ 3).
  { intros z Hz. assert (Hall : forallb (λ n, length (show_int 10 (Z.of_nat n)) <=? 3)%nat (seq 0 256) = true)
      by (vm_compute; reflexivity).
    rewrite forallb_forall in Hall. specialize (Hall (Z.to_nat z)). rewrite in_seq in Hall.
    rewrite Z2Nat.id in Hall by lia. apply Nat.leb_le, Hall. lia. }
  assert (Hand : ∀ z, (0 ≤ Z.land z 255 < 256)%Z).
  { intros z. change 255%Z with (Z.ones 8). rewrite Z.land_ones by lia. apply Z.mod_pos_bound. lia. }
  unfold show_ip. repeat (rewrite length_app; cbn [length]).
  pose proof (Hpart _ (Hand (Z.shiftr ip 16))). pose proof (Hpart _ (Hand (Z.shiftr ip 8))).
  pose proof (Hpart _ (Hand ip)).
  assert (0 ≤ Z.shiftr ip 24 < 256)%Z.
  { rewrite Z.shiftr_div_pow2 by lia. split; [apply Z.div_pos; lia|]. apply Z.div_lt_upper_bound; lia. }
  pose proof (Hpart (Z.shiftr ip 24)). lia.
Qed.

Section lemmas.
Context `{LogLevel, Env, Website, HttpConfig}.
Implicit Types (r : root).

Lemma run_mfor_emit {A} (l : list A) (e : A → event) r :
  mfor l (λ a, emit (e a)) r = Ok tt (noted r (e <$> l)).
Proof.
  revert r. induction l as [|a l IH]; intros r; cbn [mfor]; [by rewrite noted_nil|].
  unfold mbind, M_bind, emit, modify. rewrite IH. by rewrite (noted_noted r [e a]).
Qed.

Lemma wp_http_static_response req resp date (Q : unit → root → Prop) r :
  code_ok resp → http_date req = Some date → Q tt (noted r (static_reply req date resp)) →
  wp (http_static_response req resp) Q r.
Proof.
  intros Hc Hd HQ. unfold http_static_response. rewrite decide_True.
  2:{ rewrite length_app. cbn [length]. rewrite show_code_length by done. lia. }
  unfold http_common_headers. rewrite Hd. root_steps. unfold ws_add_header. root_steps.
  apply wp_SNIMPL; [done|]. root_steps. unfold wp. rewrite run_mfor_emit. unfold ws_reply_data, emit, modify.
  unfold static_reply in HQ. rewrite app_comm_cons, app_comm_cons, <- noted_noted in HQ.
  unfold noted in *. simpl in *. by rewrite <- !app_assoc in *.
Qed.

(** *** Fields *)
Definition ip_text (q : request) : bytes :=
  default (match rq_addr q with Some a => snprintf_ip a | None => [] end) (rq_ip q).

Definition field_text (q : request) (f : request_field) : bytes :=
  match f_kind f with
  | Body => if rq_bodypos q then rq_body q else []
  | Header => default [] (rq_fields q !! Z.to_nat (f_index f))
  | Uri => rq_uri q
  | Path => rq_path q
  | IP => ip_text q
  | Method => rq_method q
  | Cookie | Nothing => []
  end.

(** At most the text of the address was stored. *)
Definition cached (q q' : request) : Prop :=
  q' = q ∨ rq_ip q = None ∧ q' = q <| rq_ip := Some (ip_text q) |>.

Lemma cached_trans q1 q2 q3 : cached q1 q2 → cached q2 q3 → cached q1 q3.
Proof. intros [-> |[Hn ->]] [-> |[Hn' ->]]; [by left|by right|by right|]. done. Qed.

Lemma cached_text q q' f : cached q q' → field_text q' f = field_text q f.
Proof. intros [-> |[Hn ->]]; [done|]. by destruct f as [[]]. Qed.

Definition with_request_at r (req : addr) (q : request) : root := r <| requests := <[req := q]> (requests r) |>.

Lemma with_request_id r req q : requests r !! req = Some q → with_request_at r req q = r.
Proof. intros E. unfold with_request_at. rewrite insert_id by done. by destruct r. Qed.

Lemma with_request_twice r req q q' : with_request_at (with_request_at r req q) req q' = with_request_at r req q'.
Proof. unfold with_request_at. simpl. by rewrite insert_insert_eq. Qed.

Lemma wp_get_field req q f (Q : option bytes * option nat → root → Prop) r :
  requests r !! req = Some q → indexed f → f_kind f ≠ Cookie →
  (∀ v len q', default [] v = field_text q f → (f_kind f ≠ Nothing → len = Some (length (field_text q f))) →
     cached q q' → Q (v, len) (with_request_at r req q')) →
  wp (get_field req f) Q r.
Proof.
  intros Hq Hi Hk HQ.
  assert (Hid : ∀ v len, default [] v = field_text q f → (f_kind f ≠ Nothing → len = Some (length (field_text q f))) →
    Q (v, len) r).
  { intros v len Hv Hl. rewrite <- (with_request_id r req q Hq). apply HQ; [done|done|by left]. }
  unfold get_field. root_steps. unfold field_text in *.
  destruct (f_kind f) eqn:Ek; root_steps; try done; try by apply Hid.
  - unfold header_at. rewrite decide_True by by apply Hi. root_steps. apply Hid; [done|].
    intros _. by destruct (rq_fields q !! _).
  - destruct (rq_bodypos q); by apply Hid.
  - unfold get_ip. root_steps. unfold ip_text in *. destruct (rq_ip q) as [ip|] eqn:Eip; root_steps.
    + apply Hid; done.
    + apply HQ; [done|done|]. right. split; [done|]. unfold ip_text. by rewrite Eip.
Qed.
End lemmas.

(** ** The route of a request *)

(** A string of the configuration that leads to [child], and the data that it
    accepts. *)
Definition pattern_of (C : gmap nat hroute) (rt : hroute) (pat : bytes) (child : route_id) : Prop :=
  (child ∈ hr_children rt ∧ ∃ crt, C !! child = Some crt ∧ pat ∈ hr_match crt) ∨ (pat, child) ∈ hr_map rt.

Definition accepts (kind : routing_kind) (pat data : bytes) : Prop :=
  match kind, at_star pat with
  | Prefix, Some (before, _) => before `prefix_of` data
  | Suffix, Some (_, after) => after `suffix_of` data
  | _, _ => pat = data
  end.

(** The way of a request down the tree: the route it is given, if any, and the
    route where the way ended. *)
Inductive resolves `{HttpConfig} (q : request) : route_id → option route_id → route_id → Prop :=
  | resolves_here rid rt :
      hroutes !! rid = Some rt → ¬ branching rt → resolves q rid (Some rid) rid
  | resolves_child rid rt pat child o last :
      hroutes !! rid = Some rt → branching rt → pattern_of hroutes rt pat child →
      accepts (hr_routing rt) pat (field_text q (hr_routing_by rt)) →
      resolves q child o last → resolves q rid o last
  | resolves_none rid rt :
      hroutes !! rid = Some rt → branching rt →
      (∀ pat child, pattern_of hroutes rt pat child →
         ¬ accepts (hr_routing rt) pat (field_text q (hr_routing_by rt))) →
      resolves q rid None rid.

(** The set-up of [hroutes] is done. *)
Record config_ok `{HttpConfig} (rank : route_id → nat) : Prop := {
  co_tree : tree_ok rank (conf <$> hroutes);
  co_root : is_Some (hroutes !! Routing);
  co_depth : rank Routing ≤ route_depth;
  co_prepared : ∀ rid rt, below (conf <$> hroutes) Routing rid → hroutes !! rid = Some rt →
    prepared (conf <$> hroutes) rt;
}.

Section resolution.
Context `{LogLevel, Env, Website, HttpConfig}.
Hypothesis Hlaws : website_laws.
Hypothesis Hdate : ∀ req, is_Some (http_date req).
Context (rank : route_id → nat) (Hcfg : config_ok rank).
Implicit Types (r : root).

Abbreviation config := (conf <$> hroutes).

Lemma stands_for_accepts kind pat data : stands_for kind (match_entry kind pat) data ↔ accepts kind pat data.
Proof. unfold match_entry, accepts. destruct kind, (at_star pat) as [[b a]|]; done. Qed.

Lemma elem_of_entries rt e child :
  (e, child) ∈ entries config rt ↔ ∃ pat, e = match_entry (hr_routing rt) pat ∧ pattern_of hroutes rt pat child.
Proof.
  unfold entries, pattern_of. rewrite elem_of_app, list_elem_of_join. split.
  - intros [(l & He & Hl)|He].
    + apply list_elem_of_fmap in Hl as (c & -> & Hc). unfold child_entries in He. rewrite lookup_fmap in He.
      destruct (hroutes !! c) as [crt|] eqn:E; simpl in He; [|by apply elem_of_nil in He].
      apply list_elem_of_fmap in He as (v & [= -> ->] & Hv). exists v. split; [done|]. left. eauto.
    + apply list_elem_of_fmap in He as ([pat c] & [= -> ->] & Hp). exists pat. split; [done|]. by right.
  - intros (pat & -> & [(Hc & crt & E & Hp)|Hp]).
    + left. exists (child_entries config (hr_routing rt) child).
      split; [|apply list_elem_of_fmap; eauto]. unfold child_entries. rewrite lookup_fmap, E. simpl.
      apply list_elem_of_fmap. eauto.
    + right. apply list_elem_of_fmap. exists (pat, child). done.
Qed.

Lemma pattern_child rt pat child : pattern_of hroutes rt pat child → child ∈ children_of rt.
Proof.
  unfold pattern_of, children_of. rewrite elem_of_app. intros [[? _]|Hp]; [by left|right].
  apply list_elem_of_fmap. by exists (pat, child).
Qed.

(** A lookup in a table that was set up answers as the configuration says. *)
Lemma match_child_answer rt data :
  hr_routing rt = Exact ∨ hr_routing rt = Prefix ∨ hr_routing rt = Suffix →
  match match_child (hr_routing rt) (mk_matcher (entries config rt) true) data with
  | Some child => ∃ pat, pattern_of hroutes rt pat child ∧ accepts (hr_routing rt) pat data
  | None => ∀ pat child, pattern_of hroutes rt pat child → ¬ accepts (hr_routing rt) pat data
  end.
Proof.
  intros Hk. assert (Ha : table_answer (hr_routing rt) (entries config rt) data
    (match_child (hr_routing rt) (mk_matcher (entries config rt) true) data)).
  { destruct Hk as [-> |[-> | ->]]; simpl; [apply (wl_match Hlaws)|apply (wl_fuzzy Hlaws)|apply (wl_rfuzzy Hlaws)]. }
  destruct (match_child _ _ _) as [child|]; simpl in Ha.
  - destruct Ha as (e & (pat & -> & Hp)%elem_of_entries & Hs). exists pat. by rewrite <- stands_for_accepts.
  - intros pat child Hp. rewrite <- stands_for_accepts. apply (Ha _ child), elem_of_entries. eauto.
Qed.

Lemma below_lookup rid :
  below config Routing rid → ∃ rt, hroutes !! rid = Some rt ∧ config !! rid = Some (conf rt) ∧ prepared config rt.
Proof.
  intros Hb. assert (Hs : is_Some (hroutes !! rid)).
  { pose proof (co_root _ Hcfg) as Hr. revert Hr. induction Hb as [rid|rid rt child x E Hb Hc Hx IH]; [done|].
    intros _. apply IH. destruct (tr_child _ _ (co_tree _ Hcfg) rid rt child E Hc) as [[crt Hcrt] _].
    rewrite lookup_fmap in Hcrt. by apply fmap_Some in Hcrt as (? & -> & _). }
  destruct Hs as [rt E]. exists rt. rewrite lookup_fmap, E. split_and!; [done..|].
  by apply (co_prepared _ Hcfg rid).
Qed.

Lemma below_step rid rt child :
  below config Routing rid → config !! rid = Some (conf rt) → branching rt → child ∈ children_of rt →
  below config Routing child.
Proof.
  intros Hb E Hbr Hc. induction Hb as [rid|rid rt' c x E' Hb' Hc' Hx IH].
  - apply (below_child config rid (conf rt) child); [done..|constructor].
  - apply (below_child config rid rt' c); [done..|]. by apply IH.
Qed.

(** What resolution does to the state. *)
Definition resolved r (req : addr) (q : request) (ready : bool) (o : option route_id) (resp : option StaticResponse)
    r' : Prop :=
  ∃ q' date, cached q q' ∧ http_date req = Some date ∧
    r' = noted (with_request_at r req q')
           (match o, resp with None, Some resp => if ready then static_reply req date resp else [] | _, _ => [] end).

Lemma wp_resolve_loop n req ready q rid r :
  requests r !! req = Some q → below config Routing rid → rank rid < n →
  wp (resolve_loop n req ready rid) (λ o r', ∃ last rt, resolves q rid o last ∧ hroutes !! last = Some rt ∧
    below config Routing last ∧ resolved r req q ready o (Some (hr_not_found rt)) r') r.
Proof.
  destruct (Hdate req) as [date Hd]. revert q rid r.
  induction n as [|n IH]; intros q rid r Hq Hb Hn; [lia|]. cbn [resolve_loop].
  destruct (below_lookup rid Hb) as (rt & E & Ec & [Pm Pb _]). unfold get_hroute. root_steps.
  case_decide as Hbr; rewrite Pm.
  2:{ apply wp_ret. exists rid, rt. split_and!; [by econstructor|done|done|]. exists q, date.
      split_and!; [by left|done|]. by rewrite with_request_id, noted_nil. }
  apply wp_bind. eapply wp_get_field; [done|by apply Pb|by apply (tr_field _ _ (co_tree _ Hcfg) rid _ Ec)|].
  intros v len q1 Hv _ Hc1. cbn beta iota zeta. rewrite Hv.
  pose proof (tr_kind _ _ (co_tree _ Hcfg) rid _ Ec Hbr) as Hk. simpl in Hk.
  pose proof (match_child_answer rt (field_text q (hr_routing_by rt)) Hk) as Hans.
  assert (Hq1 : requests (with_request_at r req q1) !! req = Some q1) by apply lookup_insert_eq.
  assert (Hgo : wp (match match_child (hr_routing rt) (mk_matcher (entries config rt) true) (field_text q (hr_routing_by rt)) with
       | Some child => resolve_loop n req ready child
       | None => whenb ready (http_static_response req (hr_not_found rt));; mret None
       end) (λ o r', ∃ last rt, resolves q rid o last ∧ hroutes !! last = Some rt ∧
    below config Routing last ∧ resolved r req q ready o (Some (hr_not_found rt)) r') (with_request_at r req q1)).
  { destruct (match_child _ _ _) as [child|].
    - destruct Hans as (pat & Hp & Ha). pose proof (pattern_child _ _ _ Hp) as Hch.
      destruct (tr_child _ _ (co_tree _ Hcfg) rid _ child Ec Hch) as [_ Hr].
      eapply wp_mono; [apply (IH q1 child _ Hq1); [by eapply below_step|lia]|].
      intros o r' (last & rtl & Hres & El & Hbl & (q2 & date' & Hc2 & Hd' & ->)).
      exists last, rtl. split_and!; [|done|done|].
      + econstructor; [done..|]. clear -Hres Hc1. induction Hres.
        * by eapply resolves_here.
        * eapply resolves_child; [done..| |done]. by rewrite <- (cached_text q q1).
        * eapply resolves_none; [done..|]. intros pat' child'. rewrite <- (cached_text q q1) by done. eauto.
      + exists q2, date'. split_and!; [by eapply cached_trans|done|]. by rewrite with_request_twice.
    - assert (Hres : resolves q rid None rid) by by eapply resolves_none.
      apply wp_bind. destruct ready; simpl.
      + eapply wp_http_static_response; [|done|].
        { pose proof (tr_codes _ _ (co_tree _ Hcfg) rid _ Ec) as Hcodes. simpl in Hcodes.
          unfold responses in Hcodes. rewrite !Forall_cons in Hcodes. apply Hcodes. }
        apply wp_ret. exists rid, rt. split_and!; [done..|]. exists q1, date. done.
      + apply wp_ret, wp_ret. exists rid, rt. split_and!; [done..|]. exists q1, date. by rewrite noted_nil. }
  by destruct Hk as [Ek|[Ek|Ek]]; rewrite Ek in *.
Qed.

Lemma wp_do_resolve_url req ready q r :
  requests r !! req = Some q → sieve_full (request_sieve r) = false →
  wp (do_resolve_url req ready) (λ o r', ∃ last rt, resolves q Routing o last ∧ hroutes !! last = Some rt ∧
    below config Routing last ∧ resolved r req q ready o (Some (hr_not_found rt)) r') r.
Proof.
  intros Hq Hfull. unfold do_resolve_url. root_steps. rewrite Hfull.
  apply wp_resolve_loop; [done|constructor|]. pose proof (co_depth _ Hcfg). lia.
Qed.

Lemma wp_do_resolve_url_full req ready q rt r :
  requests r !! req = Some q → sieve_full (request_sieve r) = true →
  hroutes !! default Routing (rq_route q) = Some rt → code_ok (hr_service_unavailable rt) →
  wp (do_resolve_url req ready) (λ o r', o = None ∧
    resolved r req q ready None (Some (hr_service_unavailable rt)) r') r.
Proof.
  intros Hq Hfull E Hc. destruct (Hdate req) as [date Hd]. unfold do_resolve_url. root_steps. rewrite Hfull.
  apply wp_bind. destruct ready; simpl.
  - apply wp_bind. unfold REQRCONFIG. root_steps. unfold get_hroute. root_steps.
    eapply wp_http_static_response; [done..|]. apply wp_ret. split; [done|]. exists q, date.
    split_and!; [by left|done|]. by rewrite with_request_id.
  - apply wp_ret, wp_ret. split; [done|]. exists q, date. split_and!; [by left|done|].
    by rewrite with_request_id, noted_nil.
Qed.
End resolution.

(** ** Claims *)

(** A configuration that was set up. *)
Lemma config_ok_prepared `{LogLevel, ZmqSetup, Website, HttpConfig} rank (s0 : setup) :
  website_laws → zmq_ready → tree_ok rank (conf <$> su_routes s0) → is_Some (su_routes s0 !! Routing) →
  rank Routing ≤ route_depth →
  wp (prepare_http (S route_depth) Routing)
     (λ ok s, ok = true ∧ (hroutes = su_routes s → config_ok rank)) s0.
Proof.
  intros Hlaws Hready Ht [rt E] Hd. unfold prepare_http. apply wp_bind.
  eapply wp_mono; [apply (wp_socket_visitor Hready Hlaws rank _ _ _ rt s0 Ht); [done..|lia]|].
  intros [] s [[V _ _] P]. apply wp_ret. split; [done|]. intros Hh. split.
  - by rewrite Hh, V.
  - destruct (P Routing) as (rt' & E' & _); [constructor|]. rewrite Hh. by exists rt'.
  - done.
  - rewrite Hh, V. intros rid rt' Hb Hrt'. destruct (P rid Hb) as (rt1 & E1 & P1). by simplify_eq.
Qed.

(** C8: The set-up of a tree of routes that the gateway supports succeeds, and
    afterwards every request, while the table of requests has room, is led to
    the route that the configuration file describes: from the root on, each
    branching route sends it to a child one of whose strings accepts the field
    that the route looks at, literally, by its beginning or by its end; it ends
    at a route without routing, or at one none of whose strings accept, in which
    case the not-found reply of that route is sent exactly when replying is
    asked for.  Nothing but the cached address of the request changes, and the
    walk always ends. *)
Theorem resolve_url_correct `{LogLevel, ZmqSetup, Env, Website, HttpConfig} (rank : route_id → nat) (s0 : setup)
    (Hlaws : website_laws) (Hready : zmq_ready) (Hdate : ∀ req, is_Some (http_date req))
    (Htree : tree_ok rank (conf <$> su_routes s0)) (Hroot : is_Some (su_routes s0 !! Routing))
    (Hdepth : rank Routing ≤ route_depth) :
  wp (prepare_http (S route_depth) Routing)
     (λ ok s, ok = true ∧ (hroutes = su_routes s →
        ∀ req q ready r, requests r !! req = Some q → sieve_full (request_sieve r) = false →
        wp (do_resolve_url req ready)
           (λ o r', ∃ last rt, resolves q Routing o last ∧ hroutes !! last = Some rt ∧
              resolved r req q ready o (Some (hr_not_found rt)) r') r)) s0.
Proof.
  eapply wp_mono; [by apply (config_ok_prepared rank s0)|]. intros ok s [-> Hcfg]. split; [done|].
  intros Hh req q ready r Hq Hf.
  eapply wp_mono; [by apply (wp_do_resolve_url Hlaws Hdate rank (Hcfg Hh) req ready q)|].
  intros o r' (last & rt & ? & ? & _ & ?). eauto.
Qed.

(** A library whose tables are searched from the front. *)
#[export] Instance stands_for_dec kind e data : Decision (stands_for kind e data).
Proof. destruct kind; simpl; try destruct (e.2); apply _. Defined.

Fixpoint first_match (kind : routing_kind) (l : list (bytes * bool * route_id)) (data : bytes) : option route_id :=
  match l with
  | [] => None
  | (e, child) :: l => if decide (stands_for kind e data) then Some child else first_match kind l data
  end.

Lemma first_match_answer kind l data : table_answer kind l data (first_match kind l data).
Proof.
  induction l as [|[e child] l IH]; simpl.
  { intros e child He. by apply elem_of_nil in He. }
  case_decide as Hs; [exists e; split; [by left|done]|].
  destruct (first_match kind l data); simpl in *.
  - destruct IH as (e' & He & ?). exists e'. split; [by right|done].
  - intros e' child' [[= -> ->]|He]%elem_of_cons; [done|by eapply IH].
Qed.

Definition example_website : Website := {|
  ws_match := first_match Exact; ws_fuzzy := first_match Prefix; ws_rfuzzy := first_match Suffix;
  ws_index_header l _ := Z.of_nat (length l);
|}.

Lemma example_website_laws : website_laws (H := example_website).
Proof. split; [apply (first_match_answer Exact)|apply (first_match_answer Prefix)|
  apply (first_match_answer Suffix)|simpl; lia]. Qed.

Definition example_response (c : Z) (text : string) : StaticResponse := mk_response c (str text) [] (str text).
Definition example_socket : zmqsocket := mk_zmqsocket kind_auto [zmq_Connect (str "tcp://app:1")] 0 [] 0 0 0 0 10000.
Definition no_static : static_conf := mk_static false [] 0 false None [] true [] [] [] false.

(** A route that forwards the method and the URI of its requests. *)
Definition example_route (kind : routing_kind) (children : list (bytes * route_id)) : hroute :=
  mk_hroute kind (mk_field Uri [] (-1)) [] [] children None
    (example_response 404 "Not Found") (example_response 404 "Not Found") (example_response 403 "Forbidden")
    (example_response 500 "Internal Server Error") (example_response 503 "Service Unavailable")
    (example_response 504 "Gateway Timeout") 65536 (bool_decide (children = [])) example_socket
    [mk_field Method [] (-1); mk_field Uri [] (-1)] 5 RetryLast 2 false no_static.

(** Everything below /app/ goes to the application. *)
Definition example_tree : setup :=
  mk_setup {[0 := example_route Prefix [(str "/app/*", 1)]; 1 := example_route Leaf []]} [] [] ∅.

Definition example_zmq : ZmqSetup := {|
  zmq_socket_res tr _ := Some (length tr); zmq_addr_ok _ _ _ := true; zmq_setsockopt_ok _ _ _ := true;
  zmq_getfd_ok _ _ := true; zmq_close_ok _ _ := true;
|}.

Lemma example_zmq_ready : zmq_ready (H := example_zmq).
Proof. by split. Qed.

Definition example_level : LogLevel := 4%Z.

Definition example_routes : gmap nat hroute :=
  match prepare_http (H := example_level) (H0 := example_zmq) (H1 := example_website) 3 0 example_tree with
  | Ok _ s => su_routes s
  | _ => ∅
  end.

Definition example_config : HttpConfig := {| hroutes := example_routes; Routing := 0; route_depth := 2 |}.

Definition example_rank (rid : route_id) : nat := if decide (rid = 0) then 1 else 0.

Lemma example_tree_ok : tree_ok example_rank (conf <$> su_routes example_tree).
Proof.
  assert (Hcases : ∀ rid rt, (conf <$> su_routes example_tree) !! rid = Some rt →
    rid = 0 ∧ rt = conf (example_route Prefix [(str "/app/*", 1)]) ∨ rid = 1 ∧ rt = conf (example_route Leaf [])).
  { intros rid rt. rewrite lookup_fmap. intros (rt' & E & ->)%fmap_Some_1. simpl in E.
    apply lookup_insert_Some in E as [[<- <-]|[_ E]]; [by left|].
    apply lookup_singleton_Some in E as [<- <-]. by right. }
  split.
  - intros rid rt child [[-> ->]|[-> ->]]%Hcases Hc; [|by apply elem_of_nil in Hc].
    apply list_elem_of_singleton in Hc as ->. split; [by eexists|vm_compute; lia].
  - intros rid rt [[-> ->]|[-> ->]]%Hcases Hb; [by right; left|by destruct Hb].
  - intros rid rt [[-> ->]|[-> ->]]%Hcases; by left.
  - by intros rid rt [[-> ->]|[-> ->]]%Hcases.
  - intros rid rt [[-> ->]|[-> ->]]%Hcases; repeat constructor; simpl; lia.
Qed.

Definition example_arrived : root :=
  empty_root <| requests := {[5 := plain_request "GET" "/app/start" "" 0]} |>
             <| request_sieve := mk_sieve 0 4 0 0 [None; None; None; None] |>.

Lemma resolve_url_correct_witness :
  ∃ r' last, do_resolve_url (H := example_level) (H0 := example_env) (H1 := example_website) (H2 := example_config)
               5 true example_arrived = Ok (Some 1) r' ∧
    resolves (H := example_config) (plain_request "GET" "/app/start" "" 0) 0 (Some 1) last.
Proof.
  destruct (proj1 (wp_Ok _ _ _) (@resolve_url_correct example_level example_zmq example_env example_website
    example_config example_rank example_tree example_website_laws example_zmq_ready (λ _, ltac:(by eexists))
    example_tree_ok (ltac:(by eexists)) (ltac:(vm_compute; lia)))) as (ok & s & Hrun & -> & Hall).
  assert (Hh : @hroutes example_config = su_routes s).
  { simpl. unfold example_routes. simpl in Hrun. by rewrite Hrun. }
  destruct (proj1 (wp_Ok _ _ _) (Hall Hh 5 (plain_request "GET" "/app/start" "" 0) true example_arrived
    eq_refl eq_refl)) as (o & r' & Hgo & last & rt & Hres & _).
  assert (o = Some 1) as ->.
  { pose proof Hgo as Hgo'. vm_compute in Hgo'. by injection Hgo' as <- _. }
  exists r', last. by split.
Defined.
