(* ===== verification/Headers.v ===== *)
(** * Replies in parts (http.c, disk.c)

    A backend and the disk threads send a reply as a status line, headers and a
    body.  The headers are one part: the name and the value of every header, each
    with a NUL after it. *)

From S2P Require Import Prelude State CometArgs Request Comet Routing.

(** ** Operations *)
Section operations.
Context `{LogLevel, Env}.

(** The headers of a block, and what is left after the last complete one;
    [n] is at least the length.  src/src/http.c:93-108 [http_process] *)
Fixpoint parse_block (n : nat) (name : bytes) : list (bytes * bytes) * bytes :=
  match n with
  | O => ([], name)
  | S n =>
      match upto NUL name with
      | (_, []) => ([], name)
      | (key, _ :: value) =>
          match upto NUL value with
          | (_, []) => ([], name)
          | (v, _ :: rest) => let '(hs, garbage) := parse_block n rest in ((key, v) :: hs, garbage)
          end
      end
  end.

(** What follows the last complete header is only logged.
    src/src/http.c:87-113 [http_process] *)
Definition add_headers (req : addr) (data : bytes) : MR unit :=
  mfor (parse_block (length data) data).1 (λ h, emit (ReqHeader req h.1 h.2)).

(** A status line from a message. *)
Definition ws_statusline_len (req : addr) (line : bytes) : MR unit := emit (ReqStatus req line).

(** The last part is the body, which the request keeps until it is freed.
    src/src/http.c:134-142 [http_process] *)
Definition reply_body (req : addr) (data : bytes) : MR unit :=
  q ← get_request req;
  ANIMPL (Z.land (rq_flags q) REQ_HAS_MESSAGE =? 0)%Z;;
  set_request req (λ q, q <| rq_flags ::= λ f, Z.lor f REQ_HAS_MESSAGE |> <| rq_response := Some data |>);;
  ws_reply_data req data;;
  set_request req (λ q, q <| rq_flags ::= λ f, Z.lor f REQ_REPLIED |>);;
  request_finish req.

(** A failure of the common headers is ignored.
    src/src/http.c:129-133 [http_process] *)
Definition end_headers (req : addr) (rid : route_id) : MR unit :=
  http_common_headers req;;
  rt ← get_route rid;
  mfor (rt_headers rt) (λ line, emit (ReqHeader req line.1 line.2));;
  emit (ReqEndHeaders req).
End operations.

(** ** Specification *)

(** A block as a backend writes it. *)
Definition render_block (hs : list (bytes * bytes)) : bytes :=
  mjoin ((λ h, h.1 ++ NUL :: h.2 ++ [NUL]) <$> hs).

Definition plain_header (h : bytes * bytes) : Prop := nul_free h.1 ∧ nul_free h.2.

(** Nothing that would be a header is in it. *)
Definition no_header (garbage : bytes) : Prop :=
  ¬ (∃ key v rest, nul_free key ∧ nul_free v ∧ garbage = key ++ NUL :: v ++ NUL :: rest).

(** ** Lemmas *)
Lemma upto_split d s : (upto d s).1 ++ (upto d s).2 = s ∧ (d ∉ (upto d s).1) ∧
  (∀ c s', (upto d s).2 = c :: s' → c = d).
Proof.
  induction s as [|c s IH]; simpl; [split_and!; [done|apply not_elem_of_nil|done]|].
  case_decide as Hc; simpl; [split_and!; [done|apply not_elem_of_nil|by intros ? ? [= <- <-]]|].
  destruct (upto d s) as [a b] eqn:E. simpl in *. destruct IH as (<- & Hd & Hb).
  split_and!; [done| |done]. rewrite not_elem_of_cons. by split.
Qed.

Lemma parse_block_complete n hs garbage :
  Forall plain_header hs → no_header garbage → length (render_block hs ++ garbage) ≤ n →
  parse_block n (render_block hs ++ garbage) = (hs, garbage).
Proof.
  revert n. induction hs as [|[k v] hs IH]; intros n Hhs Hg Hn.
  - change (render_block []) with (@nil ascii) in *. simpl in *.
    destruct n as [|n]; [done|]. simpl. destruct (upto NUL garbage) as [key r1] eqn:E1.
    destruct (upto_split NUL garbage) as (Ea & Ka & Ca). rewrite E1 in *. simpl in *.
    destruct r1 as [|c r1]; [done|]. destruct (upto NUL r1) as [v r2] eqn:E2.
    destruct (upto_split NUL r1) as (Eb & Kb & Cb). rewrite E2 in *. simpl in *.
    destruct r2 as [|d r2]; [done|]. destruct Hg. exists key, v, r2.
    rewrite (Ca c r1) in Ea by done. rewrite (Cb d r2) in Eb by done. split_and!; [done..|]. by rewrite <- Ea, <- Eb.
  - apply Forall_cons in Hhs as [[Hk Hv] Hhs]. simpl in Hk, Hv.
    assert (Er : render_block ((k, v) :: hs) ++ garbage = k ++ NUL :: v ++ NUL :: render_block hs ++ garbage).
    { unfold render_block. simpl. by rewrite <- !app_assoc, <- app_comm_cons, <- app_assoc. }
    rewrite Er in *. clear Er. destruct n as [|n]; [rewrite length_app in Hn; simpl in Hn; lia|].
    cbn [parse_block]. rewrite (upto_in NUL k) by done. rewrite (upto_in NUL v) by done. rewrite IH; [done..|].
    rewrite length_app in Hn. simpl in Hn. rewrite length_app in Hn. simpl in Hn. lia.
Qed.

Lemma parse_block_sound n s : length s ≤ n →
  let '(hs, garbage) := parse_block n s in
  s = render_block hs ++ garbage ∧ Forall plain_header hs ∧ no_header garbage.
Proof.
  revert s. induction n as [|n IH]; intros s Hn.
  { destruct s; [|simpl in Hn; lia]. simpl. split_and!; [done|constructor|].
    intros (k & v & rest & _ & _ & E). by destruct k. }
  cbn [parse_block]. destruct (upto_split NUL s) as (Ea & Ka & Ca). destruct (upto NUL s) as [k r1]. simpl in *.
  destruct r1 as [|c r1].
  { rewrite app_nil_r in Ea. subst. split_and!; [done|constructor|].
    intros (k & v & rest & _ & _ & ->). set_solver. }
  rewrite (Ca c r1) in Ea by done. clear Ca.
  destruct (upto_split NUL r1) as (Eb & Kb & Cb). destruct (upto NUL r1) as [v r2]. simpl in *.
  destruct r2 as [|d r2].
  { rewrite app_nil_r in Eb. subst. split_and!; [done|constructor|].
    intros (k' & v' & rest & Hk' & Hv' & E).
    assert (Ekk : k = k').
    { pose proof (f_equal (upto NUL) E) as E'. rewrite !upto_in in E' by done. congruence. }
    subst k'. apply app_inj_1 in E as [_ [= ->]]; [|done]. set_solver. }
  rewrite (Cb d r2) in Eb by done. subst r1 s. rewrite length_app in Hn. simpl in Hn. rewrite length_app in Hn. simpl in Hn.
  specialize (IH r2 ltac:(lia)). destruct (parse_block n r2) as [hs garbage]. destruct IH as (-> & Hhs & Hg).
  split_and!; [|by constructor|done]. unfold render_block. simpl.
  by rewrite <- !app_assoc, <- app_comm_cons, <- app_assoc.
Qed.

Lemma wp_add_headers req data (Q : unit → root → Prop) r :
  Q tt (noted r ((λ h, ReqHeader req h.1 h.2) <$> (parse_block (length data) data).1)) →
  wp (add_headers req data) Q r.
Proof. intros HQ. unfold wp, add_headers. by rewrite (run_mfor_emit _ (λ h, ReqHeader req h.1 h.2)). Qed.

(** ** Claims *)

(** C35: A part of headers is read as it was written: it stands for the headers
    [hs] followed by [garbage] exactly when it is the rendering of [hs], names
    and values being free of NUL, followed by [garbage], and no complete header
    is in [garbage]; in particular every rendered list of headers is read back,
    and every part can be read. *)
Theorem header_block_roundtrip (data garbage : bytes) (hs : list (bytes * bytes)) :
  parse_block (length data) data = (hs, garbage) ↔
  data = render_block hs ++ garbage ∧ Forall plain_header hs ∧ no_header garbage.
Proof.
  split.
  - intros E. pose proof (parse_block_sound (length data) data (Nat.le_refl _)) as Hs. by rewrite E in Hs.
  - intros (-> & Hhs & Hg). by apply parse_block_complete.
Qed.
