(* ===== verification/Files.v ===== *)
(** * Choosing files (disk.c)

    The pure part of the disk threads: the table of content types, which paths
    are denied, which file a path stands for, and whether a browser takes
    compressed files. *)

From S2P Require Import Prelude State Topics CometArgs Routing Headers.

(** ** The table of content types *)

(** The buckets, each a list of extensions with their types. *)
Abbreviation mime_table := (list (list (bytes * bytes))).

(** src/src/disk.c:24-31 [mime_new] *)
Definition mime_new : mime_table := replicate (Z.to_nat 4096) [].

(** The hash is the one of topic names, and the bucket an [int].
    src/src/disk.c:39-45 [mime_add] *)
Definition mime_cell (mt : mime_table) (key : bytes) : Z :=
  i32 (topic_hash key mod Z.of_nat (length mt)).

Definition mime_bucket (mt : mime_table) (key : bytes) : list (bytes * bytes) :=
  default [] (mt !! Z.to_nat (mime_cell mt key)).

(** [LIST_FOREACH] with [strcmp]; src/src/disk.c:78-82 [mime_find] *)
Fixpoint bucket_find (l : list (bytes * bytes)) (key : bytes) : option bytes :=
  match l with
  | [] => None
  | (name, mime) :: l => if decide (name = key) then Some mime else bucket_find l key
  end.

(** A new entry goes to the end of its bucket; the result is the type that the
    extension has already.  src/src/disk.c:38-67 [mime_add] *)
Definition mime_add (mt : mime_table) (key value : bytes) : mime_table * option bytes :=
  match bucket_find (mime_bucket mt key) key with
  | Some old => (mt, Some old)
  | None => (<[Z.to_nat (mime_cell mt key) := mime_bucket mt key ++ [(key, value)]]> mt, None)
  end.

(** src/src/disk.c:69-84 [mime_find] *)
Definition mime_find (mt : mime_table) (key : bytes) : option bytes :=
  bucket_find (mime_bucket mt key) key.

(** The words of a line, as [strtok_r] gives them. *)
Definition is_blank (c : ascii) : bool :=
  bool_decide (c ∈ [" "%char; "009"%char; "013"%char; "010"%char]).

Fixpoint words (cur line : bytes) : list bytes :=
  let out := match cur with [] => [] | _ :: _ => [cur] end in
  match line with
  | [] => out
  | c :: line => if is_blank c then out ++ words [] line else words (cur ++ [c]) line
  end.

(** A line of the file: a type and its extensions, or a comment.
    src/src/disk.c:550-565 [read_mime_types] *)
Definition mime_line (mt : mime_table) (line : bytes) : mime_table :=
  match words [] line with
  | mtype :: exts =>
      if decide (head mtype = Some "#"%char) then mt
      else foldl (λ mt ext, (mime_add mt ext mtype).1) mt exts
  | [] => mt
  end.

(** src/src/disk.c:549-566 [read_mime_types] *)
Definition read_mime_types (mt : mime_table) (lines : list bytes) : mime_table := foldl mime_line mt lines.

(** The extensions of the configuration come first.
    src/src/disk.c:595-606 [prepare_disk] *)
Definition prepare_mime (extra : list (bytes * bytes)) (lines : list bytes) : mime_table :=
  read_mime_types (foldl (λ mt item, (mime_add mt item.1 item.2).1) mime_new extra) lines.

(** ** Paths *)
Section paths.
Context (sc : static_conf).

Abbreviation MU := (M unit).

(** [strrchr]: what follows the last [c]. *)
Fixpoint after_last (c : ascii) (s : bytes) : option bytes :=
  match s with
  | [] => None
  | d :: s =>
      match after_last c s with
      | Some t => Some t
      | None => if decide (d = c) then Some s else None
      end
  end.

(** Reading a C string: its terminating NUL is the last byte that may be read. *)
Definition char_at (s : bytes) (i : nat) : MU ascii :=
  if decide (i ≤ length s) then mret (default NUL (s !! i)) else undefined OutOfBounds.

(** The position after the last slash before [n], from the second byte on.
    src/src/disk.c:98-100 [check_base] *)
Fixpoint base_of (path : bytes) (n : nat) : nat :=
  match n with
  | O => 1
  | S n' => if decide (path !! n = Some "/"%char) then S n else base_of path n'
  end.

(** The extension of the last component, if there is one after its first byte.
    src/src/disk.c:122-125 [check_base] *)
Definition extension (last : bytes) : option bytes := after_last "."%char (tail last).

(** The type by the extension; [mime_types] of the server's configuration.
    src/src/disk.c:137-139 [check_base] *)
Definition mime_of (mt : mime_table) (default_type : bytes) (ext : bytes) : bytes :=
  default default_type (mime_find mt ext).

(** [None] is a denied path.  Without a dot in the name of the index file a
    variable is read that was never set.
    src/src/disk.c:86-140 [check_base] *)
Definition check_base (mt : mime_table) (no_extension default_type : bytes) (path : bytes) : MU (option bytes) :=
  let pathlen := length (upto "?"%char path).1 in
  let name := take pathlen path in
  if decide (Exists (λ suffix, suffix `suffix_of` name) (sc_deny_suffixes sc)) then mret None
  else
    let base := base_of path pathlen in
    if decide (Exists (λ prefix, base ≤ pathlen ∧ prefix `prefix_of` drop base name) (sc_deny_prefixes sc)) then mret None
    else
      c ← char_at path base;
      dir ← (if decide (c = NUL) then mret true
             else if decide (pathlen = 0) then undefined OutOfBounds
             else d ← char_at path (pathlen - 1); mret (bool_decide (d = "/"%char)) : MU bool);
      if dir : bool then
        match sc_index_file sc with
        | Some index =>
            match after_last "."%char index with
            | Some ext => mret (Some (mime_of mt default_type ext))
            | None => undefined Uninitialized
            end
        | None => mret (Some (if sc_dir_index sc then str "text/html" else no_extension))
        end
      else
        mret (Some (match extension (drop base name) with
                    | Some ext => mime_of mt default_type ext
                    | None => no_extension
                    end)).

(** [realpath] is in the directory [dir], or below it. *)
Definition within (dir realpath : bytes) : bool :=
  bool_decide (length dir + 1 ≤ length realpath ∧ take (length dir) realpath = dir ∧
               realpath !! length dir = Some "/"%char).

(** src/src/disk.c:142-162 [check_path] *)
Definition check_path (realpath : bytes) : bool :=
  if sc_restrict_root sc && negb (within (sc_root sc) realpath) then false
  else match sc_restrict_dirs sc with
       | [] => true
       | dirs => existsb (λ dir, within dir realpath) dirs
       end.

(** Skips the directories that are to be stripped; a path that ends in a slash
    before they are used up makes the loop run beyond its end.
    src/src/disk.c:167-174 [join_paths] *)
Fixpoint skip_slashes (path : bytes) : bytes :=
  match path with
  | c :: path' => if decide (c = "/"%char) then skip_slashes path' else path
  | [] => []
  end.

Fixpoint strip_dirs (n : nat) (nstrip : Z) (path : bytes) : MU bytes :=
  match n with
  | O => out_of_fuel
  | S n =>
      match path with
      | [] => mret []
      | c :: rest =>
          if decide (c = "/"%char) then
            let path := skip_slashes rest in
            if decide (nstrip - 1 = 0)%Z then mret path
            else match path with [] => undefined OutOfBounds | _ :: rest => strip_dirs n (nstrip - 1) rest end
          else strip_dirs n nstrip rest
      end
  end.

(** The name of the file and the size of the array that it is built in; the
    name is followed by a NUL.  src/src/disk.c:164-192 [join_paths] *)
Definition join_paths (path : bytes) : MU (bytes * nat) :=
  let pathlen := length (upto "?"%char path).1 in
  rest ← strip_dirs (S (length path)) (sc_strip_dirs sc + 1) path;
  let start := length path - length rest in
  if decide (pathlen < start) then undefined OutOfBounds
  else
    let index := match sc_index_file sc with
                 | Some index =>
                     if decide (rest = [] ∨ last (take pathlen path) = Some "/"%char) then index else []
                 | None => []
                 end in
    let fullpath := sc_root sc ++ "/"%char :: drop start (take pathlen path) ++ index in
    mret (fullpath, length (sc_root sc) + (pathlen - start) + 1 + length index).
End paths.

(** ** Compressed files *)

Fixpoint trim_front (s : bytes) : bytes :=
  match s with
  | c :: ((_ :: _) as s') => if is_space c then trim_front s' else s
  | _ => s
  end.

(** White space is removed from both ends, down to one byte. *)
Definition trim (s : bytes) : bytes := reverse (trim_front (reverse (trim_front s))).

(** A token of one byte is passed over; otherwise as many bytes as it has are
    compared.  src/src/disk.c:412-424 [disk_request] *)
Definition token_gzip (token : bytes) : bool :=
  let t := trim token in
  bool_decide (length t ≠ 1 ∧ t `prefix_of` str "gzip").

(** src/src/disk.c:407-426 [disk_request] *)
Fixpoint accept_gzip (n : nat) (next : bytes) : bool :=
  match n with
  | O => false
  | S n =>
      match next with
      | [] => false
      | _ :: _ =>
          let '(token, rest) := upto ","%char next in
          if token_gzip token then true else accept_gzip n (tail rest)
      end
  end.

(** ** Specification *)

(** The extensions of a line, with its type. *)
Definition line_entries (line : bytes) : list (bytes * bytes) :=
  match words [] line with
  | mtype :: exts => if decide (head mtype = Some "#"%char) then [] else (λ ext, (ext, mtype)) <$> exts
  | [] => []
  end.

(** A path of components, each after a slash. *)
Definition path_of (comps : list bytes) : bytes := mjoin ((λ c, "/"%char :: c) <$> comps).

Definition plain_component (c : bytes) : Prop := c ≠ [] ∧ ("/"%char ∉ c) ∧ ("?"%char ∉ c).

(** ** Lemmas: content types *)
Section mime.

Definition mime_wf (mt : mime_table) : Prop := length mt = Z.to_nat 4096.

Lemma mime_cell_range mt key : mime_wf mt → Z.to_nat (mime_cell mt key) < length mt.
Proof.
  intros Hwf. unfold mime_cell. rewrite Hwf, Z2Nat.id by lia.
  pose proof (Z.mod_pos_bound (topic_hash key) 4096). rewrite i32_small by lia. lia.
Qed.

Lemma bucket_find_app l l' key :
  bucket_find (l ++ l') key = match bucket_find l key with Some m => Some m | None => bucket_find l' key end.
Proof. induction l as [|[k v] l IH]; simpl; [done|]. by case_decide. Qed.

Lemma mime_add_wf mt key value : mime_wf mt → mime_wf (mime_add mt key value).1.
Proof. intros Hwf. unfold mime_add. case_match; [done|]. unfold mime_wf. simpl. by rewrite length_insert. Qed.

(** What an extension stands for is never changed by a later entry. *)
Lemma mime_find_add mt key value k :
  mime_wf mt →
  mime_find (mime_add mt key value).1 k =
    match mime_find mt k with Some m => Some m | None => bucket_find [(key, value)] k end.
Proof.
  intros Hwf. pose proof (mime_cell_range mt key Hwf) as Hc. unfold mime_add, mime_find.
  destruct (bucket_find (mime_bucket mt key) key) as [old|] eqn:E; simpl.
  - destruct (decide (key = k)) as [->|]; [by rewrite E|]. by case_match.
  - assert (Hcell : ∀ k, mime_cell (<[Z.to_nat (mime_cell mt key) := mime_bucket mt key ++ [(key, value)]]> mt) k
      = mime_cell mt k) by (intros; unfold mime_cell; by rewrite length_insert).
    unfold mime_bucket at 1. rewrite Hcell.
    destruct (decide (Z.to_nat (mime_cell mt k) = Z.to_nat (mime_cell mt key))) as [Ec|Ec].
    + rewrite Ec, list_lookup_insert_eq by done. simpl. rewrite bucket_find_app.
      unfold mime_bucket. by rewrite Ec.
    + rewrite list_lookup_insert_ne by done. fold (mime_bucket mt k).
      destruct (bucket_find (mime_bucket mt k) k); [done|]. rewrite decide_False; [done|]. intros ->. by destruct Ec.
Qed.

Lemma mime_find_adds mt l k :
  mime_wf mt →
  mime_wf (foldl (λ mt item, (mime_add mt item.1 item.2).1) mt l) ∧
  mime_find (foldl (λ mt item, (mime_add mt item.1 item.2).1) mt l) k =
    match mime_find mt k with Some m => Some m | None => bucket_find l k end.
Proof.
  revert mt. induction l as [|[key value] l IH]; intros mt Hwf; simpl; [split; [done|by case_match]|].
  destruct (IH _ (mime_add_wf mt key value Hwf)) as [Hwf' E]. split; [done|]. rewrite E, mime_find_add by done.
  simpl. destruct (mime_find mt k); [done|]. by case_decide.
Qed.

Lemma mime_line_entries mt line :
  mime_line mt line = foldl (λ mt item, (mime_add mt item.1 item.2).1) mt (line_entries line).
Proof.
  unfold mime_line, line_entries. destruct (words [] line) as [|mtype exts]; [done|]. case_decide; [done|].
  revert mt. induction exts as [|e exts IH]; intros mt; simpl; [done|]. apply IH.
Qed.

Lemma mime_find_lines mt lines k :
  mime_wf mt →
  mime_find (read_mime_types mt lines) k =
    match mime_find mt k with Some m => Some m | None => bucket_find (mjoin (line_entries <$> lines)) k end.
Proof.
  revert mt. induction lines as [|line lines IH]; intros mt Hwf; simpl; [by case_match|].
  unfold read_mime_types in *. simpl. rewrite mime_line_entries.
  destruct (mime_find_adds mt (line_entries line) k Hwf) as [Hwf' E]. rewrite IH, E by done.
  destruct (mime_find mt k); [done|]. by rewrite bucket_find_app.
Qed.

Lemma mime_new_wf : mime_wf mime_new.
Proof. apply length_replicate. Qed.

Lemma mime_find_new k : mime_find mime_new k = None.
Proof.
  unfold mime_find, mime_bucket.
  pose proof (mime_cell_range mime_new k mime_new_wf) as Hc. rewrite mime_new_wf in Hc.
  assert (E : mime_new !! Z.to_nat (mime_cell mime_new k) = Some []) by by apply lookup_replicate_2.
  by rewrite E.
Qed.
End mime.

(** ** Lemmas: paths *)

Lemma skip_slashes_id c : head c ≠ Some "/"%char → skip_slashes c = c.
Proof. destruct c as [|d c]; [done|]. simpl. intros Hd. case_decide as E; [|done]. subst. done. Qed.

Lemma plain_head c rest : plain_component c → head (c ++ rest) ≠ Some "/"%char.
Proof. intros (Hne & Hs & _). destruct c as [|d c]; [done|]. simpl. intros [= ->]. set_solver. Qed.

(** The loop passes over what is left of a component. *)
Lemma strip_component s n nstrip c rest :
  "/"%char ∉ c → length c ≤ n → strip_dirs n nstrip (c ++ rest) s = strip_dirs (n - length c) nstrip rest s.
Proof.
  revert n. induction c as [|d c IH]; intros n Hc Hn; simpl; [by rewrite Nat.sub_0_r|].
  apply not_elem_of_cons in Hc as [Hd Hc]. destruct n as [|n]; [simpl in Hn; lia|]. simpl in *.
  rewrite decide_False by done. apply IH; [done|lia].
Qed.

Lemma strip_dirs_comps s n k c comps :
  Forall plain_component (c :: comps) → k < length (c :: comps) → length (path_of (c :: comps)) < n →
  ∃ d rest, drop k (c :: comps) = d :: rest ∧
    strip_dirs n (Z.of_nat k + 1) (path_of (c :: comps)) s = Ok (d ++ path_of rest) s.
Proof.
  revert n c comps. induction k as [|k IH]; intros n c comps Hp Hk Hn.
  - exists c, comps. split; [done|]. apply Forall_cons in Hp as [Hc Hp]. destruct n as [|n]; [simpl in Hn; lia|].
    unfold path_of. simpl. rewrite skip_slashes_id by by apply plain_head. done.
  - apply Forall_cons in Hp as [Hc Hp]. destruct comps as [|c' comps]; [simpl in Hk; lia|].
    destruct n as [|n]; [simpl in Hn; lia|].
    change (path_of (c :: c' :: comps)) with ("/"%char :: c ++ path_of (c' :: comps)) in *.
    cbn [strip_dirs]. rewrite decide_True by done. rewrite skip_slashes_id by by apply plain_head.
    rewrite decide_False by lia. destruct Hc as (Hne & Hs & _). destruct c as [|x c]; [done|].
    apply not_elem_of_cons in Hs as [_ Hs]. cbn [app] in *. cbn [length] in Hn. rewrite length_app in Hn.
    rewrite strip_component by (done || lia).
    replace (Z.of_nat (S k) + 1 - 1)%Z with (Z.of_nat k + 1)%Z by lia.
    destruct (IH (n - length c) c' comps) as (d & rest & Ed & E); [done|simpl in *; lia|lia|]. by exists d, rest.
Qed.

Lemma path_of_drop k comps : path_of (drop k comps) `suffix_of` path_of comps.
Proof.
  exists (path_of (take k comps)). unfold path_of. by rewrite <- join_app, <- fmap_app, take_drop.
Qed.

Lemma path_of_no_query comps : Forall plain_component comps → "?"%char ∉ path_of comps.
Proof.
  unfold path_of. induction 1 as [|c comps (_ & _ & Hc) _ IH]; simpl; [apply not_elem_of_nil|].
  rewrite not_elem_of_cons, not_elem_of_app. done.
Qed.

Lemma path_of_last comps : Forall plain_component comps → last (path_of comps) ≠ Some "/"%char.
Proof.
  intros Hp. destruct comps as [|c comps _] using rev_ind; [done|]. apply Forall_app in Hp as [_ Hp].
  apply Forall_cons in Hp as [(Hne & Hs & _) _]. unfold path_of. rewrite fmap_app, join_app. simpl.
  rewrite app_nil_r, last_app. destruct c as [|x c] using rev_ind; [done|].
  rewrite app_comm_cons, last_snoc. intros [= ->]. set_solver.
Qed.

Lemma within_spec dir p : within dir p = true ↔ ∃ rest, p = dir ++ "/"%char :: rest.
Proof.
  unfold within. rewrite bool_decide_eq_true. split.
  - intros (Hl & Ht & Hs). exists (drop (S (length dir)) p).
    rewrite <- (take_drop (length dir) p) at 1. rewrite Ht. f_equal. by apply drop_S.
  - intros (rest & ->). rewrite length_app. simpl. split_and!; [lia|by apply take_app_length|].
    by rewrite lookup_app_r, Nat.sub_diag.
Qed.

(** ** Claims *)

(** The content type of an extension is the first one that is listed for it,
    in the configuration before the lines of the file; an extension that is
    listed nowhere has none. *)
Theorem mime_table_correct (extra : list (bytes * bytes)) (lines : list bytes) (ext : bytes) :
  mime_find (prepare_mime extra lines) ext = bucket_find (extra ++ mjoin (line_entries <$> lines)) ext.
Proof.
  unfold prepare_mime. destruct (mime_find_adds mime_new extra ext mime_new_wf) as [Hwf E].
  by rewrite mime_find_lines, E, mime_find_new, bucket_find_app.
Qed.

(** A file that the configuration allows: with [restrict-root] it is below the root
    directory, and if there are [restrict-dirs] it is below one of them. *)
Definition allowed (sc : static_conf) (p : bytes) : Prop :=
  (sc_restrict_root sc = true → ∃ rest, p = sc_root sc ++ "/"%char :: rest) ∧
  (sc_restrict_dirs sc = [] ∨ ∃ dir rest, dir ∈ sc_restrict_dirs sc ∧ p = dir ++ "/"%char :: rest).

Lemma check_path_allowed (sc : static_conf) (p : bytes) : check_path sc p = true ↔ allowed sc p.
Proof.
  unfold allowed.
  unfold check_path.
  assert (Hdirs : match sc_restrict_dirs sc with [] => true | dirs => existsb (λ dir, within dir p) dirs end = true ↔
    (sc_restrict_dirs sc = [] ∨ ∃ dir rest, dir ∈ sc_restrict_dirs sc ∧ p = dir ++ "/"%char :: rest)).
  { destruct (sc_restrict_dirs sc) as [|d dirs]; [split; [by left|done]|]. rewrite existsb_exists. split.
    - intros (dir & Hin%list_elem_of_In & (rest & ->)%within_spec). right. eauto.
    - intros [?|(dir & rest & Hin & ->)]; [done|]. exists dir. split; [by apply list_elem_of_In|].
      apply within_spec. eauto. }
  destruct (sc_restrict_root sc); simpl.
  - destruct (within (sc_root sc) p) eqn:E; simpl.
    + apply within_spec in E. rewrite Hdirs. naive_solver.
    + split; [done|]. intros [Hr _]. destruct (Hr eq_refl) as (rest & Hp).
      assert (within (sc_root sc) p = true) by (apply within_spec; eauto). congruence.
  - rewrite Hdirs. naive_solver.
Qed.

(** A file is served only from where the configuration allows: with
    [restrict-root] it is below the root directory, and if there are
    [restrict-dirs] it is below one of them; every such file passes. *)
Theorem check_path_correct (sc : static_conf) (p : bytes) :
  check_path sc p = true ↔
    (sc_restrict_root sc = true → ∃ rest, p = sc_root sc ++ "/"%char :: rest) ∧
    (sc_restrict_dirs sc = [] ∨ ∃ dir rest, dir ∈ sc_restrict_dirs sc ∧ p = dir ++ "/"%char :: rest).
Proof. apply check_path_allowed. Qed.

Lemma join_paths_plain (sc : static_conf) (comps : list bytes) (k : nat)
    (Hplain : Forall plain_component comps) (Hstrip : sc_strip_dirs sc = Z.of_nat k) (Hk : k < length comps) :
  join_paths sc (path_of comps) tt =
    Ok (sc_root sc ++ path_of (drop k comps), length (sc_root sc ++ path_of (drop k comps))) tt.
Proof.
  destruct comps as [|c comps]; [simpl in Hk; lia|].
  destruct (strip_dirs_comps tt (S (length (path_of (c :: comps)))) k c comps Hplain Hk) as (d & rest & Ed & E); [lia|].
  unfold join_paths. rewrite upto_out by by apply path_of_no_query. cbn [fst].
  unfold mbind, M_bind. rewrite Hstrip, E.
  pose proof (path_of_drop k (c :: comps)) as [pre Hpre]. rewrite Ed in Hpre.
  change (path_of (d :: rest)) with ("/"%char :: d ++ path_of rest) in Hpre.
  assert (Hplain' : Forall plain_component (d :: rest)) by (rewrite <- Ed; by apply Forall_drop).
  assert (Hstart : length (path_of (c :: comps)) - length (d ++ path_of rest) = length pre + 1).
  { rewrite Hpre, length_app. cbn [length]. lia. }
  rewrite Hstart. rewrite decide_False by (rewrite Hpre, length_app; cbn [length]; lia).
  rewrite take_ge by done. rewrite Ed. change (path_of (d :: rest)) with ("/"%char :: d ++ path_of rest).
  assert (Hidx : (match sc_index_file sc with
      | Some index => if decide (d ++ path_of rest = [] ∨ last (path_of (c :: comps)) = Some "/"%char) then index else []
      | None => [] end) = @nil ascii).
  { destruct (sc_index_file sc); [|done]. rewrite decide_False; [done|]. intros [He|Hl].
    - apply Forall_cons in Hplain' as [(Hne & _) _]. destruct d; done.
    - by apply (path_of_last (c :: comps)). }
  rewrite Hidx, !app_nil_r, Hpre. cbn [length].
  assert (Hdrop : drop (length pre + 1) (pre ++ "/"%char :: d ++ path_of rest) = d ++ path_of rest).
  { rewrite <- drop_drop, drop_app_length. done. }
  rewrite Hdrop. f_equal. f_equal. rewrite !length_app. cbn [length]. rewrite !length_app. lia.
Qed.

(** C36: The file of a path of plain components is the root directory followed by
    the components after the stripped ones; and the NUL after it is always
    written one byte behind the end of the array that the name is built in. *)
Theorem join_paths_correct (sc : static_conf) (comps : list bytes) (k : nat)
    (Hplain : Forall plain_component comps) (Hstrip : sc_strip_dirs sc = Z.of_nat k) (Hk : k < length comps) :
  join_paths sc (path_of comps) tt =
    Ok (sc_root sc ++ path_of (drop k comps), length (sc_root sc ++ path_of (drop k comps))) tt.
Proof. by apply join_paths_plain. Qed.

Definition example_static : static_conf :=
  mk_static true (str "/srv/www") 1 false (Some (str "index.html")) [] true [] [str "~"] [str "."] true.

Lemma join_paths_correct_witness :
  join_paths example_static (path_of [str "static"; str "js"; str "app.js"]) tt =
    Ok (str "/srv/www/js/app.js", 18) tt.
Proof.
  assert (Hp : Forall plain_component [str "static"; str "js"; str "app.js"]).
  { repeat constructor; try discriminate; apply (bool_decide_unpack _); vm_compute; exact I. }
  exact (join_paths_correct example_static [str "static"; str "js"; str "app.js"] 1 Hp eq_refl
    (ltac:(vm_compute; lia))).
Defined.

(** The part of [ae] between two commas, or its end; not after a last comma. *)
Definition token_of (ae token : bytes) : Prop :=
  (","%char ∉ token) ∧ ∃ before after, ae = before ++ token ++ after ∧
    (before = [] ∨ last before = Some ","%char) ∧
    (after = [] ∧ token ≠ [] ∨ head after = Some ","%char).

Section tokens.
Context (ae t rest : bytes) (Hcut : upto ","%char ae = (t, rest)).

(** The parts of the text that the first comma separates. *)
Lemma token_split : t ++ rest = ae ∧ (","%char ∉ t) ∧ (∀ d s, rest = d :: s → d = ","%char).
Proof. pose proof (upto_split ","%char ae) as (E & Ht & Hc). rewrite Hcut in E, Ht, Hc. by split_and!. Qed.

Lemma token_of_first : ae ≠ [] → token_of ae t.
Proof.
  destruct token_split as (E & Ht & Hc). intros Hne. split; [done|]. exists [], rest. split; [by rewrite E|].
  split; [by left|]. destruct rest as [|d rest'].
  - left. split; [done|]. intros ->. by subst.
  - right. by rewrite (Hc d rest').
Qed.

Lemma token_of_later t' : token_of (tail rest) t' → token_of ae t'.
Proof.
  destruct token_split as (E & Ht & Hc). intros (Ht' & b & a & E' & Hb & Ha). split; [done|].
  destruct rest as [|d rest']; simpl in E'.
  { symmetry in E'. apply app_nil in E' as [-> E']. apply app_nil in E' as [-> ->]. by destruct Ha as [[_ ?]|?]. }
  rewrite (Hc d rest') in E by done. exists (t ++ ","%char :: b), a. split_and!; [|right|done].
  - by rewrite <- E, E', <- app_assoc.
  - destruct Hb as [-> |Hb]; [by rewrite last_snoc|]. rewrite last_app_cons, last_cons, Hb. done.
Qed.

(** A token that starts the text is the first one. *)
Lemma token_of_start t' a :
  (","%char ∉ t') → t ++ rest = t' ++ a → (a = [] ∧ t' ≠ [] ∨ head a = Some ","%char) → t = t'.
Proof.
  destruct token_split as (_ & Ht & Hc). intros Ht' E' Ha.
  pose proof (f_equal (upto ","%char) E') as Eu. destruct rest as [|d rest'], a as [|d' a].
  - rewrite !app_nil_r in Eu. by rewrite !upto_out in Eu by done; injection Eu.
  - destruct Ha as [[? _]|[= ->]]; [done|]. rewrite app_nil_r, upto_out, upto_in in Eu by done. by injection Eu.
  - rewrite (Hc d rest') in Eu by done. rewrite app_nil_r, upto_in, upto_out in Eu by done. by injection Eu.
  - destruct Ha as [[? _]|[= ->]]; [done|]. rewrite (Hc d rest') in Eu by done. rewrite !upto_in in Eu by done.
    by injection Eu.
Qed.

Lemma token_of_inv t' : token_of ae t' → t' = t ∨ token_of (tail rest) t'.
Proof.
  destruct token_split as (E & Ht & Hc). intros (Ht' & b & a & E' & Hb & Ha). rewrite <- E in E'.
  destruct Hb as [-> |Hb]; [left; symmetry; by eapply token_of_start|right]. split; [done|].
  apply last_Some in Hb as [b' ->]. destruct rest as [|d rest'].
  { exfalso. rewrite app_nil_r in E'. subst t. set_solver. }
  rewrite (Hc d rest') in E' by done. rewrite <- app_assoc in E'. simpl in E'.
  destruct (upto_split ","%char b') as (Eb & Hb1 & Hb2). destruct (upto ","%char b') as [b1 b2]. simpl in *.
  assert (Hrest : ∀ x y, ","%char ∉ x → t ++ ","%char :: rest' = x ++ ","%char :: y → rest' = y).
  { intros x y Hx Ex. pose proof (f_equal (upto ","%char) Ex) as Eu. rewrite !upto_in in Eu by done. congruence. }
  destruct b2 as [|d' b2].
  - exists [], a. rewrite app_nil_r in Eb. subst b1. split_and!; [|by left|done]. simpl. by apply (Hrest b').
  - rewrite (Hb2 d' b2) in * by done. subst b'. exists (b2 ++ [","%char]), a.
    split_and!; [|right; by rewrite last_snoc|done]. rewrite <- app_assoc.
    by apply (Hrest b1); [|by rewrite E', <- app_assoc].
Qed.
End tokens.

(** The white space around a token. *)
Lemma trim_front_split s : ∃ ws, s = ws ++ trim_front s ∧ Forall (λ c, is_space c = true) ws.
Proof.
  induction s as [|c s IH]; [by exists []|]. simpl. destruct s as [|d s]; [by exists []|].
  destruct (is_space c) eqn:Ec; [|by exists []]. destruct IH as (ws & E & Hws). exists (c :: ws).
  split; [by rewrite E at 1|by constructor].
Qed.

Lemma trim_split s : ∃ ws1 ws2, s = ws1 ++ trim s ++ ws2 ∧
  Forall (λ c, is_space c = true) ws1 ∧ Forall (λ c, is_space c = true) ws2.
Proof.
  destruct (trim_front_split s) as (ws1 & E1 & H1). destruct (trim_front_split (reverse (trim_front s))) as (ws2 & E2 & H2).
  exists ws1, (reverse ws2). split; [|split; [done|by apply Forall_reverse]]. unfold trim.
  by rewrite <- reverse_app, <- E2, reverse_involutive.
Qed.

Lemma trim_front_skip ws c s :
  Forall (λ c, is_space c = true) ws → is_space c = false → trim_front (ws ++ c :: s) = c :: s.
Proof.
  intros Hws Hc. induction Hws as [|d ws Hd Hws IH]; simpl.
  - rewrite Hc. by destruct s.
  - rewrite Hd, IH. by destruct ws.
Qed.

Lemma trim_core ws1 ws2 c m d :
  Forall (λ c, is_space c = true) ws1 → Forall (λ c, is_space c = true) ws2 →
  is_space c = false → is_space d = false → trim (ws1 ++ (c :: m ++ [d]) ++ ws2) = c :: m ++ [d].
Proof.
  intros H1 H2 Hc Hd. unfold trim.
  assert (E1 : ws1 ++ (c :: m ++ [d]) ++ ws2 = ws1 ++ c :: (m ++ [d]) ++ ws2) by done.
  rewrite E1, trim_front_skip by done.
  assert (E2 : reverse (c :: (m ++ [d]) ++ ws2) = reverse ws2 ++ d :: reverse (c :: m)).
  { rewrite app_comm_cons, reverse_app. by rewrite app_comm_cons, reverse_snoc. }
  rewrite E2, trim_front_skip; [|by apply Forall_reverse|done]. by rewrite <- reverse_snoc, reverse_involutive.
Qed.

(** The tokens that are taken for gzip. *)
Definition gzip_token (token : bytes) : Prop :=
  token = [] ∨ ∃ ws1 word ws2, token = ws1 ++ str word ++ ws2 ∧ (word ∈ ["gz"; "gzi"; "gzip"])%string ∧
    Forall (λ c, is_space c = true) ws1 ∧ Forall (λ c, is_space c = true) ws2.

Lemma prefix_of_gzip t : t `prefix_of` str "gzip" → t = [] ∨ length t = 1 ∨ ∃ word, t = str word ∧ (word ∈ ["gz"; "gzi"; "gzip"])%string.
Proof.
  intros [u E]. destruct t as [|a [|b [|c [|d [|e t]]]]]; [by left|by right; left|..]; injection E; intros; subst;
    try done; right; right; [exists "gz"|exists "gzi"|exists "gzip"]; (split; [done|]); rewrite !elem_of_cons; tauto.
Qed.

Lemma token_gzip_spec token : token_gzip token = true ↔ gzip_token token.
Proof.
  unfold token_gzip, gzip_token. rewrite bool_decide_eq_true. split.
  - intros [Hl Hp]. destruct (trim_split token) as (ws1 & ws2 & E & H1 & H2).
    destruct (prefix_of_gzip _ Hp) as [Ht|[Ht|(word & Ht & Hw)]]; [|done|right; exists ws1, word, ws2; by rewrite <- Ht].
    left. destruct token as [|c token] using rev_ind; [done|]. exfalso. clear IHtoken.
    (* something is always left of a token that is not empty *)
    assert (Hne : ∀ s, s ≠ [] → trim_front s ≠ []).
    { induction s as [|x [|y s] IH]; [done|done|]. intros _. simpl. destruct (is_space x); [by apply IH|done]. }
    unfold trim in Ht. apply (f_equal reverse) in Ht. rewrite reverse_involutive in Ht.
    apply (Hne (reverse (trim_front (token ++ [c])))); [|exact Ht].
    intros E'. apply (f_equal reverse) in E'. rewrite reverse_involutive in E'.
    apply (Hne (token ++ [c])); [by destruct token|exact E'].
  - intros [->|(ws1 & word & ws2 & -> & Hw & H1 & H2)]; [split; [done|apply prefix_nil]|].
    assert (∃ c m d, str word = c :: m ++ [d] ∧ is_space c = false ∧ is_space d = false ∧
      (length (c :: m ++ [d]) ≠ 1) ∧ c :: m ++ [d] `prefix_of` str "gzip") as (c & m & d & -> & Hc & Hd & Hl & Hp).
    { rewrite !elem_of_cons in Hw. destruct Hw as [->|[->|[->|?%elem_of_nil]]]; [| | |done];
        [exists "g"%char, [], "z"%char|exists "g"%char, ["z"%char], "i"%char|exists "g"%char, ["z"%char; "i"%char], "p"%char];
        (split_and!; [reflexivity..|done|]); [by exists (str "ip")|by exists (str "p")|by exists []]. }
    by rewrite trim_core.
Qed.

(** C37: A compressed file is asked for exactly when some part of
    Accept-Encoding between commas is empty, or is "gz", "gzi" or "gzip" with
    nothing but white space around it: the empty part and the shorter words are
    taken for gzip, too, while a part of one byte, and one with a quality behind
    the word, is not. *)
Theorem accept_gzip_correct (ae : bytes) :
  accept_gzip (S (length ae)) ae = true ↔ ∃ token, token_of ae token ∧ gzip_token token.
Proof.
  setoid_rewrite <- token_gzip_spec.
  assert (Hgen : ∀ n s, length s < n →
    accept_gzip n s = true ↔ ∃ token, token_of s token ∧ token_gzip token = true); [|apply Hgen; lia].
  clear ae. induction n as [|n IH]; intros s Hn; [lia|]. cbn [accept_gzip]. destruct s as [|c s].
  { split; [done|]. intros (t & (_ & b & a & E & _ & Ha) & _). symmetry in E. apply app_nil in E as [-> E].
    apply app_nil in E as [-> ->]. by destruct Ha as [[_ ?]|?]. }
  remember (c :: s) as ae eqn:Eae. assert (Hne : ae ≠ []) by by subst. clear Eae c s.
  destruct (upto ","%char ae) as [t rest] eqn:Hcut.
  destruct (token_gzip t) eqn:Eg; [split; [by eauto using token_of_first|done]|].
  destruct (token_split ae t rest Hcut) as (E & _). rewrite IH.
  2:{ subst ae. rewrite length_app in Hn. destruct t, rest; simpl in *; (done || lia). }
  split; intros (t' & Ht' & Hg).
  - exists t'. split; [|done]. by eapply token_of_later.
  - destruct (token_of_inv ae t rest Hcut t' Ht') as [->|Hl]; [congruence|by exists t'].
Qed.
