(* ===== verification/Disk.v ===== *)
(** * Serving files (disk.c)

    A request for a file is sent to one of the disk threads, which chooses the
    file, reads it and answers with a reply in parts. *)

From S2P Require Import Prelude Sieve Pool MsgQueue Uidgen State Topics Backend.
From S2P Require Import CometArgs Request Comet Sockets Routing Headers Files.

(** ** Data *)

(** src/src/disk.h:49-54 [disk_request_t] *)
Record disk_req := mk_disk_req {
  d_route : route_id;
  d_gzipped : bool;
  d_if_modified : bytes;   (* char[32] *)
  d_path : bytes;
}.

(** What the operating system answers about a file that was opened: whether
    [fstat] succeeds, whether it is a directory, its size, its time as
    [strftime] prints it, whether there is memory for it, what the calls of
    [read] give, one after the other, and whether [close] fails. *)
Inductive read_result := RData (data : bytes) | RAgain | RError.

Record file := mk_file {
  fl_stat : bool;
  fl_dir : bool;
  fl_size : Z;
  fl_lastmod : bytes;
  fl_memory : bool;
  fl_reads : list read_result;
  fl_close_fails : bool;
}.

Inductive open_result := Opened (f : file) | OpenEINTR | OpenFails.

(** [open_file n path] is the [n]-th attempt to open it. *)
Class FileSystem := {
  realpath : bytes → option bytes;
  open_file : nat → bytes → open_result;
  open_retries : nat;
}.

(** The world of a thread: whether the byte behind an array of a size is unused
    (compilers round the sizes of arrays on the stack up), and, for a part of an
    answer that it gives, whether there is no memory for it and whether sending
    it fails, because of a signal for instance. *)
Class ThreadEnv := {
  unused_behind : nat → bool;
  part_memory : nat → nat → bytes → bool;
  part_send_fails : nat → nat → bytes → bool;
}.

(** The configuration of the server: whether there are disk threads, the indices
    of two headers, the table of content types, and the memory of a structure. *)
Class DiskConfig := {
  disk_threads : bool;
  IF_MODIFIED : nat;
  ACCEPT_ENCODING : nat;
  mime_types : list (list (bytes * bytes));
  no_extension : bytes;
  default_type : bytes;
  disk_struct : disk_req → bytes;
}.

(** ** The thread *)
Section thread.
Context `{LogLevel, HttpConfig, FileSystem, ThreadEnv, DiskConfig}.

Abbreviation MU := (M unit).

(** An error other than an interruption moves the position back by one byte and
    makes the number of bytes to read one larger.
    src/src/disk.c:240-253 [get_file] *)
Fixpoint read_loop (reads : list read_result) (to_read pos : Z) (data : bytes) : MU (option bytes) :=
  if decide (to_read = 0)%Z then mret (Some data)
  else
    match reads with
    | [] => out_of_fuel
    | RData b :: reads =>
        if decide (0 ≤ pos)%Z
        then read_loop reads (u64 (to_read - Z.of_nat (length b))) (pos + Z.of_nat (length b)) (blit (Z.to_nat pos) b data)
        else undefined OutOfBounds
    | RAgain :: _ => mret None
    | RError :: reads => read_loop reads (u64 (to_read + 1)) (pos - 1) data
    end.

(** An interrupted [open] is repeated; src/src/disk.c:206-214 [get_file] *)
Fixpoint open_loop (n i : nat) (path : bytes) : MU (option file) :=
  match n with
  | O => out_of_fuel
  | S n =>
      match open_file i path with
      | Opened f => mret (Some f)
      | OpenEINTR => open_loop n (S i) path
      | OpenFails => mret None
      end
  end.

Inductive file_result := FileError | NotModified | FileData (lastmod data : bytes) (gzip : bool).

(** The compressed file is tried first if it may be used.
    src/src/disk.c:194-256 [get_file] *)
Definition get_file (path if_mod : bytes) (gzip : bool) : MU file_result :=
  let first := if gzip then open_file 0 (path ++ str ".gz") else OpenFails in
  f ← match first with
      | Opened f => mret (Some f)
      | _ => open_loop open_retries 0 path
      end;
  let gzip := match first with Opened _ => true | _ => false end in
  match f with
  | None => mret FileError
  | Some f =>
      let close_with (res : file_result) : MU file_result := SNIMPL (fl_close_fails f);; mret res in
      if negb (fl_stat f) then close_with FileError
      else if fl_dir f then close_with FileError
      else if decide ((upto NUL if_mod).1 = fl_lastmod f) then close_with NotModified
      else if negb (fl_memory f) then close_with FileError
      else
        o ← read_loop (fl_reads f) (fl_size f) 0 (replicate (Z.to_nat (fl_size f)) NUL);
        close_with (match o with Some data => FileData (fl_lastmod f) data gzip | None => FileError end)
  end.

(** The headers of a file; src/src/disk.c:329-349 [disk_loop] *)
Definition file_headers (mime lastmod : bytes) (gzip : bool) : bytes :=
  str "Content-Type" ++ [NUL] ++ mime ++ [NUL] ++ str "Last-Modified" ++ [NUL] ++ lastmod ++ [NUL] ++
  (if gzip then str "Content-Encoding" ++ [NUL] ++ str "gzip" ++ [NUL] else []).

Definition denied : list bytes := [str "402" ++ [NUL]].
Definition not_found : list bytes := [str "404" ++ [NUL]].

(** The NUL that ends the name is written behind the array it is built in.
    src/src/disk.c:189-189 [join_paths] *)
Definition end_name (size : nat) : MU unit :=
  if unused_behind size then mret tt else undefined OutOfBounds.

(** The parts of the answer to a request; src/src/disk.c:279-352 [disk_loop] *)
Definition disk_answer (req : disk_req) : MU (list bytes) :=
  rt ← deref UseAfterFree (hroutes !! d_route req);
  let sc := hr_static rt in
  mime ← check_base sc mime_types no_extension default_type (d_path req);
  match mime with
  | None => mret denied
  | Some mime =>
      '(fullpath, size) ← join_paths sc (d_path req);
      end_name size;;
      match realpath fullpath with
      | None => mret not_found
      | Some realpath =>
          if negb (check_path sc realpath) then mret denied
          else
            res ← get_file realpath (d_if_modified req) (d_gzipped req);
            mret (match res with
                  | NotModified => [str "304 Not Modified"; []]
                  | FileError => [str "500 Internal Server Error"; []]
                  | FileData lastmod data gz => [str "200 OK"; file_headers mime lastmod gz; data]
                  end)
      end
  end.

(** The [j]-th and later parts of the [i]-th answer go out, each with an assertion
    that is not repeated after an interruption; the result is what was sent.
    src/src/disk.c:309-352 [disk_loop] *)
Fixpoint send_parts (i j : nat) (parts : list bytes) : MU (list bytes) :=
  match parts with
  | [] => mret []
  | p :: parts =>
      SNIMPL (negb (part_memory i j p));;
      (if part_memory i j p then mret tt else undefined Uninitialized);;
      SNIMPL (part_send_fails i j p);;
      rest ← send_parts i (S j) parts;
      mret (if part_send_fails i j p then rest else p :: rest)
  end.

(** A thread: [msgs] is what [zmq_recv] gives, [None] being an interruption, and
    [unstruct] reads the structure of a request back.  The result is all answers
    that the thread sends, from the [i]-th on, until it is told to end.
    src/src/disk.c:258-355 [disk_loop] *)
Fixpoint disk_loop (unstruct : bytes → disk_req) (i : nat) (msgs : list (option (list bytes))) : MU (list (list bytes)) :=
  match msgs with
  | [] => out_of_fuel
  | None :: msgs => disk_loop unstruct i msgs
  | Some [data] :: msgs =>
      if decide (data = str "shutdown") then mret []
      else
        parts ← disk_answer (unstruct data);
        sent ← send_parts i 0 parts;
        answers ← disk_loop unstruct (S i) msgs;
        mret (sent :: answers)
  | Some _ :: _ => abort_
  end.
End thread.

(** ** The server *)
Section server.
Context `{LogLevel, Env, Website, HttpConfig, DiskConfig}.

(** [strncpy(dest, s, n)] fills the array. *)
Definition strncpy (n : nat) (s : bytes) : bytes := take n (s ++ replicate n NUL).

(** src/src/disk.c:391-426 [disk_request] *)
Definition disk_work (q : request) (rid : route_id) (sc : static_conf) : disk_req :=
  mk_disk_req rid
    (sc_gzip_enabled sc &&
     match rq_fields q !! ACCEPT_ENCODING with Some ae => accept_gzip (S (length ae)) ae | None => false end)
    (match rq_fields q !! IF_MODIFIED with Some s => strncpy 32 s | None => replicate 32 NUL end)
    (match sc_single_uri sc with [] => rq_path q | _ :: _ => sc_single_uri sc end).

(** src/src/disk.c:373-387 [disk_request] *)
Fixpoint send_uid (n : nat) (req : addr) (uid : bytes) : MR send_res :=
  match n with
  | O => out_of_fuel
  | S n =>
      res ← zmq_send DiskSock uid true;
      match res with EINTR => send_uid n req uid | _ => mret res end
  end.

(** The request keeps its place in the table when it cannot be sent; a failure
    of [make_hole_uid] is ignored.  src/src/disk.c:358-430 [disk_request] *)
Definition disk_request (req : addr) (urandom : random_device) : MR bool :=
  q ← get_request req;
  rid ← deref NullDeref (rq_route q);
  rt ← get_hroute rid;
  if negb disk_threads then http_static_response req (hr_internal_error rt);; mret true
  else
    emit (FeedEvent DiskSock);;
    r ← get;
    '(uid, _) ← on_rsieve (make_hole_uid (instance_id r) urandom req (rq_uid q) false);
    set_request req (λ q, q <| rq_uid := uid |> <| rq_flags ::= λ f, Z.lor f REQ_IN_SIEVE |>);;
    count (λ st, st <| st_disk_requests ::= plus 1 |>);;
    lend req;;
    res ← send_uid retries req uid;
    match res with
    | Sent =>
        snimpl_send DiskSock [] true;;
        q ← get_request req;
        snimpl_send DiskSock (disk_struct (disk_work q rid (hr_static rt))) false;;
        mret true
    | EAGAIN =>
        request_decref req;;
        http_static_response req (hr_service_unavailable rt);; mret true
    | _ =>
        request_decref req;;
        http_static_response req (hr_internal_error rt);; mret true
    end.

(** [atoi] of an error code. *)
Definition atoi (data : bytes) : Z := (digits 0 0 data).1.

(** The error reply of a single part; src/src/disk.c:458-471 [disk_process] *)
Definition error_reply (req : addr) (data : bytes) : MR unit :=
  let code := atoi data in
  rt ← REQRCONFIG req;
  http_static_response req (if decide (code = 404)%Z then hr_not_found rt
                            else if decide (code = 402)%Z then hr_forbidden rt
                            else hr_internal_error rt);;
  request_finish req.

(** src/src/disk.c:513-528 [disk_process] *)
Definition file_reply (req : addr) (data : bytes) : MR unit :=
  q ← get_request req;
  rid ← deref NullDeref (rq_route q);
  end_headers req rid;;
  count (λ st, st <| st_disk_reads ::= plus 1 |> <| st_disk_bytes_read ::= plus (Z.of_nat (length data)) |>);;
  reply_body req data.

(** The parts after the sentinel; src/src/disk.c:453-528 [disk_process] *)
Definition disk_parts (req : addr) (parts : list bytes) : MR unit :=
  match parts with
  | [] => mret tt
  | [status] => error_reply req status
  | status :: headers :: rest =>
      ws_statusline_len req status;;
      match rest with
      | [] => file_reply req headers
      | [body] => add_headers req headers;; file_reply req body
      | _ =>
          add_headers req headers;;
          rt ← REQRCONFIG req;
          http_static_response req (hr_internal_error rt);;
          request_finish req
      end
  end.

(** A message from the disk threads.  A first part that is no identifier, or a
    lone one, would drop a reference of a request that was never looked up.
    Receiving the second part gives the first one, which is memory of the
    request, back.  src/src/disk.c:433-539 [disk_process] *)
Definition disk_process (parts : list bytes) : MR unit :=
  match parts with
  | [] | [_] => undefined Uninitialized
  | uid :: rest =>
      if decide (length uid ≠ UID_LEN) then undefined Uninitialized
      else
        hole ← UID_HOLE uid;
        o ← on_rsieve (sieve_get hole);
        match o with
        | None => ANIMPL false;; undefined NullDeref
        | Some req =>
            q ← get_request req;
            eq ← UID_EQ (rq_uid q) uid;
            ANIMPL eq;;
            REQ_INCREF req;;
            request_decref req;;
            (match rest with
             | [] | [_] => mret tt
             | sentinel :: parts =>
                 ANIMPL (bool_decide (sentinel = []));; disk_parts req parts
             end);;
            REQ_DECREF req
        end
  end.
End server.
