(* ===== verification/Threads.v ===== *)
(** * Starting and ending the disk threads (prepare_disk and release_disk of disk.c)

    The threads are started with the server; when it stops, each is told to end. *)

From S2P Require Import Prelude Sieve Pool MsgQueue Uidgen State Topics Backend.
From S2P Require Import CometArgs Request Comet Sockets Routing Headers Files Disk.

(** ** Data *)

(** The part of [root.disk] that start-up fills in. *)
Record threads := mk_threads {
  th_sock : handle;
  th_count : nat;
  th_mime_table : mime_table;
}.

(** ** Operations *)
Section operations.
Context `{LogLevel, ZmqSetup}.

Definition inproc_disk : bytes := str "inproc://disk".

(** A file of content types that cannot be read ends the server. *)
Definition mime_lines (file : option (list bytes)) : M (list zcall) (list bytes) :=
  match file with
  | Some lines => mret lines
  | None => SNIMPL true;; mret []
  end.

(** [n] is the configured number of threads, [thread_ok] what [pthread_create]
    gives, and [mime_file] the lines of the file, if it can be opened.
    src/src/disk.c:573-608 [prepare_disk] *)
Definition prepare_disk (n : Z) (thread_ok : nat → bool) (extra : list (bytes * bytes)) (mime_file : option (list bytes)) :
    M (list zcall) (option threads) :=
  if decide (n ≤ 0)%Z then mret None
  else
    h ← zmq_socket ZMQ_XREQ;
    SNIMPL (bool_decide (h = None));;
    SNIMPL_call (zmq_addr h (zmq_Bind inproc_disk));;
    SNIMPL_call (zmq_getfd h);;
    ev_io_start h;;
    mfor (seq 0 (Z.to_nat n)) (λ i, SNIMPL (negb (thread_ok i)));;
    lines ← mime_lines mime_file;
    mret (Some (mk_threads h (Z.to_nat n) (prepare_mime extra lines))).

(** What zeromq answers to the [i]-th attempt to reach a thread. *)
Inductive reach := Reached | NoThread | Broken.

(** Until no thread takes a message any more; src/src/disk.c:610-625 [release_disk] *)
Fixpoint tell_threads (fuel i : nat) (reaches : nat → reach) : M (list (list bytes)) unit :=
  match fuel with
  | O => out_of_fuel
  | S fuel =>
      match reaches i with
      | NoThread => mret tt
      | Broken => SNIMPL true;; modify (λ sent, sent ++ [[str "shutdown"]]);; tell_threads fuel (S i) reaches
      | Reached => modify (λ sent, sent ++ [[[]; str "shutdown"]]);; tell_threads fuel (S i) reaches
      end
  end.

(** The threads are waited for, and the socket is closed; [joined] is what
    [pthread_join] gives.  src/src/disk.c:626-634 [release_disk] *)
Definition close_disk (th : threads) (joined : nat → bool) : M (list zcall) unit :=
  mfor (seq 0 (th_count th)) (λ i, SNIMPL (negb (joined i)));;
  ev_io_stop (th_sock th);;
  SNIMPL_call (zmq_close (th_sock th)).
End operations.

(** ** Lemmas *)

Lemma wp_all_ok {S} `{LogLevel} (ok : nat → bool) l (Q : unit → S → Prop) s :
  (∀ i, ok i = true) → Q tt s → wp (mfor l (λ i, SNIMPL (negb (ok i)))) Q s.
Proof.
  intros Hok HQ. induction l as [|i l IH]; cbn [mfor]; [by apply wp_ret|].
  apply wp_bind, wp_SNIMPL; [by rewrite Hok|done].
Qed.

(** ** Theorems *)

(** With threads configured, start-up opens one socket for all of them, and the
    content type of an extension is the first one listed, in the configuration
    and then in the file. *)
Theorem prepare_disk_correct `{LogLevel, ZmqSetup} (n : Z) (thread_ok : nat → bool) (extra : list (bytes * bytes))
    (lines : list bytes) (Hready : zmq_ready) (Hn : (0 < n)%Z) (Hok : ∀ i, thread_ok i = true) :
  wp (prepare_disk n thread_ok extra (Some lines)) (λ o tr, ∃ h table,
    o = Some (mk_threads h (Z.to_nat n) table) ∧ h ≠ None ∧
    tr = [ZSocket ZMQ_XREQ h; ZAddr h (zmq_Bind inproc_disk) true; ZGetFd h true; IoStart h] ∧
    ∀ ext, mime_find table ext = bucket_find (extra ++ mjoin (line_entries <$> lines)) ext) [].
Proof.
  unfold prepare_disk. rewrite decide_False by lia. apply wp_bind. unfold zmq_socket, call, wp at 1.
  pose proof (zr_socket Hready [] ZMQ_XREQ) as Hh. set (h := zmq_socket_res [] ZMQ_XREQ) in *.
  apply wp_bind, wp_SNIMPL; [by apply bool_decide_eq_false_2|]. unfold SNIMPL_call.
  do 2 apply wp_bind. unfold zmq_addr, call, wp at 1. rewrite (zr_addr Hready). apply wp_SNIMPL; [done|].
  do 2 apply wp_bind. unfold zmq_getfd, call, wp at 1. rewrite (zr_getfd Hready). apply wp_SNIMPL; [done|].
  apply wp_bind. unfold ev_io_start, call, wp at 1. apply wp_bind, wp_all_ok; [done|].
  apply wp_bind, wp_ret, wp_ret. exists h, (prepare_mime extra lines). split_and!; try done.
  intros ext. apply mime_table_correct.
Qed.

(** Every message that is sent to the threads tells one to end, as many as zeromq
    takes before no thread is left. *)
Theorem tell_threads_correct `{LogLevel} (reaches : nat → reach) (k : nat)
    (Hreach : ∀ i, i < k → reaches i = Reached) (Hend : reaches k = NoThread) :
  tell_threads (S k) 0 reaches [] = Ok tt (replicate k [[]; str "shutdown"]).
Proof.
  assert (Hgo : ∀ j i sent, i + j = k →
    tell_threads (S j) i reaches sent = Ok tt (sent ++ replicate j [[]; str "shutdown"])).
  { induction j as [|j IH]; intros i sent E.
    - replace i with k by lia. cbn [tell_threads]. by rewrite Hend, app_nil_r.
    - cbn [tell_threads]. rewrite Hreach by lia. unfold mbind, M_bind, modify. fold (tell_threads (S j) (S i) reaches).
      rewrite (IH (S i)) by lia. by rewrite <- app_assoc. }
  apply (Hgo k 0 []). lia.
Qed.
