(* ===== verification/Http.v ===== *)
(** * Forwarded requests (http.c)

    A request that a route forwards is entered in the table of requests and sent
    to the backend, as a message of the configured fields after its identifier.
    The backend's message with that identifier is the reply.  Without a reply in
    time the request is sent again, or answered with an error. *)

From S2P Require Import Prelude Sieve Pool MsgQueue Uidgen State Topics Backend Outputs Hybi.
From S2P Require Import CometArgs Request Comet Session Polling Sockets Routing Headers Files Disk.

(** ** Operations *)
Section operations.
Context `{LogLevel, Malloc, Env, Digest, Website, HttpConfig, DiskConfig}.

(** src/src/http.c:370-380 [http_dissect_path] *)
Definition http_dissect_path (req : addr) : MR unit :=
  set_request req (λ q, q <| rq_path := (upto "?"%char (rq_uri q)).1 |>).

(** Called when the headers were read; [false] closes the connection.
    src/src/http.c:382-392 [http_headers] *)
Definition http_headers (req : addr) : MR bool :=
  http_dissect_path req;;
  o ← preliminary_resolve req;
  q ← get_request req;
  big ← match o with
        | Some rid => rt ← get_hroute rid; mret (bool_decide (hr_max_body_size rt < Z.of_nat (length (rq_body q)))%Z)
        | None => mret false
        end;
  if big : bool then mret false else request_init req;; mret true.

(** A sentinel precedes the fields on a socket that speaks to REP sockets.
    src/src/http.c:318-319 [do_forward] *)
Definition has_sentinel (rt : hroute) : bool :=
  bool_decide (sk_kind (hr_socket rt) = zmq_Req ∨ sk_kind (hr_socket rt) = kind_auto).

(** A field without a value has an indeterminate length if [get_field] sets
    none.  src/src/http.c:324-333 [do_forward] *)
Fixpoint forward_fields (req : addr) (s : sock_id) (l : list request_field) : MR unit :=
  match l with
  | [] => mret tt
  | item :: l =>
      '(value, len) ← get_field req item;
      lend req;;
      len ← deref Uninitialized len;
      snimpl_send s (take len (default [] value)) (match l with [] => false | _ :: _ => true end);;
      forward_fields req s l
  end.

(** True for 0, false for -1.  src/src/http.c:297-335 [do_forward] *)
Definition do_forward (req : addr) : MR bool :=
  q ← get_request req;
  rid ← deref NullDeref (rq_route q);
  rt ← get_hroute rid;
  let s := Http rid in
  emit (FeedEvent s);;
  lend req;;
  res ← zmq_send s (rq_uid q) true;
  if decide (res ≠ Sent) then
    request_decref req;;
    http_static_response req (if decide (res = EAGAIN) then hr_service_unavailable rt else hr_internal_error rt);;
    request_finish req;;
    mret false
  else
    whenb (has_sentinel rt) (snimpl_send s [] true);;
    ANIMPL (bool_decide (hr_contents rt ≠ []));;
    forward_fields req s (hr_contents rt);;
    mret true.

Definition ev_timer_again (req : addr) : MR unit := set_request req (λ q, q <| rq_timeout_active := true |>).

(** The request is sent again and its timer restarted.
    src/src/http.c:351-355 [request_timeout] *)
Definition retry (req : addr) : MR unit :=
  count (λ st, st <| st_zmq_retries ::= plus 1 |>);;
  ok ← do_forward req;
  if ok : bool then ev_timer_again req else mret tt.

(** src/src/http.c:337-368 [request_timeout] *)
Definition request_timeout (req : addr) (urandom : random_device) : MR unit :=
  set_request req (λ q, q <| rq_retries ::= λ n, i32 (n + 1) |>);;
  q ← get_request req;
  rid ← deref NullDeref (rq_route q);
  rt ← get_hroute rid;
  match (if decide (hr_retry_count rt ≤ rq_retries q)%Z then NoRetry else hr_retry_mode rt) with
  | NoRetry =>
      http_static_response req (hr_gateway_timeout rt);;
      request_finish req
  | RetryFirst =>
      ANIMPL (negb (Z.land (rq_flags q) REQ_IN_SIEVE =? 0)%Z);;
      retry req
  | RetryLast =>
      ANIMPL (negb (Z.land (rq_flags q) REQ_IN_SIEVE =? 0)%Z);;
      hole ← UID_HOLE (rq_uid q);
      on_rsieve (sieve_empty hole);;
      r ← get;
      '(uid, _) ← on_rsieve (make_hole_uid (instance_id r) urandom req (rq_uid q) false);
      set_request req (λ q, q <| rq_uid := uid |>);;
      retry req
  end.

(** src/src/http.c:410-421 [http_request] *)
Definition forward_request (req : addr) (rt : hroute) (urandom : random_device) : MR bool :=
  q ← get_request req;
  r ← get;
  '(uid, ok) ← on_rsieve (make_hole_uid (instance_id r) urandom req (rq_uid q) false);
  set_request req (λ q, q <| rq_uid := uid |>);;
  if negb ok then mret false
  else
    set_request req (λ q, q <| rq_flags ::= λ f, Z.lor f REQ_IN_SIEVE |>);;
    count (λ st, st <| st_zmq_requests ::= plus 1 |>);;
    ok ← do_forward req;
    (if ok : bool then
       if decide (hr_timeout rt ≠ 0)%Z then ev_timer_again req else mret tt
     else mret tt);;
    mret true.

(** Called when the whole request was read; [false] is the error return.
    src/src/http.c:394-430 [http_request] *)
Definition http_request (req : addr) (urandom : random_device) : MR bool :=
  count (λ st, st <| st_http_requests ::= plus 1 |>);;
  o ← resolve_url req;
  match o with
  | None => request_finish req;; mret true
  | Some rid =>
      set_request req (λ q, q <| rq_route := Some rid |>);;
      rt ← get_hroute rid;
      wrt ← get_route rid;
      q ← get_request req;
      if (rt_enabled wrt && hr_polling rt && bool_decide ("?"%char ∈ rq_uri q))%bool then comet_request req urandom
      else if hr_forward rt then forward_request req rt urandom
      else if sc_enabled (hr_static rt) then disk_request req urandom
      else
        http_static_response req (hr_default rt);;
        request_finish req;;
        mret true
  end.

(** Looking a request up by its identifier; src/src/http.c:60-62 [http_process] *)
Definition find_request (uid : bytes) : MR (option addr) :=
  hole ← UID_HOLE uid;
  o ← on_rsieve (sieve_get hole);
  match o with
  | None => mret None
  | Some req =>
      q ← get_request req;
      eq ← UID_EQ (rq_uid q) uid;
      mret (if eq : bool then Some req else None)
  end.

(** The body of a reply, with the headers of the route [rid] that it came from.
    src/src/http.c:129-142 [http_process] *)
Definition finish_message (rid : route_id) (req : addr) (body : bytes) : MR unit :=
  end_headers req rid;;
  reply_body req body.

(** The parts after the identifier and the sentinel.
    src/src/http.c:76-142 [http_process] *)
Definition reply_parts (rid : route_id) (req : addr) (parts : list bytes) : MR unit :=
  count (λ st, st <| st_zmq_replies ::= plus 1 |>);;
  match parts with
  | [] => mret tt
  | [body] => ws_statusline req "200 OK";; finish_message rid req body
  | [status; body] => ws_statusline_len req status;; finish_message rid req body
  | [status; headers; body] =>
      ws_statusline_len req status;;
      add_headers req headers;;
      finish_message rid req body
  | status :: headers :: _ =>
      ws_statusline_len req status;;
      add_headers req headers;;
      emit (ReqReset req);;
      rt ← REQRCONFIG req;
      http_static_response req (hr_internal_error rt);;
      request_finish req
  end.

(** A message that came in on the socket of the route [rid].
    src/src/http.c:54-148 [http_process] *)
Definition http_message (rid : route_id) (parts : list bytes) : MR unit :=
  match parts with
  | [] | [_] => mret tt
  | uid :: rest =>
      if decide (length uid ≠ UID_LEN) then mret tt
      else
        o ← find_request uid;
        match o with
        | None => count (λ st, st <| st_zmq_orphan_replies ::= plus 1 |>)
        | Some req =>
            rt ← get_hroute rid;
            if has_sentinel rt then
              match rest with
              | [] :: ((_ :: _) as rest) => reply_parts rid req rest
              | _ => mret tt
              end
            else reply_parts rid req rest
        end
  end.

(** [msgs] are the messages that wait on the socket.
    src/src/http.c:48-150 [http_process] *)
Definition http_process (rid : route_id) (msgs : list (list bytes)) : MR unit :=
  mfor msgs (http_message rid).
End operations.
