(* ===== verification/Pending.v ===== *)
(** * The table of pending requests (http.c, request.c)

    A request that waits for its reply sits in the cell of the table that its
    identifier names. *)

From S2P Require Import Prelude Sieve Pool MsgQueue Uidgen State Topics Backend Outputs Hybi.
From S2P Require Import CometArgs Request Comet Session Polling Sockets Routing Headers Files Disk Http.

(** ** Invariant *)

Definition in_sieve (q : request) : bool := negb (Z.land (rq_flags q) REQ_IN_SIEVE =? 0)%Z.

Record pending_ok (r : root) : Prop := {
  pe_wf : sieve_wf (request_sieve r);
  pe_iid : length (instance_id r) = IID_LEN;
  pe_hole : ∀ i a, holes (request_sieve r) !! i = Some a → ∃ q ix tail, requests r !! a = Some q ∧
    in_sieve q = true ∧ rq_uid q = uid_of (instance_id r) i ix tail ∧ length tail = UID_NRANDOM;
  pe_req : ∀ a q, requests r !! a = Some q → in_sieve q = true → ∃ i, holes (request_sieve r) !! i = Some a;
  pe_len : ∀ a q, requests r !! a = Some q → length (rq_uid q) = UID_LEN;
}.

(** ** Lemmas *)

Lemma in_sieve_set f : negb (Z.land (Z.lor f REQ_IN_SIEVE) REQ_IN_SIEVE =? 0)%Z = true.
Proof.
  apply negb_true_iff, Z.eqb_neq. intros E. apply (f_equal (λ z, Z.testbit z 1)) in E.
  rewrite Z.land_spec, Z.lor_spec in E. simpl in E. by rewrite orb_true_r in E.
Qed.

Lemma in_sieve_clear f : negb (Z.land (Z.land f (Z.lnot REQ_IN_SIEVE)) REQ_IN_SIEVE =? 0)%Z = false.
Proof.
  apply negb_false_iff, Z.eqb_eq. apply Z.bits_inj'. intros n Hn.
  rewrite !Z.land_spec, Z.lnot_spec, Z.bits_0 by done. by destruct (Z.testbit f n), (Z.testbit REQ_IN_SIEVE n).
Qed.

(** Other flags do not matter. *)
Lemma in_sieve_lor f g : Z.land g REQ_IN_SIEVE = 0%Z →
  negb (Z.land (Z.lor f g) REQ_IN_SIEVE =? 0)%Z = negb (Z.land f REQ_IN_SIEVE =? 0)%Z.
Proof. intros Hg. by rewrite Z.land_lor_distr_l, Hg, Z.lor_0_r. Qed.

(** The request after [request_finish]. *)
Definition finished (q : request) : request :=
  q <| rq_flags := if in_sieve q then Z.land (rq_flags q) (Z.lnot REQ_IN_SIEVE) else rq_flags q |>
    <| rq_timeout_active := false |>.

Lemma in_sieve_finished q : in_sieve (finished q) = false.
Proof.
  unfold finished, in_sieve at 1. simpl. destruct (in_sieve q) eqn:E; [apply in_sieve_clear|exact E].
Qed.

Section lemmas.
Context `{LogLevel, Malloc, Env, Digest, Website, HttpConfig, DiskConfig}.
Implicit Types (r : root).

(** The cell of a request is the one that its identifier names. *)
Lemma pending_cell r a q :
  pending_ok r → requests r !! a = Some q → in_sieve q = true →
  ∃ i ix tail, holes (request_sieve r) !! i = Some a ∧ rq_uid q = uid_of (instance_id r) i ix tail ∧
    length tail = UID_NRANDOM ∧ (Z.of_nat i < 2 ^ 64)%Z.
Proof.
  intros [Hwf Hiid Hh Hr _] Ha Hs. destruct (Hr a q Ha Hs) as [i Hi].
  destruct (Hh i a Hi) as (q' & ix & tail & Ha' & _ & Hu & Ht). assert (q' = q) as -> by congruence.
  pose proof (holes_lt _ _ _ Hwf Hi). pose proof (wf_max _ Hwf). exists i, ix, tail. split_and!; [done..|lia].
Qed.

Lemma pending_inj r i j a :
  pending_ok r → holes (request_sieve r) !! i = Some a → holes (request_sieve r) !! j = Some a → i = j.
Proof.
  intros [Hwf Hiid Hh _ _] Hi Hj.
  destruct (Hh _ _ Hi) as (q & ix & t & Ha & _ & Hu & Ht). destruct (Hh _ _ Hj) as (q' & ix' & t' & Ha' & _ & Hu' & Ht').
  assert (q' = q) as -> by congruence. rewrite Hu in Hu'.
  pose proof (holes_lt _ _ _ Hwf Hi). pose proof (holes_lt _ _ _ Hwf Hj). pose proof (wf_max _ Hwf).
  apply (f_equal (λ u, le_value (take 8 (drop IID_LEN u)))) in Hu'.
  rewrite !uid_hole_field in Hu' by (done || lia). lia.
Qed.

(** Only requests and their flags and identifiers matter. *)
Lemma table_same r r' a q q' :
  pending_ok r → requests r !! a = Some q → rq_uid q' = rq_uid q → in_sieve q' = in_sieve q →
  requests r' = <[a := q']> (requests r) → request_sieve r' = request_sieve r → instance_id r' = instance_id r →
  pending_ok r'.
Proof.
  intros [Hwf Hiid Hh Hr Hl] Ha Eu Es Er Esv Eid. split; rewrite ?Er, ?Esv, ?Eid; try done.
  - intros i b Hb. destruct (Hh i b Hb) as (qb & ix & t & Hqb & Hs & Hu & Ht).
    destruct (decide (b = a)) as [->|Hne].
    + assert (qb = q) as -> by congruence. exists q', ix, t. rewrite lookup_insert_eq. split_and!; congruence.
    + exists qb, ix, t. by rewrite lookup_insert_ne.
  - intros b qb. rewrite lookup_insert_Some. intros [[<- <-]|[Hne Hb]] Hs; [|by eapply Hr].
    eapply Hr; [done|]. congruence.
  - intros b qb. rewrite lookup_insert_Some. intros [[<- <-]|[Hne Hb]]; [|by eapply Hl]. rewrite Eu. by eapply Hl.
Qed.

Lemma pending_noted r l : pending_ok r → pending_ok (noted r l).
Proof. by intros [? ? ? ? ?]. Qed.

(** A request leaves the table. *)
Lemma pending_leave r r' a q q' i :
  pending_ok r → requests r !! a = Some q → holes (request_sieve r) !! i = Some a →
  length (rq_uid q') = UID_LEN → in_sieve q' = false →
  sieve_wf (request_sieve r') → holes (request_sieve r') = delete i (holes (request_sieve r)) →
  requests r' = <[a := q']> (requests r) → instance_id r' = instance_id r → pending_ok r'.
Proof.
  intros Hok Ha Hi Hl' Hs' Hwf' Eh Er Eid. pose proof Hok as [Hwf Hiid Hh Hr Hl].
  split; rewrite ?Er, ?Eid; try done.
  - intros j b. rewrite Eh, lookup_delete_Some. intros [Hne Hb].
    destruct (Hh j b Hb) as (qb & ix & t & Hqb & Hs & Hu & Ht). exists qb, ix, t.
    rewrite lookup_insert_ne; [done|]. intros <-. by destruct (pending_inj r i j a Hok Hi Hb).
  - intros b qb. rewrite lookup_insert_Some. intros [[<- <-]|[Hne Hb]] Hs; [congruence|].
    destruct (Hr b qb Hb Hs) as [j Hj]. exists j. rewrite Eh, lookup_delete_ne; [done|]. intros <-. congruence.
  - intros b qb. rewrite lookup_insert_Some. intros [[<- <-]|[Hne Hb]]; [done|by eapply Hl].
Qed.

(** What happens to the table and one request. *)
Definition moved r (a : addr) (s : sieve addr) (q : request) : root :=
  r <| request_sieve := s |> <| requests := <[a := q]> (requests r) |>.

Lemma wp_request_finish r a q (Q : unit → root → Prop) :
  pending_ok r → requests r !! a = Some q →
  (∀ s, pending_ok (moved r a s (finished q)) → Q tt (moved r a s (finished q))) →
  wp (request_finish a) Q r.
Proof.
  intros Hok Ha HQ. unfold request_finish. apply wp_bind. eapply wp_get_request; [done|].
  change (negb (Z.land (rq_flags q) REQ_IN_SIEVE =? 0)%Z) with (in_sieve q).
  destruct (in_sieve q) eqn:Es; unfold whenb.
  - destruct (pending_cell r a q Hok Ha Es) as (i & ix & tail & Hi & Hu & Ht & Hlt).
    apply wp_bind, wp_bind. rewrite Hu. apply wp_UID_HOLE; [by apply Hok|done..|].
    unfold on_rsieve. apply wp_bind, wp_zoom. eapply wp_mono; [apply (wp_sieve_empty _ i a); [apply Hok|done]|].
    intros [] s (Hwf' & Eh & _). cbn beta.
    eapply wp_set_request; [done|]. cbn beta. eapply wp_set_request; [apply lookup_insert_eq|]. cbn beta.
    assert (E : (q <| rq_flags ::= λ f, Z.land f (Z.lnot REQ_IN_SIEVE) |>) <| rq_timeout_active := false |> = finished q)
      by (unfold finished; by rewrite Es).
    match goal with |- Q tt ?g => assert (g = moved r a s (finished q)) as -> end.
    { unfold moved. simpl. rewrite insert_insert_eq. by rewrite <- E. }
    apply HQ. eapply (pending_leave r _ a q (finished q) i); try done.
    + change (length (rq_uid q) = UID_LEN). by eapply (pe_len _ Hok).
    + apply in_sieve_finished.
  - apply wp_bind, wp_ret. eapply wp_set_request; [done|]. cbn beta.
    assert (E : q <| rq_timeout_active := false |> = finished q) by (unfold finished; rewrite Es; by destruct q).
    match goal with |- Q tt ?g => assert (g = moved r a (request_sieve r) (finished q)) as -> end.
    { unfold moved. rewrite <- E. by destruct r. }
    apply HQ. apply (table_same r _ a q (finished q)); try done. by rewrite in_sieve_finished.
Qed.

(** A request that is out of the table enters it; [q0] is the request as long as
    it is out. *)
Lemma wp_enter r a q0 data urandom (Q : bytes * bool → root → Prop) :
  pending_ok (with_request_at r a q0) → in_sieve q0 = false → length data = UID_LEN →
  sieve_full (request_sieve r) = false →
  (∀ s i ix tail, let uid := uid_of (instance_id r) i ix tail in length tail = UID_NRANDOM →
     (∀ q', rq_uid q' = uid → in_sieve q' = true → pending_ok (moved r a s q')) →
     Q (uid, true) (r <| request_sieve := s |>)) →
  wp (on_rsieve (make_hole_uid (instance_id r) urandom a data false)) Q r.
Proof.
  intros Hok Hs Hd Hfull HQ. pose proof Hok as [Hwf Hiid Hh Hr Hl]. simpl in *.
  assert (Ha : requests (with_request_at r a q0) !! a = Some q0) by apply lookup_insert_eq.
  unfold on_rsieve. apply wp_zoom.
  eapply wp_mono; [by apply wp_make_hole_uid|]. intros [data' ok] s [Hwf' Hf]. destruct ok.
  2:{ destruct Hf as [_ Hf]. congruence. }
  destruct Hf as (i & tail & -> & Ht & _ & _ & (Hlt & Hnone & _) & Hholes & _ & Hmax).
  apply (HQ s i _ tail Ht). intros q' Eu Es.
  assert (Hne : ∀ j b, holes (request_sieve r) !! j = Some b → b ≠ a).
  { intros j b Hb ->. destruct (Hh j a Hb) as (qb & _ & _ & Hqb & Hsb & _). simpl in *. congruence. }
  split; simpl; try done.
  - intros j b. rewrite Hholes, lookup_insert_Some. intros [[<- <-]|[_ Hb]].
    + exists q', (index (request_sieve r)), tail. rewrite lookup_insert_eq. split_and!; congruence.
    + destruct (Hh j b Hb) as (qb & ix & t & Hqb & Hsb & Hub & Htb). exists qb, ix, t. pose proof (Hne j b Hb).
      simpl in Hqb. by rewrite lookup_insert_ne in * by done.
  - intros b qb. rewrite lookup_insert_Some. intros [[<- <-]|[Hnb Hb]] Hsb.
    + exists i. by rewrite Hholes, lookup_insert_eq.
    + destruct (Hr b qb) as [j Hj]; [simpl; by rewrite lookup_insert_ne|done|].
      exists j. rewrite Hholes, lookup_insert_ne; [done|]. intros <-. congruence.
  - intros b qb. rewrite lookup_insert_Some. intros [[<- <-]|[Hnb Hb]].
    + rewrite Eu. by apply length_uid_of.
    + apply (Hl b). simpl. by rewrite lookup_insert_ne.
Qed.

(** A table with a free cell is not full. *)
Lemma free_cell_not_full (s : sieve addr) i : sieve_wf s → i < max s → holes s !! i = None → sieve_full s = false.
Proof.
  intros Hwf Hi Hn. destruct (sieve_full s) eqn:E; [|done].
  destruct (sieve_full_holes s Hwf E i Hi). congruence.
Qed.

(** A request leaves the table while it is being sent again. *)
Lemma wp_leave r a q (Q : unit → root → Prop) :
  pending_ok r → requests r !! a = Some q → in_sieve q = true →
  (∀ s, pending_ok (moved r a s (finished q)) → sieve_full s = false → Q tt (r <| request_sieve := s |>)) →
  wp (hole ← UID_HOLE (rq_uid q); on_rsieve (sieve_empty hole)) Q r.
Proof.
  intros Hok Ha Es HQ. destruct (pending_cell r a q Hok Ha Es) as (i & ix & tail & Hi & Hu & Ht & Hlt).
  apply wp_bind. rewrite Hu. apply wp_UID_HOLE; [by apply Hok|done..|]. apply wp_zoom.
  eapply wp_mono; [apply (wp_sieve_empty _ i a); [apply Hok|done]|].
  intros [] s (Hwf' & Eh & _ & Em & _). apply HQ.
  - eapply (pending_leave r _ a q (finished q) i); try done.
    + change (length (rq_uid q) = UID_LEN). by eapply (pe_len _ Hok).
    + apply in_sieve_finished.
  - apply (free_cell_not_full s i); [done|rewrite Em; by eapply holes_lt; [apply Hok|]|].
    by rewrite Eh, lookup_delete_eq.
Qed.

(** Lookup of an identifier that a backend sent. *)
Lemma wp_find_request uid r :
  pending_ok r → length uid = UID_LEN →
  le_value (take 8 (drop IID_LEN uid)) ≠ Z.of_nat (max (request_sieve r)) →
  wp (find_request uid) (λ o r', r' = r ∧
    ∀ a, o = Some a ↔ ∃ q, requests r !! a = Some q ∧ in_sieve q = true ∧ rq_uid q = uid) r.
Proof.
  intros Hok Hlen Hmax. pose proof Hok as [Hwf Hiid Hh Hr Hl].
  unfold find_request, on_rsieve, UID_HOLE. rewrite decide_True by uid_lia. root_steps.
  eapply wp_mono; [apply wp_sieve_get; [done|apply le_value_bound|done]|].
  intros o s' [-> Ho]. replace (r <| request_sieve := request_sieve r |>) with r by by destruct r.
  set (n := le_value _) in *.
  assert (Hlive : ∀ a, (∃ q, requests r !! a = Some q ∧ in_sieve q = true ∧ rq_uid q = uid) → o = Some a).
  { intros a (q & Ha & Hs & <-). destruct (pending_cell r a q Hok Ha Hs) as (i & ix & t & Hi & Hu & Ht & Hlt).
    unfold n in Ho. rewrite Hu, uid_hole_field, Nat2Z.id, Hi in Ho by (done || lia). done. }
  destruct o as [b|]; root_steps.
  - symmetry in Ho. destruct (Hh _ _ Ho) as (q & ix & t & Hb & Hs & Hu & Ht).
    root_steps. unfold UID_EQ. pose proof (Hl b q Hb) as Hlb. rewrite decide_True by uid_lia. root_steps.
    split; [done|]. intros a. rewrite (take_ge (rq_uid q)), (take_ge uid) by uid_lia.
    case_bool_decide as Heq.
    + split; [intros [= <-]; eauto|apply Hlive].
    + split; [done|]. intros Hex. pose proof (Hlive a Hex) as [= ->]. destruct Hex as (q' & Ha & _ & Hu').
      congruence.
  - split; [done|]. intros a. split; [done|apply Hlive].
Qed.
End lemmas.
