(* ===== verification/Exchange.v ===== *)
(** * Requests and replies over time (http.c)

    Every request that is forwarded is answered once: by its backend, or by the
    gateway when the backend cannot be reached or does not answer in time. *)

From S2P Require Import Prelude Sieve Pool MsgQueue Uidgen State Topics Backend Outputs Hybi.
From S2P Require Import CometArgs Request Comet Session Polling Sockets Routing Headers Files Disk Http Pending.

(** ** Lemmas: forwarding *)

(** A field that has a value and a length, whatever the request. *)
Definition sendable (f : request_field) : Prop := indexed f ∧ f_kind f ≠ Cookie ∧ f_kind f ≠ Nothing.

(** [n] parts with memory of the request are with zeromq. *)
Definition lends (n : nat) (q q' : request) : Prop :=
  ∃ q1, cached q q1 ∧ q' = q1 <| rq_refcnt := (rq_refcnt q + Z.of_nat n)%Z |> <| rq_lent := rq_lent q + n |>.

Lemma cached_fields q q' : cached q q' →
  rq_refcnt q' = rq_refcnt q ∧ rq_lent q' = rq_lent q ∧ rq_uid q' = rq_uid q ∧ rq_flags q' = rq_flags q ∧
  rq_retries q' = rq_retries q ∧ rq_route q' = rq_route q ∧ rq_hybi q' = rq_hybi q ∧
  rq_timeout_active q' = rq_timeout_active q.
Proof. by intros [-> |[_ ->]]. Qed.

Lemma lends_fields n q q' : lends n q q' →
  rq_refcnt q' = (rq_refcnt q + Z.of_nat n)%Z ∧ rq_lent q' = rq_lent q + n ∧ rq_uid q' = rq_uid q ∧
  rq_flags q' = rq_flags q ∧ rq_retries q' = rq_retries q ∧ rq_route q' = rq_route q ∧ rq_hybi q' = rq_hybi q ∧
  rq_timeout_active q' = rq_timeout_active q.
Proof. by intros (q1 & [-> |[_ ->]] & ->). Qed.

Lemma lends_in_sieve n q q' : lends n q q' → in_sieve q' = in_sieve q.
Proof. intros (_ & _ & _ & Hf & _)%lends_fields. unfold in_sieve. by rewrite Hf. Qed.

Lemma lends_O q : lends 0 q q.
Proof. exists q. split; [by left|]. destruct q. simpl. f_equal; lia. Qed.

Lemma lends_S n q q1 q2 q' :
  cached q q1 → q2 = q1 <| rq_refcnt := (rq_refcnt q + 1)%Z |> <| rq_lent := S (rq_lent q) |> → lends n q2 q' →
  lends (S n) q q' ∧ ∀ f, field_text q2 f = field_text q f.
Proof.
  intros Hc -> (q3 & Hc3 & ->). split.
  - destruct Hc3 as [-> |[Hn ->]]; [|destruct Hc as [-> |[Hn' ->]]; [|done]].
    + exists q1. split; [done|]. simpl. by rewrite <- Z.add_assoc, Nat.add_succ_r, Nat2Z.inj_succ, Z.add_1_l.
    + exists (q <| rq_ip := Some (ip_text q) |>). split; [by right|]. simpl.
      by rewrite <- Z.add_assoc, Nat.add_succ_r, Nat2Z.inj_succ, Z.add_1_l.
  - intros f. rewrite <- (cached_text q q1 f Hc). by destruct f as [[]].
Qed.

Section forwarding.
Context `{LogLevel, Malloc, Env, Digest, Website, HttpConfig, DiskConfig}.
Hypothesis Hzmq : zmq_laws.
Hypothesis Hdate : ∀ req, is_Some (http_date req).
Implicit Types (r : root).

Lemma wp_lend r a q (Q : unit → root → Prop) :
  requests r !! a = Some q → (0 ≤ rq_refcnt q < 2 ^ 31 - 1)%Z →
  Q tt (with_request_at r a (q <| rq_refcnt := (rq_refcnt q + 1)%Z |> <| rq_lent := S (rq_lent q) |>)) →
  wp (lend a) Q r.
Proof.
  intros Ha Hc HQ. unfold lend, REQ_INCREF. apply wp_bind. eapply wp_set_request; [done|]. cbn beta.
  eapply wp_set_request; [apply lookup_insert_eq|]. cbn beta.
  match goal with |- Q tt ?g => match type of HQ with Q tt ?g' => assert (g = g') as -> end end; [|done].
  unfold with_request_at. simpl. rewrite insert_insert_eq, i32_small by lia. done.
Qed.

Lemma noted_with_request r l a q : with_request_at (noted r l) a q = noted (with_request_at r a q) l.
Proof. done. Qed.

Lemma wp_forward_fields a s f l q p tr (Q : unit → root → Prop) r :
  requests r !! a = Some q → Forall sendable (f :: l) → (0 ≤ rq_refcnt q)%Z →
  (rq_refcnt q + Z.of_nat (length (f :: l)) < 2 ^ 31)%Z → trace r = tr ++ [ZmqSend s p true Sent] →
  (∀ q', lends (length (f :: l)) q q' →
     Q tt (noted (with_request_at r a q') (sent_events s (field_text q <$> f :: l)))) →
  wp (forward_fields a s (f :: l)) Q r.
Proof.
  revert f q p tr r. induction l as [|f' l IH]; intros f q p tr r Ha Hl H0' Hc Htr HQ; cbn [forward_fields].
  - apply Forall_cons in Hl as [(Hi & Hk & Hn) _]. apply wp_bind.
    eapply wp_get_field; [done..|]. intros v len q1 Hv Hlen Hc1. cbn beta iota zeta.
    rewrite (Hlen Hn). apply wp_bind. pose proof (cached_fields _ _ Hc1) as (Er & El & _).
    eapply wp_lend; [apply lookup_insert_eq|simpl in Hc; lia|]. rewrite with_request_twice, Er, El.
    set (q2 := q1 <| rq_refcnt := _ |> <| rq_lent := _ |>).
    apply wp_bind, wp_ret. cbn beta. apply wp_bind. eapply (wp_snimpl_send Hzmq); [exact Htr|].
    apply wp_ret. rewrite Hv, take_ge by done.
    destruct (lends_S 0 q q1 q2 q2 Hc1 eq_refl (lends_O _)) as [Hlends _].
    exact (HQ q2 Hlends).
  - apply Forall_cons in Hl as [(Hi & Hk & Hn) Hl]. apply wp_bind.
    eapply wp_get_field; [done..|]. intros v len q1 Hv Hlen Hc1. cbn beta iota zeta.
    rewrite (Hlen Hn). apply wp_bind. pose proof (cached_fields _ _ Hc1) as (Er & El & _).
    eapply wp_lend; [apply lookup_insert_eq|simpl in Hc; lia|]. rewrite with_request_twice, Er, El.
    set (q2 := q1 <| rq_refcnt := _ |> <| rq_lent := _ |>).
    apply wp_bind, wp_ret. cbn beta. apply wp_bind. eapply (wp_snimpl_send Hzmq); [exact Htr|].
    rewrite Hv, take_ge by done.
    set (r2 := _ <| trace := _ |>).
    apply (IH f' q2 (field_text q f) (trace r) r2); [apply lookup_insert_eq|done|simpl in *; lia|simpl in *; lia|done|].
    intros q' Hl'. destruct (lends_S _ q q1 q2 q' Hc1 eq_refl Hl') as [Hlends Htext].
    pose proof (HQ q' Hlends) as HQ'.
    assert (E : noted (with_request_at r2 a q') (sent_events s (field_text q2 <$> f' :: l)) =
      noted (with_request_at r a q') (sent_events s (field_text q <$> f :: f' :: l))).
    { assert (Em : field_text q2 <$> f' :: l = field_text q <$> f' :: l) by (apply list_fmap_ext; intros; apply Htext).
      rewrite Em. unfold noted, with_request_at, r2. simpl. by rewrite insert_insert_eq, <- app_assoc. }
    by rewrite E.
Qed.

(** The parts of a forwarded request. *)
Definition forward_parts (rt : hroute) (q : request) : list bytes :=
  rq_uid q :: (if has_sentinel rt then [[]] else []) ++ (field_text q <$> hr_contents rt).

(** A request was refused by zeromq and answered by the gateway. *)
Definition refusal (rt : hroute) (res : send_res) : StaticResponse :=
  if decide (res = EAGAIN) then hr_service_unavailable rt else hr_internal_error rt.

Lemma wp_do_forward a q rid rt (Q : bool → root → Prop) r :
  pending_ok r → requests r !! a = Some q → in_sieve q = true → rq_route q = Some rid → hroutes !! rid = Some rt →
  hr_contents rt ≠ [] → Forall sendable (hr_contents rt) → Forall code_ok (responses rt) →
  (0 < rq_refcnt q)%Z → (rq_refcnt q + Z.of_nat (S (length (hr_contents rt))) < 2 ^ 31)%Z →
  (∀ q', lends (S (length (hr_contents rt))) q q' →
     Q true (noted (with_request_at r a q') (FeedEvent (Http rid) :: sent_events (Http rid) (forward_parts rt q)))) →
  (∀ s res date, res ≠ Sent → res ≠ EOTHER → http_date a = Some date → pending_ok (moved r a s (finished q)) →
     Q false (noted (moved r a s (finished q))
       (FeedEvent (Http rid) :: ZmqSend (Http rid) (rq_uid q) true res :: static_reply a date (refusal rt res)))) →
  wp (do_forward a) Q r.
Proof.
  intros Hok Ha Hs Hr E Hne Hsend Hcodes Hpos Hc HQt HQf. unfold do_forward. root_steps.
  unfold get_hroute. root_steps. eapply wp_lend; [done|lia|]. unfold zmq_send. root_steps.
  match goal with |- context [zmq_send_res ?t ?s ?u ?m] => set (res := zmq_send_res t s u m) in * end.
  assert (Hres : res ≠ EOTHER) by apply (zl_errors Hzmq).
  set (q1 := q <| rq_refcnt := _ |> <| rq_lent := _ |>) in *.
  match goal with |- wp _ _ ?g => set (r1 := g) end.
  assert (Er1 : r1 = noted (with_request_at r a q1) [FeedEvent (Http rid); ZmqSend (Http rid) (rq_uid q) true res]).
  { unfold r1, noted, with_request_at. simpl. by rewrite <- app_assoc. }
  clearbody r1. case_decide as Hd.
  - destruct (Hdate a) as [date Hdt]. apply wp_bind. unfold request_decref. apply wp_bind.
    eapply wp_set_request; [rewrite Er1; apply lookup_insert_eq|]. cbn beta. unfold REQ_DECREF.
    apply wp_bind. eapply wp_set_request; [apply lookup_insert_eq|]. cbn beta.
    apply wp_bind. eapply wp_get_request; [apply lookup_insert_eq|].
    set (q2 := _ <| rq_refcnt ::= _ |>).
    assert (Eq2 : q2 = q).
    { unfold q2, q1. destruct q. simpl in *. rewrite i32_small by lia. f_equal. lia. }
    rewrite Eq2. rewrite (proj2 (Z.eqb_neq _ _)) by lia. apply wp_ret.
    match goal with |- context [wp _ _ ?g] => set (r2 := g) end.
    assert (Er2 : r2 = noted r [FeedEvent (Http rid); ZmqSend (Http rid) (rq_uid q) true res]).
    { unfold r2. rewrite Er1. unfold noted, with_request_at. simpl. rewrite !insert_insert_eq, insert_id by done.
      by destruct r. }
    rewrite Er2. apply wp_bind. eapply wp_http_static_response; [|done|].
    { unfold responses in Hcodes. rewrite !Forall_cons in Hcodes. case_decide; apply Hcodes. }
    rewrite noted_noted. apply wp_bind. eapply wp_request_finish; [by apply pending_noted|done|].
    intros s Hok'. apply wp_ret. apply (HQf s res date Hd Hres Hdt). clear -Hok'.
    destruct Hok' as [? ? ? ? ?]. by split.
  - rewrite Hd in *. apply wp_bind.
    assert (Hgo : ∀ r2 p tr, requests r2 !! a = Some q1 → trace r2 = tr ++ [ZmqSend (Http rid) p true Sent] →
      (∀ q', lends (length (hr_contents rt)) q1 q' →
        Q true (noted (with_request_at r2 a q') (sent_events (Http rid) (field_text q1 <$> hr_contents rt)))) →
      wp (ANIMPL (bool_decide (hr_contents rt ≠ []));;
          forward_fields a (Http rid) (hr_contents rt);; mret true) Q r2).
    { intros r2 p tr Ha2 Ht2 HQ2. apply wp_bind, wp_ANIMPL; [by apply bool_decide_eq_true_2|]. apply wp_bind.
      destruct (hr_contents rt) as [|f l]; [done|]. cbn [length] in Hc.
      eapply (wp_forward_fields a (Http rid) f l q1); [done|done|unfold q1; simpl; lia|unfold q1; simpl; lia|done|].
      intros q' Hq'. apply wp_ret. by apply HQ2. }
    assert (Htx : field_text q1 <$> hr_contents rt = field_text q <$> hr_contents rt).
    { apply list_fmap_ext. intros _ f _. by destruct f as [[]]. }
    assert (Hfin : ∀ q' (pre : list event), lends (length (hr_contents rt)) q1 q' → lends (S (length (hr_contents rt))) q q').
    { intros q' _ Hq'. by destruct (lends_S _ q q q1 q' (or_introl eq_refl) eq_refl Hq'). }
    destruct (has_sentinel rt) eqn:Esn; unfold whenb.
    + eapply (wp_snimpl_send Hzmq (Http rid) _ _ _ (trace r ++ [FeedEvent (Http rid)]));
        [rewrite Er1; unfold noted; simpl; by rewrite <- app_assoc|].
      eapply (Hgo _ [] (trace r1)); [rewrite Er1; apply lookup_insert_eq|done|]. intros q' Hq'.
      specialize (HQt q' (Hfin q' [] Hq')). unfold forward_parts in HQt. rewrite Esn in HQt.
      assert (Eg : ∀ r', r' = r1 <| trace := trace r1 ++ [ZmqSend (Http rid) [] true Sent] |> →
        noted (with_request_at r' a q') (sent_events (Http rid) (field_text q1 <$> hr_contents rt)) =
        noted (with_request_at r a q') (FeedEvent (Http rid) ::
          sent_events (Http rid) (rq_uid q :: [[]] ++ (field_text q <$> hr_contents rt)))).
      { intros r' ->. rewrite Er1, Htx. unfold noted, with_request_at. simpl. rewrite insert_insert_eq, <- !app_assoc.
        destruct (hr_contents rt); [done|]. done. }
      rewrite (Eg _ eq_refl). exact HQt.
    + apply wp_ret. eapply (Hgo _ (rq_uid q) (trace r ++ [FeedEvent (Http rid)])).
      { rewrite Er1. apply lookup_insert_eq. } { rewrite Er1. unfold noted. simpl. by rewrite <- app_assoc. }
      intros q' Hq'. specialize (HQt q' (Hfin q' [] Hq')). unfold forward_parts in HQt. rewrite Esn in HQt.
      assert (Eg : noted (with_request_at r1 a q') (sent_events (Http rid) (field_text q1 <$> hr_contents rt)) =
        noted (with_request_at r a q') (FeedEvent (Http rid) ::
          sent_events (Http rid) (rq_uid q :: [] ++ (field_text q <$> hr_contents rt)))).
      { rewrite Er1, Htx. unfold noted, with_request_at. simpl. rewrite insert_insert_eq, <- app_assoc.
        destruct (hr_contents rt); [done|]. done. }
      rewrite Eg. exact HQt.
Qed.
End forwarding.
