(* ===== verification/Lifetime.v ===== *)
(** * The life of a request (http.c, request.c)

    From its arrival on, the library, the table of pending requests and zeromq
    refer to a request.  Whatever happens in whatever order, it is answered at
    most once and released when nobody refers to it any more; a request that is
    released was answered, or its browser had gone away before. *)

From S2P Require Import Prelude Sieve Pool MsgQueue Uidgen State Topics Backend Outputs Hybi.
From S2P Require Import CometArgs Request Comet Session Polling Sockets Routing Headers Files Disk Http Pending Exchange.

(** ** What happens *)

(** The library reads a request, then it sends the reply. *)
Inductive phase := Reading | Handled.
#[export] Instance phase_eq_dec : EqDecision phase.
Proof. solve_decision. Defined.

Abbreviation library := (gmap nat phase) (only parsing).

Inductive http_action :=
  | Arrives (a : addr) (q : request)           (* the headers of a request were read *)
  | Completes (a : addr) (urandom : random_device)     (* its body was read *)
  | Drops (a : addr)                           (* its connection was closed before *)
  | Delivers (rid : route_id) (parts : list bytes)   (* a message of a backend *)
  | Expires (a : addr) (urandom : random_device)       (* a timer *)
  | Returns (a : addr)                         (* zeromq is done with a part *)
  | Finishes (a : addr)                        (* the reply was sent *)
  | GivesUp (a : addr).                        (* the connection was closed before a reply *)

(** What happened to the request at [a] since the address was last freed: how
    often it was answered, and whether its browser had gone away before. *)
Definition told_step (a : addr) (t : nat * bool) (e : event) : nat * bool :=
  match e with
  | ReqReply b _ => if decide (b = a) then (S t.1, t.2) else t
  | ReqAborted b => if decide (b = a) then (t.1, true) else t
  | ReqFree b => if decide (b = a) then (0, false) else t
  | _ => t
  end.
Definition told (a : addr) (tr : list event) : nat * bool := foldl (told_step a) (0, false) tr.
Definition answered (a : addr) (tr : list event) : nat := (told a tr).1.
Definition gave_up (a : addr) (tr : list event) : bool := (told a tr).2.

(** A reply is the first one of its request, and a request that is released was
    answered once, unless its browser had gone away before. *)
Definition answered_once (tr : list event) : Prop :=
  ∀ pre e post, tr = pre ++ e :: post →
    match e with
    | ReqReply a _ => answered a pre = 0
    | ReqFree a => answered a pre = 1 ∨ answered a pre = 0 ∧ gave_up a pre = true
    | _ => True
    end.

Section operations.
Context `{LogLevel, Malloc, Env, Digest, Website, HttpConfig, DiskConfig}.

(** What the library and zeromq may do.  The library calls the same function when
    the reply was sent and when the connection was closed before (polling.c:344
    tells the two apart); the gateway still answers a request that was given up,
    as long as zeromq refers to it, and the library drops that reply. *)
Definition enabled (x : http_action) (lib : library) (r : root) : Prop :=
  match x with
  | Arrives a q => requests r !! a = None ∧ length (rq_uid q) = UID_LEN ∧ rq_lent q = 0
  | Completes a _ => lib !! a = Some Reading
  | Drops a => lib !! a = Some Reading
  | Delivers rid parts => is_Some (hroutes !! rid) ∧
      ∀ uid rest, parts = uid :: rest → length uid = UID_LEN →
        le_value (take 8 (drop IID_LEN uid)) ≠ Z.of_nat (max (request_sieve r))
  | Expires a _ => ∃ q, requests r !! a = Some q ∧ rq_timeout_active q = true
  | Returns a => ∃ q, requests r !! a = Some q ∧ rq_lent q ≠ 0
  | Finishes a => lib !! a = Some Handled ∧ answered a (trace r) ≠ 0
  | GivesUp a => lib !! a = Some Handled ∧ answered a (trace r) = 0
  end.

(** The library closes a connection and forgets its request. *)
Definition forget (a : addr) : MR unit := modify (λ r, r <| requests ::= delete a |>).

Definition perform (x : http_action) (lib : library) : MR library :=
  match x with
  | Arrives a q =>
      modify (λ r, r <| requests ::= <[a := q]> |>);;
      ok ← http_headers a;
      if ok : bool then mret (<[a := Reading]> lib) else forget a;; mret lib
  | Completes a urandom =>
      ok ← http_request a urandom;
      if ok : bool then mret (<[a := Handled]> lib) else forget a;; mret (delete a lib)
  | Drops a => forget a;; mret (delete a lib)
  | Delivers rid parts => http_message rid parts;; mret lib
  | Expires a urandom => request_timeout a urandom;; mret lib
  | Returns a => request_decref a;; mret lib
  | Finishes a => http_request_finish a;; mret (delete a lib)
  | GivesUp a => emit (ReqAborted a);; http_request_finish a;; mret (delete a lib)
  end.

(** Histories: what the library refers to and the state, after some actions. *)
Inductive history (lib : library) (r : root) : list http_action → library → root → Prop :=
  | history_nil : history lib r [] lib r
  | history_snoc l lib1 r1 x lib2 r2 :
      history lib r l lib1 r1 → enabled x lib1 r1 → perform x lib1 r1 = Ok lib2 r2 →
      history lib r (l ++ [x]) lib2 r2.
End operations.

(** ** Invariant *)

(** The routes of a gateway that forwards requests and answers the rest itself:
    [K] is the largest number of parts with memory of a request in a message and
    [N] the largest number of attempts. *)
Record serves `{HttpConfig} (N K : nat) (rt : hroute) : Prop := {
  se_polling : hr_polling rt = false;
  se_static : hr_forward rt = false → sc_enabled (hr_static rt) = false;
  se_codes : Forall code_ok (responses rt);
  se_contents : hr_forward rt = true → hr_contents rt ≠ [] ∧ Forall sendable (hr_contents rt) ∧
    length (hr_contents rt) < K;
  se_count : (Z.max 1 (hr_retry_count rt) ≤ Z.of_nat N)%Z;
}.

(** The attempts that a request of the route has left. *)
Definition attempts (rt : hroute) (q : request) : Z := Z.max 1 (hr_retry_count rt) - rq_retries q.

Inductive stage `{HttpConfig} (K : nat) (tr : list event) (a : addr) (q : request) : option phase → Prop :=
  | reading :
      in_sieve q = false → told a tr = (0, false) → rq_timeout_active q = false → rq_flags q = 0%Z →
      rq_retries q = 0%Z → rq_route q = None → rq_lent q = 0 → stage K tr a q (Some Reading)
  | waiting rid rt p :
      p = (if gave_up a tr then None else Some Handled) →
      in_sieve q = true → answered a tr = 0 → Z.land (rq_flags q) REQ_HAS_MESSAGE = 0%Z →
      rq_route q = Some rid → hroutes !! rid = Some rt → hr_forward rt = true →
      (0 ≤ rq_retries q)%Z → (0 < attempts rt q)%Z →
      (Z.of_nat (rq_lent q) ≤ (rq_retries q + 1) * Z.of_nat K)%Z →
      (hr_timeout rt ≠ 0%Z → rq_timeout_active q = true) → stage K tr a q p
  | done p :
      p ≠ Some Reading → in_sieve q = false → answered a tr = 1 → rq_timeout_active q = false → stage K tr a q p.

(** The references to a request. *)
Record held (N K : nat) (lib : library) (a : addr) (q : request) : Prop := {
  he_hybi : rq_hybi q = None;
  he_count : rq_refcnt q = ((if decide (is_Some (lib !! a)) then 1 else 0) + Z.of_nat (rq_lent q))%Z;
  he_live : (0 < rq_refcnt q)%Z;
  he_lent : rq_lent q ≤ N * K;
}.

Record request_ok `{HttpConfig} (N K : nat) (lib : library) (tr : list event) (a : addr) (q : request) : Prop := {
  ro_held : held N K lib a q;
  ro_stage : stage K tr a q (lib !! a);
}.

Record http_ok `{HttpConfig} (N K : nat) (lib : library) (r : root) : Prop := {
  ho_pending : pending_ok r;
  ho_requests : ∀ a q, requests r !! a = Some q → request_ok N K lib (trace r) a q;
  ho_lib : ∀ a, is_Some (lib !! a) → is_Some (requests r !! a);
  ho_fresh : ∀ a, requests r !! a = None → told a (trace r) = (0, false);
  ho_once : answered_once (trace r);
  ho_routes : ∀ rid, is_Some (hroutes !! rid) → is_Some (routes r !! rid);
}.

(** Only the request at [a] changed, to [q], and [new] happened. *)
Record touches r (a : addr) (q : request) (new : list event) r' : Prop := {
  to_pending : pending_ok r';
  to_requests : requests r' = <[a := q]> (requests r);
  to_trace : trace r' = trace r ++ new;
  to_routes : routes r' = routes r;
}.

(** What an action leads to: the invariant again, and every waiting request whose
    browser waits was answered or given up, or still waits, its timer having
    expired [ticks] times. *)
Record leads `{HttpConfig} (N K : nat) (ticks : addr → Z) (lib' : library) (r r' : root) : Prop := {
  le_ok : http_ok N K lib' r';
  le_new : ∃ new, trace r' = trace r ++ new ∧
    ∀ a q, requests r !! a = Some q → in_sieve q = true → gave_up a (trace r) = false →
      (∃ data, ReqReply a data ∈ new) ∨ ReqAborted a ∈ new ∨
      gave_up a (trace r') = false ∧
      ∃ q', requests r' !! a = Some q' ∧ in_sieve q' = true ∧ rq_route q' = rq_route q ∧
        rq_retries q' = (rq_retries q + ticks a)%Z;
}.

(** ** Lemmas: answers *)

Definition quiet (e : event) : Prop :=
  match e with ReqReply _ _ | ReqFree _ | ReqAborted _ => False | _ => True end.

Lemma told_app a tr l : told a (tr ++ l) = foldl (told_step a) (told a tr) l.
Proof. apply foldl_app. Qed.

Lemma told_quiet a tr l : Forall quiet l → told a (tr ++ l) = told a tr.
Proof.
  rewrite told_app. generalize (told a tr). intros n Hl. revert n.
  induction Hl as [|e l He Hl IH]; intros n; [done|]. simpl. rewrite IH. by destruct e.
Qed.

Lemma answered_quiet a tr l : Forall quiet l → answered a (tr ++ l) = answered a tr.
Proof. intros Hl. unfold answered. by rewrite told_quiet. Qed.

Lemma told_intro a tr n b : answered a tr = n → gave_up a tr = b → told a tr = (n, b).
Proof. unfold answered, gave_up. destruct (told a tr). simpl. by intros -> ->. Qed.

Lemma told_elim a tr n b : told a tr = (n, b) → answered a tr = n ∧ gave_up a tr = b.
Proof. unfold answered, gave_up. by intros ->. Qed.

Lemma answered_once_quiet tr l : Forall quiet l → answered_once tr → answered_once (tr ++ l).
Proof.
  intros Hl Htr pre e post E. apply app_eq_inv in E as [(k & -> & E)|(k & -> & ->)].
  - destruct k as [|e' k]; simplify_eq/=; [|by eapply Htr].
    apply Forall_cons in Hl as [He _]. by destruct e.
  - apply Forall_app in Hl as [_ Hl]. apply Forall_cons in Hl as [He _]. by destruct e.
Qed.

Lemma answered_once_snoc tr e :
  answered_once tr →
  match e with
  | ReqReply a _ => answered a tr = 0
  | ReqFree a => answered a tr = 1 ∨ answered a tr = 0 ∧ gave_up a tr = true
  | _ => True
  end → answered_once (tr ++ [e]).
Proof.
  intros Htr He pre e' post E. destruct post as [|e2 post _] using rev_ind.
  - apply app_inj_tail in E as [<- <-]. done.
  - rewrite app_comm_cons, app_assoc in E. apply app_inj_tail in E as [-> ->]. by eapply Htr.
Qed.

(** The events of a single reply. *)
Record reply_events (a : addr) (l : list event) : Prop := {
  re_once : ∀ tr, answered_once tr → answered a tr = 0 → answered_once (tr ++ l) ∧ answered a (tr ++ l) = 1;
  re_other : ∀ tr b, b ≠ a → told b (tr ++ l) = told b tr;
  re_in : ∃ data, ReqReply a data ∈ l;
}.

Lemma reply_events_intro a l1 data l2 :
  Forall quiet l1 → Forall quiet l2 → reply_events a (l1 ++ ReqReply a data :: l2).
Proof.
  intros H1 H2. split.
  - intros tr Ht Ha. rewrite cons_middle, !app_assoc. rewrite answered_quiet by done.
    split; [apply answered_once_quiet; [done|]|].
    + apply answered_once_snoc; [by apply answered_once_quiet|]. by rewrite answered_quiet.
    + unfold answered. rewrite told_app, told_quiet by done. simpl. rewrite decide_True by done. simpl. by f_equal.
  - intros tr b Hb. rewrite cons_middle, !app_assoc, told_quiet, told_app, told_quiet by done.
    simpl. by rewrite decide_False.
  - exists data. set_solver.
Qed.

(** ** Lemmas: the invariant *)
Section invariant.
Context `{LogLevel, Malloc, Env, Digest, Website, HttpConfig, DiskConfig} (N K : nat).
Implicit Types (r : root) (lib : library).

Lemma request_ok_same lib lib' tr tr' a q :
  lib' !! a = lib !! a → told a tr' = told a tr →
  request_ok N K lib tr a q → request_ok N K lib' tr' a q.
Proof.
  intros El Et [[? Hc ? ?] Hs]. split; [split; by rewrite ?El|]. rewrite ?El.
  destruct Hs as [| |]; [apply reading|eapply waiting|apply done]; unfold answered, gave_up in *; rewrite ?Et; done.
Qed.

(** An action that is about the request at [a]. *)
Lemma leads_at ticks lib lib' r r' a new :
  http_ok N K lib r → pending_ok r' → routes r' = routes r → trace r' = trace r ++ new → answered_once (trace r') →
  (∀ b, b ≠ a → requests r' !! b = requests r !! b ∧ told b (trace r') = told b (trace r) ∧
     lib' !! b = lib !! b ∧ ticks b = 0%Z) →
  match requests r' !! a with
  | Some q' => request_ok N K lib' (trace r') a q'
  | None => lib' !! a = None ∧ told a (trace r') = (0, false)
  end →
  (∀ q, requests r !! a = Some q → in_sieve q = true → gave_up a (trace r) = false →
     (∃ data, ReqReply a data ∈ new) ∨ ReqAborted a ∈ new ∨ gave_up a (trace r') = false ∧
     ∃ q', requests r' !! a = Some q' ∧ in_sieve q' = true ∧ rq_route q' = rq_route q ∧
       rq_retries q' = (rq_retries q + ticks a)%Z) →
  leads N K ticks lib' r r'.
Proof.
  intros [Hp Hr Hl Hf Ho Hrt] Hp' Ert Et Ho' Hb Ha Hq. split; [split; try done|].
  - intros b qb Eb. destruct (decide (b = a)) as [->|Hne]; [by rewrite Eb in Ha|].
    destruct (Hb b Hne) as (Er & Ean & El & _). rewrite Er in Eb. eapply request_ok_same; [exact El|exact Ean|by apply Hr].
  - intros b Hs. destruct (decide (b = a)) as [->|Hne].
    + destruct (requests r' !! a); [done|]. destruct Ha as [Ha _]. rewrite Ha in Hs. by destruct Hs.
    + destruct (Hb b Hne) as (-> & _ & El & _). apply Hl. congruence.
  - intros b Eb. destruct (decide (b = a)) as [->|Hne]; [rewrite Eb in Ha; apply Ha|].
    destruct (Hb b Hne) as (Er & -> & _). apply Hf. congruence.
  - intros rid Hrid. rewrite Ert. by apply Hrt.
  - exists new. split; [done|]. intros b qb Eb Hs Hg. destruct (decide (b = a)) as [->|Hne]; [by apply Hq|].
    right; right. destruct (Hb b Hne) as (Er & Ean & _ & Etk). split; [unfold gave_up in *; by rewrite Ean|].
    exists qb. rewrite Er, Etk, Z.add_0_r. done.
Qed.

(** The request goes on without a reply. *)
Lemma leads_quiet ticks lib lib' r r' a q' new :
  http_ok N K lib r → touches r a q' new r' → Forall quiet new →
  (∀ b, b ≠ a → lib' !! b = lib !! b ∧ ticks b = 0%Z) →
  request_ok N K lib' (trace r) a q' →
  (∀ q, requests r !! a = Some q → in_sieve q = true →
     in_sieve q' = true ∧ rq_route q' = rq_route q ∧ rq_retries q' = (rq_retries q + ticks a)%Z) →
  leads N K ticks lib' r r'.
Proof.
  intros Hok [Hp' Er Et Ert] Hnew Hb Ha Hq.
  assert (Ean : ∀ b, told b (trace r') = told b (trace r)) by (intros b; rewrite Et; by apply told_quiet).
  apply (leads_at ticks lib lib' r r' a new); try done.
  - rewrite Et. apply answered_once_quiet; [done|apply Hok].
  - intros b Hne. destruct (Hb b Hne) as [? ?]. rewrite Er, lookup_insert_ne by done. done.
  - rewrite Er, lookup_insert_eq. by apply (request_ok_same lib' lib' (trace r)).
  - intros q Hq1 Hs Hg. right; right. split; [unfold gave_up in *; by rewrite Ean|].
    exists q'. rewrite Er, lookup_insert_eq. destruct (Hq q Hq1 Hs) as (? & ? & ?). done.
Qed.

(** The request is answered. *)
Lemma leads_reply ticks lib lib' r r' a q' new :
  http_ok N K lib r → answered a (trace r) = 0 → touches r a q' new r' → reply_events a new →
  (∀ b, b ≠ a → lib' !! b = lib !! b ∧ ticks b = 0%Z) →
  (answered a (trace r') = 1 → request_ok N K lib' (trace r') a q') →
  leads N K ticks lib' r r'.
Proof.
  intros Hok Han [Hp' Er Et Ert] [Hone Hoth Hin] Hb Ha.
  destruct (Hone (trace r)) as [Ho' Ha']; [apply Hok|done|]. rewrite <- Et in *.
  apply (leads_at ticks lib lib' r r' a new); try done.
  - intros b Hne. destruct (Hb b Hne) as [? ?]. rewrite Er, lookup_insert_ne by done. rewrite Et, Hoth by done. done.
  - rewrite Er, lookup_insert_eq. by apply Ha.
  - intros q1 _ _ _. by left.
Qed.

(** Nothing happened to any request. *)
Lemma leads_stays lib r r' :
  http_ok N K lib r → pending_ok r' → routes r' = routes r → trace r' = trace r → requests r' = requests r →
  leads N K (λ _, 0%Z) lib r r'.
Proof.
  intros [Hp Hr Hl Hf Ho Hrt] Hp' Ert Et Er. split; [split; rewrite ?Et, ?Er; try done|].
  - intros rid Hrid. rewrite Ert. by apply Hrt.
  - exists []. rewrite app_nil_r. split; [done|]. intros a q Ha Hs Hg. right; right. split; [by rewrite Et|].
    exists q. by rewrite Er, Z.add_0_r.
Qed.

(** The invariant only looks at some fields. *)
Lemma pending_ext r r' :
  request_sieve r' = request_sieve r → instance_id r' = instance_id r → requests r' = requests r →
  pending_ok r → pending_ok r'.
Proof. intros Es Ei Er [? ? ? ? ?]. split; rewrite ?Es, ?Ei, ?Er; done. Qed.
End invariant.

(** ** Lemmas: the operations *)

Lemma reply_events_quiet a l l' : Forall quiet l → reply_events a l' → reply_events a (l ++ l').
Proof.
  intros Hl [H1 H2 [data H3]]. split.
  - intros tr Ht Ha. rewrite app_assoc. apply H1; [by apply answered_once_quiet|by rewrite answered_quiet].
  - intros tr b Hb. by rewrite app_assoc, H2, told_quiet.
  - exists data. set_solver.
Qed.

Lemma static_reply_events a date resp : reply_events a (static_reply a date resp).
Proof.
  unfold static_reply. rewrite 2!app_comm_cons. apply (reply_events_intro a _ _ []); [|done].
  repeat constructor. apply Forall_fmap, Forall_forall. by intros [? ?] _.
Qed.

Lemma sent_events_quiet s l : Forall quiet (sent_events s l).
Proof. induction l as [|p l IH]; constructor; done. Qed.

Section steps.
Context `{LogLevel, Malloc, Env, Digest, Website, HttpConfig, DiskConfig} (N K : nat).
Hypothesis Hzmq : zmq_laws.
Hypothesis Hdate : ∀ req, is_Some (http_date req).
Hypothesis Hserves : ∀ rid rt, hroutes !! rid = Some rt → serves N K rt.
Hypothesis Hfits : (Z.of_nat (N * K) < 2 ^ 31 - 1)%Z.
Implicit Types (r : root) (lib : library).

Lemma touches_lookup r a q new r' : touches r a q new r' → requests r' !! a = Some q.
Proof. intros [_ -> _ _]. apply lookup_insert_eq. Qed.

Lemma touches_id r a q : pending_ok r → requests r !! a = Some q → touches r a q [] r.
Proof. intros Hp Ha. split; rewrite ?insert_id, ?app_nil_r; done. Qed.

Lemma touches_noted r a q new new' r' : touches r a q new r' → touches r a q (new ++ new') (noted r' new').
Proof. intros [Hp Er Et Ert]. split; simpl; rewrite ?Et, ?app_assoc; try done. by apply pending_noted. Qed.

(** The request changes further. *)
Lemma touches_set r a q q' new r' :
  touches r a q new r' → rq_uid q' = rq_uid q → in_sieve q' = in_sieve q → touches r a q' new (with_request_at r' a q').
Proof.
  intros Hto Eu Es. pose proof (touches_lookup _ _ _ _ _ Hto) as Ha. destruct Hto as [Hp Er Et Ert].
  split; try done; [|simpl; by rewrite Er, insert_insert_eq]. by apply (table_same r' _ a q q').
Qed.

Lemma touches_count r a q new r' st : touches r a q new r' → touches r a q new (r' <| stat := st |>).
Proof. intros [Hp Er Et Ert]. split; try done. by apply (pending_ext r'). Qed.

Lemma touches_request_finish r a q new r' :
  touches r a q new r' → wp (request_finish a) (λ _ r', touches r a (finished q) new r') r'.
Proof.
  intros Hto. pose proof (touches_lookup _ _ _ _ _ Hto) as Ha. destruct Hto as [Hp Er Et Ert].
  eapply wp_request_finish; [done..|]. intros s Hp'. split; [done| |done..]. simpl. by rewrite Er, insert_insert_eq.
Qed.

Lemma wp_seq {S A B C} (m : M S A) (n : M S B) (k : M S C) (Q : C → S → Prop) s :
  wp (m;; n) (λ _ s, wp k Q s) s → wp (m;; n;; k) Q s.
Proof. unfold wp, mbind, M_bind. destruct (m s) as [? s1| | |]; [|done..]. by destruct (n s1). Qed.

(** A static reply ends the wait. *)
Lemma touches_answer r a q new resp r' :
  touches r a q new r' → Forall quiet new → code_ok resp →
  wp (http_static_response a resp;; request_finish a)
     (λ _ r', ∃ new', reply_events a new' ∧ touches r a (finished q) new' r') r'.
Proof.
  intros Hto Hq Hc. destruct (Hdate a) as [date Hd]. apply wp_bind. eapply wp_http_static_response; [done..|].
  eapply wp_mono; [apply touches_request_finish, touches_noted, Hto|]. intros ? r2 Hto2. eexists.
  split; [|exact Hto2]. by apply reply_events_quiet; [|apply static_reply_events].
Qed.

(** A request that is about to be sent. *)
Record to_send rid rt (q : request) : Prop := {
  ts_sieve : in_sieve q = true;
  ts_message : Z.land (rq_flags q) REQ_HAS_MESSAGE = 0%Z;
  ts_route : rq_route q = Some rid;
  ts_config : hroutes !! rid = Some rt;
  ts_forward : hr_forward rt = true;
  ts_retries : (0 ≤ rq_retries q)%Z;
  ts_attempts : (0 < attempts rt q)%Z;
  ts_lent : (Z.of_nat (rq_lent q) ≤ rq_retries q * Z.of_nat K)%Z;
}.

Lemma touches_do_forward r a q rid rt new lib r' :
  touches r a q new r' → Forall quiet new → held N K lib a q → to_send rid rt q →
  wp (do_forward a) (λ ok r', if ok : bool
    then ∃ q' new', lends (S (length (hr_contents rt))) q q' ∧ Forall quiet new' ∧ touches r a q' new' r'
    else ∃ new', reply_events a new' ∧ touches r a (finished q) new' r') r'.
Proof.
  intros Hto Hnew [Hh Hc Hlive Hl] [Es _ Er Et Ef H0' Hat Hle].
  pose proof (touches_lookup _ _ _ _ _ Hto) as Ha. pose proof (Hserves _ _ Et) as [_ _ Hco Hcn Hct].
  destruct (Hcn Ef) as (Hne & Hsend & Hlen). unfold attempts in Hat.
  assert (Hretr : (rq_retries q + 1 ≤ Z.of_nat N)%Z) by lia.
  assert (Hmul : ((rq_retries q + 1) * Z.of_nat K ≤ Z.of_nat (N * K))%Z) by nia.
  eapply (wp_do_forward Hzmq Hdate a q rid rt); try done.
  - apply Hto.
  - rewrite Hc. case_decide; lia.
  - intros q' Hle'. exists q', (new ++ FeedEvent (Http rid) :: sent_events (Http rid) (forward_parts rt q)).
    split; [done|]. split.
    { apply Forall_app. split; [done|]. constructor; [done|apply sent_events_quiet]. }
    apply touches_noted. pose proof (lends_fields _ _ _ Hle') as (_ & _ & Eu & _).
    apply (touches_set r a q); [done..|by eapply lends_in_sieve].
  - intros s res date _ _ Hd Hp'. eexists. split; [|apply touches_noted].
    + apply reply_events_quiet; [exact Hnew|]. 
      change (FeedEvent (Http rid) :: ?e :: ?l) with ([FeedEvent (Http rid); e] ++ l).
      apply reply_events_quiet; [by repeat constructor|apply static_reply_events].
    + destruct Hto as [Hp Er' Et' Ert]. split; [done| |done..]. simpl. by rewrite Er', insert_insert_eq.
Qed.

Lemma touches_set_request f a r q new r' (Q : unit → root → Prop) :
  touches r a q new r' → rq_uid (f q) = rq_uid q → in_sieve (f q) = in_sieve q →
  (∀ r2, touches r a (f q) new r2 → request_sieve r2 = request_sieve r' → instance_id r2 = instance_id r' → Q tt r2) →
  wp (set_request a f) Q r'.
Proof.
  intros Hto Eu Es HQ. eapply wp_set_request; [by eapply touches_lookup|].
  apply (HQ (with_request_at r' a (f q))); [by eapply touches_set|done..].
Qed.

Lemma pending_delete r r' a q :
  pending_ok r → requests r !! a = Some q → in_sieve q = false → requests r' = delete a (requests r) →
  request_sieve r' = request_sieve r → instance_id r' = instance_id r → pending_ok r'.
Proof.
  intros [Hwf Hiid Hh Hr Hl] Ha Hs Er Es Ei. split; rewrite ?Er, ?Es, ?Ei; try done.
  - intros i b Hb. destruct (Hh i b Hb) as (qb & ix & tl & Hqb & Hsb & ?). exists qb, ix, tl.
    rewrite lookup_delete_ne; [done|]. intros <-. congruence.
  - intros b qb [_ Hb]%lookup_delete_Some. by apply Hr.
  - intros b qb [_ Hb]%lookup_delete_Some. by eapply Hl.
Qed.

(** *** Counting *)

Lemma held_lib lib lib' a q :
  (is_Some (lib' !! a) ↔ is_Some (lib !! a)) → held N K lib a q → held N K lib' a q.
Proof.
  intros Hs [? Hc ? ?]. split; try done. rewrite Hc. f_equal. by rewrite (decide_ext _ _ _ _ Hs).
Qed.

Lemma finished_ok lib tr a q :
  held N K lib a q → lib !! a ≠ Some Reading → answered a tr = 1 → request_ok N K lib tr a (finished q).
Proof. intros [? ? ? ?] Hl Ha. split; [by split|]. apply done; [done|apply in_sieve_finished|done|done]. Qed.

(** A request that was sent waits, with its timer if the route has one. *)
Definition timed rt (q : request) : request :=
  q <| rq_timeout_active := bool_decide (hr_timeout rt ≠ 0)%Z || rq_timeout_active q |>.

Lemma sent_ok lib lib' tr a rid rt q q' :
  held N K lib a q → to_send rid rt q → lends (S (length (hr_contents rt))) q q' →
  (is_Some (lib' !! a) ↔ is_Some (lib !! a)) → lib' !! a = (if gave_up a tr then None else Some Handled) →
  answered a tr = 0 → request_ok N K lib' tr a (timed rt q').
Proof.
  intros Hheld [Es Em Er Et Ef H0' Hat Hle] Hlends Hlib Hlib' Ha.
  apply (held_lib lib lib') in Hheld as [Hh Hc Hlive Hl]; [|done].
  destruct (se_contents _ _ _ (Hserves _ _ Et) Ef) as (_ & _ & Hlen).
  pose proof (se_count _ _ _ (Hserves _ _ Et)) as Hct.
  pose proof (lends_fields _ _ _ Hlends) as (Ec' & El' & Eu' & Ef' & Ert' & Err' & Eh' & Etm').
  unfold attempts in Hat. assert (Hretr : (rq_retries q + 1 ≤ Z.of_nat N)%Z) by lia.
  split.
  - split; simpl; [congruence| |lia|nia]. rewrite Ec', El', Hc. lia.
  - rewrite Hlib'. eapply waiting; simpl; [done| |done|by rewrite Ef'|by rewrite Err'|done..|by rewrite Ert'| | |].
    + change (in_sieve q' = true). by rewrite (lends_in_sieve _ _ _ Hlends).
    + unfold attempts. simpl. by rewrite Ert'.
    + rewrite Ert', El'. nia.
    + intros Htm. by rewrite bool_decide_eq_true_2.
Qed.

(** What the last actions say of a request. *)
Definition last_words (a : addr) (l : list event) : Prop := l = [] ∨ l = [ReqAborted a].

Lemma last_words_once a tr l : last_words a l → answered_once tr → answered_once (tr ++ l).
Proof. intros [-> | ->] Htr; [by rewrite app_nil_r|by apply answered_once_snoc]. Qed.

Lemma last_words_other a b tr l : last_words a l → b ≠ a → told b (tr ++ l) = told b tr.
Proof. intros [-> | ->] Hne; rewrite told_app; simpl; [done|]. by rewrite decide_False. Qed.

(** A request that the library does not refer to may go. *)
Lemma stage_released tr a q : stage K tr a q None →
  (in_sieve q = true → gave_up a tr = true) ∧ (answered a tr = 1 ∨ answered a tr = 0 ∧ gave_up a tr = true).
Proof.
  inversion 1 as [|rid rt p Hp Hs Ha|p Hp Hs Ha]; subst.
  - destruct (gave_up a tr); [by auto|done].
  - split; [by rewrite Hs|by left].
Qed.

(** A reference is dropped; with the last one the request goes. *)
Lemma leads_decref lib lib' r r1 a q q1 said :
  http_ok N K lib r → requests r !! a = Some q → touches r a q1 said r1 → last_words a said →
  in_sieve q1 = in_sieve q → rq_route q1 = rq_route q → rq_retries q1 = rq_retries q →
  rq_hybi q1 = None → rq_lent q1 ≤ N * K →
  rq_refcnt q1 = (1 + (if decide (is_Some (lib' !! a)) then 1 else 0) + Z.of_nat (rq_lent q1))%Z →
  stage K (trace r1) a q1 (lib' !! a) → (∀ b, b ≠ a → lib' !! b = lib !! b) →
  wp (REQ_DECREF a) (λ _ r', leads N K (λ _, 0%Z) lib' r r') r1.
Proof.
  intros Hok Ha Hto Hsaid Es Er Et Hh Hl Hc Hst Hlib. unfold REQ_DECREF.
  pose proof (touches_lookup _ _ _ _ _ Hto) as Ha1. apply wp_bind. eapply wp_set_request; [done|]. cbn beta.
  set (q2 := q1 <| rq_refcnt ::= _ |>).
  assert (Hto2 : touches r a q2 said (with_request_at r1 a q2)) by by eapply touches_set.
  change (r1 <| requests := <[a := q2]> (requests r1) |>) with (with_request_at r1 a q2).
  apply wp_bind. eapply wp_get_request; [by eapply touches_lookup|].
  assert (Ec2 : rq_refcnt q2 = ((if decide (is_Some (lib' !! a)) then 1 else 0) + Z.of_nat (rq_lent q2))%Z).
  { unfold q2. simpl. rewrite i32_small; rewrite Hc; case_decide; lia. }
  pose proof (last_words_once a _ _ Hsaid (ho_once _ _ _ _ Hok)) as Honce.
  assert (Hsq : ∀ q', requests r !! a = Some q' → in_sieve q' = true → q' = q ∧ in_sieve q1 = true).
  { intros q' Hq' Hs'. assert (q' = q) as -> by congruence. by rewrite Es. }
  destruct (Z.eqb_spec (rq_refcnt q2) 0) as [E0|E0]; unfold whenb.
  - rewrite E0 in Ec2. case_decide as Hd; [lia|]. assert (Hn : lib' !! a = None) by by apply eq_None_not_Some.
    rewrite Hn, (to_trace _ _ _ _ _ Hto) in Hst. apply stage_released in Hst as [Hgone Hrel].
    unfold request_free. apply wp_bind. eapply wp_mono; [by apply touches_request_finish|]. intros [] r2 Hto3.
    apply wp_bind. eapply wp_get_request; [by eapply touches_lookup|]. apply wp_bind.
    assert (Hgo : ∀ r3, touches r a (finished q2) said r3 →
      wp (emit (ReqFree a);; modify (λ r, r <| requests ::= delete a |>)) (λ _ r', leads N K (λ _, 0%Z) lib' r r') r3).
    { intros r3 [Hp3 Er3 Et3 Ert3]. root_steps.
      assert (Hp' : pending_ok (r3 <| trace := trace r3 ++ [ReqFree a] |> <| requests ::= delete a |>)).
      { apply (pending_delete r3 _ a (finished q2)); try done; [|apply in_sieve_finished].
        by rewrite Er3, lookup_insert_eq. }
      eapply (leads_at N K _ lib lib' r _ a (said ++ [ReqFree a])); [done|exact Hp'|done|simpl; by rewrite Et3, app_assoc|..].
      - simpl. rewrite Et3. by apply answered_once_snoc.
      - intros b Hne. simpl. rewrite Er3, Et3, lookup_delete_ne, lookup_insert_ne by done.
        split_and!; [done| |by apply Hlib|done]. rewrite told_app. simpl. rewrite decide_False by done.
        by apply last_words_other with a.
      - simpl. rewrite lookup_delete_eq, Et3, told_app. simpl. by rewrite decide_True.
      - intros q' Hq' Hs' Hg. destruct (Hsq q' Hq' Hs') as [-> Hs1].
        destruct Hsaid as [-> | ->]; [|right; left; by constructor].
        rewrite app_nil_r in Hgone. by rewrite (Hgone Hs1) in Hg. }
    destruct (negb _); unfold whenb; [apply wp_count|apply wp_ret]; apply Hgo; [by apply touches_count|done].
  - apply wp_ret. destruct Hto2 as [Hp2 Er2 Et2 Ert2].
    eapply (leads_at N K _ lib lib' r _ a said); [done|exact Hp2|done|exact Et2|by rewrite Et2|..].
    + intros b Hne. rewrite Er2, lookup_insert_ne by done. split_and!; [done| |by apply Hlib|done].
      rewrite Et2. by apply last_words_other with a.
    + rewrite Er2, lookup_insert_eq. rewrite (to_trace _ _ _ _ _ Hto), <- Et2 in Hst. split.
      * split; [done|exact Ec2| |done]. rewrite Ec2 in *. case_decide; lia.
      * destruct Hst; [eapply reading|eapply waiting|eapply done]; done.
    + intros q' Hq' Hs' Hg. destruct (Hsq q' Hq' Hs') as [-> Hs1].
      destruct Hsaid as [-> | ->]; [|right; left; by constructor]. right; right. rewrite Et2, app_nil_r. split; [done|].
      exists q2. rewrite Er2, lookup_insert_eq, Z.add_0_r. done.
Qed.
End steps.

(** ** Specification: the reply of a backend *)

Definition header_event (a : addr) (h : bytes * bytes) : event := ReqHeader a h.1 h.2.

(** The common headers, the headers of the route and the body. *)
Definition finish_events (rt : route) (a : addr) (date body : bytes) : list event :=
  ReqHeader a (str "Date") date :: (header_event a <$> rt_headers rt) ++ [ReqEndHeaders a; ReqReply a body].

Definition block_events (a : addr) (data : bytes) : list event :=
  header_event a <$> (parse_block (length data) data).1.

(** [hrt] is the route of the request and [rt] the one that the message came
    from. *)
Definition backend_reply (hrt : hroute) (rt : route) (a : addr) (date : bytes) (parts : list bytes) : list event :=
  match parts with
  | [] => []
  | [body] => ReqStatus a (str "200 OK") :: finish_events rt a date body
  | [line; body] => ReqStatus a line :: finish_events rt a date body
  | [line; headers; body] => ReqStatus a line :: block_events a headers ++ finish_events rt a date body
  | line :: headers :: _ =>
      ReqStatus a line :: block_events a headers ++ ReqReset a :: static_reply a date (hr_internal_error hrt)
  end.

(** The request keeps the body. *)
Definition replied (parts : list bytes) (q : request) : request :=
  match parts with
  | [body] | [_; body] | [_; _; body] =>
      finished (q <| rq_flags := Z.lor (Z.lor (rq_flags q) REQ_HAS_MESSAGE) REQ_REPLIED |> <| rq_response := Some body |>)
  | _ => finished q
  end.

(** The parts after the sentinel. *)
Definition after_sentinel (hrt : hroute) (rest : list bytes) : option (list bytes) :=
  match has_sentinel hrt, rest with
  | true, [] :: ((_ :: _) as parts) => Some parts
  | false, (_ :: _) as parts => Some parts
  | _, _ => None
  end.

Section replies.
Context `{LogLevel, Malloc, Env, Digest, Website, HttpConfig, DiskConfig}.
Implicit Types (r : root).

Lemma wp_end_headers a rid rt date r (Q : unit → root → Prop) :
  routes r !! rid = Some rt → http_date a = Some date →
  Q tt (noted r (ReqHeader a (str "Date") date :: (header_event a <$> rt_headers rt) ++ [ReqEndHeaders a])) →
  wp (end_headers a rid) Q r.
Proof.
  intros Hrt Hd HQ. unfold end_headers, http_common_headers. rewrite Hd. unfold ws_add_header. root_steps.
  unfold wp. rewrite (run_mfor_emit _ (header_event a)). unfold emit, modify.
  unfold noted in *. simpl in *. by rewrite <- !app_assoc.
Qed.

Lemma wp_reply_body a q new body r r' (Q : unit → root → Prop) :
  touches r a q new r' → Z.land (rq_flags q) REQ_HAS_MESSAGE = 0%Z →
  (∀ r2, touches r a (replied [body] q) (new ++ [ReqReply a body]) r2 → Q tt r2) → wp (reply_body a body) Q r'.
Proof.
  intros Hto Hf HQ. unfold reply_body. apply wp_bind. eapply wp_get_request; [by eapply touches_lookup|].
  apply wp_bind, wp_ANIMPL; [by rewrite Hf|]. apply wp_bind.
  eapply (touches_set_request _ a r q new); [done..|by apply in_sieve_lor|]. cbn beta. intros r2 Hto2 _ _.
  apply wp_bind. unfold ws_reply_data. apply wp_emit.
  change (r2 <| trace := trace r2 ++ [ReqReply a body] |>) with (noted r2 [ReqReply a body]).
  apply wp_bind. eapply (touches_set_request _ a r); [by apply touches_noted|done|by apply in_sieve_lor|]. cbn beta.
  intros r3 Hto3 _ _. eapply wp_mono; [by apply touches_request_finish|]. intros [] r4 Hto4. by apply HQ.
Qed.

Lemma wp_finish_message rid rt date a q new body r r' (Q : unit → root → Prop) :
  touches r a q new r' → Z.land (rq_flags q) REQ_HAS_MESSAGE = 0%Z → routes r' !! rid = Some rt →
  http_date a = Some date →
  (∀ r2, touches r a (replied [body] q) (new ++ finish_events rt a date body) r2 → Q tt r2) →
  wp (finish_message rid a body) Q r'.
Proof.
  intros Hto Hf Hrt Hd HQ. unfold finish_message. apply wp_bind. eapply wp_end_headers; [done..|].
  eapply wp_reply_body; [by apply touches_noted|done|]. intros r2 Hto2. apply HQ. unfold finish_events.
  by rewrite <- app_assoc, <- app_comm_cons, <- app_assoc in Hto2.
Qed.

Lemma wp_reply_parts rid rt hrid hrt date a q new parts r r' (Q : unit → root → Prop) :
  touches r a q new r' → Z.land (rq_flags q) REQ_HAS_MESSAGE = 0%Z → routes r' !! rid = Some rt →
  rq_route q = Some hrid → hroutes !! hrid = Some hrt → code_ok (hr_internal_error hrt) →
  http_date a = Some date → parts ≠ [] →
  (∀ r2, touches r a (replied parts q) (new ++ backend_reply hrt rt a date parts) r2 → Q tt r2) →
  wp (reply_parts rid a parts) Q r'.
Proof.
  intros Hto Hf Hrt Hq Hh Hc Hd Hp HQ. unfold reply_parts. apply wp_bind, wp_count.
  assert (Hto0 := touches_count _ _ _ _ _ ((stat r') <| st_zmq_replies ::= plus 1 |>) Hto).
  assert (Hline : ∀ l r2 (k : MR unit), touches r a q (new ++ l) r2 → routes r2 !! rid = Some rt → ∀ e,
    (∀ r3, touches r a q (new ++ l ++ [e]) r3 → routes r3 !! rid = Some rt → wp k Q r3) → wp (emit e;; k) Q r2).
  { intros l r2 k Hto2 Hrt2 e Hk. apply wp_bind, wp_emit. apply (Hk (noted r2 [e])); [|done].
    rewrite app_assoc. by apply touches_noted. }
  assert (Hfin : ∀ l body r2, touches r a q (new ++ l) r2 → routes r2 !! rid = Some rt →
    (∀ r3, touches r a (replied [body] q) (new ++ l ++ finish_events rt a date body) r3 → Q tt r3) →
    wp (finish_message rid a body) Q r2).
  { intros l body r2 Hto2 Hrt2 Hk. eapply wp_finish_message; [done..|]. by rewrite <- app_assoc. }
  assert (Hblock : ∀ l h r2 (k : MR unit), touches r a q (new ++ l) r2 → routes r2 !! rid = Some rt →
    (∀ r3, touches r a q (new ++ l ++ block_events a h) r3 → routes r3 !! rid = Some rt → wp k Q r3) →
    wp (add_headers a h;; k) Q r2).
  { intros l h r2 k Hto2 Hrt2 Hk. apply wp_bind, wp_add_headers. apply Hk; [|done].
    rewrite app_assoc. by apply touches_noted. }
  rewrite <- (app_nil_r new) in Hto0.
  destruct parts as [|p1 [|p2 [|p3 [|p4 rest]]]]; [done|..].
  - eapply (Hline []); [done..|]. intros r2 Hto2 Hrt2. by eapply Hfin.
  - eapply (Hline []); [done..|]. intros r2 Hto2 Hrt2. by eapply Hfin.
  - eapply (Hline []); [done..|]. intros r2 Hto2 Hrt2. eapply Hblock; [done..|]. intros r3 Hto3 Hrt3.
    eapply Hfin; [done..|]. intros r4 Hto4. apply HQ. by rewrite <- !app_assoc in Hto4.
  - eapply (Hline []); [done..|]. intros r2 Hto2 Hrt2. eapply Hblock; [done..|]. intros r3 Hto3 Hrt3.
    eapply Hline; [done..|]. intros r4 Hto4 Hrt4. apply wp_bind. unfold REQRCONFIG. apply wp_bind.
    eapply wp_get_request; [by eapply touches_lookup|]. rewrite Hq. unfold get_hroute. cbn [default]. simpl. rewrite Hh.
    apply wp_ret. apply wp_bind. eapply wp_http_static_response; [done..|].
    eapply wp_mono; [apply touches_request_finish, touches_noted, Hto4|]. intros [] r5 Hto5. apply HQ.
    unfold backend_reply. by rewrite <- !app_assoc in Hto5.
Qed.

Lemma finish_events_reply rt a date body : reply_events a (finish_events rt a date body).
Proof.
  unfold finish_events. rewrite app_comm_cons.
  change [ReqEndHeaders a; ReqReply a body] with ([ReqEndHeaders a] ++ [ReqReply a body]). rewrite app_assoc.
  apply reply_events_intro; [|constructor]. apply Forall_app. split; [|by repeat constructor].
  constructor; [done|]. apply Forall_fmap, Forall_forall. done.
Qed.

Lemma backend_reply_events hrt rt a date parts : parts ≠ [] → reply_events a (backend_reply hrt rt a date parts).
Proof.
  intros Hp. assert (Hcons : ∀ e l, quiet e → reply_events a l → reply_events a (e :: l)).
  { intros e l He. apply (reply_events_quiet a [e]). by repeat constructor. }
  assert (Hblock : ∀ h l, reply_events a l → reply_events a (block_events a h ++ l)).
  { intros h l. apply reply_events_quiet. apply Forall_fmap, Forall_forall. done. }
  pose proof (finish_events_reply rt a date).
  destruct parts as [|p1 [|p2 [|p3 [|p4 rest]]]]; [done|apply Hcons; [done|]..]; [done|done|by apply Hblock|].
  apply Hblock, Hcons; [done|]. apply static_reply_events.
Qed.
End replies.
