(* ===== verification/Gateway.v ===== *)
(** * The gateway for requests (http.c)

    Everything that can happen to the requests of a gateway that forwards them to
    backends, in any order. *)

From S2P Require Import Prelude Sieve Pool MsgQueue Uidgen State Topics Backend Outputs Hybi.
From S2P Require Import CometArgs Request Comet Session Polling Sockets Routing Headers Files Disk Http Pending Exchange Lifetime.

(** ** Assumptions and start *)

(** What is assumed of zeromq, of the http library and of the configuration. *)
Record gateway_ok `{LogLevel, Malloc, Env, Digest, Website, HttpConfig, DiskConfig}
    (rank : route_id → nat) (N K : nat) : Prop := {
  ga_zmq : zmq_laws;
  ga_date : ∀ req, is_Some (http_date req);
  ga_serves : ∀ rid rt, hroutes !! rid = Some rt → serves N K rt;
  ga_fits : (Z.of_nat (N * K) < 2 ^ 31 - 1)%Z;
  ga_laws : website_laws;
  ga_config : config_ok rank;
}.

(** A gateway that has not seen a request. *)
Record idle `{HttpConfig} (r : root) : Prop := {
  id_wf : sieve_wf (request_sieve r);
  id_holes : ∀ i, holes (request_sieve r) !! i = None;
  id_iid : length (instance_id r) = IID_LEN;
  id_requests : requests r = ∅;
  id_trace : trace r = [];
  id_routes : ∀ rid, is_Some (hroutes !! rid) → is_Some (routes r !! rid);
}.

Lemma idle_ok `{HttpConfig} N K r : idle r → http_ok N K ∅ r.
Proof.
  intros [Hwf Hh Hi Er Et Hrt]. split; rewrite ?Er, ?Et; try done.
  - split; rewrite ?Er; try done. intros i a Ha. by rewrite Hh in Ha.
  - intros a []. by rewrite lookup_empty in *.
  - intros pre e post E. by destruct pre.
Qed.

(** ** Lemmas: the actions *)
Section actions.
Context `{LogLevel, Malloc, Env, Digest, Website, HttpConfig, DiskConfig} (N K : nat).
Hypothesis Hzmq : zmq_laws.
Hypothesis Hdate : ∀ req, is_Some (http_date req).
Hypothesis Hserves : ∀ rid rt, hroutes !! rid = Some rt → serves N K rt.
Hypothesis Hfits : (Z.of_nat (N * K) < 2 ^ 31 - 1)%Z.
Hypothesis Hlaws : website_laws.
Context (rank : route_id → nat) (Hcfg : config_ok rank).
Implicit Types (r : root) (lib : library).

(** The answer of a resolution: [resolved] in terms of one request. *)
Lemma wp_resolve ready a q r :
  requests r !! a = Some q → (ready = true → rq_route q = None) →
  wp (do_resolve_url a ready) (λ o r', ∃ q' new, cached q q' ∧ r' = noted (with_request_at r a q') new ∧
    match o with
    | Some rid => new = [] ∧ is_Some (hroutes !! rid) ∧ sieve_full (request_sieve r) = false
    | None => if ready then reply_events a new else new = []
    end) r.
Proof.
  intros Ha Hr. destruct (sieve_full (request_sieve r)) eqn:Hfull.
  - destruct ready.
    2:{ unfold do_resolve_url. root_steps. rewrite Hfull. apply wp_bind, wp_ret, wp_ret. exists q, []. split_and!; [by left| |done].
        by rewrite with_request_id, noted_nil. }
    specialize (Hr eq_refl). destruct (co_root _ Hcfg) as [rt Ert]. eapply wp_mono.
    { eapply (wp_do_resolve_url_full Hdate); [done..| |].
      - rewrite Hr. exact Ert.
      - pose proof (se_codes _ _ _ (Hserves _ _ Ert)) as Hc. unfold responses in Hc. rewrite !Forall_cons in Hc. apply Hc. }
    intros o r' (-> & q' & date & Hc & Hd & ->). exists q'. eexists. split_and!; [done..|].
    apply static_reply_events.
  - eapply wp_mono; [by apply (wp_do_resolve_url Hlaws Hdate rank Hcfg a ready q)|].
    intros o r' (last & rt & Hres & Elast & _ & q' & date & Hc & Hd & ->). exists q'. eexists. split_and!; [done..|].
    destruct o as [rid|].
    + split_and!; [done| |done]. clear -Hres Elast.
      assert (rid = last) as ->; [|by eexists]. remember (Some rid) as o eqn:Eo. induction Hres; simplify_eq; eauto.
    + destruct ready; [apply static_reply_events|done].
Qed.

(** A request that nobody knew. *)
Lemma pending_new r r' a q :
  pending_ok r → requests r !! a = None → in_sieve q = false → length (rq_uid q) = UID_LEN →
  requests r' = <[a := q]> (requests r) → request_sieve r' = request_sieve r → instance_id r' = instance_id r →
  pending_ok r'.
Proof.
  intros [Hwf Hiid Hh Hr Hl] Ha Hs Hu Er Es Ei. split; rewrite ?Er, ?Es, ?Ei; try done.
  - intros i b Hb. destruct (Hh i b Hb) as (qb & ix & tl & Hqb & ?). exists qb, ix, tl.
    rewrite lookup_insert_ne; [done|]. intros <-. congruence.
  - intros b qb. rewrite lookup_insert_Some. intros [[<- <-]|[_ Hb]] Hsb; [congruence|]. by eapply Hr.
  - intros b qb. rewrite lookup_insert_Some. intros [[<- <-]|[_ Hb]]; [done|]. by eapply Hl.
Qed.

(** What [request_init] makes of a request. *)
Definition initial (q : request) : request :=
  q <| rq_refcnt := 1%Z |> <| rq_flags := 0%Z |> <| rq_route := None |> <| rq_timeout_active := false |>
    <| rq_retries := 0%Z |> <| rq_uid ::= λ u, <[0 := NUL]> u |> <| rq_hybi := None |> <| rq_ip := None |>.

Lemma wp_arrives lib a q r :
  http_ok N K lib r → enabled (Arrives a q) lib r →
  wp (perform (Arrives a q) lib) (λ lib' r', leads N K (λ _, 0%Z) lib' r r') r.
Proof.
  intros Hok (Ha & Hu & Hlent). cbn [perform]. root_steps. set (r1 := _ <| requests ::= _ |>).
  assert (Hn : lib !! a = None).
  { apply eq_None_not_Some. intros Hs%(ho_lib _ _ _ _ Hok). rewrite Ha in Hs. by destruct Hs. }
  unfold http_headers, http_dissect_path. apply wp_bind.
  eapply wp_set_request; [apply lookup_insert_eq|]. cbn beta. set (q1 := q <| rq_path := _ |>).
  change (r1 <| requests := _ |>) with (with_request_at r1 a q1).
  apply wp_bind. eapply wp_mono; [apply (wp_resolve false a q1); [apply lookup_insert_eq|done]|].
  intros o r2 (q2 & new & Hc & -> & Ho).
  assert (new = []) as -> by (destruct o; apply Ho). rewrite noted_nil.
  assert (E2 : with_request_at (with_request_at r1 a q1) a q2 = with_request_at r a q2)
    by (unfold r1, with_request_at; simpl; by rewrite !insert_insert_eq).
  rewrite E2.
  assert (Hbig : ∀ big : bool, wp (if big then mret false else request_init a;; mret true)
    (λ ok, wp (if ok : bool then mret (<[a:=Reading]> lib) else forget a;; mret lib)
      (λ lib' r', leads N K (λ _, 0%Z) lib' r r')) (with_request_at r a q2)).
  { intros [].
    - apply wp_ret. unfold forget. root_steps. apply leads_stays; try done.
      + apply (pending_ext r); [done..| |apply Hok]. simpl. by apply delete_insert_id.
      + simpl. by apply delete_insert_id.
    - root_steps. unfold request_init. eapply wp_set_request; [apply lookup_insert_eq|]. cbn beta. root_steps.
      fold (initial q2). change (_ <| requests := _ |>) with (with_request_at (with_request_at r a q2) a (initial q2)).
      rewrite with_request_twice. eapply (leads_quiet N K _ lib _ r _ a (initial q2) []); [done| |constructor|..].
      + split; try done; [|simpl; by rewrite app_nil_r]. apply (pending_new r _ a (initial q2)); try done; [apply Hok|].
        simpl. rewrite length_insert. destruct Hc as [-> |[_ ->]]; done.
      + intros b Hb. by rewrite lookup_insert_ne.
      + split; [split; try done|].
        * simpl. rewrite lookup_insert_eq, decide_True by done. destruct Hc as [-> |[_ ->]]; simpl; by rewrite Hlent.
        * simpl. destruct Hc as [-> |[_ ->]]; simpl; rewrite Hlent; lia.
        * rewrite lookup_insert_eq. apply reading; try done; [by apply Hok|].
          destruct Hc as [-> |[_ ->]]; done.
      + intros q' Hq'. congruence. }
  apply wp_bind. eapply wp_get_request; [apply lookup_insert_eq|]. apply wp_bind. destruct o as [rid|].
  - destruct Ho as (_ & [rt Ert] & _). unfold get_hroute. root_steps. apply Hbig.
  - apply wp_ret, (Hbig false).
Qed.

(** A request that is being read. *)
Lemma reading_ok lib a r :
  http_ok N K lib r → lib !! a = Some Reading →
  ∃ q, requests r !! a = Some q ∧ held N K lib a q ∧ in_sieve q = false ∧ told a (trace r) = (0, false) ∧
    rq_timeout_active q = false ∧ rq_flags q = 0%Z ∧ rq_retries q = 0%Z ∧ rq_route q = None ∧ rq_lent q = 0.
Proof.
  intros Hok Hl. destruct (ho_lib _ _ _ _ Hok a) as [q Ha]; [by eexists|]. exists q.
  destruct (ho_requests _ _ _ _ Hok a q Ha) as [Hh Hs]. rewrite Hl in Hs.
  inversion Hs as [|rid rt p Hp|]; [done|by destruct (gave_up a (trace r))|done].
Qed.

Lemma wp_drops lib a r :
  http_ok N K lib r → enabled (Drops a) lib r →
  wp (perform (Drops a) lib) (λ lib' r', leads N K (λ _, 0%Z) lib' r r') r.
Proof.
  intros Hok Hl. destruct (reading_ok lib a r Hok Hl) as (q & Ha & _ & Hs & Han & _).
  cbn [perform]. unfold forget. root_steps.
  apply (leads_at N K _ lib _ r _ a []); [done| |done|simpl; by rewrite app_nil_r|by apply Hok|..].
  - apply (pending_delete r _ a q); try done. apply Hok.
  - intros b Hb. simpl. by rewrite !lookup_delete_ne.
  - simpl. by rewrite !lookup_delete_eq.
  - intros q' Hq'. congruence.
Qed.

(** A request was sent, with the timer running if the route has one, or it was
    answered. *)
Definition forwarded lib r (a : addr) rid rt (n : Z) r2 : Prop :=
  (∃ q1 q2 new, to_send K rid rt q1 ∧ held N K lib a q1 ∧ rq_retries q1 = n ∧
     lends (S (length (hr_contents rt))) q1 q2 ∧ Forall quiet new ∧ touches r a (timed rt q2) new r2) ∨
  (∃ q1 new, held N K lib a q1 ∧ reply_events a new ∧ touches r a (finished q1) new r2).

Lemma leads_forwarded ticks lib lib' r a rid rt n r2 :
  http_ok N K lib r → answered a (trace r) = 0 → forwarded lib r a rid rt n r2 →
  (is_Some (lib' !! a) ↔ is_Some (lib !! a)) → lib' !! a = (if gave_up a (trace r) then None else Some Handled) →
  (∀ b, b ≠ a → lib' !! b = lib !! b ∧ ticks b = 0%Z) →
  (∀ q, requests r !! a = Some q → in_sieve q = true → rq_route q = Some rid ∧ n = (rq_retries q + ticks a)%Z) →
  leads N K ticks lib' r r2.
Proof.
  intros Hok Ha [(q1 & q2 & new & Hs & Hh & Hn & Hl & Hq & Hto)|(q1 & new & Hh & Hre & Hto)] Hlib Hlib' Hb Hold.
  - eapply leads_quiet; [done..| |].
    + by eapply (sent_ok N K Hserves).
    + pose proof (lends_fields _ _ _ Hl) as (_ & _ & _ & _ & Ert' & Err' & _ & _).
      intros q Hqa Hsq. destruct (Hold q Hqa Hsq) as [Er En]. split_and!.
      * change (in_sieve q2 = true). rewrite (lends_in_sieve _ _ _ Hl). apply Hs.
      * simpl. rewrite Err', Er. apply Hs.
      * simpl. by rewrite Ert', <- En.
  - eapply leads_reply; [done..|]. intros Han. apply finished_ok; [|by rewrite Hlib'; destruct (gave_up _ _)|done].
    by apply (held_lib N K lib).
Qed.

(** The request goes to the backend for the first time. *)
Lemma wp_forward_request lib a q new rid rt urandom r r' :
  touches r a q new r' → Forall quiet new → held N K lib a q → in_sieve q = false → rq_flags q = 0%Z →
  rq_retries q = 0%Z → rq_lent q = 0 → rq_route q = Some rid → hroutes !! rid = Some rt → hr_forward rt = true →
  sieve_full (request_sieve r') = false →
  wp (forward_request a rt urandom) (λ ok r2, ok = true ∧ forwarded lib r a rid rt 0 r2) r'.
Proof.
  intros Hto Hnew Hheld Hs Hf Hre Hle Hrt Ert Hfw Hfull. unfold forward_request.
  pose proof (touches_lookup _ _ _ _ _ Hto) as Ha. pose proof Hto as [Hp Er Et Ero].
  root_steps. eapply (wp_enter r' a q); try done; [by rewrite with_request_id|by eapply (pe_len _ Hp)|].
  intros s i ix tail uid Htail Hpend. cbn beta iota. apply wp_bind. eapply wp_set_request; [done|]. cbn beta.
  apply wp_bind. eapply wp_set_request; [apply lookup_insert_eq|]. cbn beta.
  set (q1 := q <| rq_uid := uid |> <| rq_flags ::= _ |>). apply wp_bind, wp_count.
  match goal with |- wp _ _ ?g => assert (Hto1 : touches r a q1 new g) end.
  { split; [|simpl; rewrite !insert_insert_eq, Er; apply insert_insert_eq|done..].
    apply (pending_ext (moved r' a s q1)); [done..|simpl; by rewrite insert_insert_eq|].
    apply Hpend; [done|]. apply in_sieve_set. }
  assert (Hsend : to_send K rid rt q1).
  { pose proof (se_count _ _ _ (Hserves _ _ Ert)). split; try done.
    - apply in_sieve_set.
    - simpl. by rewrite Hf.
    - simpl. by rewrite Hre.
    - unfold attempts. simpl. rewrite Hre. lia.
    - simpl. by rewrite Hre, Hle. }
  assert (Hheld1 : held N K lib a q1) by by destruct Hheld.
  apply wp_bind. eapply wp_mono; [by apply (touches_do_forward N K Hzmq Hdate Hserves Hfits r a q1 rid rt new lib)|].
  intros [] r2; cbn beta iota.
  - intros (q2 & new' & Hl & Hq' & Hto2). apply wp_bind.
    assert (Hend : ∀ r3, touches r a (timed rt q2) new' r3 →
      wp (mret true) (λ ok r2, ok = true ∧ forwarded lib r a rid rt 0 r2) r3).
    { intros r3 Hto3. apply wp_ret. split; [done|]. left. exists q1, q2, new'. done. }
    destruct (decide (hr_timeout rt ≠ 0%Z)) as [Hd|Hd].
    + unfold ev_timer_again. eapply (touches_set_request _ a r q2 new'); [done..|]. intros r3 Hto3 _ _. apply Hend.
      unfold timed. by rewrite bool_decide_eq_true_2.
    + apply wp_ret, Hend. unfold timed. rewrite bool_decide_eq_false_2 by done. by destruct q2.
  - intros (new' & Hre' & Hto2). apply wp_bind, wp_ret, wp_ret. split; [done|]. right. by exists q1, new'.
Qed.

Lemma wp_completes lib a urandom r :
  http_ok N K lib r → enabled (Completes a urandom) lib r →
  wp (perform (Completes a urandom) lib) (λ lib' r', leads N K (λ _, 0%Z) lib' r r') r.
Proof.
  intros Hok Hl. destruct (reading_ok lib a r Hok Hl) as (q & Ha & Hh & Hs & Htold & Htm & Hf & Hre & Hrt & Hle).
  apply told_elim in Htold as [Han Hga].
  set (lib' := <[a := Handled]> lib).
  assert (Hlib' : lib' !! a = (if gave_up a (trace r) then None else Some Handled)) by (rewrite Hga; apply lookup_insert_eq).
  assert (Hlib : is_Some (lib' !! a) ↔ is_Some (lib !! a)) by (rewrite Hlib', Hga, Hl; split; by eexists).
  assert (Hb : ∀ b, b ≠ a → lib' !! b = lib !! b ∧ 0%Z = 0%Z) by (intros b Hne; split; [by apply lookup_insert_ne|done]).
  assert (Hans : ∀ q' new r', held N K lib a q' → reply_events a new → touches r a (finished q') new r' →
    leads N K (λ _, 0%Z) lib' r r').
  { intros q' new r' Hh' Hre' Hto. destruct (co_root _ Hcfg) as [rt0 _].
    eapply (leads_forwarded _ lib lib' r a 0 rt0 0); [done|done| |done|done|done|]; [right; by exists q', new|].
    intros q1 Hq1. congruence. }
  cbn [perform]. apply wp_bind. unfold http_request. apply wp_bind, wp_count. apply wp_bind.
  eapply wp_mono; [by apply (wp_resolve true a q)|]. intros o r1 (q1 & new & Hc & -> & Ho).
  match type of Ho with context [request_sieve ?g] => set (r0 := g) in * end.
  assert (Hto : touches r a q1 new (noted (with_request_at r0 a q1) new)).
  { apply (touches_noted r a q1 []). apply (touches_set r a q); [|by destruct Hc as [-> |[_ ->]]..].
    apply touches_count, touches_id; [apply Hok|done]. }
  assert (Hh1 : held N K lib a q1) by (destruct Hh, Hc as [-> |[_ ->]]; by split).
  assert (Hf1 : in_sieve q1 = false ∧ rq_flags q1 = 0%Z ∧ rq_retries q1 = 0%Z ∧ rq_lent q1 = 0)
    by by destruct Hc as [-> |[_ ->]].
  destruct Hf1 as (Hs1 & Hfl1 & Hre1 & Hle1). destruct o as [rid|].
  2:{ apply wp_bind. eapply wp_mono; [by apply touches_request_finish|]. intros [] r2 Hto2. apply wp_ret, wp_ret.
      by eapply Hans. }
  destruct Ho as (-> & [rt Ert] & Hfull). pose proof (Hserves _ _ Ert) as Hse.
  apply wp_bind. eapply touches_set_request; [done..|]. intros r2 Hto2 Esv _.
  apply wp_bind. unfold get_hroute. rewrite Ert. apply wp_ret.
  destruct (ho_routes _ _ _ _ Hok rid) as [wrt Ewrt]; [by eexists|].
  apply wp_bind. eapply wp_get_route; [rewrite (to_routes _ _ _ _ _ Hto2); exact Ewrt|].
  apply wp_bind. eapply wp_get_request; [by eapply touches_lookup|]. rewrite (se_polling _ _ _ Hse), andb_false_r.
  cbn [andb]. set (q2 := q1 <| rq_route := Some rid |>) in *.
  assert (Hh2 : held N K lib a q2) by (destruct Hh1; by split).
  destruct (hr_forward rt) eqn:Efw.
  - eapply wp_mono.
    { apply (wp_forward_request lib a q2 [] rid rt urandom r r2); try done. by rewrite Esv. }
    intros ok r3 [-> Hfwd]. apply wp_ret. eapply leads_forwarded; [done..|]. intros q' Hq'. congruence.
  - rewrite (se_static _ _ _ Hse Efw). pose proof (se_codes _ _ _ Hse) as Hcodes. unfold responses in Hcodes.
    rewrite !Forall_cons in Hcodes. apply wp_seq.
    eapply wp_mono; [apply (touches_answer Hdate r a q2 [] _ r2); [done|constructor|apply Hcodes]|].
    intros ? r3 (new' & Hre' & Hto3). apply wp_ret, wp_ret. by eapply Hans.
Qed.

(** A request whose timer runs waits. *)
Lemma waiting_ok lib a q r :
  http_ok N K lib r → requests r !! a = Some q → in_sieve q = true ∨ rq_timeout_active q = true →
  ∃ rid rt, held N K lib a q ∧ lib !! a = (if gave_up a (trace r) then None else Some Handled) ∧ in_sieve q = true ∧ answered a (trace r) = 0 ∧
    Z.land (rq_flags q) REQ_HAS_MESSAGE = 0%Z ∧ rq_route q = Some rid ∧ hroutes !! rid = Some rt ∧
    hr_forward rt = true ∧ (0 ≤ rq_retries q)%Z ∧ (0 < attempts rt q)%Z ∧
    (Z.of_nat (rq_lent q) ≤ (rq_retries q + 1) * Z.of_nat K)%Z ∧
    (hr_timeout rt ≠ 0%Z → rq_timeout_active q = true).
Proof.
  intros Hok Ha Hw. destruct (ho_requests _ _ _ _ Hok a q Ha) as [Hh Hs].
  inversion Hs as [| rid rt |]; [destruct Hw; congruence| |destruct Hw; congruence].
  exists rid, rt. split_and!; done.
Qed.

Lemma wp_retry lib a q new rid rt r r' :
  touches r a q new r' → Forall quiet new → held N K lib a q → to_send K rid rt q → rq_timeout_active q = true →
  wp (retry a) (λ _ r2, forwarded lib r a rid rt (rq_retries q) r2) r'.
Proof.
  intros Hto Hnew Hh Hs Htm. unfold retry. apply wp_bind, wp_count. apply wp_bind.
  eapply wp_mono; [apply (touches_do_forward N K Hzmq Hdate Hserves Hfits r a q rid rt new lib); try done; by apply touches_count|].
  intros [] r2; cbn beta iota.
  - intros (q2 & new' & Hl & Hq' & Hto2). unfold ev_timer_again.
    eapply (touches_set_request _ a r q2 new'); [done..|]. intros r3 Hto3 _ _. left. exists q, q2, new'.
    split_and!; try done. pose proof (lends_fields _ _ _ Hl) as (_ & _ & _ & _ & _ & _ & _ & Etm).
    assert (timed rt q2 = q2 <| rq_timeout_active := true |>) as ->; [|done].
    unfold timed. by rewrite Etm, Htm, orb_true_r.
  - intros (new' & Hre' & Hto2). apply wp_ret. right. by exists q, new'.
Qed.

(** The request gets a new identifier and a new place in the table. *)
Lemma wp_rename (k : MR unit) a q new urandom r r' (Q : unit → root → Prop) :
  touches r a q new r' → in_sieve q = true →
  (∀ uid r2, touches r a (q <| rq_uid := uid |>) new r2 → wp k Q r2) →
  wp (hole ← UID_HOLE (rq_uid q);
      on_rsieve (sieve_empty hole);;
      r ← get;
      '(uid, _) ← on_rsieve (make_hole_uid (instance_id r) urandom a (rq_uid q) false);
      set_request a (λ q, q <| rq_uid := uid |>);;
      k) Q r'.
Proof.
  intros Hto Hs HQ. pose proof (touches_lookup _ _ _ _ _ Hto) as Ha. pose proof Hto as [Hp Er Et Ero].
  assert (Hlv : wp (hole ← UID_HOLE (rq_uid q); on_rsieve (sieve_empty hole)) (λ _ r2, ∃ s,
    r2 = r' <| request_sieve := s |> ∧ pending_ok (moved r' a s (finished q)) ∧ sieve_full s = false) r').
  { eapply wp_leave; [done..|]. intros s ? ?. by exists s. }
  apply wp_bind. apply wp_bind_inv in Hlv. eapply wp_mono; [exact Hlv|]. intros hole r1 Hlv1. cbn beta in *.
  apply wp_bind. eapply wp_mono; [exact Hlv1|]. intros ? r2 (s & -> & Hps & Hfull). cbn beta. apply wp_bind, wp_get.
  apply wp_bind. eapply (wp_enter _ a (finished q)); try done; [apply in_sieve_finished|by eapply (pe_len _ Hp)|].
  intros s' i ix tail uid Htail Hpend. cbn beta iota. apply wp_bind. eapply wp_set_request; [done|]. cbn beta.
  apply (HQ uid). split; [|simpl; rewrite Er; apply insert_insert_eq|done..]. apply (Hpend (q <| rq_uid := uid |>)); done.
Qed.

Definition tick (a b : addr) : Z := if decide (b = a) then 1 else 0.

Lemma wp_expires lib a urandom r :
  http_ok N K lib r → enabled (Expires a urandom) lib r →
  wp (perform (Expires a urandom) lib) (λ lib' r', leads N K (tick a) lib' r r') r.
Proof.
  intros Hok (q & Ha & Htm).
  destruct (waiting_ok lib a q r Hok Ha (or_intror Htm)) as
    (rid & rt & Hh & Hl & Hs & Han & Hmsg & Ert & Ec & Hfw & Hre & Hat & Hle & _).
  pose proof (Hserves _ _ Ec) as Hse. destruct (se_contents _ _ _ Hse Hfw) as (_ & _ & HK).
  pose proof (se_count _ _ _ Hse) as HN. unfold attempts in Hat.
  assert (Hsmall : (rq_retries q + 1 < 2 ^ 31)%Z) by nia.
  cbn [perform]. apply wp_bind. unfold request_timeout. apply wp_bind.
  set (q1 := q <| rq_retries := (rq_retries q + 1)%Z |>).
  eapply (touches_set_request _ a r q []); [apply touches_id; [apply Hok|done]|done..|]. cbn beta.
  assert (Eq1 : q <| rq_retries ::= λ n, i32 (n + 1) |> = q1) by (unfold q1; destruct q; simpl in *; by rewrite i32_small by lia).
  rewrite Eq1. intros r1 Hto _ _. clear Eq1.
  apply wp_bind. eapply wp_get_request; [by eapply touches_lookup|]. apply wp_bind.
  change (rq_route q1) with (rq_route q). rewrite Ert. apply wp_ret. apply wp_bind. unfold get_hroute. rewrite Ec.
  apply wp_ret. assert (Hh1 : held N K lib a q1) by (destruct Hh; by split).
  assert (Hend : ∀ n r2, n = (rq_retries q + 1)%Z → forwarded lib r a rid rt n r2 → leads N K (tick a) lib r r2).
  { intros n r2 -> Hf. eapply (leads_forwarded (tick a) lib lib); [done..| |].
    - intros b Hb. unfold tick. by rewrite decide_False.
    - intros q' Hq' _. assert (q' = q) as -> by congruence. unfold tick. by rewrite decide_True. }
  assert (Hans : wp (http_static_response a (hr_gateway_timeout rt);; request_finish a)
    (λ _ r2, wp (mret lib) (λ lib' r', leads N K (tick a) lib' r r') r2) r1).
  { eapply wp_mono; [apply (touches_answer Hdate r a q1 [] _ r1); [done|constructor|]|].
    - pose proof (se_codes _ _ _ Hse) as Hc. unfold responses in Hc. rewrite !Forall_cons in Hc. apply Hc.
    - intros ? r2 (new' & Hre' & Hto2). apply wp_ret. apply (Hend _ r2 eq_refl). right. by exists q1, new'. }
  case_decide as Hcnt; [exact Hans|].
  assert (Hretry : ∀ uid r2, touches r a (q1 <| rq_uid := uid |>) [] r2 →
    wp (retry a) (λ _ r3, wp (mret lib) (λ lib' r', leads N K (tick a) lib' r r') r3) r2).
  { intros uid r2 Hto2. assert (Hsend : to_send K rid rt (q1 <| rq_uid := uid |>))
      by (split; try done; unfold attempts; simpl in *; lia).
    eapply wp_mono; [apply (wp_retry lib a (q1 <| rq_uid := uid |>) [] rid rt r); try done; by destruct Hh1|].
    intros ? r3 Hf. apply wp_ret. by eapply Hend. }
  destruct (hr_retry_mode rt); [exact Hans| |]; (apply wp_bind, wp_ANIMPL; [exact Hs|]).
  - apply (Hretry (rq_uid q1)). by replace (q1 <| rq_uid := rq_uid q1 |>) with q1 by by destruct q.
  - by apply (wp_rename (retry a) a q1 [] urandom r).
Qed.

Lemma wp_returns lib a r :
  http_ok N K lib r → enabled (Returns a) lib r →
  wp (perform (Returns a) lib) (λ lib' r', leads N K (λ _, 0%Z) lib' r r') r.
Proof.
  intros Hok (q & Ha & Hlent). cbn [perform]. apply wp_bind. unfold request_decref. apply wp_bind.
  destruct (ho_requests _ _ _ _ Hok a q Ha) as [[Hh Hc Hlive Hl] Hs].
  eapply (touches_set_request _ a r q []); [apply touches_id; [apply Hok|done]|done..|]. cbn beta. intros r1 Hto _ _.
  eapply wp_mono; [eapply (leads_decref N K Hfits lib lib r r1 a q _ []); [done|done|exact Hto|by left|try done..]|].
  - simpl. lia.
  - simpl. rewrite Hc. lia.
  - rewrite (to_trace _ _ _ _ _ Hto), app_nil_r.
    destruct Hs as [| |]; [lia|eapply waiting; try done; simpl; nia|by apply done].
  - intros ? r2 Hle. by apply wp_ret.
Qed.

(** The library forgets a request that was answered or given up. *)
Lemma wp_library_done lib a q said r r1 :
  http_ok N K lib r → lib !! a = Some Handled → requests r !! a = Some q → last_words a said →
  touches r a q said r1 → stage K (trace r1) a q None →
  wp (http_request_finish a;; mret (delete a lib)) (λ lib' r', leads N K (λ _, 0%Z) lib' r r') r1.
Proof.
  intros Hok Hl Ha Hsaid Hto Hst. destruct (ho_requests _ _ _ _ Hok a q Ha) as [[Hh Hc Hlive Hle] _].
  apply wp_bind. unfold http_request_finish. apply wp_bind. eapply wp_get_request; [by eapply touches_lookup|].
  apply wp_bind, wp_ANIMPL; [by apply bool_decide_eq_true_2|].
  eapply wp_mono; [eapply (leads_decref N K Hfits lib (delete a lib) r r1 a q q said)|]; try done.
  - rewrite Hc, lookup_delete_eq, Hl, decide_True, decide_False by (by eexists || by intros [? [=]]). done.
  - by rewrite lookup_delete_eq.
  - intros b Hb. by rewrite lookup_delete_ne.
Qed.

Lemma wp_finishes lib a r :
  http_ok N K lib r → enabled (Finishes a) lib r →
  wp (perform (Finishes a) lib) (λ lib' r', leads N K (λ _, 0%Z) lib' r r') r.
Proof.
  intros Hok [Hl Han]. destruct (ho_lib _ _ _ _ Hok a) as [q Ha]; [by eexists|].
  cbn [perform]. eapply (wp_library_done lib a q []); [done..|by left|by apply touches_id; [apply Hok|]|].
  destruct (ho_requests _ _ _ _ Hok a q Ha) as [_ Hs]. rewrite Hl in Hs. inversion Hs; [congruence|by apply done].
Qed.

(** A request that waits goes on without the library. *)
Lemma wp_gives_up lib a r :
  http_ok N K lib r → enabled (GivesUp a) lib r →
  wp (perform (GivesUp a) lib) (λ lib' r', leads N K (λ _, 0%Z) lib' r r') r.
Proof.
  intros Hok [Hl Han]. destruct (ho_lib _ _ _ _ Hok a) as [q Ha]; [by eexists|].
  cbn [perform]. apply wp_bind, wp_emit.
  assert (Hto : touches r a q [ReqAborted a] (noted r [ReqAborted a]))
    by (apply (touches_noted r a q []), touches_id; [apply Hok|done]).
  apply (wp_library_done lib a q [ReqAborted a] r); [done..|by right|exact Hto|].
  assert (Et : told a (trace r ++ [ReqAborted a]) = (0, true)).
  { rewrite told_app. simpl. rewrite decide_True by done. f_equal. exact Han. }
  apply told_elim in Et as [Ea Eg]. destruct (ho_requests _ _ _ _ Hok a q Ha) as [_ Hs]. rewrite Hl in Hs.
  inversion Hs as [|rid rt p|]; [|congruence]. eapply waiting; try done. simpl. by rewrite Eg.
Qed.

Lemma replied_ok lib tr a parts q :
  held N K lib a q → lib !! a ≠ Some Reading → answered a tr = 1 → request_ok N K lib tr a (replied parts q).
Proof.
  intros Hh Hl Ha. destruct parts as [|p1 [|p2 [|p3 [|p4 rest]]]]; apply finished_ok; try done; by destruct Hh.
Qed.

Lemma wp_delivers lib rid parts r :
  http_ok N K lib r → enabled (Delivers rid parts) lib r →
  wp (perform (Delivers rid parts) lib) (λ lib' r', leads N K (λ _, 0%Z) lib' r r') r.
Proof.
  intros Hok [[hrt0 Ert0] Hhole]. destruct (ho_routes _ _ _ _ Hok rid) as [rt Ert]; [by eexists|].
  assert (Hstay : ∀ st, leads N K (λ _, 0%Z) lib r (r <| stat := st |>)).
  { intros st. apply leads_stays; try done. by apply (pending_ext r); [..|apply Hok]. }
  assert (Hsame : leads N K (λ _, 0%Z) lib r r) by (apply leads_stays; try done; apply Hok).
  cbn [perform]. apply wp_bind. unfold http_message. destruct parts as [|uid [|p rest]]; [done..|].
  case_decide as Hlen; [done|]. apply wp_bind.
  eapply wp_mono; [apply wp_find_request; [apply Hok|done|by eapply Hhole]|].
  intros o r1 [-> Ho]. destruct o as [a|]; [|apply wp_count, wp_ret, Hstay].
  destruct (proj1 (Ho a) eq_refl) as (q & Ha & Hs & _).
  destruct (waiting_ok lib a q r Hok Ha (or_introl Hs)) as
    (hrid & hrt & Hh & Hl & _ & Han & Hmsg & Ert' & Ec & _). destruct (Hdate a) as [date Hd].
  pose proof (se_codes _ _ _ (Hserves _ _ Ec)) as Hc. unfold responses in Hc. rewrite !Forall_cons in Hc.
  assert (Hgo : ∀ parts, parts ≠ [] → wp (reply_parts rid a parts)
    (λ _, wp (mret lib) (λ lib' r', leads N K (λ _, 0%Z) lib' r r')) r).
  { intros parts Hp. eapply (wp_reply_parts rid rt hrid hrt date a q []); try done; [|apply Hc|].
    - apply touches_id; [apply Hok|done].
    - intros r2 Hto. apply wp_ret. eapply leads_reply; [done..|by apply backend_reply_events|done|].
      intros Han'. apply replied_ok; [done|by rewrite Hl; destruct (gave_up _ _)|done]. }
  apply wp_bind. unfold get_hroute. rewrite Ert0. apply wp_ret. destruct (has_sentinel hrt0); [|by apply Hgo].
  destruct p as [|c p]; [|done]. destruct rest as [|p rest]; [done|]. by apply Hgo.
Qed.

(** Every action keeps the invariant. *)
Definition ticks (x : http_action) : addr → Z := match x with Expires a _ => tick a | _ => λ _, 0%Z end.

Lemma wp_perform x lib r :
  http_ok N K lib r → enabled x lib r → wp (perform x lib) (λ lib' r', leads N K (ticks x) lib' r r') r.
Proof.
  destruct x; [apply wp_arrives|apply wp_completes|apply wp_drops|apply wp_delivers|apply wp_expires|
    apply wp_returns|apply wp_finishes|apply wp_gives_up].
Qed.

Lemma history_ok lib r l lib' r' : http_ok N K lib r → history lib r l lib' r' → http_ok N K lib' r'.
Proof.
  intros Hok. induction 1 as [|l lib1 r1 x lib2 r2 _ IH Hen Hrun]; [done|].
  pose proof (wp_perform x lib1 r1 IH Hen) as Hwp. unfold wp in Hwp. rewrite Hrun in Hwp. apply Hwp.
Qed.

(** How often the timer of a request expired. *)
Definition expirations (a : addr) (l : list http_action) : Z := foldr (λ x n, ticks x a + n)%Z 0%Z l.

Lemma expirations_snoc a l x : expirations a (l ++ [x]) = (expirations a l + ticks x a)%Z.
Proof. unfold expirations. induction l as [|y l IH]; simpl; lia. Qed.

Lemma history_wait lib r l lib' r' a q :
  http_ok N K lib r → history lib r l lib' r' → requests r !! a = Some q → in_sieve q = true →
  gave_up a (trace r) = false →
  ∃ new, trace r' = trace r ++ new ∧ ((∃ data, ReqReply a data ∈ new) ∨ ReqAborted a ∈ new ∨
    gave_up a (trace r') = false ∧ ∃ q', requests r' !! a = Some q' ∧ in_sieve q' = true ∧ rq_route q' = rq_route q ∧
      rq_retries q' = (rq_retries q + expirations a l)%Z).
Proof.
  intros Hok Hhist Ha Hs Hga. induction Hhist as [|l lib1 r1 x lib2 r2 Hhist IH Hen Hrun].
  - exists []. rewrite app_nil_r. split; [done|]. right; right. split; [done|]. exists q. split_and!; try done. unfold expirations. simpl. lia.
  - pose proof (history_ok _ _ _ _ _ Hok Hhist) as Hok1.
    pose proof (wp_perform x lib1 r1 Hok1 Hen) as Hwp. unfold wp in Hwp. rewrite Hrun in Hwp.
    destruct Hwp as [_ (new2 & Et2 & Hw2)]. destruct IH as (new1 & Et1 & Hw1).
    exists (new1 ++ new2). split; [by rewrite Et2, Et1, app_assoc|].
    destruct Hw1 as [[data Hin]|[Hin|(Hg1 & q1 & Ha1 & Hs1 & Er1 & En1)]];
      [left; exists data; set_solver|right; left; set_solver|].
    destruct (Hw2 a q1 Ha1 Hs1 Hg1) as [[data Hin]|[Hin|(Hg2 & q2 & Ha2 & Hs2 & Er2 & En2)]];
      [left; exists data; set_solver|right; left; set_solver|].
    right; right. split; [done|]. exists q2. rewrite expirations_snoc. split_and!; try done; [congruence|lia].
Qed.
End actions.

(** ** Lemmas: what a reply does not change *)

(** Everything but the requests, their table and what was sent. *)
Definition apart (r : root) : root :=
  r <| requests := ∅ |> <| request_sieve := mk_sieve 0 0 0 0 [] |> <| trace := [] |>.

Section unchanged.
Context `{LogLevel, Malloc, Env, Digest, Website, HttpConfig, DiskConfig}.

Lemma keeps_check c : keeps apart (ANIMPL c) ∧ keeps apart (SNIMPL c).
Proof. unfold ANIMPL, SNIMPL. split; solve_keeps. Qed.

Lemma keeps_request_finish a : keeps apart (request_finish a).
Proof. unfold request_finish, set_request, get_request, UID_HOLE, on_rsieve. solve_keeps. Qed.

Lemma keeps_static_response a resp : keeps apart (http_static_response a resp).
Proof.
  unfold http_static_response, http_common_headers, ws_reply_data, ws_add_header, emit, SNIMPL. solve_keeps.
Qed.

Lemma keeps_finish_message rid a data : keeps apart (finish_message rid a data).
Proof.
  unfold finish_message, end_headers, reply_body, http_common_headers, ws_reply_data, ws_add_header, emit.
  unfold set_request, get_request, get_route. pose proof (keeps_request_finish a) as Hf.
  pose proof (λ c, proj1 (keeps_check c)) as Hc. repeat first [apply Hf|apply Hc|keeps_step].
Qed.

(** A reply counts itself; apart from that, it only changes its request. *)
Lemma wp_reply_parts_apart rid a parts (Q : unit → root → Prop) r :
  wp (reply_parts rid a parts) Q r →
  wp (reply_parts rid a parts) (λ x r', Q x r' ∧
    apart r' = apart (r <| stat ::= λ st, st <| st_zmq_replies ::= plus 1 |> |>)) r.
Proof.
  unfold reply_parts. match goal with |- wp (count ?g;; ?m) _ _ → _ => assert (Hk : keeps apart m) end.
  { unfold ws_statusline, ws_statusline_len, add_headers, REQRCONFIG, get_hroute, get_request, emit.
    pose proof (keeps_static_response a) as Hs. pose proof (keeps_request_finish a) as Hf.
    pose proof (keeps_finish_message rid a) as Hm. repeat first [apply Hs|apply Hf|apply Hm|keeps_step]. }
  intros Hwp. apply wp_bind, wp_count. apply wp_bind_inv in Hwp. by apply (wp_keeps apart).
Qed.
End unchanged.

(** ** Claims *)

(** C4: Take a gateway whose routes forward requests or answer them themselves (no
    polling and no files), with fields in a message that have a length, at most
    [K] of them, and at most [N] attempts for a request; let zeromq and the http
    library keep their promises.  Requests, bodies, backend messages, expiring
    timers, parts that zeromq gives back, sent replies and browsers that
    disconnect before a reply may come in any order, except that no message of a
    backend names the cell behind the table (an identifier whose hole is [max],
    which the code reads out of bounds).  Then the gateway handles each without
    abort and without touching freed memory; no request is answered twice, and
    one that is released was answered exactly once, unless its browser had gone
    away before; the counter of a request is the number of those that refer to
    it, so that it is released with the last of them; and the table holds exactly
    the requests that were read and not answered yet. *)
Theorem http_history_safe `{LogLevel, Malloc, Env, Digest, Website, HttpConfig, DiskConfig} (rank : route_id → nat)
    (N K : nat) (r0 r : root) (lib : library) (l : list http_action)
    (Hgw : gateway_ok rank N K) (Hidle : idle r0) (Hhist : history ∅ r0 l lib r) :
  (∀ x, enabled x lib r → wp (perform x lib) (λ _ _, True) r) ∧
  answered_once (trace r) ∧
  (∀ a q, requests r !! a = Some q →
     rq_refcnt q = ((if decide (is_Some (lib !! a)) then 1 else 0) + Z.of_nat (rq_lent q))%Z ∧ (0 < rq_refcnt q)%Z) ∧
  (∀ a, (∃ i, holes (request_sieve r) !! i = Some a) ↔
     is_Some (requests r !! a) ∧ lib !! a ≠ Some Reading ∧ answered a (trace r) = 0).
Proof.
  destruct Hgw as [Hz Hd Hs Hf Hl Hc]. pose proof (idle_ok N K r0 Hidle) as Hok0.
  pose proof (history_ok N K Hz Hd Hs Hf Hl rank Hc _ _ _ _ _ Hok0 Hhist) as Hok. split_and!.
  - intros x Hx. eapply wp_mono; [by apply (wp_perform N K Hz Hd Hs Hf Hl rank Hc)|done].
  - apply Hok.
  - intros a q Ha. destruct (ho_requests _ _ _ _ Hok a q Ha) as [[_ Hcnt Hlive _] _]. done.
  - intros a. split.
    + intros [i Hi]. destruct (pe_hole _ (ho_pending _ _ _ _ Hok) i a Hi) as (q & _ & _ & Ha & Hs' & _).
      destruct (waiting_ok N K lib a q r Hok Ha (or_introl Hs')) as (_ & _ & _ & El & _ & Han & _).
      split_and!; [by eexists| |done]. rewrite El. by destruct (gave_up a (trace r)).
    + intros ([q Ha] & Hla & Han). apply (pe_req _ (ho_pending _ _ _ _ Hok) a q Ha).
      destruct (ho_requests _ _ _ _ Hok a q Ha) as [_ Hst]. by inversion Hst; congruence.
Qed.

(** C5: In a gateway as for C4, a request that waits for its backend on a route
    with a timeout, and whose browser waits too, is answered, whatever else
    happens, unless the browser disconnects: its timer runs, so that it expires
    again and again, and as soon as it has expired as often as the route has
    attempts left for the request, at most [retry.count] times or once, a reply
    was sent or the browser is gone. *)
Theorem forwarded_request_answered `{LogLevel, Malloc, Env, Digest, Website, HttpConfig, DiskConfig}
    (rank : route_id → nat) (N K : nat) (r0 r r' : root) (lib lib' : library) (l l' : list http_action)
    (a : addr) (q : request) (rid : route_id) (rt : hroute)
    (Hgw : gateway_ok rank N K) (Hidle : idle r0) (Hhist : history ∅ r0 l lib r)
    (Ha : requests r !! a = Some q) (Hwait : in_sieve q = true) (Hroute : rq_route q = Some rid)
    (Hbrowser : lib !! a = Some Handled) (Hrt : hroutes !! rid = Some rt) (Htimeout : hr_timeout rt ≠ 0%Z)
    (Hhist' : history lib r l' lib' r') (Hexp : (attempts rt q ≤ expirations a l')%Z) :
  rq_timeout_active q = true ∧ (0 < attempts rt q ≤ Z.max 1 (hr_retry_count rt))%Z ∧
  ∃ new, trace r' = trace r ++ new ∧ ((∃ data, ReqReply a data ∈ new) ∨ ReqAborted a ∈ new).
Proof.
  destruct Hgw as [Hz Hd Hs Hf Hl Hc]. pose proof (idle_ok N K r0 Hidle) as Hok0.
  pose proof (history_ok N K Hz Hd Hs Hf Hl rank Hc _ _ _ _ _ Hok0 Hhist) as Hok.
  destruct (waiting_ok N K lib a q r Hok Ha (or_introl Hwait)) as
    (rid' & rt' & _ & El & _ & _ & _ & Er & Ec & _ & Hret & Hatt & _ & Htm). simplify_eq.
  assert (Hga : gave_up a (trace r) = false) by (rewrite Hbrowser in El; by destruct (gave_up a (trace r))).
  split_and!; [by apply Htm|done|unfold attempts in *; lia|].
  destruct (history_wait N K Hz Hd Hs Hf Hl rank Hc _ _ _ _ _ a q Hok Hhist' Ha Hwait Hga) as
    (new & Et & [Hin|[Hin|(_ & q' & Ha' & Hs' & Er' & En')]]); [by exists new; auto..|].
  pose proof (history_ok N K Hz Hd Hs Hf Hl rank Hc _ _ _ _ _ Hok Hhist') as Hok'.
  destruct (waiting_ok N K lib' a q' r' Hok' Ha' (or_introl Hs')) as
    (rid2 & rt2 & _ & _ & _ & _ & _ & Er2 & Ec2 & _ & _ & Hatt2 & _). rewrite Er', Hroute in Er2. simplify_eq.
  unfold attempts in *. lia.
Qed.

(** C6: A message from a backend, in a gateway as for C4, that does not name the
    cell behind the table.  If its first part names a request that waits, the
    request is answered with what follows the sentinel (on a socket with one):
    with one part that is the body and the status is 200 OK, with two the status
    and the body, with three the status, the headers and the body, each followed
    by the date and the headers of the route; with more parts it is the
    internal-error reply of its own route.  The request keeps the body and leaves
    the table; the counter of replies goes up; no other request and nothing else
    in the state changes, and nothing else is sent.  Without the sentinel, or with
    nothing after it, nothing happens.  If no waiting request has the identifier,
    the counter of orphan replies is all that changes. *)
Theorem http_message_correct `{LogLevel, Malloc, Env, Digest, Website, HttpConfig, DiskConfig} (rank : route_id → nat)
    (N K : nat) (r0 r : root) (lib : library) (l : list http_action) (rid : route_id) (rt : route) (hrt0 : hroute)
    (uid : bytes) (rest : list bytes)
    (Hgw : gateway_ok rank N K) (Hidle : idle r0) (Hhist : history ∅ r0 l lib r)
    (Hen : enabled (Delivers rid (uid :: rest)) lib r) (Huid : length uid = UID_LEN) (Hrest : rest ≠ [])
    (Hrt : routes r !! rid = Some rt) (Hrt0 : hroutes !! rid = Some hrt0) :
  wp (http_message rid (uid :: rest)) (λ _ r',
    (∀ a q, requests r !! a = Some q → in_sieve q = true → rq_uid q = uid →
       match after_sentinel hrt0 rest with
       | Some parts => ∃ hrid hrt date, rq_route q = Some hrid ∧ hroutes !! hrid = Some hrt ∧
           http_date a = Some date ∧ touches r a (replied parts q) (backend_reply hrt rt a date parts) r' ∧
           apart r' = apart (r <| stat ::= λ st, st <| st_zmq_replies ::= plus 1 |> |>)
       | None => r' = r
       end) ∧
    ((¬ ∃ a q, requests r !! a = Some q ∧ in_sieve q = true ∧ rq_uid q = uid) →
       r' = r <| stat ::= λ st, st <| st_zmq_orphan_replies ::= plus 1 |> |>)) r.
Proof.
  destruct Hgw as [Hz Hd Hs Hf Hl Hc]. pose proof (idle_ok N K r0 Hidle) as Hok0.
  pose proof (history_ok N K Hz Hd Hs Hf Hl rank Hc _ _ _ _ _ Hok0 Hhist) as Hok. pose proof Hok as [Hp _ _ _ _ _].
  destruct Hen as [_ Hhole]. unfold http_message. destruct rest as [|p rest]; [done|].
  rewrite decide_False by (by intros []). apply wp_bind.
  eapply wp_mono; [apply wp_find_request; [done|done|by eapply Hhole]|]. intros o r1 [-> Ho].
  destruct o as [a|].
  2:{ apply wp_count. split; [|done]. intros a q Ha Hs' Hu.
      assert (None = Some a) as [=]. apply Ho. by exists q. }
  destruct (proj1 (Ho a) eq_refl) as (q & Ha & Hsv & Hu).
  destruct (waiting_ok N K lib a q r Hok Ha (or_introl Hsv)) as (hrid & hrt & _ & _ & _ & _ & Hm & Er & Ec & _).
  destruct (Hd a) as [date Hdt].
  pose proof (se_codes _ _ _ (Hs _ _ Ec)) as Hco. unfold responses in Hco. rewrite !Forall_cons in Hco.
  set (Q := λ (parts : option (list bytes)) (r' : root),
    (∀ a q, requests r !! a = Some q → in_sieve q = true → rq_uid q = uid →
       match parts with
       | Some parts => ∃ hrid hrt date, rq_route q = Some hrid ∧ hroutes !! hrid = Some hrt ∧
           http_date a = Some date ∧ touches r a (replied parts q) (backend_reply hrt rt a date parts) r' ∧
           apart r' = apart (r <| stat ::= λ st, st <| st_zmq_replies ::= plus 1 |> |>)
       | None => r' = r
       end) ∧
    ((¬ ∃ a q, requests r !! a = Some q ∧ in_sieve q = true ∧ rq_uid q = uid) →
       r' = r <| stat ::= λ st, st <| st_zmq_orphan_replies ::= plus 1 |> |>)).
  assert (Hnone : Q None r).
  { split; [done|]. intros Hn. destruct Hn. by exists a, q. }
  assert (Hgo : ∀ parts, parts ≠ [] → wp (reply_parts rid a parts) (λ _, Q (Some parts)) r).
  { intros parts Hne. eapply wp_mono; [eapply wp_reply_parts_apart,
      (wp_reply_parts rid rt hrid hrt date a q [] parts r r (λ _, touches r a (replied parts q) (backend_reply hrt rt a date parts)));
      try done; [by apply touches_id|apply Hco]|].
    - intros [] r2 [Hto Hap]. split; [|intros Hn; destruct Hn; by exists a, q]. intros a' q' Ha' Hs' Hu'.
      assert (Some a = Some a') as [= <-] by (apply Ho; by exists q').
      assert (q' = q) as -> by congruence. by exists hrid, hrt, date. }
  apply wp_bind. unfold get_hroute. rewrite Hrt0. apply wp_ret. unfold after_sentinel.
  destruct (has_sentinel hrt0); [|by apply Hgo].
  destruct p as [|c p]; [|done]. destruct rest as [|p rest]; [done|]. by apply Hgo.
Qed.

Lemma static_reply_off_wire a date resp : Forall off_wire (static_reply a date resp).
Proof.
  unfold static_reply. repeat (constructor; [done|]). apply Forall_app. split; [|by repeat constructor].
  apply Forall_fmap, Forall_forall. done.
Qed.

Lemma wire_static s w a date resp : foldl (wire_step s) w (static_reply a date resp) = w.
Proof.
  pose proof (static_reply_off_wire a date resp) as Hl. revert w.
  induction Hl as [|e l He Hl IH]; intros w; [done|]. simpl. rewrite IH. by destruct e.
Qed.

(** C7: When a request is forwarded, its backend is sent exactly one message: the
    identifier of the request, the empty sentinel if the socket speaks to REP
    sockets, and the configured fields in order; nothing is sent to anyone else.
    The request then lends its memory to zeromq once per part of it and waits.
    If zeromq refuses, no part of a message stays behind, and the request is out
    of the table and answered: with the service-unavailable reply of its route
    when the backend is not connected, with the internal-error reply otherwise. *)
Theorem do_forward_correct `{LogLevel, Malloc, Env, Digest, Website, HttpConfig, DiskConfig} (N K : nat) (r : root)
    (a : addr) (q : request) (rid : route_id) (rt : hroute)
    (Hzmq : zmq_laws) (Hdate : ∀ req, is_Some (http_date req)) (Hok : pending_ok r) (Ha : requests r !! a = Some q)
    (Hs : in_sieve q = true) (Hroute : rq_route q = Some rid) (Hrt : hroutes !! rid = Some rt)
    (Hserves : serves N K rt) (Hfw : hr_forward rt = true)
    (Hcount : (0 < rq_refcnt q)%Z) (Hmax : (rq_refcnt q + Z.of_nat K < 2 ^ 31)%Z)
    (Hbetween : (wire (Http rid) (trace r)).2 = []) :
  wp (do_forward a) (λ ok r',
    wire (Http rid) (trace r') =
      (delivered (Http rid) (trace r) ++
       (if ok : bool then [rq_uid q :: (if has_sentinel rt then [[]] else []) ++ (field_text q <$> hr_contents rt)] else []), []) ∧
    (∀ s, s ≠ Http rid → wire s (trace r') = wire s (trace r)) ∧ pending_ok r' ∧
    ∃ q', requests r' = <[a := q']> (requests r) ∧
    if ok then lends (S (length (hr_contents rt))) q q' ∧ request_sieve r' = request_sieve r
    else q' = finished q ∧ ∃ res date, res ≠ Sent ∧ http_date a = Some date ∧
      trace r' = trace r ++ [FeedEvent (Http rid); ZmqSend (Http rid) (rq_uid q) true res] ++
        static_reply a date (if decide (res = EAGAIN) then hr_service_unavailable rt else hr_internal_error rt)) r.
Proof.
  destruct Hserves as [_ _ Hco Hcn _]. destruct (Hcn Hfw) as (Hne & Hsend & HK).
  assert (Hw : ∀ s new, wire s (trace r ++ new) = foldl (wire_step s) (wire s (trace r)) new) by (intros; apply foldl_app).
  eapply (wp_do_forward Hzmq Hdate a q rid rt); try done; [lia|..].
  - assert (Hw1 : ∀ s q' new, wire s (trace (noted (with_request_at r a q') (FeedEvent (Http rid) :: new))) =
      foldl (wire_step s) (wire s (trace r)) new) by (intros; unfold wire; simpl; by rewrite foldl_app).
    intros q' Hle. split_and!.
    + rewrite Hw1. unfold forward_parts, delivered.
      destruct (wire (Http rid) (trace r)) as [ms acc]. simpl in Hbetween. subst acc. by rewrite wire_sent.
    + intros s Hs'. rewrite Hw1. apply wire_other. by apply not_eq_sym.
    + apply pending_noted. pose proof (lends_fields _ _ _ Hle) as (_ & _ & Eu & _).
      apply (table_same r _ a q q'); try done. by eapply lends_in_sieve.
    + exists q'. done.
  - intros s res date Hres Hoth Hdt Hp'. simpl. split_and!.
    + rewrite Hw. cbn [foldl wire_step]. rewrite (wire_static _ _ a date).
      unfold delivered. destruct (wire (Http rid) (trace r)) as [ms acc]. simpl in Hbetween. subst acc.
      rewrite app_nil_r. by destruct res.
    + intros s' Hs'. rewrite Hw. cbn [foldl wire_step]. rewrite (wire_static _ _ a date).
      by destruct res.
    + by apply (pending_ext (moved r a s (finished q))).
    + exists (finished q). split; [done|]. split; [done|]. exists res, date. done.
Qed.

(** ** Examples *)

Definition example_malloc : Malloc := λ _ _, true.
Definition example_disk : DiskConfig := {|
  disk_threads := false; IF_MODIFIED := 0; ACCEPT_ENCODING := 1; mime_types := []; no_extension := [];
  default_type := []; disk_struct _ := [];
|}.
#[local] Existing Instance example_level.
#[local] Existing Instance example_malloc.
#[local] Existing Instance example_env.
#[local] Existing Instance example_website.
#[local] Existing Instance example_config.
#[local] Existing Instance example_disk.

Lemma example_gateway : gateway_ok example_rank 2 3.
Proof.
  split; [apply example_laws|by eexists| |by vm_compute|apply example_website_laws|].
  - intros rid rt E. apply elem_of_map_to_list in E.
    assert (Hall : Forall (λ p, serves 2 3 p.2) (map_to_list example_routes)).
    { vm_compute. repeat constructor; simpl; intros; try discriminate; try lia; repeat constructor; done. }
    rewrite Forall_forall in Hall. by apply (Hall (rid, rt)).
  - destruct (proj1 (wp_Ok _ _ _) (config_ok_prepared example_rank example_tree example_website_laws example_zmq_ready
      example_tree_ok ltac:(by eexists) ltac:(vm_compute; lia))) as (ok & s & Hrun & _ & Hc).
    apply Hc. simpl. unfold example_routes. simpl in Hrun. by rewrite Hrun.
Qed.

Definition example_idle : root :=
  empty_root <| request_sieve := mk_sieve 0 4 0 0 [None; None; None; None] |>
             <| instance_id := replicate IID_LEN "i"%char |>
             <| routes := {[0 := plain_route 0 0; 1 := plain_route 0 0]} |>.

Lemma example_idle_gateway : idle example_idle.
Proof.
  split; try done.
  - split; simpl; try done; try lia.
  - intros rid [rt E]. apply elem_of_map_to_list in E.
    assert (Hall : Forall (λ p, is_Some (routes example_idle !! p.1)) (map_to_list example_routes)).
    { vm_compute. repeat constructor; by eexists. }
    rewrite Forall_forall in Hall. by apply (Hall (rid, rt)).
Qed.

Definition example_random : random_device := random_of (replicate UID_NRANDOM "r"%char).

(** A request for /app/start. *)
Definition example_arrivals : list http_action :=
  [Arrives 5 (plain_request "GET" "/app/start" "" 0); Completes 5 example_random].

Fixpoint replay (l : list http_action) (lib : library) (r : root) : library * root :=
  match l with
  | [] => (lib, r)
  | x :: l => match perform x lib r with Ok lib r => replay l lib r | _ => (lib, r) end
  end.

Definition example_forwarded : library * root := replay example_arrivals ∅ example_idle.

Lemma example_forwarded_history : history ∅ example_idle example_arrivals example_forwarded.1 example_forwarded.2.
Proof.
  apply (history_snoc _ _ [Arrives 5 (plain_request "GET" "/app/start" "" 0)] {[5 := Reading]}
    (replay [Arrives 5 (plain_request "GET" "/app/start" "" 0)] ∅ example_idle).2 (Completes 5 example_random)).
  - apply (history_snoc _ _ [] ∅ example_idle); [constructor|by split_and!|vm_compute; reflexivity].
  - by split.
  - vm_compute. reflexivity.
Qed.

Lemma example_forwarded_ok : http_ok 2 3 example_forwarded.1 example_forwarded.2.
Proof.
  destruct example_gateway as [Hz Hd Hs Hf Hl Hc].
  apply (history_ok 2 3 Hz Hd Hs Hf Hl example_rank Hc ∅ example_idle example_arrivals);
    [apply idle_ok, example_idle_gateway|apply example_forwarded_history].
Qed.

(** The request as it waits. *)
Definition example_request : request :=
  default (plain_request "" "" "" 0) (requests example_forwarded.2 !! 5).

(** Its timer expires twice. *)
Definition example_expiry : list http_action := [Expires 5 example_random; Expires 5 example_random].
Definition example_late : library * root := replay example_expiry example_forwarded.1 example_forwarded.2.

Lemma example_late_history :
  history example_forwarded.1 example_forwarded.2 example_expiry example_late.1 example_late.2.
Proof.
  apply (history_snoc _ _ [Expires 5 example_random] example_forwarded.1
    (replay [Expires 5 example_random] example_forwarded.1 example_forwarded.2).2 (Expires 5 example_random)).
  - apply (history_snoc _ _ [] example_forwarded.1 example_forwarded.2); [constructor| |vm_compute; reflexivity].
    exists example_request. split; vm_compute; reflexivity.
  - eexists. split; vm_compute; reflexivity.
  - vm_compute. reflexivity.
Qed.

Lemma http_history_safe_witness :
  wp (perform (Returns 5) example_forwarded.1) (λ _ _, True) example_forwarded.2 ∧
  example_forwarded.1 !! 5 = Some Handled ∧ answered 5 (trace example_forwarded.2) = 0.
Proof.
  destruct (http_history_safe example_rank 2 3 example_idle example_forwarded.2 example_forwarded.1 example_arrivals
    example_gateway example_idle_gateway example_forwarded_history) as (Hrun & _ & _ & Htable).
  split; [apply Hrun; exists example_request; split; vm_compute; [reflexivity|discriminate]|].
  destruct (proj1 (Htable 5)) as (_ & _ & Han); [exists 0; vm_compute; reflexivity|].
  split; [vm_compute; reflexivity|exact Han].
Defined.

Lemma forwarded_request_answered_witness :
  ∃ new, trace example_late.2 = trace example_forwarded.2 ++ new ∧
    ((∃ data, ReqReply 5 data ∈ new) ∨ ReqAborted 5 ∈ new).
Proof.
  refine (proj2 (proj2 (forwarded_request_answered example_rank 2 3 example_idle example_forwarded.2 example_late.2
    example_forwarded.1 example_late.1 example_arrivals example_expiry 5 example_request 1
    (default (example_route Leaf []) (example_routes !! 1))
    example_gateway example_idle_gateway example_forwarded_history _ _ _ _ _ _ example_late_history _)));
    vm_compute; (reflexivity || discriminate).
Defined.

(** The backend answers with a body. *)
Definition example_answer : list bytes := [rq_uid example_request; []; str "hello"].

Lemma http_message_correct_witness :
  ∃ r', http_message 1 example_answer example_forwarded.2 = Ok tt r' ∧
    last (trace r') = Some (ReqReply 5 (str "hello")).
Proof.
  destruct (proj1 (wp_Ok _ _ _) (http_message_correct example_rank 2 3 example_idle example_forwarded.2
    example_forwarded.1 example_arrivals 1 (plain_route 0 0) (default (example_route Leaf []) (example_routes !! 1))
    (rq_uid example_request) [[]; str "hello"] example_gateway example_idle_gateway example_forwarded_history
    ltac:(split; [by eexists|intros ? ? [= <- _] _; vm_compute; discriminate])
    eq_refl ltac:(done) eq_refl eq_refl)) as ([] & r' & Hrun & Hone & _).
  exists r'. split; [exact Hrun|].
  assert (Hs : after_sentinel (default (example_route Leaf []) (example_routes !! 1)) [[]; str "hello"] =
    Some [str "hello"]) by (vm_compute; reflexivity).
  rewrite Hs in Hone.
  destruct (Hone 5 example_request ltac:(vm_compute; reflexivity) ltac:(vm_compute; reflexivity) eq_refl)
    as (hrid & hrt & date & _ & _ & _ & Hto & _).
  rewrite (to_trace _ _ _ _ _ Hto). unfold backend_reply, finish_events.
  by rewrite !app_comm_cons, app_assoc, last_app.
Defined.

Lemma do_forward_correct_witness :
  ∃ r', do_forward 5 example_forwarded.2 = Ok true r' ∧
    delivered (Http 1) (trace r') =
      delivered (Http 1) (trace example_forwarded.2) ++ [[rq_uid example_request; []; str "GET"; str "/app/start"]].
Proof.
  destruct (proj1 (wp_Ok _ _ _) (do_forward_correct 2 3 example_forwarded.2 5 example_request 1
    (default (example_route Leaf []) (example_routes !! 1)) example_laws (λ _, ltac:(by eexists))
    (ho_pending _ _ _ _ example_forwarded_ok) ltac:(vm_compute; reflexivity) ltac:(vm_compute; reflexivity)
    ltac:(vm_compute; reflexivity) ltac:(vm_compute; reflexivity)
    (ga_serves _ _ _ example_gateway 1 _ ltac:(vm_compute; reflexivity)) ltac:(vm_compute; reflexivity)
    ltac:(vm_compute; reflexivity) ltac:(vm_compute; reflexivity) ltac:(vm_compute; reflexivity)))
    as (ok & r' & Hrun & Hwire & _).
  assert (ok = true) as ->.
  { pose proof Hrun as Hrun'. vm_compute in Hrun'. by injection Hrun' as <- _. }
  exists r'. split; [exact Hrun|]. unfold delivered at 1. rewrite Hwire.
  vm_compute. reflexivity.
Defined.
