(* ===== verification/Serving.v ===== *)
(** * How a file is served (the disk threads of disk.c and what is made of their
    answers)

    What a thread may read, and that it reads all of it; and how its answer reaches
    the browser.  A thread is not safe on every machine: it writes one byte behind
    an array on its stack, goes on after a read error, and ends the process when a
    signal interrupts its answer; the hypotheses of the claims say where the code
    relies on none of these happening. *)

From S2P Require Import Prelude Sieve Pool MsgQueue Uidgen Links State Topics Backend Outputs Hybi.
From S2P Require Import CometArgs Request Comet Session Polling Sockets Routing Headers Files Disk Http Pending Exchange Lifetime Gateway.

(** ** Specification: files *)

(** What [read] gives for the [n] bytes of a file that does not change: some of
    the bytes at each call, until all are read or a call fails. *)
Inductive reads_ok : Z → list read_result → Prop :=
  | reads_done : reads_ok 0 []
  | reads_data n b l : b ≠ [] → (Z.of_nat (length b) ≤ n)%Z → reads_ok (n - Z.of_nat (length b)) l →
      reads_ok n (RData b :: l)
  | reads_again n l : (0 < n)%Z → reads_ok n (RAgain :: l)
  | reads_error n l : (0 < n)%Z → reads_ok n (RError :: l).

Definition read_bytes (l : list read_result) : bytes :=
  mjoin (omap (λ x, match x with RData b => Some b | _ => None end) l).
Definition contents (f : file) : bytes := read_bytes (fl_reads f).

Record files_ok `{FileSystem} : Prop := {
  fo_reads : ∀ n path f, open_file n path = Opened f → (0 ≤ fl_size f < 2 ^ 64)%Z ∧ reads_ok (fl_size f) (fl_reads f);
  fo_signal : ∀ path, ∃ n, n < open_retries ∧ open_file n path ≠ OpenEINTR;
}.

(** No file that is opened has a read error (interruptions apart), and [close]
    succeeds. *)
Definition disk_sound `{FileSystem} : Prop :=
  ∀ n path f, open_file n path = Opened f → (RError ∉ fl_reads f) ∧ fl_close_fails f = false.


(** The size of the array that the name of a file is built in. *)
Definition array_size (sc : static_conf) (k : nat) (comps : list bytes) : nat :=
  length (sc_root sc ++ path_of (drop k comps)).

(** A configuration with which no undefined variable is read. *)
Definition index_ok (sc : static_conf) : Prop :=
  match sc_index_file sc with Some index => "."%char ∈ index | None => True end.

(** The name of a request, without its first [k] components, is not denied. *)
Definition name_allowed (sc : static_conf) (path : bytes) : Prop :=
  ¬ Exists (λ suffix, suffix `suffix_of` path) (sc_deny_suffixes sc) ∧
  ¬ Exists (λ prefix, prefix `prefix_of` drop (base_of path (length path)) path) (sc_deny_prefixes sc).

(** The types that may be chosen. *)
Definition possible_type (mt : mime_table) (ne dt mime : bytes) : Prop :=
  mime = str "text/html" ∨ mime = ne ∨ ∃ ext, mime = mime_of mt dt ext.

(** The answer with a file: what was opened is the file that the name of the
    request resolves to, or the one beside it that has it compressed. *)
Definition answers_with `{FileSystem, DiskConfig} (sc : static_conf) (req : disk_req) (k : nat) (comps : list bytes)
    (parts : list bytes) : Prop :=
  ∃ path f mime gz, realpath (sc_root sc ++ path_of (drop k comps)) = Some path ∧ allowed sc path ∧
    name_allowed sc (path_of comps) ∧
    check_base sc mime_types no_extension default_type (path_of comps) tt = Ok (Some mime) tt ∧
    possible_type mime_types no_extension default_type mime ∧
    (if gz : bool then d_gzipped req = true ∧ open_file 0 (path ++ str ".gz") = Opened f
     else ∃ n, open_file n path = Opened f) ∧
    fl_dir f = false ∧ Z.of_nat (length (contents f)) = fl_size f ∧
    parts = [str "200 OK"; file_headers mime (fl_lastmod f) gz; contents f].

Definition error_answers : list (list bytes) :=
  [denied; Disk.not_found; [str "304 Not Modified"; []]; [str "500 Internal Server Error"; []]].

(** ** Lemmas: files *)
Section files.
Context `{LogLevel, FileSystem}.

Lemma wp_read_loop l n pos data :
  reads_ok n l → RError ∉ l → (0 ≤ pos)%Z → (pos + n = Z.of_nat (length data))%Z → (n < 2 ^ 64)%Z →
  wp (read_loop l n pos data) (λ o _, ∀ d, o = Some d →
    d = take (Z.to_nat pos) data ++ read_bytes l ∧ Z.of_nat (length (read_bytes l)) = n) tt.
Proof.
  intros Hl. revert pos data. induction Hl as [|n b l Hb Hle Hl IH|n l Hn|n l Hn]; intros pos data Herr Hp Hd Hn'; cbn [read_loop].
  - rewrite decide_True by done. apply wp_ret. intros d [= <-]. rewrite take_ge by lia. by rewrite app_nil_r.
  - assert (length b ≠ 0) by by destruct b. rewrite decide_False by lia. rewrite decide_True by done.
    rewrite u64_small by lia. assert (Hblit : blit (Z.to_nat pos) b data =
      take (Z.to_nat pos) data ++ b ++ drop (length b) (drop (Z.to_nat pos) data)).
    { rewrite <- (take_drop (Z.to_nat pos) data) at 1. rewrite blit_app; [done|rewrite length_take; lia|rewrite length_drop; lia]. }
    apply not_elem_of_cons in Herr as [_ Herr]. eapply wp_mono; [apply IH; [done|lia| |lia]|].
    + rewrite Hblit, !length_app, length_take, !length_drop. lia.
    + intros o [] Ho d Hd'. destruct (Ho d Hd') as [-> E]. change (read_bytes (RData b :: l)) with (b ++ read_bytes l). split.
      * rewrite Hblit, app_assoc, take_app_length' by (rewrite length_app, length_take; lia). by rewrite <- app_assoc.
      * rewrite length_app. lia.
  - rewrite decide_False by lia. by apply wp_ret.
  - by apply not_elem_of_cons in Herr as [[] _].
Qed.

Hypothesis Hfiles : files_ok.
Hypothesis Hsound : disk_sound.

Lemma wp_open_loop n i path :
  (∃ j, i ≤ j < i + n ∧ open_file j path ≠ OpenEINTR) →
  wp (open_loop n i path) (λ o _, ∀ f, o = Some f → ∃ j, open_file j path = Opened f) tt.
Proof.
  revert i. induction n as [|n IH]; intros i (j & Hj & Ho); [lia|]. cbn [open_loop].
  destruct (open_file i path) as [f| |] eqn:E.
  - apply wp_ret. intros f' [= <-]. eauto.
  - apply IH. exists j. split; [|done]. destruct (decide (j = i)) as [->|]; [done|lia].
  - by apply wp_ret.
Qed.

Lemma wp_get_file path if_mod gzip :
  wp (get_file path if_mod gzip) (λ res _, match res with
    | FileData lastmod data gz => ∃ f, lastmod = fl_lastmod f ∧ data = contents f ∧ fl_dir f = false ∧
        Z.of_nat (length data) = fl_size f ∧
        if gz : bool then gzip = true ∧ open_file 0 (path ++ str ".gz") = Opened f else ∃ n, open_file n path = Opened f
    | _ => True
    end) tt.
Proof.
  unfold get_file. set (first := if gzip then _ else OpenFails).
  assert (Hplain : wp (open_loop open_retries 0 path) (λ o _, ∀ f, o = Some f → ∃ j, open_file j path = Opened f) tt).
  { destruct (fo_signal Hfiles path) as (n & ? & ?). apply wp_open_loop. exists n. split; [lia|done]. }
  assert (Hrest : ∀ o gz, (∀ f, o = Some f →
      if gz : bool then gzip = true ∧ open_file 0 (path ++ str ".gz") = Opened f else ∃ n, open_file n path = Opened f) →
    wp (match o with
        | None => mret FileError
        | Some f =>
            let close_with (res : file_result) : M unit file_result := SNIMPL (fl_close_fails f);; mret res in
            if negb (fl_stat f) then close_with FileError
            else if fl_dir f then close_with FileError
            else if decide ((upto NUL if_mod).1 = fl_lastmod f) then close_with NotModified
            else if negb (fl_memory f) then close_with FileError
            else o ← read_loop (fl_reads f) (fl_size f) 0 (replicate (Z.to_nat (fl_size f)) NUL);
                 close_with (match o with Some data => FileData (fl_lastmod f) data gz | None => FileError end)
        end) (λ res _, match res with
    | FileData lastmod data gz => ∃ f, lastmod = fl_lastmod f ∧ data = contents f ∧ fl_dir f = false ∧
        Z.of_nat (length data) = fl_size f ∧
        if gz : bool then gzip = true ∧ open_file 0 (path ++ str ".gz") = Opened f else ∃ n, open_file n path = Opened f
    | _ => True
    end) tt).
  { intros [f|] gz Hf; [|by apply wp_ret]. specialize (Hf f eq_refl).
    assert (Hlaw : ∃ n p, open_file n p = Opened f) by (destruct gz; [destruct Hf|destruct Hf]; eauto).
    destruct Hlaw as (n & p & Hop). destruct (fo_reads Hfiles n p f Hop) as [Hs Hr].
    destruct (Hsound n p f Hop) as [Herr Hclose]. cbv zeta. rewrite Hclose. unfold SNIMPL at 1 2 3 4. cbn [andb].
    destruct (fl_stat f); [|by apply wp_bind, wp_ret]. destruct (fl_dir f) eqn:Edir; [by apply wp_bind, wp_ret|]. cbn [negb].
    case_decide; [by apply wp_bind, wp_ret|]. destruct (fl_memory f); [|by apply wp_bind, wp_ret]. cbn [negb]. apply wp_bind.
    eapply wp_mono; [apply wp_read_loop; [done|done|lia|rewrite length_replicate; lia|lia]|].
    intros o [] Hd. apply wp_bind, wp_SNIMPL; [done|]. apply wp_ret. destruct o as [d|]; [|done].
    destruct (Hd d eq_refl) as [-> E]. by exists f. }
  apply wp_bind. destruct first as [f| |] eqn:Ef.
  - apply wp_ret. apply (Hrest (Some f) true). intros f' [= <-]. unfold first in Ef. by destruct gzip.
  - eapply wp_mono; [exact Hplain|]. intros o [] Ho. by apply (Hrest o false).
  - eapply wp_mono; [exact Hplain|]. intros o [] Ho. by apply (Hrest o false).
Qed.
End files.

(** ** Lemmas: answers *)

Lemma after_last_in c s : c ∈ s → is_Some (after_last c s).
Proof.
  induction s as [|d s IH]; [by intros ?%elem_of_nil|]. simpl. intros Hc. destruct (after_last c s) eqn:E; [by eexists|].
  apply elem_of_cons in Hc as [->|Hc]; [rewrite decide_True by done; by eexists|]. by destruct (IH Hc) as [? [=]].
Qed.

Lemma base_of_le path n : base_of path n ≤ length path `max` 1.
Proof.
  induction n as [|n IH]; simpl; [lia|]. case_decide as E; [|done]. apply lookup_lt_Some in E. lia.
Qed.

Lemma path_of_nonempty comps : comps ≠ [] → 1 ≤ length (path_of comps).
Proof. destruct comps as [|c comps]; [done|]. intros _. unfold path_of. simpl. lia. Qed.

Lemma wp_char_at s i (Q : ascii → unit → Prop) : i ≤ length s → (∀ c, Q c tt) → wp (char_at s i) Q tt.
Proof. intros Hi HQ. unfold char_at. rewrite decide_True by done. apply wp_ret, HQ. Qed.

Lemma wp_check_base sc mt ne dt comps :
  index_ok sc → Forall plain_component comps → comps ≠ [] →
  wp (check_base sc mt ne dt (path_of comps)) (λ o _, match o with
    | Some mime => name_allowed sc (path_of comps) ∧ possible_type mt ne dt mime
    | None => ¬ name_allowed sc (path_of comps)
    end) tt.
Proof.
  intros Hix Hp Hne. pose proof (path_of_nonempty comps Hne) as Hlen. set (path := path_of comps) in *.
  unfold check_base. rewrite upto_out by by apply path_of_no_query. cbn [fst]. rewrite take_ge by done.
  case_decide as Hsuf; [apply wp_ret; by intros [Hn _]|]. pose proof (base_of_le path (length path)) as Hb.
  case_decide as Hpre.
  { apply wp_ret. intros [_ Hn]. apply Hn. eapply Exists_impl; [exact Hpre|]. by intros prefix [_ Hx]. }
  assert (Hok : name_allowed sc path).
  { split; [done|]. intros Hex. apply Hpre. eapply Exists_impl; [exact Hex|]. intros prefix Hx. split; [lia|done]. }
  assert (Hret : ∀ mime, possible_type mt ne dt mime →
    wp (mret (Some mime) : M unit (option bytes)) (λ o _, match o with
      | Some mime => name_allowed sc path ∧ possible_type mt ne dt mime | None => ¬ name_allowed sc path end) tt).
  { intros mime Hm. by apply wp_ret. }
  apply wp_bind, wp_char_at; [lia|]. intros c. apply wp_bind.
  assert (Hdir : ∀ dir, wp (if dir : bool then
      match sc_index_file sc with
      | Some index => match after_last "."%char index with
                      | Some ext => mret (Some (mime_of mt dt ext)) | None => undefined Uninitialized end
      | None => mret (Some (if sc_dir_index sc then str "text/html" else ne))
      end
    else mret (Some (match extension (drop (base_of path (length path)) path) with
                     | Some ext => mime_of mt dt ext | None => ne end)))
    (λ o _, match o with
      | Some mime => name_allowed sc path ∧ possible_type mt ne dt mime | None => ¬ name_allowed sc path end) tt).
  { unfold possible_type in Hret. intros []; [|apply Hret; case_match; eauto].
    unfold index_ok in Hix. destruct (sc_index_file sc) as [ix|]; [|apply Hret; case_match; eauto].
    destruct (after_last_in _ _ Hix) as [ext ->]. apply Hret. eauto. }
  case_decide; [apply wp_ret, (Hdir true)|]. rewrite decide_False by lia.
  apply wp_bind, wp_char_at; [lia|]. intros d. apply wp_ret, (Hdir (bool_decide (d = "/"%char))).
Qed.

Section answers.
Context `{LogLevel, HttpConfig, FileSystem, ThreadEnv, DiskConfig}.

(** The array that the name is built in is too small by one. *)
Lemma disk_answer_array req rt comps k :
  unused_behind (array_size (hr_static rt) k comps) = false →
  hroutes !! d_route req = Some rt → index_ok (hr_static rt) → d_path req = path_of comps →
  Forall plain_component comps → sc_strip_dirs (hr_static rt) = Z.of_nat k → k < length comps →
  disk_answer req tt = Ok denied tt ∧ ¬ name_allowed (hr_static rt) (path_of comps) ∨
  disk_answer req tt = Faulted OutOfBounds ∧ name_allowed (hr_static rt) (path_of comps).
Proof.
  intros Hu Hrt Hix Hpath Hp Hs Hk. unfold disk_answer. rewrite Hrt, Hpath. set (sc := hr_static rt) in *.
  assert (Hne : comps ≠ []) by (intros ->; simpl in Hk; lia).
  destruct (proj1 (wp_Ok _ _ _) (wp_check_base sc mime_types no_extension default_type comps Hix Hp Hne))
    as (o & [] & Eb & Hname). cbn [deref]. erewrite run_bind by reflexivity. fold sc.
  erewrite run_bind by exact Eb. destruct o as [mime|]; [right|by left].
  erewrite run_bind by (by apply (join_paths_plain sc comps k)). cbn beta iota.
  split; [|by apply Hname]. unfold mbind, M_bind, end_name. unfold array_size in Hu. by rewrite Hu.
Qed.

Lemma wp_disk_answer req rt comps k :
  files_ok → disk_sound → unused_behind (array_size (hr_static rt) k comps) = true → hroutes !! d_route req = Some rt → index_ok (hr_static rt) → d_path req = path_of comps →
  Forall plain_component comps → sc_strip_dirs (hr_static rt) = Z.of_nat k → k < length comps →
  wp (disk_answer req) (λ parts _, parts ∈ error_answers ∨ answers_with (hr_static rt) req k comps parts) tt.
Proof.
  intros Hf Hsound Hu Hrt Hix Hpath Hp Hs Hk. unfold disk_answer. rewrite Hrt, Hpath. apply wp_bind, (wp_deref _ _ rt); [done|].
  set (sc := hr_static rt) in *. apply wp_bind.
  assert (Hne : comps ≠ []) by (intros ->; simpl in Hk; lia).
  destruct (proj1 (wp_Ok _ _ _) (wp_check_base sc mime_types no_extension default_type comps Hix Hp Hne))
    as (o & [] & Eb & Hname). unfold wp at 1. rewrite Eb. destruct o as [mime|].
  2:{ apply wp_ret. left. by left. }
  destruct Hname as [Hna Htype].
  apply wp_bind. unfold wp at 1. rewrite (join_paths_plain sc comps k) by done.
  apply wp_bind. unfold end_name. unfold array_size in Hu. rewrite Hu. apply wp_ret.
  destruct (realpath _) as [p|] eqn:Er; [|apply wp_ret; left; right; by left].
  destruct (check_path sc p) eqn:Ec; cbn [negb]; [|apply wp_ret; left; by left].
  apply check_path_allowed in Ec. apply wp_bind. eapply wp_mono; [by apply (wp_get_file Hf Hsound)|].
  intros res [] Hres. apply wp_ret. destruct res as [| |lastmod data gz].
  - left. do 3 right. by left.
  - left. do 2 right. by left.
  - right. destruct Hres as (f & -> & -> & Hd & Hl & Hg). exists p, f, mime, gz. by split_and!; try apply Hna.
Qed.

End answers.

(** ** Specification: the reply to the browser *)



(** A request whose answer the threads owe. *)
Record at_disk (r : root) (a : addr) (q : request) (hrid : route_id) (hrt : hroute) (rt : route) `{HttpConfig} : Prop := {
  ad_lookup : requests r !! a = Some q;
  ad_table : in_sieve q = true;
  ad_route : rq_route q = Some hrid ∧ hroutes !! hrid = Some hrt ∧ routes r !! hrid = Some rt;
  ad_message : Z.land (rq_flags q) REQ_HAS_MESSAGE = 0%Z;
  ad_refs : (2 ≤ rq_refcnt q < 2 ^ 31 - 1)%Z;
  ad_codes : Forall code_ok (responses hrt);
}.

(** ** Lemmas: the reply *)
Section replies.
Context `{LogLevel, Malloc, Env, Digest, Website, HttpConfig, DiskConfig}.
Hypothesis Hdate : ∀ req, is_Some (http_date req).
Implicit Types (r : root).




(** A reference that is not the last one is dropped. *)
Lemma wp_drop r a q new r' (Q : unit → root → Prop) :
  touches r a q new r' → (2 ≤ rq_refcnt q < 2 ^ 31)%Z →
  (∀ r2, touches r a (q <| rq_refcnt := (rq_refcnt q - 1)%Z |>) new r2 → Q tt r2) → wp (REQ_DECREF a) Q r'.
Proof.
  intros Hto Hc HQ. unfold REQ_DECREF. apply wp_bind. eapply touches_set_request; [done..|]. cbn beta.
  intros r2 Hto2 _ _. apply wp_bind. eapply wp_get_request; [by eapply touches_lookup|]. simpl.
  rewrite i32_small by lia. rewrite (proj2 (Z.eqb_neq _ _)) by lia. apply wp_ret, HQ.
  replace (q <| rq_refcnt := _ |>) with (q <| rq_refcnt ::= λ n, i32 (n - 1) |>); [done|].
  destruct q. simpl in *. cbn. by rewrite i32_small by lia.
Qed.


End replies.

(** ** Lemmas: the whole exchange *)




Section exchange.
Context `{HttpConfig, FileSystem, DiskConfig}.






End exchange.

(** ** Lemmas: a request goes to the threads *)

(** What is left when the message was not taken: the request is answered, but
    keeps its place in the table until it is freed. *)
Definition disk_refusal (hrt : hroute) (res : send_res) : StaticResponse :=
  if decide (res = EAGAIN) then hr_service_unavailable hrt else hr_internal_error hrt.

Definition entered (q : request) (uid : bytes) : request :=
  q <| rq_uid := uid |> <| rq_flags ::= λ f, Z.lor f REQ_IN_SIEVE |>.
Definition lent_once (q : request) : request :=
  q <| rq_refcnt := (rq_refcnt q + 1)%Z |> <| rq_lent := S (rq_lent q) |>.

(** The three parts of the message: the identifier, an empty one, the work. *)
Definition disk_parts_of `{DiskConfig} (q : request) (hrid : route_id) (hrt : hroute) : list bytes :=
  [rq_uid q; []; disk_struct (disk_work q hrid (hr_static hrt))].

(** How a request of the route [hrid] may leave [disk_request]. *)
Definition disk_sent `{DiskConfig} (r : root) (a : addr) (q1 : request) (hrid : route_id) (hrt : hroute) (r' : root) : Prop :=
  ∃ pre, Forall Backend.refused pre ∧
    touches r a (lent_once q1) (FeedEvent DiskSock :: pre ++ sent_events DiskSock (disk_parts_of q1 hrid hrt)) r'.

Definition disk_refused `{Env} (r : root) (a : addr) (q1 : request) (hrt : hroute) (r' : root) : Prop :=
  ∃ pre res date, Forall Backend.refused pre ∧ res ≠ Sent ∧ http_date a = Some date ∧
    touches r a q1 (FeedEvent DiskSock :: pre ++ ZmqSend DiskSock (rq_uid q1) true res ::
      static_reply a date (disk_refusal hrt res)) r'.

Section requests.
Context `{LogLevel, Malloc, Env, Digest, Website, HttpConfig, DiskConfig}.
Hypothesis Hzmq : zmq_laws.
Hypothesis Hdate : ∀ req, is_Some (http_date req).
Implicit Types (r : root).

(** An interrupted call is repeated until it is not. *)
Lemma wp_send_uid n a uid r (Q : send_res → root → Prop) :
  Backend.calm n (trace r) DiskSock uid →
  (∀ pre res, Forall Backend.refused pre → res ≠ EINTR → res ≠ EOTHER →
     Q res (noted r (pre ++ [ZmqSend DiskSock uid true res]))) →
  wp (send_uid n a uid) Q r.
Proof.
  revert r Q. induction n as [|n IH]; intros r Q Hc HQ; [by apply Backend.calm_O in Hc|].
  cbn [send_uid]. unfold zmq_send. root_steps.
  match goal with |- context [zmq_send_res ?t ?s ?u ?m] => set (res := zmq_send_res t s u m) in * end.
  assert (Hres : res ≠ EOTHER) by apply (zl_errors Hzmq).
  destruct res eqn:E; try done; [| |].
  1,2: by apply wp_ret, (HQ []).
  apply (IH (noted r [ZmqSend DiskSock uid true EINTR])); [by apply Backend.calm_S|].
  intros pre res' Hp Hi Ho. rewrite noted_noted. apply (HQ (_ :: pre)); [by constructor|done..].
Qed.

(** A reference and a lent part come back at once. *)
Lemma touches_decref r a q new r' (Q : unit → root → Prop) :
  touches r a (lent_once q) new r' → (1 ≤ rq_refcnt q < 2 ^ 31 - 1)%Z →
  (∀ r2, touches r a q new r2 → Q tt r2) → wp (request_decref a) Q r'.
Proof.
  intros Hto Hc HQ. unfold request_decref. apply wp_bind. eapply touches_set_request; [done..|]. cbn beta.
  intros r2 Hto2 _ _. eapply wp_drop; [done|simpl; lia|]. intros r3 Hto3. apply HQ.
  unfold lent_once in Hto3. simpl in Hto3. rewrite Z.add_simpl_r in Hto3. by destruct q.
Qed.

Lemma wp_disk_refusal a q1 hrt res pre r r' (Q : bool → root → Prop) :
  touches r a (lent_once q1) (FeedEvent DiskSock :: pre ++ [ZmqSend DiskSock (rq_uid q1) true res]) r' →
  (1 ≤ rq_refcnt q1 < 2 ^ 31 - 1)%Z → Forall code_ok (responses hrt) → Forall Backend.refused pre → res ≠ Sent →
  (∀ r', disk_refused r a q1 hrt r' → Q true r') →
  wp (request_decref a;; http_static_response a (disk_refusal hrt res);; mret true) Q r'.
Proof.
  intros Hto Hc Hco Hpre Hne HQ. destruct (Hdate a) as [date Hd]. unfold responses in Hco. rewrite !Forall_cons in Hco.
  apply wp_bind. eapply touches_decref; [done..|]. intros r4 Hto4.
  apply wp_bind. eapply wp_http_static_response; [unfold disk_refusal; case_decide; apply Hco|done|].
  apply wp_ret, HQ. exists pre, res, date. split_and!; [done..|].
  apply (touches_noted _ _ _ _ (static_reply a date (disk_refusal hrt res))) in Hto4.
  by rewrite <- app_comm_cons, <- app_assoc in Hto4.
Qed.

Lemma wp_disk_request a q hrid hrt urandom r :
  pending_ok r → requests r !! a = Some q → in_sieve q = false → rq_route q = Some hrid →
  hroutes !! hrid = Some hrt → disk_threads = true → Forall code_ok (responses hrt) →
  (1 ≤ rq_refcnt q < 2 ^ 31 - 1)%Z → sieve_full (request_sieve r) = false →
  wp (disk_request a urandom) (λ ok r', ok = true ∧ ∃ uid, length uid = UID_LEN ∧
    (disk_sent r a (entered q uid) hrid hrt r' ∨ disk_refused r a (entered q uid) hrt r')) r.
Proof.
  intros Hok Ha Hs Hr Hh Hth Hco Hc Hfull. unfold disk_request. apply wp_bind. eapply wp_get_request; [done|].
  apply wp_bind, (wp_deref _ _ hrid); [done|]. apply wp_bind. unfold get_hroute. rewrite Hh. apply wp_ret.
  rewrite Hth. cbn [negb]. root_steps.
  assert (Hok1 : pending_ok (noted r [FeedEvent DiskSock])) by by apply pending_noted.
  match goal with |- wp _ _ ?g => change g with (noted r [FeedEvent DiskSock]) end.
  eapply (wp_enter (noted r [FeedEvent DiskSock]) a q); try done;
    [by rewrite with_request_id|by eapply (pe_len _ Hok)|].
  intros s i ix tail uid Htail Hpend. cbn beta iota. apply wp_bind. eapply wp_set_request; [done|]. cbn beta.
  fold (entered q uid). set (q1 := entered q uid). apply wp_bind, wp_count.
  match goal with |- wp _ _ ?g => assert (Hto1 : touches r a q1 [FeedEvent DiskSock] g) end.
  { split; [|done..]. apply (pending_ext (moved (noted r [FeedEvent DiskSock]) a s q1)); [done..|].
    apply Hpend; [done|]. apply in_sieve_set. }
  assert (Hlen : length uid = UID_LEN) by (apply length_uid_of; [apply Hok|done]).
  match goal with |- wp _ _ ?g => set (r1 := g) in * end. clearbody r1.
  apply wp_bind. eapply wp_lend; [by eapply touches_lookup|simpl; lia|]. fold (lent_once q1).
  assert (Hto2 : touches r a (lent_once q1) [FeedEvent DiskSock] (with_request_at r1 a (lent_once q1)))
    by by eapply touches_set.
  set (r2 := with_request_at r1 a (lent_once q1)) in *. clearbody r2. apply wp_bind. apply wp_send_uid.
  { apply (zl_signal Hzmq). }
  intros pre res Hpre Hi Ho.
  pose proof (touches_noted _ _ _ _ (pre ++ [ZmqSend DiskSock uid true res]) _ Hto2) as Hto3.
  assert (Href : res ≠ Sent →
    wp (request_decref a;; http_static_response a (disk_refusal hrt res);; mret true) (λ ok r', ok = true ∧
      ∃ uid, length uid = UID_LEN ∧
      (disk_sent r a (entered q uid) hrid hrt r' ∨ disk_refused r a (entered q uid) hrt r'))
      (noted r2 (pre ++ [ZmqSend DiskSock uid true res]))).
  { intros Hne. eapply wp_disk_refusal; [exact Hto3|done..|]. intros r' Hr'. split; [done|]. exists uid.
    split; [done|]. by right. }
  destruct res; [|by apply Href|done..]. apply wp_bind.
  eapply (wp_snimpl_send Hzmq); [unfold noted; simpl; by rewrite app_assoc|].
  match goal with |- wp _ _ ?g => change g with
    (noted (noted r2 (pre ++ [ZmqSend DiskSock uid true Sent])) [ZmqSend DiskSock [] true Sent]) end.
  apply (touches_noted _ _ _ _ [ZmqSend DiskSock [] true Sent]) in Hto3.
  apply wp_bind. eapply wp_get_request; [by eapply touches_lookup|]. apply wp_bind.
  eapply (wp_snimpl_send Hzmq); [unfold noted at 1; simpl; done|].
  match goal with |- wp _ _ (?g <| trace := _ ++ ?l |>) => change (g <| trace := _ ++ l |>) with (noted g l);
    apply (touches_noted _ _ _ _ l) in Hto3 end.
  apply wp_ret. split; [done|]. exists uid. split; [done|]. left. exists pre. split; [done|].
  change (FeedEvent DiskSock :: pre ++ ?l) with ([FeedEvent DiskSock] ++ pre ++ l).
  rewrite <- !app_assoc in Hto3. exact Hto3.
Qed.

(** A request that was sent waits for the threads. *)
Lemma disk_sent_waits a q uid hrid hrt rt r r' :
  disk_sent r a (entered q uid) hrid hrt r' → rq_route q = Some hrid → hroutes !! hrid = Some hrt →
  routes r !! hrid = Some rt → Z.land (rq_flags q) REQ_HAS_MESSAGE = 0%Z → (1 ≤ rq_refcnt q < 2 ^ 31 - 2)%Z →
  Forall code_ok (responses hrt) → at_disk r' a (lent_once (entered q uid)) hrid hrt rt.
Proof.
  intros (pre & _ & Hto) Hr Hh Hrt Hm Hc Hco. split; simpl; try done; try lia.
  - by eapply touches_lookup.
  - apply in_sieve_set.
  - by rewrite (to_routes _ _ _ _ _ Hto).
  - by rewrite Z.land_lor_distr_l, Hm.
Qed.

Lemma disk_sent_pending a q1 hrid hrt r r' : disk_sent r a q1 hrid hrt r' → pending_ok r'.
Proof. intros (pre & _ & Hto). apply Hto. Qed.

Lemma disk_refused_pending a q1 hrt r r' : disk_refused r a q1 hrt r' → pending_ok r'.
Proof. intros (pre & res & date & _ & _ & _ & Hto). apply Hto. Qed.

(** What went out on the sockets. *)
Lemma disk_sent_wire a q1 hrid hrt r r' :
  disk_sent r a q1 hrid hrt r' → (wire DiskSock (trace r)).2 = [] →
  delivered DiskSock (trace r') = delivered DiskSock (trace r) ++ [disk_parts_of q1 hrid hrt].
Proof.
  intros (pre & Hpre & Hto) Hw. unfold delivered. rewrite (to_trace _ _ _ _ _ Hto), !wire_app. cbn [foldl wire_step].
  rewrite foldl_app, (wire_refused _ _ pre Hpre). destruct (wire DiskSock (trace r)) as [ms acc]. simpl in Hw. subst acc.
  unfold disk_parts_of. by rewrite wire_sent.
Qed.

Lemma disk_refused_wire a q1 hrt r r' :
  disk_refused r a q1 hrt r' → delivered DiskSock (trace r') = delivered DiskSock (trace r).
Proof.
  intros (pre & res & date & Hpre & Hne & _ & Hto). unfold delivered.
  rewrite (to_trace _ _ _ _ _ Hto), wire_app. cbn [foldl wire_step].
  rewrite foldl_app, (wire_refused _ _ pre Hpre). cbn [foldl wire_step]. rewrite wire_static.
  by destruct res.
Qed.

Lemma refused_quiet pre : Forall Backend.refused pre → Forall quiet pre.
Proof. intros Hp. eapply Forall_impl; [exact Hp|]. by intros []. Qed.

Lemma disk_refused_reply a q1 hrt r r' :
  disk_refused r a q1 hrt r' → ∃ new, trace r' = trace r ++ new ∧ reply_events a new.
Proof.
  intros (pre & res & date & Hpre & _ & _ & Hto). eexists. split; [exact (to_trace _ _ _ _ _ Hto)|].
  change (reply_events a ([FeedEvent DiskSock] ++ pre ++ [ZmqSend DiskSock (rq_uid q1) true res] ++
    static_reply a date (disk_refusal hrt res))).
  do 3 (apply reply_events_quiet; [first [by apply refused_quiet|by repeat constructor]|]). apply static_reply_events.
Qed.

Lemma disk_sent_quiet a q1 hrid hrt r r' :
  disk_sent r a q1 hrid hrt r' → answered a (trace r') = answered a (trace r).
Proof.
  intros (pre & Hpre & Hto). rewrite (to_trace _ _ _ _ _ Hto). apply answered_quiet. constructor; [done|].
  apply Forall_app. split; [by apply refused_quiet|apply sent_events_quiet].
Qed.
End requests.

(** ** Lemmas: a thread *)




Section threads.
Context `{LogLevel, HttpConfig, FileSystem, ThreadEnv, DiskConfig}.

End threads.

(** ** Claims *)

(** C12: A request for a file is handed to the threads as one message, with a new
    identifier that finds the request again, and then waits, without an answer;
    when the message is not taken the request is answered at once, and nothing
    goes out. *)
Theorem disk_request_correct `{LogLevel, Malloc, Env, Digest, Website, HttpConfig, DiskConfig} (r : root) (a : addr)
    (q : request) (hrid : route_id) (hrt : hroute) (rt : route) (urandom : random_device)
    (Hzmq : zmq_laws) (Hdate : ∀ req, is_Some (http_date req))
    (Hok : pending_ok r) (Ha : requests r !! a = Some q) (Hs : in_sieve q = false)
    (Hr : rq_route q = Some hrid) (Hh : hroutes !! hrid = Some hrt) (Hrt : routes r !! hrid = Some rt)
    (Hcodes : Forall code_ok (responses hrt)) (Hthreads : disk_threads = true)
    (Hrefs : (1 ≤ rq_refcnt q < 2 ^ 31 - 2)%Z) (Hmessage : Z.land (rq_flags q) REQ_HAS_MESSAGE = 0%Z)
    (Hfull : sieve_full (request_sieve r) = false)
    (Hbetween : (wire DiskSock (trace r)).2 = []) :
  wp (disk_request a urandom) (λ ok r', ok = true ∧ pending_ok r' ∧ ∃ uid, length uid = UID_LEN ∧
    ((at_disk r' a (lent_once (entered q uid)) hrid hrt rt ∧ answered a (trace r') = answered a (trace r) ∧
      delivered DiskSock (trace r') =
        delivered DiskSock (trace r) ++ [[uid; []; disk_struct (disk_work q hrid (hr_static hrt))]]) ∨
     ((∃ new, trace r' = trace r ++ new ∧ reply_events a new) ∧
      delivered DiskSock (trace r') = delivered DiskSock (trace r)))) r.
Proof.
  eapply wp_mono; [apply (wp_disk_request Hzmq Hdate a q hrid hrt urandom r); done || lia|].
  intros ok r' (-> & uid & Hl & Hd). split; [done|].
  split; [by destruct Hd as [Hd%disk_sent_pending|Hd%disk_refused_pending]|]. exists uid. split; [done|].
  destruct Hd as [Hd|Hd]; [left|right].
  - split_and!; [by eapply disk_sent_waits|by eapply disk_sent_quiet|by eapply (disk_sent_wire _ (entered q uid))].
  - split; [by eapply disk_refused_reply|by eapply disk_refused_wire].
Qed.


(** C10: Which files leave the server.  For every request for a path of plain
    components: where the byte behind the array of the file's name is unused, and
    the disk has no read errors but interruptions, the thread finds an answer, and
    if that has the contents of a file, they are complete, the request's name is
    not denied, and the file is the one that the name resolves to, which is where
    the configuration allows it to be; the one exception is the compressed file
    beside it, which is opened by its name alone, so that it is not resolved
    again.  Where that byte is in use, the thread still refuses every name that is
    denied, and overwrites the byte for every other name. *)
Theorem disk_answer_correct `{LogLevel, HttpConfig, FileSystem, ThreadEnv, DiskConfig} (req : disk_req) (rt : hroute)
    (comps : list bytes) (k : nat)
    (Hfiles : files_ok) (Hsound : disk_sound) (Hrt : hroutes !! d_route req = Some rt) (Hindex : index_ok (hr_static rt))
    (Hpath : d_path req = path_of comps) (Hplain : Forall plain_component comps)
    (Hstrip : sc_strip_dirs (hr_static rt) = Z.of_nat k) (Hk : k < length comps) :
  if unused_behind (array_size (hr_static rt) k comps)
  then wp (disk_answer req) (λ parts _, parts ∈ error_answers ∨ answers_with (hr_static rt) req k comps parts) tt
  else disk_answer req tt = Ok denied tt ∧ ¬ name_allowed (hr_static rt) (path_of comps) ∨
       disk_answer req tt = Faulted OutOfBounds ∧ name_allowed (hr_static rt) (path_of comps).
Proof. destruct (unused_behind _) eqn:Hu; [by apply wp_disk_answer|by apply (disk_answer_array req rt comps k)]. Qed.


(** A read error at the start of a file moves the position in front of the buffer:
    what is read next is written there. *)
Theorem read_error_corrupts `{LogLevel, FileSystem} (path if_mod b : bytes) (f : file) (l : list read_result)
    (Hopen : open_file 0 path = Opened f) (Hretries : open_retries ≠ 0)
    (Hstat : fl_stat f = true) (Hdir : fl_dir f = false) (Hnew : (upto NUL if_mod).1 ≠ fl_lastmod f)
    (Hmemory : fl_memory f = true) (Hsize : (0 < fl_size f < 2 ^ 64 - 1)%Z) (Hreads : fl_reads f = RError :: RData b :: l) :
  get_file path if_mod false tt = Faulted OutOfBounds.
Proof.
  unfold get_file. destruct open_retries as [|n]; [done|]. cbn [open_loop]. rewrite Hopen.
  unfold mbind, M_bind, mret, M_ret. rewrite Hstat, Hdir, Hmemory, Hreads, decide_False by done. cbn [negb read_loop].
  rewrite decide_False by lia. rewrite u64_small by lia. by rewrite decide_False by lia.
Qed.

(** A signal that arrives while an answer is sent ends the process. *)
Theorem interrupted_answer_aborts `{LogLevel, HttpConfig, FileSystem, ThreadEnv, DiskConfig} (unstruct : bytes → disk_req)
    (i : nat) (data p : bytes) (parts : list bytes) (msgs : list (option (list bytes)))
    (Hdata : data ≠ str "shutdown") (Hans : disk_answer (unstruct data) tt = Ok (p :: parts) tt)
    (Hmemory : part_memory i 0 p = true) (Hsignal : part_send_fails i 0 p = true) (Hlog : (LOG_ALERT ≤ LOGLEVEL)%Z) :
  disk_loop unstruct i (Some [data] :: msgs) tt = Aborted.
Proof.
  cbn [disk_loop]. rewrite decide_False by done. unfold mbind, M_bind. rewrite Hans. cbn [send_parts].
  rewrite Hmemory, Hsignal. unfold SNIMPL. by rewrite (proj2 (Z.leb_le _ _) Hlog).
Qed.

(** ** Examples *)

(** A file whose first [open] is interrupted, and which is read in two steps. *)
Definition example_file : file :=
  mk_file true false 5 (str "Sun, 01 Jan 2012 00:00:00 GMT") true [RData (str "hel"); RData (str "lo")] false.
Definition example_files : FileSystem := {|
  realpath p := Some p;
  open_file n p := if decide (p = str "/srv/www/js/app.js") then if decide (n = 0) then OpenEINTR else Opened example_file
                   else OpenFails;
  open_retries := 2;
|}.
Definition example_threads : DiskConfig := {|
  disk_threads := true; IF_MODIFIED := 0; ACCEPT_ENCODING := 1;
  mime_types := prepare_mime [(str "js", str "application/javascript")] [str "text/css css"];
  no_extension := str "text/plain"; default_type := str "application/octet-stream";
  disk_struct work := d_path work;
|}.
(** A machine that rounds the sizes of arrays up to 16 bytes. *)
Definition example_machine : ThreadEnv := {|
  unused_behind n := negb (n mod 16 =? 0); part_memory _ _ _ := true; part_send_fails _ _ _ := false;
|}.
(** A route with files; its first directory is not part of their names. *)
Definition example_site : hroute :=
  (example_route Leaf []) <| hr_forward := false |> <| hr_static := example_static |>.
Definition example_sites_config : HttpConfig := {| hroutes := {[0 := example_site]}; Routing := 0; route_depth := 1 |}.
Definition example_path : list bytes := [str "static"; str "js"; str "app.js"].
Definition example_visitor : request := plain_request "GET" "/static/js/app.js" "" 0.
Definition example_fresh : root :=
  empty_root <| request_sieve := mk_sieve 0 4 0 0 [None; None; None; None] |>
             <| instance_id := replicate IID_LEN "i"%char |>
             <| routes := {[0 := plain_route 0 0]} |> <| requests := {[5 := example_visitor]} |>.

#[local] Existing Instance example_level.
#[local] Existing Instance example_malloc.
#[local] Existing Instance example_env.
#[local] Existing Instance example_website.
#[local] Existing Instance example_digest.
#[local] Existing Instance example_sites_config.
#[local] Existing Instance example_files.
#[local] Existing Instance example_threads.
#[local] Existing Instance example_machine.

Lemma example_files_ok : files_ok.
Proof.
  split.
  - intros n p f. simpl. repeat case_decide; try done. intros [= <-]. split; [simpl; lia|].
    apply (reads_data 5 (str "hel")); [done|simpl; lia|]. apply (reads_data 2 (str "lo")); [done|simpl; lia|].
    apply reads_done.
  - intros p. exists 1. split; [simpl; lia|]. simpl. by case_decide.
Qed.

Lemma example_sound : disk_sound.
Proof. intros n p f. simpl. repeat case_decide; try done. intros [= <-]. split; [|done]. set_solver. Qed.



Lemma example_path_plain : Forall plain_component example_path.
Proof. repeat constructor; try discriminate; apply (bool_decide_unpack _); vm_compute; exact I. Qed.

Lemma example_fresh_ok : pending_ok example_fresh.
Proof.
  split; try done.
  - split; simpl; try done; try lia.
  - intros a q Hq. simpl in Hq. apply lookup_singleton_Some in Hq as [<- <-]. done.
  - intros a q Hq. simpl in Hq. apply lookup_singleton_Some in Hq as [<- <-]. done.
Qed.

Lemma example_codes : Forall code_ok (responses example_site).
Proof. repeat constructor; simpl; lia || done. Qed.

(** The request waits at the threads. *)
Definition example_random : random_device := random_of (replicate UID_NRANDOM "r"%char).
Definition example_at_disk : root :=
  match disk_request 5 example_random example_fresh with Ok _ r => r | _ => empty_root end.
Definition example_asked : request := default example_visitor (requests example_at_disk !! 5).


Lemma disk_request_correct_witness :
  ∃ r', disk_request 5 example_random example_fresh = Ok true r' ∧
    (∃ uid, delivered DiskSock (trace r') = [[uid; []; str "/static/js/app.js"]]).
Proof.
  destruct (proj1 (wp_Ok _ _ _) (disk_request_correct example_fresh 5 example_visitor 0 example_site (plain_route 0 0)
    example_random example_laws (λ _, ltac:(by eexists)) example_fresh_ok eq_refl eq_refl eq_refl eq_refl
    eq_refl example_codes eq_refl ltac:(simpl; lia) eq_refl eq_refl eq_refl))
    as (ok & r' & Hrun & -> & _ & uid & _ & [(_ & _ & Hd)|[_ Hd]]).
  - exists r'. split; [exact Hrun|]. exists uid. exact Hd.
  - vm_compute in Hrun. injection Hrun as <-. vm_compute in Hd. discriminate Hd.
Defined.

Lemma disk_answer_correct_witness :
  ∃ parts, disk_answer (disk_work example_asked 0 example_static) tt = Ok parts tt ∧
    nth_error parts 2 = Some (str "hello") ∧
    answers_with example_static (disk_work example_asked 0 example_static) 1 example_path parts.
Proof.
  destruct (proj1 (wp_Ok _ _ _) (@disk_answer_correct example_level example_sites_config example_files example_machine
    example_threads (disk_work example_asked 0 example_static) example_site example_path 1
    example_files_ok example_sound eq_refl ltac:(apply (bool_decide_unpack _); vm_compute; exact I) ltac:(vm_compute; reflexivity)
    example_path_plain eq_refl ltac:(vm_compute; lia))) as (parts & [] & Hrun & Hans).
  exists parts. split; [exact Hrun|]. assert (Hp : nth_error parts 2 = Some (str "hello")).
  { vm_compute in Hrun. injection Hrun as <-. vm_compute. reflexivity. }
  split; [exact Hp|]. destruct Hans as [He|Hans]; [|exact Hans]. exfalso. unfold error_answers in He.
  rewrite !elem_of_cons in He. destruct He as [->|[->|[->|[->|He%elem_of_nil]]]]; [discriminate Hp..|exact He].
Defined.



(** A disk that fails once. *)
Example read_error_corrupts_example :
  let FS : FileSystem := {| realpath p := Some p; open_retries := 1;
    open_file _ _ := Opened (mk_file true false 5 (str "now") true [RError; RData (str "hello")] false) |} in
  get_file (str "/srv/www/a") (replicate 32 NUL) false tt = Faulted OutOfBounds.
Proof. vm_compute. reflexivity. Qed.

(** A signal while the status line is sent. *)
Example interrupted_answer_example :
  let TE : ThreadEnv := {| unused_behind _ := true; part_memory _ _ _ := true; part_send_fails _ _ _ := true |} in
  let work := disk_work example_asked 0 example_static in
  disk_loop (λ _, work) 0 [Some [disk_struct work]; Some [str "shutdown"]] tt = Aborted.
Proof. vm_compute. reflexivity. Qed.
