(* ===== verification/Start.v ===== *)
(** * Start-up (prepare_websockets of websocket.c, and how main.c prepares the server)

    The sockets of all routes are opened, their queues are made and their timers
    are started; what the server does later begins with the state that this
    leaves. *)

From S2P Require Import Prelude Sieve Pool MsgQueue Uidgen Links State Topics Backend Outputs Hybi.
From S2P Require Import CometArgs Request Comet Session Frontend Publish Inbound Commands Control Sockets Routing.

(** ** Configuration *)

(** The sockets of a route, and how often its backends hear from the server. *)
Record wsconf := mk_wsconf {
  wc_subscribe : zmqsocket;
  wc_forward : zmqsocket;
  wc_heartbeat_interval : Z;
  wc_outputs : list (zmqsocket * Z);   (* named_outputs, with sync_interval *)
}.

Class StartConfig := {
  wsockets : gmap nat wsconf;
  server_ident : Z;
  max_requests : Z;
  max_websockets : Z;
  backend_messages : Z;
  frontend_messages : Z;
  subscriptions : Z;
  sizeof_backend_msg : Z;
  sizeof_frontend_msg : Z;
  sizeof_subscriber : Z;
}.

(** ** Operations *)

(** The server while it starts: its state, the heap of the tables, the calls of
    zeromq, and for each socket of a route whether it is open and its timer runs. *)
Record boot := mk_boot {
  b_root : root;
  b_heap : heap;
  b_calls : list zcall;
  b_opened : gmap sock_id Sockets.opened;
  b_timers : gset sock_id;
}.
#[export] Instance rebuild_boot : Rebuild boot := λ b,
  mk_boot (b_root b) (b_heap b) (b_calls b) (b_opened b) (b_timers b).

Abbreviation MB := (M boot).

Section operations.
Context `{LogLevel, Malloc, ZmqSetup, StartConfig}.

Definition on_root {A} : MR A → MB A := zoom b_root (λ r b, b <| b_root := r |>).
Definition on_zmq {A} : M (list zcall) A → MB A := zoom b_calls (λ c b, b <| b_calls := c |>).
Definition on_sieves {A} : M heap A → MB A := zoom b_heap (λ h b, b <| b_heap := h |>).
Definition on_pool {A} (get : root → arena) (put : arena → root → root) (m : M pool A) : MB A :=
  on_root (zoom (λ r, a_pool (get r)) (λ p r, put ((get r) <| a_pool := p |>) r) m).

Definition open_socket (s : sock_id) (sock : zmqsocket) (kinds : Z) (defkind : zmq_type) : MB unit :=
  o ← on_zmq (zmq_open sock kinds defkind true true);
  SNIMPL (bool_decide (o = None));;
  match o with
  | Some o => modify (λ b, b <| b_opened ::= <[s := o]> |>)
  | None => mret tt
  end.

Definition start_timer (s : sock_id) (interval : Z) : MB unit :=
  whenb (bool_decide (interval ≠ 0)%Z) (modify (λ b, b <| b_timers ::= union {[s]} |>)).

Definition make_queue (s : sock_id) (capacity : Z) : MB unit :=
  on_root (modify (λ r, r <| socks ::= <[s := mk_sock (init_queue capacity) []]> |>)).

(** src/src/websocket.c:846-854 [socket_visitor] *)
Definition open_subscribe (rid : route_id) (sock : zmqsocket) : MB unit :=
  open_socket (Subscribe rid) sock (Z.lor ZMASK_PULL ZMASK_SUB) ZMQ_SUB;;
  if decide (sk_kind sock = zmq_Sub ∨ sk_kind sock = kind_auto) then
    b ← get;
    on_zmq (SNIMPL_call (zmq_setsockopt (op_sock (default not_opened (b_opened b !! Subscribe rid))) (ZMQ_SUBSCRIBE [])))
  else mret tt.

(** src/src/websocket.c:855-866 [socket_visitor] *)
Definition open_backend (rid : route_id) (rt : route) (wc : wsconf) : MB unit :=
  open_socket (Forward rid) (wc_forward wc) (Z.lor ZMASK_PUSH ZMASK_PUB) ZMQ_PUB;;
  start_timer (Forward rid) (wc_heartbeat_interval wc);;
  make_queue (Forward rid) (rt_max_backend_queue rt).

(** src/src/websocket.c:867-878 [socket_visitor] *)
Fixpoint open_outputs (rid : route_id) (rt : route) (i : nat) (l : list (zmqsocket * Z)) : MB unit :=
  match l with
  | [] => mret tt
  | (sock, sync_interval) :: l =>
      open_socket (Named rid i) sock (Z.lor ZMASK_PUSH ZMASK_PUB) ZMQ_PUB;;
      make_queue (Named rid i) (rt_max_backend_queue rt);;
      start_timer (Named rid i) sync_interval;;
      open_outputs rid rt (S i) l
  end.

(** The routes are a tree of a depth below [n].
    src/src/websocket.c:845-886 [socket_visitor] *)
Fixpoint socket_visitor (n : nat) (rid : route_id) : MB unit :=
  match n with
  | O => out_of_fuel
  | S n =>
      rt ← on_root (get_route rid);
      wc ← deref UseAfterFree (wsockets !! rid);
      whenb (rt_subscribe rt) (open_subscribe rid (wc_subscribe wc));;
      whenb (rt_forward rt) (open_backend rid rt wc);;
      open_outputs rid rt 0 (wc_outputs wc);;
      mfor (rt_children rt) (socket_visitor n)
  end.

(** src/src/websocket.c:988-999 [prepare_websockets] *)
Definition prepare_websockets (n : nat) (rroot : route_id) : MB bool :=
  on_root (modify (λ r, r <| paused := false |>));;
  on_pool backend_arena (λ a r, r <| backend_arena := a |>) (init_pool sizeof_backend_msg backend_messages);;
  on_pool frontend_arena (λ a r, r <| frontend_arena := a |>) (init_pool sizeof_frontend_msg frontend_messages);;
  on_pool sub_arena (λ a r, r <| sub_arena := a |>) (init_pool sizeof_subscriber subscriptions);;
  socket_visitor n rroot;;
  mret true.

(** src/src/main.c:25-28 [init_statistics] *)
Definition init_statistics : MB unit := on_root (modify (λ r, r <| stat := zero_statistics |>)).

(** The statistics' socket, the control socket, the routes' tables and the disk
    threads are prepared by functions that do not touch this state.
    src/src/main.c:363-382 [main] *)
Definition start_server (n : nat) (rroot : route_id) (tv_sec tv_usec : Z) : MB unit :=
  on_root (modify (λ r, r <| instance_id := init_uid server_ident tv_sec tv_usec |>));;
  init_statistics;;
  rs ← on_sieves (sieve_prepare max_requests);
  on_root (modify (λ r, r <| request_sieve := rs |>));;
  hs ← on_sieves (sieve_prepare max_websockets);
  on_root (modify (λ r, r <| hsieve := hs |>));;
  ok ← prepare_websockets n rroot;
  SNIMPL (negb ok).
End operations.

(** ** Specification *)

(** A socket of a route. *)
Definition route_socket (C : gmap nat route) (rid : route_id) (s : sock_id) : Prop :=
  queue_socket C rid s ∨ ∃ rt, C !! rid = Some rt ∧ rt_subscribe rt = true ∧ s = Subscribe rid.

Definition has_queue (s : sock_id) : bool := match s with Forward _ | Named _ _ => true | _ => false end.

(** An empty queue of the size that the route of the socket gives it. *)
Definition empty_sock (C : gmap nat route) (s : sock_id) : sock :=
  let capacity rid := from_option rt_max_backend_queue 0%Z (C !! rid) in
  mk_sock (init_queue match s with Forward rid | Named rid _ => capacity rid | _ => 0%Z end) [].

(** Kinds of sockets that the configuration may give. *)
Definition sends (sock : zmqsocket) : Prop := sk_kind sock ∈ [kind_auto; zmq_Push; zmq_Pub].
Definition receives (sock : zmqsocket) : Prop := sk_kind sock ∈ [kind_auto; zmq_Pull; zmq_Sub].

Record wsconf_ok (rt : route) (wc : wsconf) : Prop := {
  wo_subscribe : rt_subscribe rt = true → receives (wc_subscribe wc);
  wo_forward : rt_forward rt = true → sends (wc_forward wc);
  wo_outputs : Forall (λ o, sends o.1) (wc_outputs wc);
  wo_names : length (wc_outputs wc) = length (rt_outputs rt);
}.

(** A server of which nothing exists yet. *)
Record blank (r : root) : Prop := {
  bl_trace : trace r = [];
  bl_requests : requests r = ∅;
  bl_hybis : hybis r = ∅;
  bl_topics : topics r = ∅ ∧ subs r = ∅;
  bl_outputs : outputs r = ∅;
  bl_messages : bmsgs r = ∅ ∧ fmsgs r = ∅;
  bl_socks : socks r = ∅;
  bl_heaps : heap_wf (hybi_heap r) ∧ heap_wf (topic_heap r) ∧ heap_wf (output_heap r);
  bl_arenas : ∀ a, a ∈ [backend_arena r; frontend_arena r; sub_arena r] → heap_wf (a_heap a) ∧ live (a_heap a) = ∅;
  bl_routes : ∀ rid rt, routes r !! rid = Some rt → rt_topics rt = None ∧ (0 < rt_topic_hash_size rt < 2 ^ 31)%Z;
}.

(** What opening the sockets [P] makes of the server. *)
Record grows (C : gmap nat route) (P : sock_id → Prop) (b b' : boot) : Prop := {
  gr_rest : b_root b' = (b_root b) <| socks := socks (b_root b') |>;
  gr_old : ∀ s so, socks (b_root b') !! s = Some so →
    socks (b_root b) !! s = Some so ∨ (P s ∧ has_queue s = true ∧ so = empty_sock C s);
  gr_socks : ∀ s, s ∈ dom (socks (b_root b)) ∨ (P s ∧ has_queue s = true) → s ∈ dom (socks (b_root b'));
  gr_opened : ∀ s, s ∈ dom (b_opened b') ↔ s ∈ dom (b_opened b) ∨ P s;
}.

(** The server when it is ready to run. *)
Record started `{StartConfig} (C : gmap nat route) (rroot : route_id) (b : boot) : Prop := {
  sd_ok : full_ok ∅ (b_root b);
  sd_running : paused (b_root b) = false;
  sd_requests : sieve_wf (request_sieve (b_root b)) ∧ max (request_sieve (b_root b)) = Z.to_nat max_requests;
  sd_websockets : max (hsieve (b_root b)) = Z.to_nat max_websockets;
  sd_socks : ∀ s, socks (b_root b) !! s ≠ None ↔ ∃ x, in_tree C rroot x ∧ queue_socket C x s;
  sd_empty : ∀ s so, socks (b_root b) !! s = Some so → so = empty_sock C s;
  sd_opened : ∀ s, is_Some (b_opened b !! s) ↔ ∃ x, in_tree C rroot x ∧ route_socket C x s;
  sd_routes : static_route <$> routes (b_root b) = C ∧ ∀ x, in_tree C rroot x → route_ready (b_root b) x;
}.

(** ** Lemmas *)
Section lemmas.
Context `{LogLevel, Malloc, ZmqSetup, StartConfig}.
Hypothesis Hready : zmq_ready.
Context (rank : route_id → nat) (C : gmap nat route).
Hypothesis Htree : tree_of rank C.
Hypothesis Hconf : ∀ rid rt, C !! rid = Some rt → ∃ wc, wsockets !! rid = Some wc ∧ wsconf_ok rt wc.
Implicit Types b : boot.

Lemma grows_refl b : grows C (λ _, False) b b.
Proof. split; [by destruct b as [[] ? ? ? ?]|tauto|intros ? [?|[[] _]]; done|intros ?; tauto]. Qed.

Lemma grows_trans P P' b1 b2 b3 : grows C P b1 b2 → grows C P' b2 b3 → grows C (λ s, P s ∨ P' s) b1 b3.
Proof.
  intros [R1 O1 S1 N1] [R2 O2 S2 N2]. split.
  - rewrite R2, R1. by destruct (b_root b1).
  - intros s so [Hs|(? & ? & ?)]%O2; [|right; tauto]. apply O1 in Hs as [?|(? & ? & ?)]; [by left|right; tauto].
  - intros s [Hs|[[Hp|Hp] Hq]]; apply S2; [left; apply S1; by left|left; apply S1; by right|by right].
  - intros s. rewrite N2, N1. tauto.
Qed.

Lemma grows_iff (P P' : sock_id → Prop) b b' : (∀ s, P s ↔ P' s) → grows C P b b' → grows C P' b b'.
Proof.
  intros E [R O S N]. split; [done| | |].
  - intros s so Hs%O. by rewrite <- (E s).
  - intros s. rewrite <- (E s). apply S.
  - intros s. rewrite <- (E s). apply N.
Qed.

Lemma wp_open_socket s sock kinds defkind b (Q : unit → boot → Prop) :
  Z.land (socket_type (sk_kind sock) defkind).2 kinds ≠ 0%Z →
  (∀ o tr, Q tt (b <| b_calls := tr |> <| b_opened := <[s := o]> (b_opened b) |>)) →
  wp (open_socket s sock kinds defkind) Q b.
Proof.
  intros Hk HQ. unfold open_socket. apply wp_bind, wp_zoom. eapply (wp_zmq_open Hready); [done|].
  intros [o|] tr Ho; [|done]. apply wp_bind, wp_SNIMPL; [done|]. apply wp_modify, HQ.
Qed.

Lemma sends_mask sock : sends sock → Z.land (socket_type (sk_kind sock) ZMQ_PUB).2 (Z.lor ZMASK_PUSH ZMASK_PUB) ≠ 0%Z.
Proof. unfold sends. rewrite !elem_of_cons. intros [->|[->|[->|[]%elem_of_nil]]]; done. Qed.

Lemma receives_mask sock :
  receives sock → Z.land (socket_type (sk_kind sock) ZMQ_SUB).2 (Z.lor ZMASK_PULL ZMASK_SUB) ≠ 0%Z.
Proof. unfold receives. rewrite !elem_of_cons. intros [->|[->|[->|[]%elem_of_nil]]]; done. Qed.

(** A socket whose messages are not queued. *)
Lemma grows_bare s b o tr t :
  has_queue s = false →
  grows C (λ s', s' = s) b (mk_boot (b_root b) (b_heap b) tr (<[s := o]> (b_opened b)) t).
Proof.
  intros Hs. split; simpl.
  - by destruct (b_root b).
  - by left.
  - intros s' [?|[-> ?]]; [done|congruence].
  - intros s'. rewrite dom_insert. set_solver.
Qed.

Lemma grows_queue s b o tr t :
  has_queue s = true →
  grows C (λ s', s' = s) b (mk_boot ((b_root b) <| socks := <[s := empty_sock C s]> (socks (b_root b)) |>)
    (b_heap b) tr (<[s := o]> (b_opened b)) t).
Proof.
  intros Hs. split; simpl.
  - done.
  - intros s' so. rewrite lookup_insert_Some. intros [[<- <-]|[_ ?]]; [by right|by left].
  - intros s'. rewrite dom_insert. set_solver.
  - intros s'. rewrite dom_insert. set_solver.
Qed.

Lemma wp_open_subscribe rid sock b (Q : unit → boot → Prop) :
  receives sock → (∀ b', grows C (λ s, s = Subscribe rid) b b' → Q tt b') → wp (open_subscribe rid sock) Q b.
Proof.
  intros Hr HQ. unfold open_subscribe. apply wp_bind, wp_open_socket; [by apply receives_mask|]. intros o tr.
  case_decide; [|by apply wp_ret, HQ, (grows_bare _ b)]. apply wp_bind, wp_get, wp_zoom. unfold SNIMPL_call.
  apply wp_bind. unfold zmq_setsockopt, call, wp at 1. rewrite (zr_setsockopt Hready). apply wp_SNIMPL; [done|].
  by apply HQ, (grows_bare _ b).
Qed.

Lemma wp_start_timer s ivl b (Q : unit → boot → Prop) :
  (∀ t, Q tt (b <| b_timers := t |>)) → wp (start_timer s ivl) Q b.
Proof.
  intros HQ. unfold start_timer. apply wp_whenb; intros _; [apply wp_modify, HQ|].
  specialize (HQ (b_timers b)). by destruct b.
Qed.

Lemma wp_open_backend rid rt wc b (Q : unit → boot → Prop) :
  C !! rid = Some (static_route rt) → sends (wc_forward wc) →
  (∀ b', grows C (λ s, s = Forward rid) b b' → Q tt b') → wp (open_backend rid rt wc) Q b.
Proof.
  intros E Hs HQ. unfold open_backend. apply wp_bind, wp_open_socket; [by apply sends_mask|]. intros o tr.
  apply wp_bind, wp_start_timer. intros t. apply wp_zoom, wp_modify, HQ.
  pose proof (grows_queue (Forward rid) b o tr t eq_refl) as Hg. unfold empty_sock in Hg. by rewrite E in Hg.
Qed.

Lemma wp_open_outputs rid rt l : ∀ i b (Q : unit → boot → Prop),
  C !! rid = Some (static_route rt) → Forall (λ o, sends o.1) l →
  (∀ b', grows C (λ s, ∃ j, i ≤ j < i + length l ∧ s = Named rid j) b b' → Q tt b') →
  wp (open_outputs rid rt i l) Q b.
Proof.
  induction l as [|[sock ivl] l IH]; intros i b Q E Hl HQ; cbn [open_outputs].
  { apply wp_ret, HQ. eapply grows_iff; [|apply grows_refl]. intros s. split; [done|]. intros (j & ? & _). simpl in *. lia. }
  apply Forall_cons in Hl as [Hs Hl].
  apply wp_bind, wp_open_socket; [by apply sends_mask|]. intros o tr.
  apply wp_bind, wp_zoom, wp_modify, wp_bind, wp_start_timer. intros t. apply IH; [done..|]. intros b' Hg. apply HQ.
  pose proof (grows_queue (Named rid i) b o tr t eq_refl) as Hq. unfold empty_sock in Hq. rewrite E in Hq.
  eapply grows_iff; [|eapply grows_trans; [exact Hq|exact Hg]]. intros s. simpl. split.
  - intros [->|(j & ? & ->)]; [exists i|exists j]; split; lia || done.
  - intros (j & ? & ->). destruct (decide (j = i)) as [->|]; [by left|right; exists j; split; [lia|done]].
Qed.

Lemma grows_routes P b b' : grows C P b b' → routes (b_root b') = routes (b_root b).
Proof. intros [-> _ _ _]. done. Qed.

Lemma wp_mfor_visit n l : ∀ b (Q : unit → boot → Prop),
  (∀ c b (Q : unit → boot → Prop), c ∈ l → static_route <$> routes (b_root b) = C →
     (∀ b', grows C (λ s, ∃ x, in_tree C c x ∧ route_socket C x s) b b' → Q tt b') → wp (socket_visitor n c) Q b) →
  static_route <$> routes (b_root b) = C →
  (∀ b', grows C (λ s, ∃ c x, c ∈ l ∧ in_tree C c x ∧ route_socket C x s) b b' → Q tt b') →
  wp (mfor l (socket_visitor n)) Q b.
Proof.
  induction l as [|c l IH]; intros b Q Hc HC HQ; cbn [mfor].
  - apply wp_ret, HQ. eapply grows_iff; [|apply grows_refl]. intros s. split; [done|].
    by intros (c & x & ?%elem_of_nil & _).
  - apply wp_bind. apply Hc; [by left|done|]. intros b1 G1. apply IH; [|by rewrite (grows_routes _ _ _ G1)|].
    + intros c' b2 Q' Hin. apply Hc. by right.
    + intros b2 G2. apply HQ. eapply grows_iff; [|eapply grows_trans; [exact G1|exact G2]]. intros s. split.
      * intros [(x & ? & ?)|(c' & x & ? & ? & ?)]; [exists c, x|exists c', x]; split_and!; try done; by constructor.
      * intros (c' & x & [->|Hin]%elem_of_cons & ? & ?); [left|right]; eauto.
Qed.

Lemma wp_visit_route n : ∀ rid b (Q : unit → boot → Prop),
  static_route <$> routes (b_root b) = C → is_Some (C !! rid) → rank rid < n →
  (∀ b', grows C (λ s, ∃ x, in_tree C rid x ∧ route_socket C x s) b b' → Q tt b') →
  wp (socket_visitor n rid) Q b.
Proof.
  induction n as [|n IH]; intros rid b Q HC [rt0 Ert0] Hn HQ; [lia|]. cbn [socket_visitor].
  assert (Ert : ∃ rt, routes (b_root b) !! rid = Some rt ∧ rt0 = static_route rt).
  { rewrite <- HC, lookup_fmap in Ert0. by apply fmap_Some_1 in Ert0. }
  destruct Ert as (rt & Ert & ->). destruct (Hconf rid _ Ert0) as (wc & Ewc & Hwc).
  apply wp_bind, wp_zoom. eapply wp_get_route; [done|]. rewrite Ewc. apply wp_bind, (wp_deref _ _ wc); [done|].
  replace (b <| b_root := b_root b |>) with b by by destruct b.
  assert (Hsub : ∀ (Q : unit → boot → Prop),
    (∀ b', grows C (λ s, rt_subscribe rt = true ∧ s = Subscribe rid) b b' → Q tt b') →
    wp (whenb (rt_subscribe rt) (open_subscribe rid (wc_subscribe wc))) Q b).
  { intros Q' HQ'. apply wp_whenb; intros Es.
    - apply wp_open_subscribe; [by apply Hwc|]. intros b' G. apply HQ'. eapply grows_iff; [|exact G]. intros s; simpl; tauto.
    - apply HQ'. eapply grows_iff; [|apply grows_refl]. intros s. rewrite Es. by split; [|intros [? _]]. }
  apply wp_bind, Hsub. intros b1 G1.
  assert (Hfwd : ∀ (Q : unit → boot → Prop),
    (∀ b', grows C (λ s, rt_forward rt = true ∧ s = Forward rid) b1 b' → Q tt b') →
    wp (whenb (rt_forward rt) (open_backend rid rt wc)) Q b1).
  { intros Q' HQ'. apply wp_whenb; intros Es.
    - apply wp_open_backend; [done|by apply Hwc|]. intros b' G. apply HQ'. eapply grows_iff; [|exact G]. intros s; simpl; tauto.
    - apply HQ'. eapply grows_iff; [|apply grows_refl]. intros s. rewrite Es. by split; [|intros [? _]]. }
  apply wp_bind, Hfwd. intros b2 G2.
  apply wp_bind, wp_open_outputs; [done|by apply Hwc|]. intros b3 G3.
  apply wp_mfor_visit.
  - intros c b4 Q' Hc HC4. destruct (tree_child _ _ Htree rid _ c Ert0 Hc) as [Hs Hr]. apply IH; [done|done|lia].
  - by rewrite (grows_routes _ _ _ G3), (grows_routes _ _ _ G2), (grows_routes _ _ _ G1).
  - intros b4 G4. apply HQ. eapply grows_iff; [|exact (grows_trans _ _ _ _ _ G1 (grows_trans _ _ _ _ _ G2
      (grows_trans _ _ _ _ _ G3 G4)))].
    intros s. rewrite (wo_names _ _ Hwc). split.
    + intros [[Hs' ->]|[[Hf ->]|[(j & ? & ->)|(c & x & Hc & Hx & Hs)]]].
      * exists rid. split; [constructor|]. right. eauto.
      * exists rid. split; [constructor|]. left. eexists. split; [done|]. by left.
      * exists rid. split; [constructor|]. left. eexists. split; [done|]. right. exists j. split; [simpl in *; lia|done].
      * exists x. split; [|done]. by eapply in_tree_child.
    + intros (x & Hx & Hs). destruct Hx as [|rt' c x Ert' Hc Hx]; simplify_eq.
      * destruct Hs as [(rt' & ? & [[? ->]|(i & ? & ->)])|(rt' & ? & ? & ->)]; simplify_eq; [right; by left| |by left].
        right; right; left. exists i. split; [simpl in *; lia|done].
      * right; right; right. eauto.
Qed.
End lemmas.

(** Nothing is open and nothing waits. *)
Lemma side_ok_nil `{Countable K} {A} (f : A → list nat) (m : gmap K A) :
  (∀ k a, m !! k = Some a → f a = []) → side_ok (∅ : gmap nat K) (f <$> m).
Proof.
  intros Hf. split; intros k x; [by rewrite lookup_empty|]. rewrite lookup_fmap. intros (a & Ha & ->)%fmap_Some_1.
  rewrite (Hf k a Ha). split; [constructor|]. by intros e ?%elem_of_nil.
Qed.

Lemma full_ok_empty r :
  trace r = [] → requests r = ∅ → hybis r = ∅ → topics r = ∅ ∧ subs r = ∅ → outputs r = ∅ → bmsgs r = ∅ ∧ fmsgs r = ∅ →
  heap_wf (hybi_heap r) ∧ heap_wf (topic_heap r) ∧ heap_wf (output_heap r) →
  pool_ok ∅ (backend_arena r) ∧ pool_ok ∅ (frontend_arena r) ∧ pool_ok ∅ (sub_arena r) →
  sieve_wf (hsieve r) → holes (hsieve r) = ∅ → length (instance_id r) = IID_LEN →
  map_Forall (λ _ rt, rt_topics rt = None ∧ (0 < rt_topic_hash_size rt < 2 ^ 31)%Z) (routes r) →
  (∀ s so, socks r !! s = Some so → sock_items so = [] ∧ size (so_queue so) = 0%Z ∧ so_outputs so = []) →
  (Z.of_nat (blocks (backend_arena r)) < 2 ^ 31)%Z → full_ok ∅ r.
Proof.
  intros Etr Erq Ehy [Etp Esu] Eou [Eb Ef] (Hh & Ht & Ho) (Pb & Pf & Ps) Hwf Eholes Hid Hrt Hsk Hroom.
  assert (Hsock : ∀ f : sock → list nat, (∀ s so, socks r !! s = Some so → f so = []) →
    side_ok (∅ : gmap nat sock_id) (f <$> socks r)) by (intros f; apply side_ok_nil).
  split.
  - split.
    + split; [done..| |].
      * intros h. rewrite Eholes. split; [set_solver|]. intros [i Hi]. by rewrite lookup_empty in Hi.
      * intros i h. by rewrite Eholes, lookup_empty.
    + split; rewrite ?Ehy, ?Eb; try done.
      * exists ∅. split; [done|]. apply Hsock. intros s so Hs. by apply Hsk in Hs as (-> & _).
      * intros s so Hs. by apply Hsk in Hs as (-> & -> & _).
    + intros s. by rewrite Etr.
    + apply fresh_topics_ok. by split; rewrite ?Ehy.
    + split; [split|done|by rewrite Eou, dom_empty_L]; rewrite ?Eou, ?Ehy, ?fmap_empty; try done.
      * apply Hsock. intros s so Hs. by apply Hsk in Hs as (_ & _ & ->).
      * intros s so Hs. apply Hsk in Hs as (_ & _ & ->). apply grouped_nil.
    + intros e s0. by rewrite Esu, lookup_empty.
    + intros e o. by rewrite Eou, lookup_empty.
    + intros e o. by rewrite Eou, lookup_empty.
    + intros h hy. by rewrite Ehy, lookup_empty.
  - split; try done; unfold comet_of; rewrite ?Ehy, ?Erq, ?Eb; try done.
    + exists ∅. rewrite Ef. split; [by rewrite dom_empty_L|]. rewrite map_filter_empty, fmap_empty. apply side_empty.
    + exists ∅. by rewrite Ef, dom_empty_L.
Qed.

Lemma wp_start_server `{LogLevel, Malloc, ZmqSetup, StartConfig} (rank : route_id → nat)
    (C : gmap nat route) (b : boot) (n : nat) (rroot : route_id) (tv_sec tv_usec : Z)
    (Hready : zmq_ready) (Hmem : ∀ h size, malloc_ok h size = true) (Hblank : blank (b_root b)) (Hclosed : b_opened b = ∅)
    (HC : static_route <$> routes (b_root b) = C) (Htree : tree_of rank C) (Hroot : is_Some (C !! rroot))
    (Hn : rank rroot < n) (Hconf : ∀ rid rt, C !! rid = Some rt → ∃ wc, wsockets !! rid = Some wc ∧ wsconf_ok rt wc)
    (Hrequests : (0 ≤ max_requests < 2 ^ 20)%Z) (Hwebsockets : (0 ≤ max_websockets < 2 ^ 20)%Z)
    (Hsizes : ∀ z, z ∈ [sizeof_backend_msg; sizeof_frontend_msg; sizeof_subscriber] → (16 ≤ z < 2 ^ 64)%Z) :
  wp (start_server n rroot tv_sec tv_usec) (λ _, started C rroot) b.
Proof.
  destruct Hblank as [Btr Brq Bhy Btp Bou Bms Bsk Bhp Bar Brt].
  unfold start_server. apply wp_bind, wp_zoom, wp_modify. unfold init_statistics. apply wp_bind, wp_zoom, wp_modify.
  assert (Hsieve : ∀ size (Q : sieve addr → boot → Prop) b, (0 ≤ size < 2 ^ 20)%Z →
    (∀ s h, sieve_wf s → max s = Z.to_nat size → holes s = ∅ → Q s (b <| b_heap := h |>)) →
    wp (on_sieves (sieve_prepare size)) Q b).
  { intros size Q b0 Hs HQ. apply wp_zoom, wp_Ok.
    destruct (sieve_prepare_wf (A := addr) size (b_heap b0)) as (s & h & E & Hwf & Hm & Hh & _); [lia..|apply Hmem|].
    exists s, h. split; [exact E|]. by apply HQ. }
  apply wp_bind, Hsieve; [done|]. intros rs h1 Hrs Hrm _. apply wp_bind, wp_zoom, wp_modify.
  apply wp_bind, Hsieve; [done|]. intros hs h2 Hhs Hhm Hhole. apply wp_bind, wp_zoom, wp_modify.
  unfold prepare_websockets. apply wp_bind, wp_bind, wp_zoom, wp_modify.
  assert (Hpool : ∀ get put size mx (Q : unit → boot → Prop) b,
    (16 ≤ size < 2 ^ 64)%Z → heap_wf (a_heap (get (b_root b))) → live (a_heap (get (b_root b))) = ∅ →
    (∀ p, pool_ok ∅ (mk_arena (a_heap (get (b_root b))) p) →
       Q tt (b <| b_root := put ((get (b_root b)) <| a_pool := p |>) (b_root b) |>)) →
    wp (on_pool get put (init_pool size mx)) Q b).
  { intros get put size mx Q b0 Hs Hw Hl HQ. apply wp_zoom, wp_zoom.
    eapply wp_mono; [by apply (init_pool_ok size mx (a_heap (get (b_root b0))))|]. intros [] p [Hp _]. by apply HQ. }
  destruct (Bar (backend_arena (b_root b)) ltac:(set_solver)) as [Wb Lb].
  destruct (Bar (frontend_arena (b_root b)) ltac:(set_solver)) as [Wf Lf].
  destruct (Bar (sub_arena (b_root b)) ltac:(set_solver)) as [Ws Ls].
  apply wp_bind, Hpool; [apply Hsizes; set_solver|done..|]. intros pb Pb.
  apply wp_bind, Hpool; [apply Hsizes; set_solver|done..|]. intros pf Pf.
  apply wp_bind, Hpool; [apply Hsizes; set_solver|done..|]. intros ps Ps.
  apply wp_bind. eapply (wp_visit_route Hready rank C Htree Hconf); [done..|]. intros b' [R O S N].
  apply wp_ret. apply wp_SNIMPL; [done|]. simpl in R, O, S, N, Pb, Pf, Ps. rewrite Bsk in O, S.
  assert (Hsocks : ∀ s so, socks (b_root b') !! s = Some so →
    (∃ x, in_tree C rroot x ∧ queue_socket C x s) ∧ so = empty_sock C s).
  { intros s so [Hs|((x & Hx & Hs) & Hq & ->)]%O; [by rewrite lookup_empty in Hs|]. split; [|done].
    exists x. split; [done|]. destruct Hs as [?|(rt & _ & _ & ->)]; done. }
  assert (Hqueue : ∀ x s, in_tree C rroot x → queue_socket C x s → s ∈ dom (socks (b_root b'))).
  { intros x s Hx Hs. apply S. right. split; [exists x; split; [done|by left]|].
    by destruct Hs as (rt & _ & [[_ ->]|(i & _ & ->)]). }
  split.
  - rewrite R. apply full_ok_empty; simpl; try done.
    + intros s so [_ ->]%Hsocks. by destruct s.
    + unfold blocks. simpl. by rewrite Lb.
  - by rewrite R.
  - by rewrite R.
  - by rewrite R.
  - intros s. split.
    + intros Hs. destruct (socks (b_root b') !! s) as [so|] eqn:E; [|done]. by apply Hsocks in E as [? _].
    + intros (x & Hx & Hs) E. apply not_elem_of_dom in E. exact (E (Hqueue x s Hx Hs)).
  - intros s so Hs. by apply Hsocks in Hs as [_ ?].
  - intros s. rewrite <- elem_of_dom, N, Hclosed. set_solver.
  - split; [by rewrite R|]. intros x Hx. assert (Hs : is_Some (C !! x)).
    { clear -Hx Hroot Htree. induction Hx as [|rid rt child x E Hc Hx IH]; [done|].
      apply IH. by destruct (tree_child _ _ Htree rid rt child E Hc). }
    destruct Hs as [rt0 E]. pose proof E as E'. rewrite <- HC, lookup_fmap in E'.
    apply fmap_Some_1 in E' as (rt & Ert & Es). exists rt. rewrite R. split; [done|].
    intros i Hi. rewrite <- R. apply (Hqueue x); [done|]. exists rt0. split; [done|]. right. exists i. by subst rt0.
Qed.

(** ** Claims *)

(** C17: Start-up, from a process in which nothing exists yet: for every finite tree
    of routes that gives each socket a kind which fits its use (zmq_open ends the
    process otherwise), with tables of fewer than 2^20 entries, with memory, and
    when zeromq does what it is asked, the server comes up consistent, with no
    connection and nothing queued.  The sockets that are open are exactly those
    of the routes that can be reached from the root; those to which messages are
    sent, and only they, have a queue, empty and of the configured size; every
    reachable route is ready for the commands of its backend.  This is the state
    in which the invariant of all later operations begins. *)
Theorem start_server_correct `{LogLevel, Malloc, ZmqSetup, StartConfig} (rank : route_id → nat)
    (C : gmap nat route) (b : boot) (n : nat) (rroot : route_id) (tv_sec tv_usec : Z)
    (Hready : zmq_ready) (Hmem : ∀ h size, malloc_ok h size = true) (Hblank : blank (b_root b)) (Hclosed : b_opened b = ∅)
    (HC : static_route <$> routes (b_root b) = C) (Htree : tree_of rank C) (Hroot : is_Some (C !! rroot))
    (Hn : rank rroot < n) (Hconf : ∀ rid rt, C !! rid = Some rt → ∃ wc, wsockets !! rid = Some wc ∧ wsconf_ok rt wc)
    (Hrequests : (0 ≤ max_requests < 2 ^ 20)%Z) (Hwebsockets : (0 ≤ max_websockets < 2 ^ 20)%Z)
    (Hsizes : ∀ z, z ∈ [sizeof_backend_msg; sizeof_frontend_msg; sizeof_subscriber] → (16 ≤ z < 2 ^ 64)%Z) :
  wp (start_server n rroot tv_sec tv_usec) (λ _, started C rroot) b.
Proof. by eapply wp_start_server. Qed.

(** A root that leads to one route with an output for commands. *)
Definition example_sites : gmap nat route :=
  {[0 := (plain_route 4 10) <| rt_children := [1] |>; 1 := (plain_route 4 10) <| rt_outputs := [str "out"] |>]}.
Definition example_subscription : zmqsocket := mk_zmqsocket kind_auto [zmq_Connect (str "tcp://app:2")] 0 [] 0 0 0 0 10000.
Definition example_start : StartConfig := {|
  wsockets := {[0 := mk_wsconf example_subscription example_socket 10 [];
                1 := mk_wsconf example_subscription example_socket 0 [(example_socket, 60%Z)]]};
  server_ident := 1; max_requests := 4; max_websockets := 2;
  backend_messages := 8; frontend_messages := 8; subscriptions := 8;
  sizeof_backend_msg := 48; sizeof_frontend_msg := 32; sizeof_subscriber := 48;
|}.
Definition example_boot : boot := mk_boot (empty_root <| routes := example_sites |>) empty_heap [] ∅ ∅.
Definition example_depth (rid : route_id) : nat := 1 - rid.

Lemma example_sites_cases rid rt : (static_route <$> example_sites) !! rid = Some rt →
  rid = 0 ∧ rt = (plain_route 4 10) <| rt_children := [1] |> ∨
  rid = 1 ∧ rt = (plain_route 4 10) <| rt_outputs := [str "out"] |>.
Proof.
  rewrite lookup_fmap. intros (rt' & E & ->)%fmap_Some_1. unfold example_sites in E.
  apply lookup_insert_Some in E as [[<- <-]|[_ E]]; [by left|].
  apply lookup_singleton_Some in E as [<- <-]. by right.
Qed.

Lemma example_sites_tree : tree_of example_depth (static_route <$> example_sites).
Proof.
  split. intros rid rt child [[-> ->]|[-> ->]]%example_sites_cases Hc; [|by apply elem_of_nil in Hc].
  apply list_elem_of_singleton in Hc as ->. split; [by eexists|vm_compute; lia].
Qed.

Lemma example_boot_blank : blank (b_root example_boot).
Proof.
  assert (Hheap : heap_wf empty_heap) by (intros a; simpl; set_solver).
  split; try done.
  - intros a Ha. unfold example_boot in Ha. simpl in Ha. rewrite !elem_of_cons in Ha.
    by destruct Ha as [->|[->|[->|[]%elem_of_nil]]].
  - intros rid rt Hr. simpl in Hr. unfold example_sites in Hr. apply lookup_insert_Some in Hr as [[<- <-]|[_ Hr]]; [by simpl; split; [|lia]|].
    apply lookup_singleton_Some in Hr as [<- <-]. by simpl; split; [|lia].
Qed.

Lemma example_start_conf rid rt : (static_route <$> example_sites) !! rid = Some rt →
  ∃ wc, @wsockets example_start !! rid = Some wc ∧ wsconf_ok rt wc.
Proof.
  intros [[-> ->]|[-> ->]]%example_sites_cases; eexists; (split; [reflexivity|]); split; try done.
  all: first [intros _; by left|repeat constructor].
Qed.

Lemma example_sizes z :
  z ∈ [@sizeof_backend_msg example_start; @sizeof_frontend_msg example_start; @sizeof_subscriber example_start] →
  (16 ≤ z < 2 ^ 64)%Z.
Proof. simpl. rewrite !elem_of_cons. intros [->|[->|[->|[]%elem_of_nil]]]; lia. Qed.

Definition example_started : root :=
  let LL : LogLevel := 4%Z in let MM : Malloc := λ _ _, true in let ZZ := example_zmq in let SS := example_start in
  match start_server 2 0 1330000000 0 example_boot with Ok _ b => b_root b | _ => empty_root end.

Lemma example_started_ok : full_ok ∅ example_started.
Proof.
  set (LL := 4%Z : LogLevel). set (MM := (λ _ _, true) : Malloc).
  destruct (proj1 (wp_Ok _ _ _) (@wp_start_server LL MM example_zmq example_start example_depth
    (static_route <$> example_sites) example_boot 2 0 1330000000 0 example_zmq_ready ltac:(done) example_boot_blank eq_refl eq_refl
    example_sites_tree ltac:(by eexists) ltac:(vm_compute; lia) example_start_conf ltac:(simpl; lia) ltac:(simpl; lia)
    example_sizes)) as ([] & b & Hrun & [Hok _ _ _ _ _ _ _]).
  unfold example_started. fold LL MM. by rewrite Hrun.
Qed.

Lemma start_server_correct_witness :
  let LL : LogLevel := 4%Z in let MM : Malloc := λ _ _, true in let ZZ := example_zmq in let SS := example_start in
  ∃ b', start_server 2 0 1330000000 0 example_boot = Ok tt b' ∧ full_ok ∅ (b_root b') ∧
    elements (dom (socks (b_root b'))) ≡ₚ [Forward 0; Forward 1; Named 1 0] ∧ b_timers b' = {[Forward 0; Named 1 0]}.
Proof.
  intros LL MM ZZ SS.
  destruct (proj1 (wp_Ok _ _ _) (@start_server_correct LL MM ZZ SS example_depth (static_route <$> example_sites)
    example_boot 2 0 1330000000 0 example_zmq_ready ltac:(done) example_boot_blank eq_refl eq_refl example_sites_tree
    ltac:(by eexists) ltac:(vm_compute; lia) example_start_conf ltac:(simpl; lia) ltac:(simpl; lia)
    example_sizes)) as ([] & b' & Hrun & [Hok _ _ _ _ _ _ _]).
  exists b'. split; [exact Hrun|]. split; [exact Hok|]. vm_compute in Hrun. injection Hrun as <-.
  split; [|apply (bool_decide_unpack _); vm_compute; exact I].
  apply (bool_decide_unpack _). vm_compute. exact I.
Defined.
