(* ===== verification/Handshake.v ===== *)
(** * Websocket handshakes (start_websocket of websocket.c)

    The library asks whether a request may become a websocket.  The request is led
    to its route; the route and the page that the browser shows decide. *)

From S2P Require Import Prelude Sieve Pool MsgQueue Uidgen Links State Topics Backend Outputs Hybi.
From S2P Require Import CometArgs Request Comet Session Frontend Publish Inbound Polling Sockets Routing Headers Files Disk Http Start.

(** ** Operations *)
Section operations.
Context `{LogLevel, Malloc, Env, Website, HttpConfig}.

(** What a route makes of a request.  src/src/websocket.c:763-782 [start_websocket] *)
Definition enter_route (req : addr) (c : conn_id) (urandom : random_device) (rid : route_id) : MR bool :=
  rt ← get_route rid;
  if negb (rt_subscribe rt) || negb (rt_forward rt) || negb (rt_enabled rt) || rt_disable_websocket rt
  then mret false
  else match rt_allow_origins rt with
       | [] => websock_start c rid urandom
       | (_ :: _) as origins =>
           q ← get_request req;
           match rq_origin q with
           | None => mret false
           | Some origin => if decide (origin ∈ origins) then websock_start c rid urandom else mret false
           end
       end.

(** True for 0, false for -1, with which the library refuses the websocket; [c] is
    the connection of the request.  src/src/websocket.c:759-783 [start_websocket] *)
Definition start_websocket (req : addr) (c : conn_id) (urandom : random_device) : MR bool :=
  request_init req;;
  http_dissect_path req;;
  o ← preliminary_resolve req;
  match o with
  | None => mret false
  | Some rid => enter_route req c urandom rid
  end.
End operations.

(** ** Specification *)

(** A route that takes websockets from pages of an origin. *)
Record permits (rt : route) (origin : option bytes) : Prop := {
  pm_backend : rt_subscribe rt = true ∧ rt_forward rt = true;
  pm_enabled : rt_enabled rt = true ∧ rt_disable_websocket rt = false;
  pm_origin : rt_allow_origins rt = [] ∨ ∃ o, origin = Some o ∧ o ∈ rt_allow_origins rt;
}.

(** The request as the walk down the tree of routes sees it. *)
Definition handshake (q : request) : request :=
  let q := q <| rq_refcnt := 1%Z |> <| rq_flags := 0%Z |> <| rq_route := None |> <| rq_timeout_active := false |>
             <| rq_retries := 0%Z |> <| rq_uid ::= λ u, <[0 := NUL]> u |> <| rq_hybi := None |> <| rq_ip := None |> in
  q <| rq_path := (upto "?"%char (rq_uri q)).1 |>.

(** What comes of the handshake of [q] on connection [c], if it was led to [o]. *)
Definition handshaken `{Malloc, Env} (act : gset nat) (r : root) (o : option route_id) (q : request) (c : conn_id)
    (ok : bool) (r' : root) : Prop :=
  if ok then ∃ rid rt h uid, o = Some rid ∧ routes r !! rid = Some rt ∧ permits rt (rq_origin q) ∧
    (h ∉ act) ∧ full_ok ({[h]} ∪ act) r' ∧ wire_of r' h = Some c ∧
    ∀ s, stream r' s = stream r s ++ (if decide (s = Forward rid) then [[uid; str "connect"]] else [])
  else full_ok act r' ∧ hybis r' = hybis r ∧ (∀ s, stream r' s = stream r s) ∧
    ∀ rid rt, o = Some rid → routes r !! rid = Some rt → permits rt (rq_origin q) →
      sieve_full (hsieve r) = true ∨ out_of_memory ∨ no_memory r'.

(** ** Lemmas *)
Lemma resolves_last `{HttpConfig} q a rid last : resolves q a (Some rid) last → last = rid.
Proof. remember (Some rid) as o eqn:E. induction 1; simplify_eq; auto. Qed.

Section lemmas.
Context `{LogLevel, Malloc, Env}.
Implicit Types (r : root).

(** A request that nobody refers to yet. *)
Lemma full_ok_arrived act r req q :
  full_ok act r → requests r !! req = None → rq_hybi q = None → (0 < rq_refcnt q < 2 ^ 31)%Z →
  full_ok act (with_request_at r req q) ∧ ∀ s, stream (with_request_at r req q) s = stream r s.
Proof.
  intros [Hsv Hcm] Hn Hh Hrc. assert (Hp : ∀ b m, bmsgs r !! b = Some m → b_msg m ≠ PRequest req).
  { intros b m Hb Hm. destruct (cm_posted _ _ Hcm b m req Hb Hm) as [rq Hrq]. congruence. }
  destruct (server_ok_beside act r (with_request_at r req q)) as [Hsv' Hst]; [done| |].
  { split; try done. intros b m req' Hb Hm. simpl. destruct (decide (req' = req)) as [->|].
    - by destruct (Hp b m Hb).
    - by rewrite lookup_insert_ne. }
  split; [split; [done|]|done]. clear Hsv' Hst. destruct Hcm as [K1 K2 K3 K4 K5 K6 K7 K8]. split; try done; simpl.
  - intros h c q0 Ha Hc Hcur. destruct (K5 h c q0 Ha Hc Hcur) as (rq & Hrq & W). exists rq.
    rewrite lookup_insert_ne by congruence. by split; [|destruct W].
  - intros q0 rq h. rewrite lookup_insert_Some. intros [[<- <-]|[_ Hq0]]; [congruence|by apply K6].
  - intros q0 rq. rewrite lookup_insert_Some. intros [[<- <-]|[_ Hq0]]; [|by apply K7]. split; [|done].
    rewrite Hh. unfold preqs. rewrite map_empty_filter_2; [rewrite map_size_empty; simpl; lia|].
    intros b m Hb. unfold posted in Hb. apply map_lookup_filter_Some in Hb as [Hb _]. simpl. by eapply Hp.
  - intros b m q0 Hb Hm. rewrite lookup_insert_ne; [by eapply K8|]. intros <-. by eapply Hp.
Qed.

(** What the backends are told of a new websocket. *)
Lemma wp_websock_told act r c rid urandom :
  zmq_laws → full_ok act r → Forward rid ∈ dom (socks r) →
  wp (websock_start c rid urandom) (λ ok r',
    if ok then ∃ uid, ∀ s, stream r' s = stream r s ++ (if decide (s = Forward rid) then [[uid; str "connect"]] else [])
    else hybis r' = hybis r ∧ (∀ s, stream r' s = stream r s) ∧
      (sieve_full (hsieve r) = true ∨ out_of_memory ∨ no_memory r')) r.
Proof.
  intros Hzmq [Hok _] Hsk. unfold websock_start. apply wp_bind.
  eapply wp_mono; [by apply (wp_hybi_start Hzmq act)|]. intros [h|] r1 Ho.
  - destruct Ho as (Hsv & uid & Hop). pose proof Hop as [P1 P2 _ _ _ P6 _].
    assert (Hl : conns r1 !! h = Some (ident (new_hybi HYBI_WEBSOCKET uid rid))) by by rewrite P2, lookup_insert_eq.
    unfold conns in Hl. rewrite lookup_fmap in Hl. apply fmap_Some in Hl as (hy & Hh & _).
    apply wp_bind. eapply wp_set_hybi; [done|]. cbn beta. apply wp_bind, wp_count. apply wp_ret. exists uid. intros s.
    rewrite <- P6.
    eapply (server_ok_beside _ r1); [done|]. split; try done. simpl. by apply (fmap_insert_same plain _ _ hy).
  - apply wp_ret. destruct Ho as (_ & Hrf & Hwhy). split_and!; [apply Hrf|apply Hrf|done].
Qed.

(** The route decides; [q'] is what became of the request [q]. *)
Lemma wp_enter_route act r req q q' rid rt c urandom :
  zmq_laws → full_ok act r → routes r !! rid = Some rt →
  (rt_forward rt = true → Forward rid ∈ dom (socks r)) →
  full_ok act (with_request_at r req q') → (∀ s, stream (with_request_at r req q') s = stream r s) →
  rq_origin q' = rq_origin q →
  wp (enter_route req c urandom rid) (handshaken act r (Some rid) q c) (with_request_at r req q').
Proof.
  intros Hzmq Hok Ert Hsocks Hok1 Hst1 Eo. set (r1 := with_request_at r req q') in *.
  unfold enter_route. apply wp_bind. eapply wp_get_route; [exact Ert|].
  assert (Hgo : permits rt (rq_origin q) → wp (websock_start c rid urandom) (handshaken act r (Some rid) q c) r1).
  { intros Hp. pose proof (Hsocks (proj2 (pm_backend _ _ Hp))) as Hsk.
    eapply wp_mono; [apply wp_conj; [by apply (wp_websock_start Hzmq act)|by apply (wp_websock_told act)]|].
    intros ok r' [[_ Hn] Ht]. destruct ok.
    - destruct Hn as (h & ? & ? & ?), Ht as (uid & Ht). exists rid, rt, h, uid. split_and!; try done.
      intros s. by rewrite Ht, Hst1.
    - destruct Ht as (Hh & Ht & Hwhy). split_and!; [done|done|intros s; by rewrite Ht|by intros]. }
  assert (Hno : ¬ permits rt (rq_origin q) → wp (mret false) (handshaken act r (Some rid) q c) r1).
  { intros Hp. apply wp_ret. split_and!; [done..|]. intros ? ? [= <-] ? ?. by simplify_eq. }
  destruct (negb (rt_subscribe rt) || negb (rt_forward rt) || negb (rt_enabled rt) || rt_disable_websocket rt) eqn:Eb.
  { apply Hno. intros [[E1 E2] [E3 E4] _]. by rewrite E1, E2, E3, E4 in Eb. }
  apply orb_false_elim in Eb as [[[?%negb_false_iff ?%negb_false_iff]%orb_false_elim ?%negb_false_iff]%orb_false_elim ?].
  destruct (rt_allow_origins rt) as [|o0 l] eqn:El; [apply Hgo; split; auto|]. rewrite <- El.
  apply wp_bind. eapply wp_get_request; [apply lookup_insert_eq|]. rewrite Eo.
  destruct (rq_origin q) as [origin|] eqn:Eor.
  2:{ apply Hno. intros [_ _ [?|(o' & ? & _)]]; congruence. }
  case_decide as Hin.
  - apply Hgo. split; [done..|]. right. eauto.
  - apply Hno. intros [_ _ [?|(o' & [= <-] & ?)]]; [congruence|done].
Qed.
End lemmas.

(** ** Claims *)

(** C19: A request becomes a websocket only on a route that the walk down the tree
    gives it, if websockets are enabled there, both of their sockets are
    configured and the page comes from an allowed origin; then a new connection is
    entered and the backend of the route, and nobody else, is told of it.  Else
    no connection and no message appears; and a permitted request is refused only
    when the table of requests or that of connections is full, or when memory for
    the connection or for the message to the backend is refused.  With a full
    table of requests every handshake is refused. *)
Theorem start_websocket_correct `{LogLevel, Malloc, Env, Website, HttpConfig} (rank : route_id → nat)
    (act : gset nat) (r : root) (req : addr) (q : request) (c : conn_id) (urandom : random_device)
    (Hlaws : website_laws) (Hdate : ∀ req, is_Some (http_date req)) (Hzmq : zmq_laws) (Hcfg : config_ok rank)
    (Hok : full_ok act r) (Hnew : requests r !! req = None)
    (Hroutes : ∀ rid, is_Some (hroutes !! rid) → is_Some (routes r !! rid))
    (Hsocks : ∀ rid rt, routes r !! rid = Some rt → rt_forward rt = true → Forward rid ∈ dom (socks r)) :
  wp (start_websocket req c urandom) (λ ok r',
    if sieve_full (request_sieve r) then ok = false ∧ handshaken act r None q c ok r'
    else ∃ o last, resolves (handshake q) Routing o last ∧ handshaken act r o q c ok r') (with_request_at r req q).
Proof.
  unfold start_websocket, request_init, http_dissect_path.
  apply wp_bind. eapply wp_set_request; [apply lookup_insert_eq|]. cbn beta.
  apply wp_bind. eapply wp_set_request; [apply lookup_insert_eq|]. cbn beta.
  match goal with |- wp _ _ ?r0 => assert (E : r0 = with_request_at r req (handshake q)) end.
  { unfold with_request_at. simpl. by rewrite !insert_insert_eq. }
  rewrite E. clear E. apply wp_bind. destruct (sieve_full (request_sieve r)) eqn:Hroom.
  { unfold preliminary_resolve, do_resolve_url. apply wp_bind, wp_get.
    change (request_sieve (with_request_at r req (handshake q))) with (request_sieve r). rewrite Hroom. cbn [whenb]. apply wp_bind, wp_ret, wp_ret, wp_ret.
    destruct (full_ok_arrived act r req (handshake q) Hok Hnew eq_refl ltac:(simpl; lia)) as [Hok1 Hst1]. by split. }
  eapply wp_mono; [by apply (wp_do_resolve_url Hlaws Hdate rank Hcfg req false (handshake q)); [apply lookup_insert_eq|]|].
  intros o r1 (last & hrt & Hres & Hlast & _ & q' & date & Hc & _ & Er).
  assert (r1 = with_request_at r req q') as ->.
  { rewrite Er. replace (match o with Some _ | None => [] end) with (@nil event) by by destruct o.
    rewrite noted_nil. unfold with_request_at. simpl. by rewrite insert_insert_eq. }
  assert (Hq' : rq_hybi q' = None ∧ rq_refcnt q' = 1%Z ∧ rq_origin q' = rq_origin q).
  { by destruct Hc as [->|[_ ->]]. }
  destruct Hq' as (Eh & Erc & Eo).
  destruct (full_ok_arrived act r req q' Hok Hnew Eh ltac:(lia)) as [Hok1 Hst1]. 
  destruct o as [rid|].
  2:{ apply wp_ret. exists None, last. split; [done|]. by split_and!. }
  assert (last = rid) as -> by by eapply resolves_last. destruct (Hroutes rid ltac:(by eexists)) as [rt Ert].
  eapply wp_mono; [eapply (wp_enter_route act r req q q' rid rt); eauto|]. intros ok r' Hh. by exists (Some rid), rid.
Qed.

Lemma example_config_ok : config_ok (H := example_config) example_rank.
Proof.
  destruct (proj1 (wp_Ok _ _ _) (@config_ok_prepared example_level example_zmq example_website example_config
    example_rank example_tree example_website_laws example_zmq_ready example_tree_ok ltac:(by eexists)
    ltac:(vm_compute; lia))) as (ok & s & Hrun & _ & Hc).
  apply Hc. simpl. unfold example_routes. simpl in Hrun. by rewrite Hrun.
Qed.

Lemma start_websocket_correct_witness :
  let LL := example_level in let MM : Malloc := λ _ _, true in let EE := example_env in
  let WW := example_website in let CC := example_config in
  ∃ r', start_websocket 5 7 (random_of (replicate 8 "r"%char))
      (with_request_at example_started 5 (plain_request "GET" "/app/start" "" 0)) = Ok true r' ∧
    length (stream r' (Forward 1)) = 1 ∧ stream r' (Forward 0) = [].
Proof.
  intros LL MM EE WW CC.
  assert (Hroutes : ∀ rid, is_Some (hroutes !! rid) → is_Some (routes example_started !! rid)).
  { intros rid [rt E]. assert (Hall : Forall (λ p, is_Some (routes example_started !! p.1)) (map_to_list example_routes)).
    { apply (bool_decide_unpack _). vm_compute. exact I. }
    rewrite Forall_forall in Hall. exact (Hall (rid, rt) (proj2 (elem_of_map_to_list _ _ _) E)). }
  assert (Hsocks : ∀ rid rt, routes example_started !! rid = Some rt → rt_forward rt = true →
    Forward rid ∈ dom (socks example_started)).
  { intros rid rt E _. assert (Hall : Forall (λ p, Forward p.1 ∈ dom (socks example_started))
      (map_to_list (routes example_started))) by (apply (bool_decide_unpack _); vm_compute; exact I).
    rewrite Forall_forall in Hall. exact (Hall (rid, rt) (proj2 (elem_of_map_to_list _ _ _) E)). }
  destruct (proj1 (wp_Ok _ _ _) (@start_websocket_correct LL MM EE WW CC example_rank ∅ example_started 5
    (plain_request "GET" "/app/start" "" 0) 7 (random_of (replicate 8 "r"%char)) example_website_laws (λ _, ltac:(by eexists))
    example_laws example_config_ok example_started_ok ltac:(vm_compute; reflexivity)
    Hroutes Hsocks)) as (ok & r' & Hrun & _).
  exists r'. assert (Hrun' := Hrun). vm_compute in Hrun'. injection Hrun' as <- <-.
  split; [exact Hrun|]. split; vm_compute; reflexivity.
Defined.
