(* ===== verification/Client.v ===== *)
(** * The control client (zerogwctl.c)

    A program for the command line: its arguments become one message on the
    control socket, and the parts of the reply are printed, one on each line. *)

From S2P Require Import Prelude Sieve Pool MsgQueue Uidgen Links State Topics Backend Outputs Hybi.
From S2P Require Import CometArgs Request Comet Session Frontend Publish Inbound Commands Polling Control Sockets.

(** ** Data *)

(** src/src/zerogwctl.c:9-12 [zerogwctl_flags_t] *)
Record flags := mk_flags { fl_config : option bytes; fl_socket : option bytes }.
#[export] Instance rebuild_flags : Rebuild flags := λ f, mk_flags (fl_config f) (fl_socket f).

(** What [getopt] returns for an option of "hc:s:". *)
Inductive option_read := OptConfig (optarg : bytes) | OptSocket (optarg : bytes) | OptHelp | OptUnknown.

(** What the program does, in its order; [stderr] says where the usage goes. *)
Inductive client_event :=
  | CUsage (stderr : bool) | CSocket | CConnect (address : bytes) | CBind (address : bytes)
  | CSend (part : bytes) (more : bool) | CPrint (text : bytes) | CClose.

(** The other side: the addresses that the configuration gives for the control
    socket, whether a part can be sent, and the parts of the reply to a message. *)
Class ControlPeer := {
  read_config : option bytes → option (list zmqaddr);
  ctl_send_ok : list client_event → bytes → bool → bool;
  ctl_reply : list bytes → list bytes;
}.

(** ** Operations *)

(** The letters of one argument after its dash; an option with a value takes what
    follows in the argument, or else the next argument. *)
Fixpoint getopt (args : list bytes) : list option_read * list bytes :=
  match args with
  | [] => ([], [])
  | a :: rest =>
      match a with
      | dash :: ((_ :: _) as letters) =>
          if decide (dash ≠ "-"%char) then let '(o, operands) := getopt rest in (o, a :: operands)
          else if decide (letters = ["-"%char]) then ([], rest)
          else
            (fix cluster (letters : bytes) : list option_read * list bytes :=
               match letters with
               | [] => getopt rest
               | c :: letters =>
                   if decide (c = "h"%char) then let '(o, operands) := cluster letters in (OptHelp :: o, operands)
                   else if decide (c = "c"%char ∨ c = "s"%char) then
                     let opt v := if decide (c = "c"%char) then OptConfig v else OptSocket v in
                     match letters, rest with
                     | _ :: _, _ => let '(o, operands) := getopt rest in (opt letters :: o, operands)
                     | [], v :: rest => let '(o, operands) := getopt rest in (opt v :: o, operands)
                     | [], [] => ([OptUnknown], [])
                     end
                   else let '(o, operands) := cluster letters in (OptUnknown :: o, operands)
               end) letters
      | _ => let '(o, operands) := getopt rest in (o, a :: operands)
      end
  end.

(** The second case is the end of the program, with its exit code.
    src/src/zerogwctl.c:39-58 [parse_arguments] *)
Fixpoint parse_arguments (opts : list option_read) (f : flags) : flags + bool :=
  match opts with
  | [] => inl f
  | OptConfig v :: opts => parse_arguments opts (f <| fl_config := Some v |>)
  | OptSocket v :: opts => parse_arguments opts (f <| fl_socket := Some v |>)
  | OptHelp :: _ => inr false
  | OptUnknown :: _ => inr true
  end.

Section operations.
Context `{ControlPeer}.

Abbreviation MC := (M (list client_event)).

Definition does (e : client_event) : MC unit := modify (λ tr, tr ++ [e]).

(** src/src/zerogwctl.c:80-90 [main] *)
Definition connect (f : flags) (addresses : list zmqaddr) : MC unit :=
  match fl_socket f with
  | Some address => does (CConnect address)
  | None => mfor addresses (λ a, does (match a with zmq_Connect v => CBind v | zmq_Bind v => CConnect v end))
  end.

(** src/src/zerogwctl.c:95-101 [main] *)
Fixpoint send_arguments (args : list bytes) : MC unit :=
  match args with
  | [] => mret tt
  | a :: rest =>
      let more := match rest with [] => false | _ :: _ => true end in
      tr ← get;
      does (CSend a more);;
      if ctl_send_ok tr a more then send_arguments rest else abort_
  end.

(** [printf("%.*s\n")] stops at a NUL. *)
Definition print_part (part : bytes) : bytes := (upto NUL part).1 ++ [ascii_of_nat 10].

(** src/src/zerogwctl.c:102-116 [main] *)
Definition print_reply (parts : list bytes) : MC unit :=
  match parts with
  | [] => out_of_fuel
  | _ :: _ => mfor parts (λ p, does (CPrint (print_part p)))
  end.

(** The result is the exit code; the first argument is the name of the program.
    src/src/zerogwctl.c:61-119 [main] *)
Definition main (argv : list bytes) : MC Z :=
  let '(opts, operands) := getopt (tail argv) in
  match parse_arguments opts (mk_flags None None) with
  | inr unknown => does (CUsage unknown);; mret (if unknown : bool then 1 else 0)%Z
  | inl f =>
      match read_config (fl_config f) with
      | None => abort_
      | Some addresses =>
          does CSocket;;
          connect f addresses;;
          match operands with
          | [] => does (CUsage true);; mret 1%Z
          | _ :: _ =>
              send_arguments operands;;
              print_reply (ctl_reply operands);;
              does CClose;;
              mret 0%Z
          end
      end
  end.
End operations.

(** ** Specification *)

(** The options as a user writes them. *)
Inductive setting := SetConfig (file : bytes) | SetSocket (address : bytes).

Definition write_setting (x : setting) : list bytes :=
  match x with SetConfig v => [str "-c"; v] | SetSocket v => [str "-s"; v] end.

Definition set_flag (f : flags) (x : setting) : flags :=
  match x with SetConfig v => f <| fl_config := Some v |> | SetSocket v => f <| fl_socket := Some v |> end.

(** An argument that is no option. *)
Definition word (a : bytes) : Prop := head a ≠ Some "-"%char ∨ a = str "-".

(** The other side is the server, which sees the message behind the identity of
    the connection and an empty part, and whose reply comes back behind them. *)
Definition reply_to (identity : bytes) (msgs : list (list bytes)) : list bytes :=
  match msgs with
  | (i :: [] :: reply) :: _ => if decide (i = identity) then reply else []
  | _ => []
  end.

Definition served_by `{LogLevel, Malloc, Env, LogFile} (n : nat) (Routing : route_id) (r : root) (identity : bytes)
    (conf : option bytes → option (list zmqaddr)) (sends : list client_event → bytes → bool → bool) : ControlPeer := {|
  read_config := conf;
  ctl_send_ok := sends;
  ctl_reply parts :=
    match recv_command n Routing [identity :: [] :: parts] r with
    | Ok _ r' => reply_to identity (drop (length (control_wire (trace r)).1) (control_wire (trace r')).1)
    | _ => []
    end;
|}.

(** How the client reaches the other side. *)
Definition connecting (f : flags) (addresses : list zmqaddr) : list client_event :=
  match fl_socket f with
  | Some address => [CConnect address]
  | None => (λ a, match a with zmq_Connect v => CBind v | zmq_Bind v => CConnect v end) <$> addresses
  end.

(** ** Lemmas *)

Lemma getopt_word a rest : word a → getopt (a :: rest) = let '(o, operands) := getopt rest in (o, a :: operands).
Proof.
  destruct a as [|c [|d a]]; [done..|]. intros [Hw|[=]]. simpl in Hw. cbn [getopt]. rewrite decide_True; [done|].
  congruence.
Qed.

Lemma getopt_words args : Forall word args → getopt args = ([], args).
Proof. induction 1 as [|a args Ha _ IH]; [done|]. by rewrite getopt_word, IH. Qed.

Lemma getopt_setting x rest :
  getopt (write_setting x ++ rest) =
    let '(o, operands) := getopt rest in
    (match x with SetConfig v => OptConfig v | SetSocket v => OptSocket v end :: o, operands).
Proof. by destruct x. Qed.

Lemma parse_settings opts args f :
  Forall word args →
  ∃ o, getopt (mjoin (write_setting <$> opts) ++ args) = (o, args) ∧ parse_arguments o f = inl (foldl set_flag f opts).
Proof.
  intros Ha. revert f. induction opts as [|x opts IH]; intros f.
  - exists []. simpl. by rewrite getopt_words.
  - destruct (IH (set_flag f x)) as (o & E & Ep). rewrite fmap_cons. cbn [mjoin list_join].
    rewrite <- app_assoc, getopt_setting. match goal with |- context [getopt ?t] => change (getopt t = (o, args)) in E end.
    rewrite E. eexists. split; [done|]. by destruct x.
Qed.

Lemma run_does l (f : bytes → client_event) tr : mfor l (λ p, does (f p)) tr = Ok tt (tr ++ (f <$> l)).
Proof.
  revert tr. induction l as [|x l IH]; intros tr; [by rewrite app_nil_r|]. cbn [mfor]. unfold mbind, M_bind.
  change (does (f x) tr) with (Ok tt (tr ++ [f x])). cbn beta iota. by rewrite IH, <- app_assoc.
Qed.

Section main.
Context `{ControlPeer}.

Lemma run_connect f addresses tr : connect f addresses tr = Ok tt (tr ++ connecting f addresses).
Proof.
  unfold connect, connecting. destruct (fl_socket f) as [a|]; [done|]. revert tr.
  induction addresses as [|a l IH]; intros tr; [by rewrite app_nil_r|]. cbn [mfor]. unfold mbind, M_bind, does at 1, modify.
  by rewrite IH, <- app_assoc.
Qed.

Lemma run_send cmd tr :
  send_arguments [cmd] tr = if ctl_send_ok tr cmd false then Ok tt (tr ++ [CSend cmd false]) else Aborted.
Proof. cbn [send_arguments]. unfold mbind, M_bind, get, does, modify. by destruct (ctl_send_ok tr cmd false). Qed.

Lemma run_main opts cmd tr0 addresses name :
  word cmd → ctl_reply [cmd] ≠ [] →
  let f := foldl set_flag (mk_flags None None) opts in
  read_config (fl_config f) = Some addresses →
  main (name :: mjoin (write_setting <$> opts) ++ [cmd]) tr0 =
    if negb (ctl_send_ok (tr0 ++ CSocket :: connecting f addresses) cmd false) then Aborted
    else Ok 0%Z (tr0 ++ CSocket :: connecting f addresses ++ CSend cmd false ::
      ((λ p, CPrint (print_part p)) <$> ctl_reply [cmd]) ++ [CClose]).
Proof.
  intros Hw Hr f Hf. unfold main. cbn [tail].
  destruct (parse_settings opts [cmd] (mk_flags None None)) as (o & -> & ->); [by apply Forall_singleton|].
  fold f. rewrite Hf. erewrite run_bind by reflexivity. erewrite run_bind by apply run_connect. cbn beta iota.
  rewrite <- app_assoc. cbn [app]. pose proof (run_send cmd (tr0 ++ CSocket :: connecting f addresses)) as Hrun.
  destruct (ctl_send_ok _ cmd false); cbn [negb]; [|unfold mbind at 1, M_bind at 1; by rewrite Hrun].
  erewrite run_bind by exact Hrun. unfold print_reply. destruct (ctl_reply [cmd]) as [|p l] eqn:E; [done|]. rewrite <- E.
  erewrite run_bind by apply (run_does _ (λ p, CPrint (print_part p))). erewrite run_bind by reflexivity.
  unfold mret, M_ret. by rewrite <- !app_assoc.
Qed.
End main.

Lemma is_reply_plain `{LogFile} cmd tr reply : is_reply cmd tr reply → reply ≠ [] ∧ Forall (λ p : bytes, NUL ∉ p) reply.
Proof.
  assert (Hs : ∀ l, forallb (λ p : bytes, bool_decide (NUL ∉ p)) l = true → Forall (λ p : bytes, NUL ∉ p) l).
  { intros l. rewrite forallb_forall, Forall_forall. intros Hl p Hp. rewrite list_elem_of_In in Hp.
    by apply Hl, bool_decide_eq_true in Hp. }
  unfold is_reply. intros Hr. split.
  - by repeat case_decide; subst.
  - repeat case_decide; subst; try (apply Hs; vm_compute; reflexivity).
    repeat case_match; apply Hs; vm_compute; reflexivity.
Qed.

Lemma print_plain l : Forall (λ p : bytes, NUL ∉ p) l →
  (λ p, CPrint (print_part p)) <$> l = (λ p, CPrint (p ++ [ascii_of_nat 10])) <$> l.
Proof.
  intros Hl. induction Hl as [|p l Hp _ IH]; [done|]. rewrite !fmap_cons, IH. unfold print_part.
  by rewrite upto_out.
Qed.

(** ** Claims *)

(** C23: The client and the server: whatever options come first, and whatever the
    command, [zerogwctl] sends the command as one message to the socket of the last
    -s, or else to the addresses of the configuration from their other side; the
    server answers (its routes are a finite tree, zeromq takes the parts of its
    reply, and the libraries and the memory serve its messages); and the client
    prints the reply, each part on a line, and ends with success.  When zeromq
    refuses the command the client ends by its assertion, without output. *)
Theorem control_client_correct `{LogLevel, Malloc, Env, LogFile} (rank : route_id → nat) (C : gmap nat route)
    (act : gset nat) (r : root) (n : nat) (Routing : route_id) (identity cmd name : bytes) (opts : list setting)
    (conf : option bytes → option (list zmqaddr)) (sends : list client_event → bytes → bool → bool)
    (addresses : list zmqaddr)
    (Hdate : ∀ req, is_Some (http_date req)) (Hzmq : zmq_laws) (Hws : message_laws)
    (Hctl : ∀ tr p more, zmq_send_res tr Control p more = Sent)
    (Hok : full_ok act r) (HC : C = static_route <$> routes r) (Htree : tree_of rank C)
    (Hroot : is_Some (C !! Routing)) (Hn : rank Routing < n)
    (Hknown : ∀ h hy, h ∈ act → hybis r !! h = Some hy → is_Some (C !! h_route hy))
    (Hid : identity ≠ []) (Hbetween : (control_wire (trace r)).2 = []) (Hword : word cmd)
    (Hconf : conf (fl_config (foldl set_flag (mk_flags None None) opts)) = Some addresses) :
  let f := foldl set_flag (mk_flags None None) opts in
  let run := main (H := served_by n Routing r identity conf sends) (name :: mjoin (write_setting <$> opts) ++ [cmd]) [] in
  if sends (CSocket :: connecting f addresses) cmd false then
    ∃ reply tr, is_reply cmd tr reply ∧
      run = Ok 0%Z (CSocket :: connecting f addresses ++ CSend cmd false ::
        ((λ p, CPrint (p ++ [ascii_of_nat 10])) <$> reply) ++ [CClose])
  else run = Aborted.
Proof.
  intros f. destruct (proj1 (wp_Ok _ _ _) (wp_recv_command rank C act r n Routing [identity] cmd Hdate Hzmq Hws Hctl Hok HC
    Htree Hroot Hn Hknown ltac:(by repeat constructor) Hbetween)) as ([] & r' & Hrun & (reply & tr & Hrep & Hwire) & _).
  intros run. destruct (is_reply_plain cmd tr reply Hrep) as [Hne Hplain].
  set (peer := served_by n Routing r identity conf sends).
  assert (E : @ctl_reply peer [cmd] = reply).
  { simpl. change [identity; []; cmd] with ([identity] ++ [[]; cmd]). rewrite Hrun, Hwire. cbn [fst].
    rewrite drop_app_length. simpl. by rewrite decide_True. }
  pose proof (run_main (H := peer) opts cmd [] addresses name Hword ltac:(by rewrite E) Hconf) as Hmain.
  fold run f in Hmain. change (@ctl_send_ok peer) with sends in Hmain. cbn [app] in Hmain.
  destruct (sends _ cmd false); cbn [negb] in Hmain; [|exact Hmain].
  exists reply, tr. split; [done|]. by rewrite <- (print_plain reply Hplain), <- E.
Qed.

Lemma control_client_correct_witness :
  let LL : LogLevel := 0%Z in let MM : Malloc := λ _ _, true in let EE := accepting_env in let FF := example_log in
  main (H := served_by 1 0 example_subscribed (str "client") (λ _, Some [zmq_Bind (str "ipc://control")]) (λ _ _ _, true))
    [str "zerogwctl"; str "-c"; str "zerogw.yaml"; str "reopen_logs"] [] =
    Ok 0%Z [CSocket; CConnect (str "ipc://control"); CSend (str "reopen_logs") false;
            CPrint (str "logs_reopened" ++ [ascii_of_nat 10]); CClose].
Proof.
  intros LL MM EE FF.
  destruct (@control_client_correct LL MM EE FF (λ _, 0) (static_route <$> routes example_subscribed)
    {[0]} example_subscribed 1 0 (str "client") (str "reopen_logs") (str "zerogwctl") [SetConfig (str "zerogw.yaml")]
    (λ _, Some [zmq_Bind (str "ipc://control")]) (λ _ _ _, true) [zmq_Bind (str "ipc://control")]
    ltac:(by eexists) accepting_laws ltac:(by split)
    ltac:(done) example_subscribed_ok eq_refl example_tree_of ltac:(by eexists) Nat.lt_0_1 example_known
    ltac:(done) ltac:(vm_compute; reflexivity) ltac:(by left) eq_refl) as (reply & tr & Hrep & Hrun).
  assert (reply = [str "logs_reopened"]) as -> by exact Hrep. exact Hrun.
Defined.
