(* ===== verification/Openport.v ===== *)
(** * Opening a port before giving up rights (openport.c)

    A small program that runs another one with a listening socket, under another
    user and group. *)

From S2P Require Import Prelude Sieve Pool MsgQueue Uidgen State Topics Backend Outputs Hybi CometArgs.

(** ** Data *)

Inductive syscall :=
  | SysSocket | SysReuse | SysBind (address port : Z) | SysListen (backlog : Z)
  | SysSetgid (gid : Z) | SysSetuid (uid : Z) | SysDup2 (fd : Z) | SysExec (cmd : list bytes).

(** The operating system: whether a call succeeds after earlier ones, and the
    addresses that can be read. *)
Class System := {
  sys_ok : list (syscall * bool) → syscall → bool;
  inet_aton : bytes → option Z;
}.

(** ** Operations *)

(** [atoi] of glibc. *)
Definition atoi (s : bytes) : Z := i32 (strtol s).1.

Section operations.
Context `{System}.

Abbreviation MO := (M (list (syscall * bool))).

Definition sys (c : syscall) : MO bool := λ tr, Ok (sys_ok tr c) (tr ++ [(c, sys_ok tr c)]).

(** The calls up to the first one that fails; the end of the program with its
    exit code, or [None] when another program runs. *)
Fixpoint try_all (l : list syscall) : MO (option Z) :=
  match l with
  | [] => mret None
  | c :: l =>
      ok ← sys c;
      if ok : bool then try_all l else mret (Some (match c with SysExec _ => 127 | _ => 1 end)%Z)
  end.

(** [inet_aton] never returns a negative number, so that an address that cannot
    be read is not noticed and an uninitialized one is bound.
    src/src/openport.c:12-37 [main] *)
Definition openport (argv : list bytes) : MO (option Z) :=
  match argv with
  | _ :: host :: port :: fd :: uid :: gid :: ((_ :: _) as cmd) =>
      o ← try_all [SysSocket; SysReuse];
      match o with
      | Some code => mret (Some code)
      | None =>
          addr ← deref Uninitialized (inet_aton host);
          try_all [SysBind addr (atoi port mod 2 ^ 16); SysListen (Z.shiftl 128 10); SysSetgid (atoi gid);
                   SysSetuid (atoi uid); SysDup2 (atoi fd); SysExec cmd]
      end
  | _ => mret (Some 2%Z)
  end.
End operations.

(** ** Specification *)

(** The calls in their order. *)
Definition openport_calls (addr port gid uid fd : Z) (cmd : list bytes) : list syscall :=
  [SysSocket; SysReuse; SysBind addr (port mod 2 ^ 16); SysListen 131072; SysSetgid gid; SysSetuid uid; SysDup2 fd;
   SysExec cmd].

(** The calls [l] were made: all of them, or up to the one that failed. *)
Definition made (l : list syscall) (code : option Z) (tr : list (syscall * bool)) : Prop :=
  (code = None ∧ tr = (λ c, (c, true)) <$> l) ∨
  (∃ pre c post, l = pre ++ c :: post ∧ tr = ((λ c, (c, true)) <$> pre) ++ [(c, false)] ∧
     code = Some (match c with SysExec _ => 127 | _ => 1 end)%Z).

(** ** Lemmas *)

Lemma made_cons c l code tr : made l code tr → made (c :: l) code ((c, true) :: tr).
Proof.
  intros [[-> ->]|(pre & d & post & -> & -> & ->)]; [by left|]. right. by exists (c :: pre), d, post.
Qed.

Lemma wp_try_all `{System} l tr0 :
  wp (try_all l) (λ code tr, ∃ new, tr = tr0 ++ new ∧ made l code new) tr0.
Proof.
  revert tr0. induction l as [|c l IH]; intros tr0; cbn [try_all].
  - apply wp_ret. exists []. rewrite app_nil_r. split; [done|by left].
  - apply wp_bind. unfold wp at 1, sys. destruct (sys_ok tr0 c) eqn:E.
    + eapply wp_mono; [apply IH|]. intros code tr (new & -> & Hm). exists ((c, true) :: new).
      rewrite <- app_assoc. split; [done|by apply made_cons].
    + apply wp_ret. eexists. split; [done|]. right. by exists [], c, l.
Qed.

Lemma made_app l l' code tr tr' : made l None tr → made l' code tr' → made (l ++ l') code (tr ++ tr').
Proof.
  intros [[_ ->]|(? & ? & ? & _ & _ & [=])] [[-> ->]|(pre & c & post & -> & -> & ->)].
  - left. by rewrite fmap_app.
  - right. exists (l ++ pre), c, post. by rewrite fmap_app, <- !app_assoc.
Qed.

Lemma made_stop l l' code tr : made l (Some code) tr → made (l ++ l') (Some code) tr.
Proof.
  intros [[[=] _]|(pre & c & post & -> & -> & E)]. right. exists pre, c, (post ++ l'). by rewrite <- app_assoc.
Qed.

(** ** Theorems *)

(** The other program only runs with the socket bound, listening and in its
    place, after both the group and the user were changed, in this order; the
    first call that fails ends the program. *)
Theorem openport_correct `{System} (name host port fd uid gid : bytes) (cmd : list bytes) (addr : Z)
    (Hcmd : cmd ≠ []) (Haddr : inet_aton host = Some addr) :
  wp (openport (name :: host :: port :: fd :: uid :: gid :: cmd))
     (made (openport_calls addr (atoi port) (atoi gid) (atoi uid) (atoi fd) cmd)) [].
Proof.
  destruct cmd as [|c cmd]; [done|]. cbn [openport]. apply wp_bind. eapply wp_mono; [apply wp_try_all|].
  intros [code|] tr (new & -> & Hm).
  - apply wp_ret. by apply (made_stop [SysSocket; SysReuse]).
  - apply wp_bind, (wp_deref _ _ addr); [done|]. eapply wp_mono; [apply wp_try_all|].
    intros code tr (new' & -> & Hm'). simpl. by apply (made_app [SysSocket; SysReuse]).
Qed.

(** An address that cannot be read is not noticed. *)
Theorem openport_bad_address `{System} (name host port fd uid gid : bytes) (cmd : list bytes)
    (Hcmd : cmd ≠ []) (Haddr : inet_aton host = None) (Hok : ∀ tr c, sys_ok tr c = true) :
  openport (name :: host :: port :: fd :: uid :: gid :: cmd) [] = Faulted Uninitialized.
Proof.
  destruct cmd as [|c cmd]; [done|]. unfold openport, try_all, sys, mbind, M_bind. rewrite !Hok. simpl. rewrite Haddr.
  done.
Qed.
