(* ===== verification/Shutdown.v ===== *)
(** * Shutting down (release_websockets of websocket.c, release_http, the control
    socket)

    When the event loop has ended, the sockets of all routes are closed, what
    waits in their queues is dropped, and the pools are freed. *)

From S2P Require Import Prelude Sieve Pool MsgQueue Uidgen Links State Topics Backend Outputs Hybi.
From S2P Require Import CometArgs Request Comet Session Frontend Publish Inbound Commands Control Sockets Routing Start.

(** ** Operations *)
Section operations.
Context `{LogLevel, Malloc, ZmqSetup, Website, StartConfig}.

Definition close_socket (s : sock_id) : MB unit :=
  b ← get; on_zmq (z_close (default not_opened (b_opened b !! s))).

Definition stop_timer (s : sock_id) : MB unit := modify (λ b, b <| b_timers ::= λ t, t ∖ {[s]} |>).

Definition drop_queue (s : sock_id) : MB unit := on_root (on_sock_queue s free_queue).

(** The hash table goes, but not the topics that are still in it.
    src/src/websocket.c:889-894 [socket_unvisitor] *)
Definition free_table (rid : route_id) : MB unit :=
  on_root (modify (λ r, r <| routes ::= alter (λ rt, rt <| rt_topics := None |>) rid |>)).

(** src/src/websocket.c:898-904 [socket_unvisitor] *)
Definition close_backend (rid : route_id) (wc : wsconf) : MB unit :=
  close_socket (Forward rid);;
  whenb (bool_decide (wc_heartbeat_interval wc ≠ 0)%Z) (stop_timer (Forward rid));;
  drop_queue (Forward rid).

(** The timers of the outputs are not stopped.
    src/src/websocket.c:905-908 [socket_unvisitor] *)
Fixpoint close_outputs (rid : route_id) (i : nat) (l : list (zmqsocket * Z)) : MB unit :=
  match l with
  | [] => mret tt
  | _ :: l =>
      close_socket (Named rid i);;
      drop_queue (Named rid i);;
      close_outputs rid (S i) l
  end.

(** src/src/websocket.c:888-916 [socket_unvisitor] *)
Fixpoint socket_unvisitor (n : nat) (rid : route_id) : MB unit :=
  match n with
  | O => out_of_fuel
  | S n =>
      rt ← on_root (get_route rid);
      wc ← deref UseAfterFree (wsockets !! rid);
      free_table rid;;
      whenb (rt_subscribe rt) (close_socket (Subscribe rid));;
      whenb (rt_forward rt) (close_backend rid wc);;
      close_outputs rid 0 (wc_outputs wc);;
      mfor (rt_children rt) (socket_unvisitor n)
  end.

Definition on_pool_arena (get : root → arena) (put : arena → root → root) (m : M arena unit) : MB unit :=
  on_root (zoom get put m).

(** src/src/websocket.c:1001-1007 [release_websockets] *)
Definition release_websockets (n : nat) (rroot : route_id) : MB bool :=
  socket_unvisitor n rroot;;
  on_pool_arena backend_arena (λ a r, r <| backend_arena := a |>) free_pool;;
  on_pool_arena frontend_arena (λ a r, r <| frontend_arena := a |>) free_pool;;
  on_pool_arena sub_arena (λ a r, r <| sub_arena := a |>) free_pool;;
  mret true.

(** src/src/http.c:438-441 [release_http] *)
Definition release_http (n : nat) (rroot : route_id) : M setup bool := Routing.socket_unvisitor n rroot;; mret true.

(** src/src/commands.c:76-80 [prepare_commands] *)
Definition prepare_commands (sock : zmqsocket) : M (list zcall) (option opened) :=
  o ← zmq_open sock ZMASK_REP ZMQ_XREP true true;
  SNIMPL (bool_decide (o = None));;
  mret o.

(** src/src/commands.c:81-84 [release_commands] *)
Definition release_commands (control : opened) : M (list zcall) bool := z_close control;; mret true.
End operations.

(** ** Specification *)

(** The sockets of a route, in the order in which they are closed. *)
Definition sockets_of (rid : route_id) (rt : route) : list sock_id :=
  (if rt_subscribe rt then [Subscribe rid] else []) ++ (if rt_forward rt then [Forward rid] else []) ++
  (Named rid <$> seq 0 (length (rt_outputs rt))).

(** The routes below [rid], each as often as a path leads to it. *)
Fixpoint tree_routes (C : gmap nat route) (n : nat) (rid : route_id) : list route_id :=
  match n, C !! rid with
  | S n, Some rt => rid :: mjoin (tree_routes C n <$> rt_children rt)
  | _, _ => []
  end.

Definition route_sockets (C : gmap nat route) (rid : route_id) : list sock_id :=
  from_option (sockets_of rid) [] (C !! rid).

Definition tree_sockets (C : gmap nat route) (n : nat) (rid : route_id) : list sock_id :=
  mjoin (route_sockets C <$> tree_routes C n rid).

Definition queue_sockets (l : list sock_id) : list sock_id := filter (λ s, has_queue s = true) l.

(** What closing a socket asks of the libraries. *)
Definition closing (o : opened) : list zcall :=
  (if op_active o then [IoStop (op_sock o)] else []) ++ [ZClose (op_sock o) true].

Definition closing_of (m : gmap sock_id opened) (s : sock_id) : list zcall := closing (default not_opened (m !! s)).

(** The sockets whose timer is stopped. *)
Definition has_heartbeat `{StartConfig} (s : sock_id) : bool :=
  match s with
  | Forward rid => from_option (λ wc, bool_decide (wc_heartbeat_interval wc ≠ 0)%Z) false (wsockets !! rid)
  | _ => false
  end.

Definition drop_table (rt : route) : route := rt <| rt_topics := None |>.

(** The routes [rs] were visited and the sockets [l] closed. *)
Record released `{StartConfig} (rs : list route_id) (l : list sock_id) (b b' : boot) : Prop := {
  rl_calls : b_calls b' = b_calls b ++ mjoin (closing_of (b_opened b) <$> l);
  rl_opened : b_opened b' = b_opened b;
  rl_timers : b_timers b' = b_timers b ∖ list_to_set (filter (λ s, has_heartbeat s = true) l);
  rl_rest : b_root b' = (b_root b) <| backend_arena := backend_arena (b_root b') |> <| routes := routes (b_root b') |>;
  rl_tables : ∀ x, routes (b_root b') !! x = (if decide (x ∈ rs) then drop_table else id) <$> routes (b_root b) !! x;
}.

(** The messages in the queues of the sockets [L]. *)
Definition queued (r : root) (s : sock_id) : list addr := from_option sock_items [] (socks r !! s).
Definition queues (r : root) (L : list sock_id) : list addr := mjoin (queued r <$> L).

(** The queues [L] exist, and hold all blocks of the pool that are in use. *)
Record holding (L : list sock_id) (r : root) : Prop := {
  hd_socks : ∀ s, s ∈ L → is_Some (socks r !! s);
  hd_nodup : NoDup (queues r L);
  hd_pool : pool_ok (list_to_set (queues r L)) (backend_arena r);
}.

(** ** Lemmas *)

Lemma wp_free_items own l : ∀ (a : arena) (q : queue) (Q : unit → pooled_queue → Prop),
  NoDup l → (∀ x, x ∈ l → x ∈ own) → pool_ok own a →
  (∀ a', pool_ok (own ∖ list_to_set l) a' → Q tt (mk_pq a' q)) →
  wp (mfor l (λ cur, on_arena (pool_free cur))) Q (mk_pq a q).
Proof.
  revert own. induction l as [|x l IH]; intros own a q Q Hnd Hin Ha HQ; cbn [mfor].
  - apply wp_ret, HQ. simpl. by replace (own ∖ ∅) with own by set_solver.
  - apply NoDup_cons in Hnd as [Hx Hnd]. apply wp_bind, wp_zoom. eapply wp_pool_free; [done|by apply Hin; left|].
    intros a' Ha' _. apply (IH (own ∖ {[x]})); [done| |done|].
    + intros y Hy. apply elem_of_difference. split; [apply Hin; by right|]. intros ->%elem_of_singleton. done.
    + intros a'' Ha''. apply HQ. simpl. by rewrite <- difference_difference_l_L.
Qed.

Lemma wp_free_pool own (a : arena) (Q : unit → arena → Prop) :
  pool_ok own a → (∀ a', live (a_heap a') = own → Q tt a') → wp free_pool Q a.
Proof.
  intros [Hw _ _ Hnd Hl Hd] HQ. unfold free_pool. apply wp_bind, wp_get.
  assert (Hgo : ∀ l (a : arena), NoDup l → live (a_heap a) = own ∪ list_to_set l → (∀ x, x ∈ l → x ∉ own) →
    wp (mfor l (λ cur, on_heap (free cur))) (λ _ a', live (a_heap a') = own) a).
  { clear. induction l as [|x l IH]; intros a Hnd Hl Hd; cbn [mfor].
    - apply wp_ret. rewrite Hl. simpl. set_solver.
    - apply NoDup_cons in Hnd as [Hx Hnd]. apply wp_bind, wp_zoom. unfold wp, free. simpl.
      case_decide as E; [|destruct E; rewrite Hl; simpl; set_solver].
      apply IH; [done| |set_solver]. simpl. rewrite Hl. simpl. set_solver. }
  eapply wp_mono; [apply Hgo; [done|done|]|].
  - intros x Hx Hin. by apply (Hd x).
  - intros [] a' Ha'. by apply HQ.
Qed.

Lemma mjoin_app {A} (l l' : list (list A)) : mjoin (l ++ l') = mjoin l ++ mjoin l'.
Proof. induction l as [|x l IH]; [done|]. simpl. by rewrite IH, app_assoc. Qed.

Section lemmas.
Context `{LogLevel, Malloc, ZmqSetup, Website, StartConfig}.
Hypothesis Hclose : ∀ tr h, zmq_close_ok tr h = true.
Implicit Types b : boot.

Lemma released_refl b : released [] [] b b.
Proof.
  split; simpl; try done; [by rewrite app_nil_r|set_solver|by destruct b as [[] ? ? ? ?]|].
  intros x. by destruct (routes (b_root b) !! x).
Qed.

Lemma released_trans rs1 rs2 l1 l2 b1 b2 b3 :
  released rs1 l1 b1 b2 → released rs2 l2 b2 b3 → released (rs1 ++ rs2) (l1 ++ l2) b1 b3.
Proof.
  intros [C1 O1 T1 R1 B1] [C2 O2 T2 R2 B2]. split.
  - rewrite C2, C1, O1, fmap_app, mjoin_app. by rewrite app_assoc.
  - by rewrite O2.
  - rewrite T2, T1, filter_app, list_to_set_app_L. set_solver.
  - rewrite R2, R1. by destruct (b_root b1).
  - intros x. rewrite B2, B1. destruct (routes (b_root b1) !! x) as [rt|]; [|done]. simpl. f_equal.
    repeat case_decide; set_solver.
Qed.

Lemma wp_close_socket s b (Q : unit → boot → Prop) :
  (∀ b', b' = b <| b_calls := b_calls b ++ closing_of (b_opened b) s |> → Q tt b') → wp (close_socket s) Q b.
Proof.
  intros HQ. unfold close_socket. apply wp_bind, wp_get, wp_zoom. unfold closing_of in HQ.
  destruct (default not_opened (b_opened b !! s)) as [h act]. unfold z_close. apply wp_bind.
  assert (Hlast : ∀ tr, b_calls b ++ closing (mk_opened h act) = tr ++ [ZClose h true] →
    wp (SNIMPL_call (Sockets.zmq_close h)) (λ a s', Q a (b <| b_calls := s' |>)) tr).
  { intros tr E. unfold SNIMPL_call. apply wp_bind. unfold wp at 1, Sockets.zmq_close, call. rewrite Hclose.
    apply wp_SNIMPL; [done|]. apply HQ. by rewrite <- E. }
  apply wp_whenb; intros Ha; simpl in Ha; subst act.
  - unfold wp, ev_io_stop, call. apply Hlast. unfold closing. simpl. by rewrite <- app_assoc.
  - by apply Hlast.
Qed.

(** Without its messages a queue keeps no block. *)
Lemma wp_drop_queue s L b (Q : unit → boot → Prop) :
  holding (s :: L) (b_root b) →
  (∀ a, let r' := (b_root b) <| backend_arena := a |> in holding L r' → Q tt (b <| b_root := r' |>)) →
  wp (drop_queue s) Q b.
Proof.
  intros [Hs Hnd Hp] HQ. destruct (Hs s) as [so Eso]; [by left|]. unfold drop_queue. apply wp_zoom.
  assert (Eq : queues (b_root b) (s :: L) = sock_items so ++ queues (b_root b) L).
  { unfold queues. simpl. unfold queued at 1. by rewrite Eso. }
  rewrite Eq in Hnd, Hp. apply NoDup_app in Hnd as (Hnd1 & Hdis & Hnd2).
  eapply wp_on_sock_queue; [done|]. unfold free_queue. apply wp_bind, wp_get. simpl pq_queue.
  eapply (wp_free_items (list_to_set (sock_items so ++ queues (b_root b) L))); [done| |done|].
  { intros x Hx. apply elem_of_list_to_set, elem_of_app. by left. }
  intros a Ha. simpl.
  match goal with |- Q tt ?g => assert (g = b <| b_root := (b_root b) <| backend_arena := a |> |>) as -> end.
  { destruct b as [r h c o t]. simpl in *. f_equal. rewrite insert_id; [by destruct r|]. rewrite Eso. by destruct so. }
  apply HQ. split; simpl.
  - intros s' Hs'. apply Hs. by right.
  - exact Hnd2.
  - replace (list_to_set (queues _ L)) with
      (list_to_set (sock_items so ++ queues (b_root b) L) ∖ list_to_set (sock_items so) : gset addr); [done|].
    apply set_eq. intros x. rewrite elem_of_difference, !elem_of_list_to_set, elem_of_app.
    change (queues ((b_root b) <| backend_arena := a |>) L) with (queues (b_root b) L). naive_solver.
Qed.

(** The queues that are left after some are dropped. *)
Definition leaves (rs : list route_id) (l L : list sock_id) b b' : Prop := released rs l b b' ∧ holding L (b_root b').

Lemma released_one s b c t r :
  c = b_calls b ++ closing_of (b_opened b) s → t = b_timers b ∖ list_to_set (filter (λ s, has_heartbeat s = true) [s]) →
  r = (b_root b) <| backend_arena := backend_arena r |> →
  released [] [s] b (mk_boot r (b_heap b) c (b_opened b) t).
Proof.
  intros -> -> E. split; simpl; try done.
  - by rewrite app_nil_r.
  - assert (Er : routes r = routes (b_root b)) by (by rewrite E). rewrite Er. rewrite E at 1. by destruct (b_root b).
  - intros x. rewrite E. simpl. by destruct (routes (b_root b) !! x).
Qed.

Lemma wp_close_subscribe rid L b (Q : unit → boot → Prop) :
  holding L (b_root b) → (∀ b', leaves [] [Subscribe rid] L b b' → Q tt b') → wp (close_socket (Subscribe rid)) Q b.
Proof.
  intros HL HQ. apply wp_close_socket. intros b' ->. apply HQ. split; [|done].
  destruct b as [r h c o t]. apply (released_one (Subscribe rid)); simpl; [done| |by destruct r].
  unfold filter, list_filter. simpl. set_solver.
Qed.

Lemma wp_close_backend rid wc L b (Q : unit → boot → Prop) :
  wsockets !! rid = Some wc → holding (Forward rid :: L) (b_root b) →
  (∀ b', leaves [] [Forward rid] L b b' → Q tt b') → wp (close_backend rid wc) Q b.
Proof.
  intros Ewc HL HQ. unfold close_backend. apply wp_bind, wp_close_socket. intros b1 ->.
  assert (Hgo : ∀ t, t = b_timers b ∖ list_to_set (filter (λ s, has_heartbeat s = true) [Forward rid]) →
    wp (drop_queue (Forward rid)) Q
      (mk_boot (b_root b) (b_heap b) (b_calls b ++ closing_of (b_opened b) (Forward rid)) (b_opened b) t)).
  { intros t ->. eapply wp_drop_queue; [exact HL|]. intros a r' HL'. apply HQ. split; [|exact HL'].
    change (released [] [Forward rid] b (mk_boot r' (b_heap b) (b_calls b ++ closing_of (b_opened b) (Forward rid))
      (b_opened b) (b_timers b ∖ list_to_set (filter (λ s, has_heartbeat s = true) [Forward rid])))).
    by apply released_one. }
  assert (Eh : has_heartbeat (Forward rid) = bool_decide (wc_heartbeat_interval wc ≠ 0)%Z)
    by (unfold has_heartbeat; by rewrite Ewc).
  apply wp_bind, wp_whenb; intros Ei.
  - unfold stop_timer. apply wp_modify, Hgo. simpl. rewrite filter_cons_True by (by rewrite Eh). simpl. set_solver.
  - destruct b as [r h c o t]. apply Hgo. simpl. rewrite filter_cons_False by (rewrite Eh; congruence). simpl. set_solver.
Qed.

Lemma wp_close_outputs rid l : ∀ i L b (Q : unit → boot → Prop),
  holding ((Named rid <$> seq i (length l)) ++ L) (b_root b) →
  (∀ b', leaves [] (Named rid <$> seq i (length l)) L b b' → Q tt b') → wp (close_outputs rid i l) Q b.
Proof.
  induction l as [|x l IH]; intros i L b Q HL HQ; cbn [close_outputs].
  { apply wp_ret, HQ. split; [apply released_refl|done]. }
  apply wp_bind, wp_close_socket. intros b1 ->. apply wp_bind. eapply wp_drop_queue; [exact HL|]. intros a r' HL'.
  apply (IH (S i) L); [exact HL'|]. intros b' [Hr HL'']. apply HQ. split; [|done].
  apply (released_trans [] [] [Named rid i] _ b (mk_boot r' (b_heap b) (b_calls b ++ closing_of (b_opened b) (Named rid i))
    (b_opened b) (b_timers b))); [|exact Hr].
  apply (released_one (Named rid i)); [done| |done]. unfold filter, list_filter. simpl. set_solver.
Qed.

Lemma wp_free_table rid L b (Q : unit → boot → Prop) :
  holding L (b_root b) → (∀ b', leaves [rid] [] L b b' → Q tt b') → wp (free_table rid) Q b.
Proof.
  intros HL HQ. unfold free_table. apply wp_zoom, wp_modify, HQ. split; [|by destruct HL].
  split; simpl; try done; [by rewrite app_nil_r|set_solver|].
  intros x. case_decide as E.
  - apply list_elem_of_singleton in E as ->. by rewrite lookup_alter_eq.
  - rewrite lookup_alter_ne by set_solver. by destruct (routes (b_root b) !! x).
Qed.

Context (rank : route_id → nat) (C : gmap nat route).
Hypothesis Htree : tree_of rank C.
Hypothesis Hconf : ∀ rid rt, C !! rid = Some rt → ∃ wc, wsockets !! rid = Some wc ∧ wsconf_ok rt wc.

Lemma released_static rs l b b' :
  released rs l b b' → static_route <$> routes (b_root b') = static_route <$> routes (b_root b).
Proof.
  intros [_ _ _ _ Ht]. apply map_eq. intros x. rewrite !lookup_fmap, Ht.
  destruct (routes (b_root b) !! x); [|done]. simpl. by case_decide.
Qed.

Lemma leaves_trans rs1 rs2 l1 l2 L1 L2 b1 b2 b3 :
  leaves rs1 l1 L1 b1 b2 → leaves rs2 l2 L2 b2 b3 → leaves (rs1 ++ rs2) (l1 ++ l2) L2 b1 b3.
Proof. intros [R1 _] [R2 H2']. split; [by eapply released_trans|done]. Qed.

Lemma leaves_refl L b : holding L (b_root b) → leaves [] [] L b b.
Proof. intros HL. split; [apply released_refl|done]. Qed.

(** The sockets of one route. *)
Lemma wp_close_route rid rt wc L b (Q : unit → boot → Prop) :
  wsockets !! rid = Some wc → wsconf_ok (static_route rt) wc →
  holding (queue_sockets (sockets_of rid rt) ++ L) (b_root b) →
  (∀ b', leaves [rid] (sockets_of rid rt) L b b' → Q tt b') →
  wp (free_table rid;; whenb (rt_subscribe rt) (close_socket (Subscribe rid));;
      whenb (rt_forward rt) (close_backend rid wc);; close_outputs rid 0 (wc_outputs wc)) Q b.
Proof.
  intros Ewc Hwc HL HQ. set (named := Named rid <$> seq 0 (length (rt_outputs rt))).
  assert (Enamed : named = Named rid <$> seq 0 (length (wc_outputs wc))) by (unfold named; by rewrite (wo_names _ _ Hwc)).
  assert (Eq : queue_sockets (sockets_of rid rt) = (if rt_forward rt then [Forward rid] else []) ++ named).
  { assert (Hn : queue_sockets named = named).
    { unfold named, queue_sockets. generalize (seq 0 (length (rt_outputs rt))). intros l.
      induction l as [|i l IH]; [done|]. rewrite fmap_cons, filter_cons_True by done. by rewrite IH. }
    unfold queue_sockets, sockets_of in *. fold named. rewrite !filter_app, Hn. by destruct (rt_subscribe rt), (rt_forward rt). }
  rewrite Eq, <- app_assoc in HL. apply wp_bind. eapply wp_free_table; [exact HL|]. intros b1 G1.
  assert (Hsub : ∀ (Q : unit → boot → Prop),
    (∀ b', leaves [] (if rt_subscribe rt then [Subscribe rid] else [])
       ((if rt_forward rt then [Forward rid] else []) ++ named ++ L) b1 b' → Q tt b') →
    wp (whenb (rt_subscribe rt) (close_socket (Subscribe rid))) Q b1).
  { intros Q' HQ'. apply wp_whenb; intros Es; rewrite Es in HQ'.
    - eapply wp_close_subscribe; [apply G1|exact HQ'].
    - apply HQ', leaves_refl, G1. }
  apply wp_bind, Hsub. intros b2 G2.
  assert (Hfwd : ∀ (Q : unit → boot → Prop),
    (∀ b', leaves [] (if rt_forward rt then [Forward rid] else []) (named ++ L) b2 b' → Q tt b') →
    wp (whenb (rt_forward rt) (close_backend rid wc)) Q b2).
  { destruct G2 as [_ G2]. intros Q' HQ'. apply wp_whenb; intros Es; rewrite Es in HQ', G2.
    - by eapply wp_close_backend.
    - by apply HQ', leaves_refl. }
  apply wp_bind, Hfwd. intros b3 G3. apply (wp_close_outputs _ _ _ L); [rewrite <- Enamed; apply G3|].
  rewrite <- Enamed. intros b4 G4. apply HQ.
  exact (leaves_trans [rid] [] [] _ _ _ _ _ _ G1 (leaves_trans [] [] _ _ _ _ _ _ _ G2 (leaves_trans [] [] _ _ _ _ _ _ _ G3 G4))).
Qed.

Lemma wp_release_routes n l : ∀ L b (Q : unit → boot → Prop),
  (∀ c L b (Q : unit → boot → Prop), c ∈ l → static_route <$> routes (b_root b) = C →
     holding (queue_sockets (tree_sockets C n c) ++ L) (b_root b) →
     (∀ b', leaves (tree_routes C n c) (tree_sockets C n c) L b b' → Q tt b') → wp (socket_unvisitor n c) Q b) →
  static_route <$> routes (b_root b) = C →
  holding (queue_sockets (mjoin (tree_sockets C n <$> l)) ++ L) (b_root b) →
  (∀ b', leaves (mjoin (tree_routes C n <$> l)) (mjoin (tree_sockets C n <$> l)) L b b' → Q tt b') →
  wp (mfor l (socket_unvisitor n)) Q b.
Proof.
  induction l as [|c l IH]; intros L b Q Hc HC HL HQ; cbn [mfor].
  { by apply wp_ret, HQ, leaves_refl. }
  rewrite !fmap_cons in *. cbn [mjoin list_join] in *. unfold queue_sockets in HL. rewrite filter_app, <- app_assoc in HL.
  apply wp_bind. eapply Hc; [by left|done|exact HL|]. intros b1 G1. apply (IH L).
  - intros c' L' b2 Q' Hin. apply Hc. by right.
  - by rewrite (released_static _ _ _ _ (proj1 G1)).
  - apply G1.
  - intros b2 G2. apply HQ. by eapply leaves_trans.
Qed.

Lemma tree_sockets_children n l :
  mjoin (route_sockets C <$> mjoin (tree_routes C n <$> l)) = mjoin (tree_sockets C n <$> l).
Proof.
  induction l as [|c l IH]; [done|].
  change (mjoin (tree_routes C n <$> c :: l)) with (tree_routes C n c ++ mjoin (tree_routes C n <$> l)).
  by rewrite fmap_app, mjoin_app, IH.
Qed.

Lemma wp_release_route n : ∀ rid L b (Q : unit → boot → Prop),
  static_route <$> routes (b_root b) = C → is_Some (C !! rid) → rank rid < n →
  holding (queue_sockets (tree_sockets C n rid) ++ L) (b_root b) →
  (∀ b', leaves (tree_routes C n rid) (tree_sockets C n rid) L b b' → Q tt b') → wp (socket_unvisitor n rid) Q b.
Proof.
  induction n as [|n IH]; intros rid L b Q HC [rt0 Ert0] Hn HL HQ; [lia|]. cbn [socket_unvisitor].
  assert (Ert : ∃ rt, routes (b_root b) !! rid = Some rt ∧ rt0 = static_route rt).
  { pose proof Ert0 as E. rewrite <- HC, lookup_fmap in E. by apply fmap_Some_1 in E. }
  destruct Ert as (rt & Ert & ->). destruct (Hconf rid _ Ert0) as (wc & Ewc & Hwc).
  apply wp_bind, wp_zoom. eapply wp_get_route; [done|]. rewrite Ewc. apply wp_bind, (wp_deref _ _ wc); [done|].
  replace (b <| b_root := b_root b |>) with b by by destruct b.
  assert (Es : tree_sockets C (S n) rid = sockets_of rid rt ++ mjoin (tree_sockets C n <$> rt_children rt)).
  { unfold tree_sockets at 1. cbn [tree_routes]. rewrite Ert0. simpl rt_children.
    change (mjoin (route_sockets C <$> rid :: ?l)) with (route_sockets C rid ++ mjoin (route_sockets C <$> l)).
    rewrite tree_sockets_children. unfold route_sockets. by rewrite Ert0. }
  assert (Et : tree_routes C (S n) rid = [rid] ++ mjoin (tree_routes C n <$> rt_children rt))
    by (cbn [tree_routes]; by rewrite Ert0).
  rewrite Es in *. rewrite Et in *. unfold queue_sockets in HL. rewrite filter_app, <- app_assoc in HL.
  assert (Hassoc : ∀ (m1 m2 m3 m4 m5 : MB unit), wp (m1;; m2;; m3;; m4) (λ _ b', wp m5 Q b') b → wp (m1;; m2;; m3;; m4;; m5) Q b).
  { intros m1 m2 m3 m4 m5. unfold wp, mbind, M_bind. destruct (m1 b) as [? b1| | |]; [|done..].
    destruct (m2 b1) as [? b2| | |]; [|done..]. destruct (m3 b2) as [? b3| | |]; [|done..]. by destruct (m4 b3). }
  apply Hassoc. eapply wp_close_route; [done..|]. intros b1 G1. apply (wp_release_routes n _ L).
  - intros c L' b2 Q' Hc HC2. destruct (tree_child _ _ Htree rid _ c Ert0 Hc) as [Hs Hr]. apply IH; [done|done|lia].
  - by rewrite (released_static _ _ _ _ (proj1 G1)).
  - apply G1.
  - intros b2 G2. apply HQ. by eapply leaves_trans.
Qed.

(** ** Lemmas: what is in the queues *)

Lemma elem_of_tree_routes n : ∀ rid x, is_Some (C !! rid) → rank rid < n → x ∈ tree_routes C n rid ↔ in_tree C rid x.
Proof.
  induction n as [|n IH]; intros rid x [rt Ert] Hn; [lia|]. cbn [tree_routes]. rewrite Ert, elem_of_cons, list_elem_of_join.
  split.
  - intros [->|(l & Hx & Hl)]; [constructor|]. apply list_elem_of_fmap in Hl as (c & -> & Hc).
    destruct (tree_child _ _ Htree rid rt c Ert Hc) as [Hs Hr]. eapply in_tree_child; [done..|]. apply IH in Hx; [done|done|lia].
  - intros Hx. destruct Hx as [|rt' c x Ert' Hc Hx]; simplify_eq; [by left|right].
    destruct (tree_child _ _ Htree rid rt c Ert Hc) as [Hs Hr]. exists (tree_routes C n c).
    split; [apply IH; [done|lia|done]|]. apply list_elem_of_fmap. eauto.
Qed.

Lemma elem_of_route_sockets x s : s ∈ route_sockets C x ↔ route_socket C x s.
Proof.
  unfold route_sockets, route_socket, queue_socket. destruct (C !! x) as [rt|] eqn:E; simpl; [|split].
  - unfold sockets_of. rewrite !elem_of_app, list_elem_of_fmap. split.
    + intros [Hs|[Hs|(i & -> & Hi)]].
      * right. exists rt. destruct (rt_subscribe rt); [|by apply elem_of_nil in Hs]. by apply list_elem_of_singleton in Hs.
      * left. exists rt. destruct (rt_forward rt); [|by apply elem_of_nil in Hs]. apply list_elem_of_singleton in Hs. tauto.
      * left. exists rt. split; [done|]. right. exists i. apply elem_of_seq in Hi. split; [lia|done].
    + intros [(rt' & ? & [[Hf ->]|(i & Hi & ->)])|(rt' & ? & Hs & ->)]; simplify_eq.
      * right; left. rewrite Hf. by left.
      * right; right. exists i. split; [done|]. apply elem_of_seq. lia.
      * left. rewrite Hs. by left.
  - by intros ?%elem_of_nil.
  - intros [(? & [=] & _)|(? & [=] & _)].
Qed.

Lemma elem_of_tree_sockets n rid s :
  is_Some (C !! rid) → rank rid < n → s ∈ tree_sockets C n rid ↔ ∃ x, in_tree C rid x ∧ route_socket C x s.
Proof.
  intros Hs Hn. unfold tree_sockets. rewrite list_elem_of_join. split.
  - intros (l & Hl & (x & -> & Hx)%list_elem_of_fmap). exists x. split; [by apply (elem_of_tree_routes n)|].
    by apply elem_of_route_sockets.
  - intros (x & Hx & Hr). exists (route_sockets C x). split; [by apply elem_of_route_sockets|].
    apply list_elem_of_fmap. exists x. split; [done|]. by apply elem_of_tree_routes.
Qed.

Lemma NoDup_sockets_of rid rt : NoDup (sockets_of rid rt).
Proof.
  assert (Hn : NoDup (Named rid <$> seq 0 (length (rt_outputs rt)))).
  { apply NoDup_fmap; [by intros ? ? [= ->]|apply NoDup_seq]. }
  assert (Hno : ∀ s, s ∈ Named rid <$> seq 0 (length (rt_outputs rt)) → ∃ i, s = Named rid i).
  { intros s (i & -> & _)%list_elem_of_fmap. by exists i. }
  unfold sockets_of. destruct (rt_subscribe rt), (rt_forward rt); simpl; repeat apply NoDup_cons_2; try done;
    rewrite ?elem_of_cons; naive_solver.
Qed.

Definition route_of (s : sock_id) : option route_id :=
  match s with Forward rid | Named rid _ | Subscribe rid => Some rid | _ => None end.

Lemma route_socket_of x s : route_socket C x s → route_of s = Some x.
Proof. by intros [(rt & _ & [[_ ->]|(i & _ & ->)])|(rt & _ & _ & ->)]. Qed.

Lemma NoDup_tree_sockets n rid : NoDup (tree_routes C n rid) → NoDup (tree_sockets C n rid).
Proof.
  unfold tree_sockets. generalize (tree_routes C n rid). intros rs Hrs.
  induction Hrs as [|x rs Hx Hrs IH]; [constructor|]. rewrite fmap_cons.
  change (mjoin (route_sockets C x :: ?l)) with (route_sockets C x ++ mjoin l).
  apply NoDup_app. split_and!; [|intros s Hs Hin|done].
  - unfold route_sockets. destruct (C !! x); [apply NoDup_sockets_of|constructor].
  - apply list_elem_of_join in Hin as (l & Hl & (y & -> & Hy)%list_elem_of_fmap).
    apply elem_of_route_sockets, route_socket_of in Hs, Hl. congruence.
Qed.

Lemma NoDup_queues (E : gmap nat sock_id) r L : side_ok E (sock_items <$> socks r) → NoDup L → NoDup (queues r L).
Proof.
  intros Hside HL. assert (Hitem : ∀ s x, x ∈ queued r s → E !! x = Some s).
  { intros s x. unfold queued. destruct (socks r !! s) as [so|] eqn:Es; simpl; [|by intros ?%elem_of_nil].
    intros Hx. eapply side_elem; [done|by rewrite lookup_fmap, Es|done]. }
  unfold queues. induction HL as [|s L Hs HL IH]; [constructor|]. rewrite fmap_cons.
  change (mjoin (queued r s :: ?l)) with (queued r s ++ mjoin l). apply NoDup_app. split_and!; [|intros x Hx Hin|done].
  - unfold queued. destruct (socks r !! s) as [so|] eqn:Es; simpl; [|constructor].
    eapply side_NoDup; [exact Hside|]. by rewrite lookup_fmap, Es.
  - apply list_elem_of_join in Hin as (l & Hl & (y & -> & Hy)%list_elem_of_fmap).
    apply Hitem in Hx, Hl. congruence.
Qed.

(** Every message of the server is in one of the queues. *)
Lemma holding_all act r L :
  backend_ok act r → NoDup L → (∀ s, s ∈ L ↔ is_Some (socks r !! s)) → holding L r.
Proof.
  intros [(E & HE & Hside) _ Hp _ _ _ _ _] HL Hs. split.
  - intros s. apply Hs.
  - by eapply NoDup_queues.
  - replace (list_to_set (queues r L)) with (dom (bmsgs r)); [done|]. rewrite <- HE. apply set_eq. intros x.
    rewrite elem_of_list_to_set, elem_of_dom. unfold queues. rewrite list_elem_of_join. split.
    + intros [s Hx]. destruct (sd_node _ _ Hside _ _ Hx) as (xs & Hxs & Hin). exists xs. split; [done|].
      rewrite lookup_fmap in Hxs. apply fmap_Some_1 in Hxs as (so & Eso & ->). apply list_elem_of_fmap. exists s.
      split; [unfold queued; by rewrite Eso|]. apply Hs. eauto.
    + intros (l & Hx & (s & -> & Hin)%list_elem_of_fmap). apply Hs in Hin as [so Eso]. unfold queued in Hx.
      rewrite Eso in Hx. exists s. eapply side_elem; [done|by rewrite lookup_fmap, Eso|done].
Qed.
End lemmas.

(** ** Claims *)

(** C18: Shutting down, in whatever consistent state the server was stopped, with
    its sockets those of a tree of routes that leads to each route once, and when
    zeromq closes what it is asked to close: every socket of the routes is closed
    exactly once, after its watcher is stopped, and nothing else is; the tables of
    topics are freed; of the timers, the heartbeats are stopped and those of the
    outputs are not.  The pool of backend messages gives all its blocks back,
    those of the queued messages among them; the pools of messages to browsers and
    of subscriptions give back their free blocks, and the blocks that are still in
    use stay allocated.  Nothing else is released: the connections, the topics,
    the lists of outputs, and the references that queued messages hold to
    connections, requests and parts, stay as they were. *)
Theorem release_websockets_correct `{LogLevel, Malloc, ZmqSetup, StartConfig} (rank : route_id → nat)
    (C : gmap nat route) (act : gset nat) (b : boot) (n : nat) (rroot : route_id)
    (Hclose : ∀ tr h, zmq_close_ok tr h = true) (Hok : full_ok act (b_root b))
    (HC : static_route <$> routes (b_root b) = C) (Htree : tree_of rank C) (Hroot : is_Some (C !! rroot))
    (Hn : rank rroot < n) (Hconf : ∀ rid rt, C !! rid = Some rt → ∃ wc, wsockets !! rid = Some wc ∧ wsconf_ok rt wc)
    (Hsocks : ∀ s, socks (b_root b) !! s ≠ None ↔ ∃ x, in_tree C rroot x ∧ queue_socket C x s)
    (Honce : NoDup (tree_routes C n rroot)) :
  let l := tree_sockets C n rroot in
  NoDup l ∧ (∀ s, s ∈ l ↔ ∃ x, in_tree C rroot x ∧ route_socket C x s) ∧
  wp (release_websockets n rroot) (λ ok b', ok = true ∧
    b_calls b' = b_calls b ++ mjoin (closing_of (b_opened b) <$> l) ∧
    live (a_heap (backend_arena (b_root b'))) = ∅ ∧
    live (a_heap (sub_arena (b_root b'))) = dom (subs (b_root b)) ∧
    (let used := live (a_heap (frontend_arena (b_root b'))) in
     pool_ok used (frontend_arena (b_root b)) ∧ dom (fmsgs (b_root b)) ⊆ used) ∧
    b_root b' = (b_root b) <| backend_arena := backend_arena (b_root b') |>
      <| frontend_arena := frontend_arena (b_root b') |> <| sub_arena := sub_arena (b_root b') |>
      <| routes := routes (b_root b') |> ∧
    (∀ x rt, in_tree C rroot x → routes (b_root b') !! x = Some rt → rt_topics rt = None) ∧
    (∀ s, s ∈ b_timers b' ↔ s ∈ b_timers b ∧ ¬ (s ∈ l ∧ has_heartbeat s = true))) b.
Proof.
  intros l. assert (Hnd : NoDup l) by by apply NoDup_tree_sockets.
  assert (Hl : ∀ s, s ∈ l ↔ ∃ x, in_tree C rroot x ∧ route_socket C x s) by (intros s; by apply (elem_of_tree_sockets rank C Htree)).
  split; [done|]. split; [done|]. destruct Hok as [Hsv Hcm].
  assert (Hhold : holding (queue_sockets l ++ []) (b_root b)).
  { rewrite app_nil_r. apply (holding_all act); [apply Hsv|by apply NoDup_filter|]. intros s.
    unfold queue_sockets. rewrite list_elem_of_filter, Hl, <- not_eq_None_Some, Hsocks. split.
    - intros (Hq & x & Hx & [Hs|(rt & _ & _ & ->)]); [eauto|done].
    - intros (x & Hx & Hs). split; [by destruct Hs as (? & _ & [[_ ->]|(? & _ & ->)])|]. exists x. split; [done|by left]. }
  unfold release_websockets. apply wp_bind.
  eapply (wp_release_route Hclose rank C Htree Hconf n rroot []); [done..|]. intros b1 [[Rc Ro Rt Rr Rb] [_ _ Hp]].
  unfold on_pool_arena. apply wp_bind, wp_zoom, wp_zoom. eapply wp_free_pool; [exact Hp|]. intros a1 Ha1.
  destruct (cm_pool _ _ Hcm) as (own & Hin & Hown).
  apply wp_bind, wp_zoom, wp_zoom. eapply (wp_free_pool own); [simpl; by rewrite Rr|]. intros a2 Ha2.
  apply wp_bind, wp_zoom, wp_zoom. eapply (wp_free_pool (dom (subs (b_root b)))).
  { simpl. rewrite Rr. apply Hsv. }
  intros a3 Ha3. apply wp_ret. simpl. split_and!; try done.
  - by rewrite Ha2.
  - by rewrite Ha2.
  - by rewrite Rr.
  - intros x rt Hx. rewrite Rb. rewrite decide_True by by apply (elem_of_tree_routes rank C Htree).
    intros (rt0 & _ & ->)%fmap_Some_1. done.
  - intros s. rewrite Rt, elem_of_difference, elem_of_list_to_set, list_elem_of_filter. tauto.
Qed.

(** The server that has just started is stopped. *)
Definition example_booted : boot :=
  let LL : LogLevel := 4%Z in let MM : Malloc := λ _ _, true in let ZZ := example_zmq in let SS := example_start in
  match start_server 2 0 1330000000 0 example_boot with Ok _ b => b | _ => example_boot end.

Lemma example_booted_started :
  started (H := example_start) (static_route <$> example_sites) 0 example_booted.
Proof.
  set (LL := 4%Z : LogLevel). set (MM := (λ _ _, true) : Malloc).
  destruct (proj1 (wp_Ok _ _ _) (@wp_start_server LL MM example_zmq example_start example_depth
    (static_route <$> example_sites) example_boot 2 0 1330000000 0 example_zmq_ready ltac:(done) example_boot_blank eq_refl eq_refl
    example_sites_tree ltac:(by eexists) ltac:(vm_compute; lia) example_start_conf ltac:(simpl; lia) ltac:(simpl; lia)
    example_sizes)) as ([] & b & Hrun & Hb).
  unfold example_booted. fold LL MM. by rewrite Hrun.
Qed.

Lemma release_websockets_correct_witness :
  let LL : LogLevel := 4%Z in let MM : Malloc := λ _ _, true in let ZZ := example_zmq in let SS := example_start in
  ∃ b', release_websockets 2 0 example_booted = Ok true b' ∧ b_timers b' = {[Named 1 0]} ∧
    live (a_heap (backend_arena (b_root b'))) = ∅ ∧
    last (b_calls b') = Some (ZClose (op_sock (default not_opened (b_opened example_booted !! Named 1 0))) true).
Proof.
  intros LL MM ZZ SS. destruct example_booted_started as [Hok _ _ _ Hs _ _ [HC _]].
  assert (Honce : NoDup (tree_routes (static_route <$> example_sites) 2 0))
    by (apply (bool_decide_unpack _); vm_compute; exact I).
  assert (Hroot : is_Some ((static_route <$> example_sites) !! 0)) by by eexists.
  assert (Hn : example_depth 0 < 2) by (vm_compute; lia).
  destruct (@release_websockets_correct LL MM ZZ SS example_depth (static_route <$> example_sites) ∅ example_booted 2 0
    ltac:(done) Hok HC example_sites_tree Hroot Hn example_start_conf Hs Honce) as (_ & _ & Hwp).
  destruct (proj1 (wp_Ok _ _ _) Hwp) as (ok & b' & Hrun & -> & _ & Hlive & _). exists b'. split; [exact Hrun|].
  vm_compute in Hrun. injection Hrun as <-. split; [apply (bool_decide_unpack _); vm_compute; exact I|].
  split; [exact Hlive|]. vm_compute. reflexivity.
Defined.
